(* ===== verification/_CoqProject ===== *)
-Q . S2P
Prelude.v
CppStd.v
Utilities.v
Ports.v
PortsWin.v
PortsWinUnicode.v
PortsMac.v
Serial.v
Loopback.v
UnixSerial.v
WinSerial.v
Device.v
Floats.v
Laser.v
LaserSim.v
Attenuator.v
AttenuatorSim.v
PowerMeter.v
Threads.v
PortThreads.v
Types.v
Exceptions.v
PowerMeterSim.v
TypesSim.v
Manager.v
ManagerFacts.v
ManagerLines.v
Platforms.v
Bench.v
TestLaser.v
TestPowerMeter.v
TestAllDevices.v
AD5339.v
TestAD5339.v
ControlServer.v
GpioMon.v
