(* ===== verification/Prelude.v ===== *)
(** * LaserControl: a verification library

    LaserControl drives the calibration laser of a detector over three serial
    lines: a Surelite laser, a motorised attenuator and an Ophir power meter.
    The program is layered, and the library follows its layers:

<<
    serial_manager (apps)            Manager.v   ManagerFacts.v   ManagerLines.v
    test programs (examples)         Bench.v   TestLaser.v   TestPowerMeter.v
                                     TestAllDevices.v
    Laser   Attenuator   PowerMeter  Laser.v   Attenuator.v   PowerMeter.v
            Device                   Device.v
            serial::Serial           Serial.v
            SerialImpl               UnixSerial.v   WinSerial.v   (Loopback.v)
            operating system         the classes Unix and Windows
>>

    The base class Device owns a [serial::Serial] and frames the messages of an
    instrument with a prefix and suffixes; the three drivers derive from it, add
    their commands, a retry after a connection reset, and the parsing of
    replies.  [serial::Serial] forwards to a platform implementation under two
    mutexes.  The helpers of utilities.cpp are used by all drivers.  The manager
    finds the ports of the instruments by serial number ([util::find_port] on
    [serial::list_ports]), builds the drivers, runs the commands typed to it and
    leaves the laser safe at the end.  Each driver has a simulator derived from it.
    The platform decides on the implementation of the port and of [list_ports]; the
    complete programs are put together in Platforms.v.  Apart from these stand a driver
    of the AD5339 converter on an I2C bus, with its test program, and a server on a
    reply socket.

    ** Files

    - Prelude.v: this file.  Byte strings, record update, the state and exception
      monad [M S A], its postconditions, safety and loops, lenses from an object to
      its base class, machine integers.
    - CppStd.v: [std::string], [std::vector], [std::map] and the integer
      conversions [stol], [stoul], [stoi], [strtol] and [operator<<] as far as the
      code uses them, and that parsing inverts printing.
    - Floats.v: comparison, [std::fixed] and default formatting, and [std::stod] on
      the [spec_float] of the Standard Library.
    - Utilities.v: src/src/utilities.cpp ([tokenize_string], [trim], [escape],
      [find_port], [enumerate_ports], [serialize_map]).
    - Ports.v: src/src/impl/list_ports/list_ports_linux.cc, over a file system
      given as the record [filesystem].
    - PortsWin.v: src/src/impl/list_ports/list_ports_win.cc in the build without
      UNICODE, over the entries of the device registry ([win_device]).
    - PortsWinUnicode.v: the same file in the build with UNICODE, with [utf8_encode];
      the conversion of the system is the class [Win32Text].
    - PortsMac.v: src/src/impl/list_ports/list_ports_osx.cc, over the record
      [ioregistry]; the state [refs] counts the references held to objects of Core
      Foundation and of the registry.
    - Serial.v: src/src/serial.cc and serial.h.  The implementation is the class
      [SerialImpl]; [SerialImplOK] is its contract, on what is observable of a port
      ([pview]), and [SerialImplLive] that its operations end.  Module [Serial] has
      the operations of the front end; [readline_loop] and [readlines_loop] are the
      two loops.
    - Loopback.v: a scripted port that satisfies the interface, for concrete runs.
    - UnixSerial.v: src/src/impl/unix.cc.  Module [UnixImpl] has the operations over
      an abstract operating system [Unix] whose documented behaviour is [UnixOK]; the
      instances [unix_ok] and [unix_live] discharge the interface of Serial.v.  [tty]
      is a concrete operating system with one terminal.  What unix.cc selects by
      conditional compilation (the rates with a constant, mark and space parity, the way
      to a custom rate, the clock) is part of the class.
    - Exceptions.v: the exception classes of serial.h, with their texts and copies.
    - WinSerial.v: src/src/impl/win.cc.  Module [WinImpl] has the operations over the
      class [Windows], with the documented behaviour [WindowsOK]; the instances
      [win_ok] and [win_live] discharge the interface of Serial.v.  [machine] is a
      concrete system with files and mutexes.
    - Device.v: src/src/Device.cpp, Module [Device]; [frame], [sends], [delivered] and
      [undelivered] describe what a command puts on the wire.
    - Laser.v, Attenuator.v, PowerMeter.v: src/src/Laser.cpp, Attenuator.cpp and
      PowerMeter.cpp; in each the object is a record whose first field is the device,
      and the module of the same name has one definition per member function.
    - LaserSim.v, AttenuatorSim.v, PowerMeterSim.v: the simulators of the same names
      under src/src/, each with what relates it to its driver.
    - Types.v, TypesSim.v: the members and operations of the headers of the drivers and
      of the simulators with the ranges of their types; [typed I R m] says that [m]
      keeps the members in [I] and returns values in [R].
    - Threads.v: threads as lists of actions (take a lock, release it, transmit,
      receive, another call), interleaved by the relation [step], and what a discipline
      on the order of locks gives: no deadlock, and sections that are not mixed.
    - PortThreads.v: the actions of each operation of the front end and of [send_cmd] of
      the power meter, recorded by running the operation on a port that notes its calls
      ([tracer]), and that they follow the discipline.
    - Manager.v: src/apps/serial_manager.cpp.  The global variables, the log and the
      printed text are the record [iolaser_t]; a pointer to a driver is null, an
      object or a freed object ([ptr]).  Module [Manager] has one definition per
      function and per group of commands of [run_command], and [main].
    - ManagerFacts.v: the invariant of the manager, the state the laser is left in,
      and the end of the program.
    - ManagerLines.v: the splitting of a line, results and effects of a command, and
      the defects of the program.
    - Platforms.v: the default-constructed port on both implementations
      ([unix_serial], [win_serial]) and the manager on each platform.
    - Bench.v: what the test programs share (console, pointer to the driver, handlers,
      the order of the tests), and src/src/probe_ports.cc.
    - TestLaser.v, TestPowerMeter.v, TestAllDevices.v: the programs of these names
      under src/examples/, the last with test_string_formatting.cc.
    - AD5339.v: src/i2c_deprecated/AD5339.h and AD5339.cpp, over an I2C bus given as
      the class [I2C]; [DacOK] states what the converter behind it does.
    - TestAD5339.v: src/i2c_deprecated/test_AD5339.cpp, the sweep over both channels.
    - ControlServer.v: src/src/control_server.cpp, over a reply socket given as the
      class [Zmq].
    - GpioMon.v: src/examples/gpiomon.cpp, over the devices of headers that are not in
      the repository, given as the class [GpioDev] without any assumption.

    ** How the code is modelled

    An object is a record of its members.  A member function that changes state is
    a term of [M S A := S → outcome A * S], where an outcome is a value ([Ret]), an
    exception ([Throw], with its class and text), undefined behaviour ([Undef]) or no
    end within the iterations given ([Spin]).  Exceptions keep the state reached,
    and [finally] and [catch] model destructors of locks and catch blocks.  An
    exception that leaves a destructor ends the program ([noexcept], [terminate]).  Results
    through reference parameters are returned.  A derived class works on its base by
    [zoom] along a lens.  Bytes are 8-bit characters; integers are mathematical
    ones brought to their width where the code converts ([u8], [u16], [u32], [i32],
    [size_t]), and signed arithmetic that can overflow is checked ([chk_i32],
    [chk_i64]).  Output under the DEBUG switch is left out.

    A mutex of the Linux port is a flag; locking one that is held does not return.
    The mutexes of Windows are objects of the system, counted per thread.  Sleeping
    lets time pass for the port.

    Loops: [readline] and [readlines] of Serial.v run on the requested size, which
    bounds their iterations, and are shown to end for every implementation that ends.
    The tokenizer runs on the length of its input. The three loops of UnixSerial.v use
    [loop p], which allows [p] iterations: 2^53 for [read] and 2^54 for [write], more
    than the nanoseconds of the longest timeout of 2^32 milliseconds, and 2^64 for
    repeated interruptions of [open]; they are shown never to use them up. Waiting for
    the motor ([wait_stopped]) depends on the controller and takes its number of polls
    as an argument; a theorem of Attenuator.v gives the number that suffices. The loop
    of [format] in Ports.v has six iterations in the code and is shown to need two. The
    walk through the registry of macOS takes its number of steps as an argument, and the
    depth of the registry is shown to suffice. The sweep of TestAD5339.v and the loop of
    GpioMon.v run on the signals that arrive at their loop conditions, the server on the
    number of rounds. The command loop of the manager runs on the list of lines typed,
    the empty line being passed over as in the code.

    Threads: a system of Threads.v is a list of threads and the log of what they did;
    each step runs the next action of one thread, taking a lock only when no thread
    has it.  An operation is atomic only where its locks make it so.

    Judgements carry the proofs about whole programs: [safe] and [keeps] (an
    invariant is kept, with or without the right to wait or to be undefined),
    [untouched] (a part of the state stays), [yields] (a fact about the result) and
    [typed] (the ranges of members and result).  The tactics [solve_keeps],
    [solve_untouched], [solve_yields] and [solve_typed] follow the
    structure of the program and find the operations in hint databases.

    ** What is proved

    - Strings (Utilities.v): tokenizing ends and is inverse to joining, trimming
      removes exactly the surrounding whitespace, escaped text has one line, the
      search for a port returns the first match, and the exact text of a serialized
      map.
    - Lines (Serial.v, Device.v): [readline] and [readlines] return exactly the
      lines received, a reply loses its terminator and nothing else, and what
      happens to a reply cut off by the timeout.
    - The ports (UnixSerial.v, WinSerial.v): both implementations meet the contract of
      the front end and end; on Linux the terminal settings say what the port was
      configured for; three defects: a leaked descriptor, a stale parity bit, and on
      Windows a port that cannot be closed after a refused setting.
    - Commands (Laser.v, Attenuator.v, PowerMeter.v): a setting or query returns only
      after its complete frame went out, with at most one truncated attempt before
      it, and exactly the setting is remembered; the text of each setting has the
      required format; a moving motor refuses every command that would move it.
    - Replies (the same files): shot counts, security codes, positions, status
      reports, ranges and transmissions are read back as the instrument sends them.
    - Safety (the same files): the operations end on every input with a result or an
      exception, without undefined behaviour, and free the mutexes they take.
    - Types (Types.v, TypesSim.v): members and results have values of their declared
      types, whatever the instruments answer.
    - Threads (PortThreads.v): threads that share a port and a power meter never block
      one another and can all be brought to their ends; messages are transmitted whole;
      threads that send commands to the power meter do not send one between another
      command and its reply.
    - Simulators: the laser driver and the settings and offsets of the attenuator
      driver refine their simulators; the power meter's simulator reads its built-in
      replies as the driver does.
    - Enumeration (Ports.v, PortsWin.v, PortsWinUnicode.v, PortsMac.v): [format] ends, a path is its
      directory and its name; on Linux and macOS the serial number of a USB device
      leads [find_port] to its path; the search of Windows stays in its buffers in both
      builds, that
      of macOS ends and releases the objects it creates, but not the parents it walks
      through.
    - The manager (ManagerFacts.v, ManagerLines.v): every command keeps the invariant
      that the mapped instruments can be used and no pointer dangles; when [main]
      returns, the laser has been sent the complete commands that stop it and close
      its shutter; [main] ends on every finite input without a wait for the motor; a
      line is split into its words; a command returns 0, 1 or 255 and touches only the
      instrument it names.
    - The programs (Platforms.v): on Linux and Windows the default-constructed ports
      are what the manager needs, so the complete program ends and parks the laser.
    - The test programs (TestLaser.v, TestPowerMeter.v, TestAllDevices.v): they end
      whatever the instruments answer, and those of the laser send only queries and
      shutter commands.
    - The converter (AD5339.v, TestAD5339.v): what is written to a channel is read back,
      and the sweep of the test program never reports an error.
    - The server (ControlServer.v): every request gets one reply.
    - The monitor (GpioMon.v): it prints one line of registers per round until a signal
      arrives, and then releases both devices.
    - Defects the models showed are theorems too: the dropped answer after a retry,
      the disagreeing offsets of the attenuator, the double command of [write_range]
      and others.

    The theorems of the drivers are stated against the interface of Serial.v, so
    they hold for the ports of Linux and Windows; their witnesses run on Loopback.v.

    ** What is not modelled

    calibrate_attenuator.cpp does not compile (functions declared [void] return
    values).  The header win.h of the Windows port is not in the repository; the members
    of the port are those its constructor initialises.  The code after the [return] of
    test_string_formatting.cc, which is never reached, the type names of v8stdint.h and
    the commented-out functions at the end of PowerMeterSim.cpp are
    left out, and the fixed texts of the server and of the sweep
    program.  The functions [acos], [cos] and [pow] of the C library are
    parameters of the conversions that use them, with their values at the points
    the theorems need as hypotheses.  [readline], the JSON library and the formatting
    of the log by spdlog are outside the repository: the lines typed and the parsed
    configuration are arguments of [main], and a log entry is its level, format string
    and arguments.  [clear_dac] of the converter is declared and nowhere defined.
    Threads share the locks and the line; two threads that use members of one port
    outside of its locks at the same time (a data race in C++) are not modelled. *)
From Stdlib Require Export ZArith Lia Ascii Sorted.
From stdpp Require Export base list strings numbers option.
Export stdpp.list_relations.list.

Open Scope Z_scope.
Open Scope list_scope.

(** ** Bytes

    [std::string] is used by the library as a byte buffer; it is modelled as a
    list of 8-bit characters. *)
Notation bytes := (list ascii).

Definition str (s : string) : bytes := String.list_ascii_of_string s.
Arguments str s%_string.

Definition CR : ascii := Ascii.ascii_of_nat 13.
Definition LF : ascii := Ascii.ascii_of_nat 10.
Definition TAB : ascii := Ascii.ascii_of_nat 9.
Definition VT : ascii := Ascii.ascii_of_nat 11.
Definition FF : ascii := Ascii.ascii_of_nat 12.
Definition SP : ascii := " "%char.

(** Code of a character, as the unsigned 8-bit value. *)
Definition code (c : ascii) : Z := Z.of_nat (Ascii.nat_of_ascii c).

(** ** Functional record update

    [r <| f := v |>] replaces field [f] of [r].  A record type opts in by an
    instance of [Eta], its eta expansion. *)
Class Eta (R : Type) := eta : R → R.
Class Upd {R T : Type} (proj : R → T) := upd : (T → T) → R → R.

Ltac solve_upd :=
  match goal with
  | |- @Upd ?R ?T ?p =>
    let e := constr:(_ : Eta R) in
    let h := eval hnf in e in
    let f := fresh "f" in
    let r := fresh "r" in
    unfold Upd; intros f r;
    let t := eval cbv beta in (h r) in
    let t' := eval pattern (p r) in t in
    match t' with
    | ?g _ => let u := eval cbv beta in (g (f (p r))) in exact u
    end
  end.
#[export] Hint Extern 1 (Upd _) => solve_upd : typeclass_instances.

Notation "r <| p := v |>" := (upd (proj:=p) (λ _, v) r)
  (at level 12, left associativity, only parsing).

(** ** Exceptions and outcomes

    The exception classes thrown by the code.  [serial.h] declares
    [SerialException], [IOException] and [PortNotOpenedException] as three
    siblings below [std::exception]; the others come from [<stdexcept>].  The
    payload is the description the code passes, without the file name and line
    number that [IOException] adds to it.  [terminate] is the end of the program
    by [std::terminate], which an exception leaving a destructor causes. *)
Inductive exn :=
  | SerialException (what : string)
  | IOException (what : string)
  | IOErrno (errnum : Z)
  | PortNotOpenedException (what : string)
  | invalid_argument (what : string)
  | out_of_range (what : string)
  | range_error (what : string)
  | runtime_error (what : string)
  | terminate.

(** How a piece of code ends: normally, by an exception, in undefined
    behaviour, or not within the number of loop iterations it was given. *)
Inductive outcome (A : Type) :=
  | Ret (a : A)
  | Throw (e : exn)
  | Undef
  | Spin.
Arguments Ret {A} a.
Arguments Throw {A} e.
Arguments Undef {A}.
Arguments Spin {A}.

(** The state a run ends in. *)
Definition final_state {S A} (r : outcome A * S) : S := r.2.

#[export] Instance exn_eq_dec : EqDecision exn.
Proof. solve_decision. Defined.
#[export] Instance outcome_eq_dec `{EqDecision A} : EqDecision (outcome A).
Proof. solve_decision. Defined.

(** ** The state and exception monad

    A computation over state [S].  The state reached is kept on every exit, as
    in C++, where an exception does not undo assignments. *)
Definition M (S A : Type) : Type := S → outcome A * S.

Declare Scope cpp_scope.
Delimit Scope cpp_scope with cpp.

Section monad.
Context {S : Type}.

Definition ret {A} (a : A) : M S A := λ s, (Ret a, s).
Definition throw {A} (e : exn) : M S A := λ s, (Throw e, s).
Definition undef {A} : M S A := λ s, (Undef, s).
Definition spin {A} : M S A := λ s, (Spin, s).

Definition bind {A B} (m : M S A) (k : A → M S B) : M S B := λ s,
  match m s with
  | (Ret a, s') => k a s'
  | (Throw e, s') => (Throw e, s')
  | (Undef, s') => (Undef, s')
  | (Spin, s') => (Spin, s')
  end.

Definition gets {A} (f : S → A) : M S A := λ s, (Ret (f s), s).
Definition modify (f : S → S) : M S unit := λ s, (Ret tt, f s).

(** [try { m } catch (...) { h e }]; no handler catches [std::terminate]. *)
Definition catch {A} (m : M S A) (h : exn → M S A) : M S A := λ s,
  match m s with
  | (Throw terminate, s') => (Throw terminate, s')
  | (Throw e, s') => h e s'
  | r => r
  end.

(** A destructor: an exception that leaves it ends the program. *)
Definition noexcept {A} (m : M S A) : M S A := λ s,
  match m s with
  | (Throw _, s') => (Throw terminate, s')
  | r => r
  end.

(** Run [fin] when [m] ends normally or by an exception: the destructor of a
    scoped object. *)
Definition finally {A} (m : M S A) (fin : S → S) : M S A := λ s,
  match m s with
  | (Ret a, s') => (Ret a, fin s')
  | (Throw e, s') => (Throw e, fin s')
  | r => r
  end.

(** An outcome computed without state, such as a checked string access. *)
Definition lift {A} (o : outcome A) : M S A := λ s, (o, s).
End monad.

Notation "x <- m ;; k" := (bind m (λ x, k))
  (at level 20, m at level 99, k at level 200) : cpp_scope.
Notation "' p <- m ;; k" := (bind m (λ x, match x with p => k end))
  (at level 20, p pattern, m at level 99, k at level 200) : cpp_scope.
Notation "m ;; k" := (bind m (λ _, k))
  (at level 100, k at level 200, right associativity) : cpp_scope.
Notation "'when' b 'do' m" := (if b then m else ret tt)
  (at level 60, b at level 30, m at level 60) : cpp_scope.
Open Scope cpp_scope.

(** The same sequencing for stateless outcomes. *)
Definition obind {A B} (o : outcome A) (k : A → outcome B) : outcome B :=
  match o with
  | Ret a => k a
  | Throw e => Throw e
  | Undef => Undef
  | Spin => Spin
  end.
Notation "x <-- o ;; k" := (obind o (λ x, k))
  (at level 20, o at level 99, k at level 200) : cpp_scope.

(** ** Lenses: running a computation on a sub-object *)
Record lens (S T : Type) := Lens { view : S → T; put : T → S → S }.
Arguments Lens {S T} _ _.
Arguments view {S T} _ _.
Arguments put {S T} _ _ _.

Class LensOK {S T} (l : lens S T) := {
  view_put t s : view l (put l t s) = t;
  put_view s : put l (view l s) s = s;
  put_put t t' s : put l t (put l t' s) = put l t s;
}.

Definition zoom {S T A} (l : lens S T) (m : M T A) : M S A := λ s,
  let '(o, t) := m (view l s) in (o, put l t s).

Definition lens_comp {S T U} (l : lens S T) (k : lens T U) : lens S U :=
  Lens (λ s, view k (view l s)) (λ u s, put l (put k u (view l s)) s).

#[export] Instance lens_comp_ok {S T U} (l : lens S T) (k : lens T U)
  `{!LensOK l} `{!LensOK k} : LensOK (lens_comp l k).
Proof.
  split; intros; unfold lens_comp; simpl.
  - by rewrite !view_put.
  - by rewrite put_view, put_view.
  - by rewrite view_put, put_put, put_put.
Qed.

(** ** Weakest preconditions *)
Definition wp {S A} (m : M S A) (Q : outcome A → S → Prop) (s : S) : Prop :=
  Q (m s).1 (m s).2.

(** Postconditions.  [spec R E] is the partial contract: undefined behaviour is
    excluded, running out of iterations is not.  [post R E] excludes both. *)
Definition spec {S A} (R : A → S → Prop) (E : exn → S → Prop)
    (o : outcome A) (s : S) : Prop :=
  match o with Ret a => R a s | Throw e => E e s | Undef => False | Spin => True end.

Definition post {S A} (R : A → S → Prop) (E : exn → S → Prop)
    (o : outcome A) (s : S) : Prop :=
  match o with Ret a => R a s | Throw e => E e s | _ => False end.

(** A computation that ends within its iteration bounds, from every state. *)
Definition live {S A} (m : M S A) : Prop := ∀ s, (m s).1 ≠ Spin.

Section wp_rules.
Context {S : Type}.

Lemma wp_unfold {A} (m : M S A) Q s o s' :
  m s = (o, s') → Q o s' → wp m Q s.
Proof. unfold wp. by intros ->. Qed.

Lemma wp_elim {A} (m : M S A) Q s o s' :
  wp m Q s → m s = (o, s') → Q o s'.
Proof. unfold wp. intros H E. by rewrite E in H. Qed.

Lemma wp_mono {A} (m : M S A) (Q Q' : outcome A → S → Prop) s :
  wp m Q s → (∀ o s', Q o s' → Q' o s') → wp m Q' s.
Proof. unfold wp. auto. Qed.

Lemma wp_and {A} (m : M S A) (Q Q' : outcome A → S → Prop) s :
  wp m Q s → wp m Q' s → wp m (λ o s', Q o s' ∧ Q' o s') s.
Proof. unfold wp. auto. Qed.

Lemma wp_ret {A} (a : A) Q (s : S) : Q (Ret a) s → wp (ret a) Q s.
Proof. done. Qed.

Lemma wp_throw {A} e Q (s : S) : Q (Throw e) s → wp (A:=A) (throw e) Q s.
Proof. done. Qed.

Lemma wp_gets {A} (f : S → A) Q s : Q (Ret (f s)) s → wp (gets f) Q s.
Proof. done. Qed.

Lemma wp_modify f Q (s : S) : Q (Ret tt) (f s) → wp (modify f) Q s.
Proof. done. Qed.

Lemma wp_lift {A} (o : outcome A) Q (s : S) : Q o s → wp (lift o) Q s.
Proof. done. Qed.

Lemma wp_bind {A B} (m : M S A) (k : A → M S B) Q s :
  wp m (λ o s', match o with
                | Ret a => wp (k a) Q s'
                | Throw e => Q (Throw e) s'
                | Undef => Q Undef s'
                | Spin => Q Spin s'
                end) s →
  wp (bind m k) Q s.
Proof. unfold wp, bind. destruct (m s) as [[] ?]; simpl; auto. Qed.

Lemma wp_bind_gets {A B} (f : S → A) (k : A → M S B) Q s :
  wp (k (f s)) Q s → wp (bind (gets f) k) Q s.
Proof. done. Qed.

Lemma wp_bind_modify {B} f (k : unit → M S B) Q s :
  wp (k tt) Q (f s) → wp (bind (modify f) k) Q s.
Proof. done. Qed.

Lemma wp_bind_assoc {A B C} (m : M S A) (k : A → M S B) (h : B → M S C) Q s :
  wp (bind (bind m k) h) Q s → wp (bind m (λ a, bind (k a) h)) Q s.
Proof. unfold wp, bind. by destruct (m s) as [[] ?]. Qed.

(** Sequencing for the two contracts. *)
Lemma wp_bind_spec {A B} (m : M S A) (k : A → M S B) R0 R E s :
  wp m (spec R0 E) s →
  (∀ a s', R0 a s' → wp (k a) (spec R E) s') →
  wp (bind m k) (spec R E) s.
Proof.
  intros H Hk. apply wp_bind. eapply wp_mono; [exact H|].
  intros [] s'; simpl; auto.
Qed.

Lemma wp_bind_post {A B} (m : M S A) (k : A → M S B) R0 R E s :
  wp m (post R0 E) s →
  (∀ a s', R0 a s' → wp (k a) (post R E) s') →
  wp (bind m k) (post R E) s.
Proof.
  intros H Hk. apply wp_bind. eapply wp_mono; [exact H|].
  intros [] s'; simpl; auto.
Qed.

Lemma wp_spec_mono {A} (m : M S A) (R R' : A → S → Prop) (E E' : exn → S → Prop) s :
  wp m (spec R E) s →
  (∀ a s', R a s' → R' a s') → (∀ e s', E e s' → E' e s') →
  wp m (spec R' E') s.
Proof. intros H HR HE. eapply wp_mono; [exact H|]. intros []; simpl; auto. Qed.

Lemma wp_catch_post {A} (m : M S A) h R E E0 s :
  wp m (post R E0) s →
  (∀ s', E0 terminate s' → E terminate s') →
  (∀ e s', E0 e s' → wp (h e) (post R E) s') →
  wp (catch m h) (post R E) s.
Proof.
  unfold wp, catch. destruct (m s) as [[|[]| |] ?]; simpl; auto.
Qed.

Lemma wp_finally_spec {A} (m : M S A) fin R E s :
  wp m (spec (λ a s', R a (fin s')) (λ e s', E e (fin s'))) s →
  wp (finally m fin) (spec R E) s.
Proof. unfold wp, finally. destruct (m s) as [[] ?]; simpl; auto. Qed.

(** A partial contract and termination give the total contract. *)
Lemma wp_spec_live {A} (m : M S A) R E s :
  (m s).1 ≠ Spin → wp m (spec R E) s → wp m (post R E) s.
Proof. unfold wp. by destruct (m s) as [[] ?]. Qed.

Lemma live_bind {A B} (m : M S A) (k : A → M S B) :
  live m → (∀ a, live (k a)) → live (bind m k).
Proof.
  intros Hm Hk s. unfold bind. specialize (Hm s).
  destruct (m s) as [[] s']; simpl in *; try done. apply Hk.
Qed.
End wp_rules.

Lemma wp_zoom {S T A} (l : lens S T) (m : M T A) Q s :
  wp m (λ o t, Q o (put l t s)) (view l s) → wp (zoom l m) Q s.
Proof. unfold wp, zoom. by destruct (m (view l s)). Qed.

Lemma zoom_run {S T A} (l : lens S T) (m : M T A) s o t :
  m (view l s) = (o, t) → zoom l m s = (o, put l t s).
Proof. unfold zoom. by intros ->. Qed.

Lemma bind_ret_run {S A B} (m : M S A) (k : A → M S B) s a s' :
  m s = (Ret a, s') → bind m k s = k a s'.
Proof. unfold bind. by intros ->. Qed.

Lemma bind_throw_run {S A B} (m : M S A) (k : A → M S B) s e s' :
  m s = (Throw e, s') → bind m k s = (Throw e, s').
Proof. unfold bind. by intros ->. Qed.

(** A run by its outcome and its state. *)
Lemma run_pair {S A} (r : outcome A * S) o : r.1 = o → r = (o, r.2).
Proof. by destruct r; simpl; intros ->. Qed.

(** ** Safety is compositional

    [safe I m]: from a state satisfying [I], [m] ends within its iteration
    bounds, without undefined behaviour, and re-establishes [I] whether it
    returns or throws. *)
Definition safe {S A} (I : S → Prop) (m : M S A) : Prop :=
  ∀ s, I s → wp m (post (λ _, I) (λ _, I)) s.

Lemma wp_spec_safe {S A} (I : S → Prop) (m : M S A) R E s :
  safe I m → I s → wp m (spec R E) s → wp m (post R E) s.
Proof.
  intros Hm HI. specialize (Hm s HI). revert Hm. unfold wp.
  by destruct (m s) as [[] ?].
Qed.

(** A stateless outcome that is a value or an exception. *)
Definition defined {A} (o : outcome A) : Prop :=
  match o with Ret _ | Throw _ => True | _ => False end.

Create HintDb safe discriminated.
#[export] Hint Constants Opaque : safe.

Section safe_rules.
Context {S : Type} (I : S → Prop).

Lemma safe_ret {A} (a : A) : safe I (ret a).
Proof. by intros s. Qed.
Lemma safe_throw {A} e : safe I (throw (A:=A) e).
Proof. by intros s. Qed.
Lemma safe_gets {A} (f : S → A) : safe I (gets f).
Proof. by intros s. Qed.
Lemma safe_modify (f : S → S) : (∀ s, I s → I (f s)) → safe I (modify f).
Proof. intros H s. apply H. Qed.
Lemma safe_lift {A} (o : outcome A) : defined o → safe I (lift o).
Proof. intros H s HI. unfold wp, lift. by destruct o. Qed.
Lemma safe_bind {A B} (m : M S A) (k : A → M S B) :
  safe I m → (∀ a, safe I (k a)) → safe I (bind m k).
Proof.
  intros Hm Hk s HI. eapply wp_bind_post; [by apply Hm|].
  intros a s' HI'. by apply Hk.
Qed.
Lemma safe_if {A} (b : bool) (m1 m2 : M S A) :
  safe I m1 → safe I m2 → safe I (if b then m1 else m2).
Proof. by destruct b. Qed.
Lemma safe_catch {A} (m : M S A) h :
  safe I m → (∀ e, safe I (h e)) → safe I (catch m h).
Proof.
  intros Hm Hh s HI. specialize (Hm s HI). unfold wp, catch in *.
  destruct (m s) as [[|[]| |] s']; simpl in *; try done; by apply Hh.
Qed.
Lemma safe_noexcept {A} (m : M S A) : safe I m → safe I (noexcept m).
Proof.
  intros Hm s HI. specialize (Hm s HI). unfold wp, noexcept in *.
  by destruct (m s) as [[] s'].
Qed.
Lemma safe_finally {A} (m : M S A) fin :
  (∀ s, I s → I (fin s)) → safe I m → safe I (finally m fin).
Proof.
  intros Hf Hm s HI. specialize (Hm s HI). unfold wp, finally in *.
  destruct (m s) as [[] s']; simpl in *; auto.
Qed.
End safe_rules.

Lemma safe_zoom {S T A} (l : lens S T) (J : T → Prop) (m : M T A) `{!LensOK l} :
  safe J m → safe (λ s, J (view l s)) (zoom l m).
Proof.
  intros Hm s HI. apply wp_zoom. eapply wp_mono; [by apply Hm|].
  intros [] t; simpl; try done; by rewrite view_put.
Qed.

Lemma obind_defined {A B} (o : outcome A) (k : A → outcome B) :
  defined o → (∀ a, defined (k a)) → defined (obind o k).
Proof. by destruct o; simpl. Qed.

#[export] Hint Resolve safe_ret safe_throw safe_gets safe_lift safe_bind
  safe_if safe_catch safe_noexcept safe_finally safe_modify obind_defined : safe.
#[export] Hint Extern 3 (safe _ (match ?x with _ => _ end)) => destruct x : safe.
#[export] Hint Extern 1 (defined (Ret _)) => exact Logic.I : safe.
#[export] Hint Extern 1 (defined (Throw _)) => exact Logic.I : safe.

Ltac solve_safe := intros; eauto 40 with safe.

(** [keeps t u I m]: the same for code that may have defects.  [m] re-establishes
    [I] whether it returns or throws; it runs out of iterations only if [t] and
    has undefined behaviour only if [u]. *)
Definition keeps {S A} (t u : Prop) (I : S → Prop) (m : M S A) : Prop :=
  ∀ s, I s → wp m (λ o s', match o with
    | Ret _ | Throw _ => I s' | Spin => t | Undef => u end) s.

Create HintDb keeps discriminated.
#[export] Hint Constants Opaque : keeps.

Section keeps_rules.
Context {S : Type} (t u : Prop) (I : S → Prop).

Lemma keeps_safe {A} (m : M S A) : safe I m → keeps t u I m.
Proof. intros Hm s HI. specialize (Hm s HI). revert Hm. unfold wp. by destruct (m s) as [[] ?]. Qed.
Lemma keeps_undef {A} : u → keeps t u I (undef (A:=A)).
Proof. by intros Hu s HI. Qed.
Lemma keeps_bind {A B} (m : M S A) (k : A → M S B) :
  keeps t u I m → (∀ a, keeps t u I (k a)) → keeps t u I (bind m k).
Proof.
  intros Hm Hk s HI. specialize (Hm s HI). unfold wp, bind in *.
  destruct (m s) as [[] s']; simpl in *; try done. by apply Hk.
Qed.
Lemma keeps_gets {A B} (f : S → B) (Q : B → Prop) (k : B → M S A) :
  (∀ s, I s → Q (f s)) → (∀ b, Q b → keeps t u I (k b)) → keeps t u I (bind (gets f) k).
Proof. intros HQ Hk s HI. by apply Hk; [apply HQ|]. Qed.
Lemma keeps_if {A} (b : bool) (m1 m2 : M S A) :
  keeps t u I m1 → keeps t u I m2 → keeps t u I (if b then m1 else m2).
Proof. by destruct b. Qed.
Lemma keeps_catch {A} (m : M S A) h :
  keeps t u I m → (∀ e, keeps t u I (h e)) → keeps t u I (catch m h).
Proof.
  intros Hm Hh s HI. specialize (Hm s HI). unfold wp, catch in *.
  destruct (m s) as [[|[]| |] s']; simpl in *; try done; by apply Hh.
Qed.
Lemma keeps_noexcept {A} (m : M S A) : keeps t u I m → keeps t u I (noexcept m).
Proof.
  intros Hm s HI. specialize (Hm s HI). unfold wp, noexcept in *.
  by destruct (m s) as [[] s'].
Qed.
End keeps_rules.

Lemma keeps_mono {S A} (t u t' u' : Prop) (I : S → Prop) (m : M S A) :
  keeps t u I m → (t → t') → (u → u') → keeps t' u' I m.
Proof.
  intros Hm Ht Hu s HI. specialize (Hm s HI). revert Hm. unfold wp.
  destruct (m s) as [[] ?]; simpl; auto.
Qed.

(** Without defects, [keeps] is [safe]. *)
Lemma safe_keeps {S A} (I : S → Prop) (m : M S A) : keeps False False I m → safe I m.
Proof. intros Hm s HI. specialize (Hm s HI). revert Hm. unfold wp. by destruct (m s) as [[] ?]. Qed.

(** The structure of the code is followed without search; the leaves are looked up. *)
Ltac solve_keeps :=
  intros; cbv zeta; repeat
    match goal with
    | |- keeps _ _ _ (bind _ _) => apply keeps_bind; [|intros ?]
    | |- keeps _ _ _ (catch _ _) => apply keeps_catch; [|intros ?]
    | |- keeps _ _ _ (noexcept _) => apply keeps_noexcept
    | |- keeps _ _ _ (if _ then _ else _) => apply keeps_if
    | |- keeps _ _ _ (match ?x with _ => _ end) => destruct x
    | |- _ => solve [eauto 5 with keeps safe]
    | |- keeps _ _ _ _ => apply keeps_safe; solve [eauto 5 with safe]
    end.

(** [untouched f m]: however [m] ends, it leaves the part [f] of the state alone. *)
Definition untouched {S A B} (f : S → B) (m : M S A) : Prop := ∀ s, f (m s).2 = f s.

Create HintDb untouched discriminated.
#[export] Hint Constants Opaque : untouched.

Section untouched_rules.
Context {S B : Type} (f : S → B).

Lemma untouched_ret {A} (a : A) : untouched f (ret a).
Proof. done. Qed.
Lemma untouched_throw {A} e : untouched f (throw (A:=A) e).
Proof. done. Qed.
Lemma untouched_undef {A} : untouched f (undef (A:=A)).
Proof. done. Qed.
Lemma untouched_gets {A} (g : S → A) : untouched f (gets g).
Proof. done. Qed.
Lemma untouched_lift {A} (o : outcome A) : untouched f (lift o).
Proof. done. Qed.
Lemma untouched_modify (g : S → S) : (∀ s, f (g s) = f s) → untouched f (modify g).
Proof. intros H s. apply H. Qed.
Lemma untouched_bind {A C} (m : M S A) (k : A → M S C) :
  untouched f m → (∀ a, untouched f (k a)) → untouched f (bind m k).
Proof.
  intros Hm Hk s. specialize (Hm s). unfold bind.
  destruct (m s) as [[] s']; simpl in *; try done. by rewrite Hk.
Qed.
Lemma untouched_if {A} (b : bool) (m1 m2 : M S A) :
  untouched f m1 → untouched f m2 → untouched f (if b then m1 else m2).
Proof. by destruct b. Qed.
Lemma untouched_catch {A} (m : M S A) h :
  untouched f m → (∀ e, untouched f (h e)) → untouched f (catch m h).
Proof.
  intros Hm Hh s. specialize (Hm s). unfold catch.
  destruct (m s) as [[|[]| |] s']; simpl in *; try done; by rewrite Hh.
Qed.
End untouched_rules.

#[export] Hint Resolve untouched_ret untouched_throw untouched_undef untouched_gets
  untouched_lift : untouched.

Ltac solve_untouched :=
  intros; cbv zeta; repeat
    match goal with
    | |- untouched _ (bind _ _) => apply untouched_bind; [|intros ?]
    | |- untouched _ (catch _ _) => apply untouched_catch; [|intros ?]
    | |- untouched _ (if _ then _ else _) => apply untouched_if
    | |- untouched _ (match ?x with _ => _ end) => destruct x
    | |- _ => solve [eauto 5 with untouched]
    end.

(** [yields R m]: what [m] returns, if it returns, satisfies [R]. *)
Definition yields {S A} (R : A → Prop) (m : M S A) : Prop :=
  ∀ s, match (m s).1 with Ret a => R a | _ => True end.

Section yields_rules.
Context {S A : Type} (R : A → Prop).

Lemma yields_ret a : R a → yields R (ret (S:=S) a).
Proof. by intros H s. Qed.
Lemma yields_bind {B} (m : M S B) (k : B → M S A) : (∀ b, yields R (k b)) → yields R (bind m k).
Proof. intros Hk s. unfold bind. destruct (m s) as [[] s']; try done. apply Hk. Qed.
Lemma yields_if (b : bool) (m1 m2 : M S A) : yields R m1 → yields R m2 → yields R (if b then m1 else m2).
Proof. by destruct b. Qed.
Lemma yields_catch (m : M S A) h : yields R m → (∀ e, yields R (h e)) → yields R (catch m h).
Proof.
  intros Hm Hh s. specialize (Hm s). unfold catch.
  destruct (m s) as [[|[]| |] s']; try done; apply Hh.
Qed.
End yields_rules.

Ltac solve_yields :=
  intros; cbv zeta; repeat
    match goal with
    | |- yields _ (bind _ _) => apply yields_bind; intros ?
    | |- yields _ (catch _ _) => apply yields_catch; [|intros ?]
    | |- yields _ (if _ then _ else _) => apply yields_if
    | |- yields _ (match ?x with _ => _ end) => destruct x
    | |- yields _ (ret _) => apply yields_ret
    end.

(** ** Bounded loops

    A loop whose number of iterations has no small bound: [body] goes on with
    [inl] and leaves with [inr].  The bound is binary, so a loop that ends early
    can be run whatever its bound. *)
Fixpoint loop_upto {S X A} (p : positive) (body : X → M S (X + A)) (x : X) :
    M S (X + A) :=
  let next q r := match r with inl x' => loop_upto q body x' | inr a => ret (inr a) end in
  match p with
  | xH => body x
  | xO q => r <- loop_upto q body x ;; next q r
  | xI q => r <- body x ;;
            r <- next q r ;;
            next q r
  end.

Definition loop {S X A} (p : positive) (body : X → M S (X + A)) (x : X) : M S A :=
  r <- loop_upto p body x ;;
  match r with inl _ => spin | inr a => ret a end.

Section loop_rules.
Context {S X A : Type} (body : X → M S (X + A)).

Section invariant.
Context (Inv : X → S → Prop) (R : A → S → Prop) (E : exn → S → Prop).

Definition loop_post (r : X + A) (s : S) : Prop :=
  match r with inl x => Inv x s | inr a => R a s end.

Hypothesis body_ok : ∀ x s, Inv x s → wp (body x) (spec loop_post E) s.

Lemma loop_upto_spec p x s : Inv x s → wp (loop_upto p body x) (spec loop_post E) s.
Proof.
  revert x s.
  induction p as [p IH|p IH|]; intros x s Hx; cbn [loop_upto]; [| |by apply body_ok].
  - eapply wp_bind_spec; [by apply body_ok|]. intros [x1|a] s1 H1; cbv beta iota.
    + eapply wp_bind_spec; [by apply IH|]. intros [x2|a] s2 H2; cbv beta iota;
        [by apply IH|by apply wp_ret].
    + eapply wp_bind_spec; [by apply wp_ret, H1|]. intros [x2|a2] s2 H2; cbv beta iota;
        [by apply IH|by apply wp_ret].
  - eapply wp_bind_spec; [by apply IH|]. intros [x1|a] s1 H1; cbv beta iota;
      [by apply IH|by apply wp_ret].
Qed.

Lemma loop_spec p x s : Inv x s → wp (loop p body x) (spec R E) s.
Proof.
  intros Hx. eapply wp_bind_spec; [by apply loop_upto_spec|].
  intros [x1|a] s1 H1; [done|by apply wp_ret].
Qed.
End invariant.

Section termination.
Context (mu : X → S → Z).

(** Every iteration ends and decreases the measure. *)
Hypothesis body_ends : ∀ x s, (body x s).1 ≠ Spin.
Hypothesis body_decreases : ∀ x s x' s',
  body x s = (Ret (inl x'), s') → 0 ≤ mu x' s' < mu x s.

Lemma loop_upto_decreases p x s :
  (loop_upto p body x s).1 ≠ Spin ∧
  ∀ x' s', loop_upto p body x s = (Ret (inl x'), s') →
           0 ≤ mu x' s' ∧ mu x' s' + Z.pos p ≤ mu x s.
Proof.
  revert x s. induction p as [p IH|p IH|]; intros x s; cbn [loop_upto]; unfold bind.
  - pose proof (body_ends x s) as He. pose proof (body_decreases x s) as Hd.
    destruct (body x s) as [[[x1|a]|e| |] s1]; simpl in *; try done.
    specialize (Hd x1 s1 eq_refl). destruct (IH x1 s1) as [He1 Hd1].
    destruct (loop_upto p body x1 s1) as [[[x2|a]|e| |] s2]; simpl in *; try done.
    specialize (Hd1 x2 s2 eq_refl). destruct (IH x2 s2) as [He2 Hd2].
    split; [done|]. intros x3 s3 E3. specialize (Hd2 x3 s3 E3). lia.
  - destruct (IH x s) as [He1 Hd1].
    destruct (loop_upto p body x s) as [[[x2|a]|e| |] s2]; simpl in *; try done.
    specialize (Hd1 x2 s2 eq_refl). destruct (IH x2 s2) as [He2 Hd2].
    split; [done|]. intros x3 s3 E3. specialize (Hd2 x3 s3 E3). lia.
  - split; [apply body_ends|]. intros x' s' E. specialize (body_decreases x s x' s' E). lia.
Qed.

Lemma loop_ends p x s : mu x s < Z.pos p → (loop p body x s).1 ≠ Spin.
Proof.
  intros Hmu. destruct (loop_upto_decreases p x s) as [He Hd]. unfold loop, bind.
  destruct (loop_upto p body x s) as [[[x1|a]|e| |] s1]; simpl in *; try done.
  specialize (Hd x1 s1 eq_refl). lia.
Qed.
End termination.
End loop_rules.

(** ** Machine integers

    Fixed-width integers are mathematical integers brought into range where the
    code converts or computes at that width. *)
Definition wrapu (w : Z) (x : Z) : Z := x `mod` 2 ^ w.
Definition wraps (w : Z) (x : Z) : Z := (x + 2 ^ (w - 1)) `mod` 2 ^ w - 2 ^ (w - 1).

Definition u8 := wrapu 8.
Definition u16 := wrapu 16.
Definition u32 := wrapu 32.
Definition size_t := wrapu 64.
Definition i16 := wraps 16.
Definition i32 := wraps 32.

Definition in_u (w : Z) (x : Z) : Prop := 0 ≤ x < 2 ^ w.
Definition in_s (w : Z) (x : Z) : Prop := - 2 ^ (w - 1) ≤ x < 2 ^ (w - 1).

Definition in_sb (w : Z) (x : Z) : bool :=
  (- 2 ^ (w - 1) <=? x) && (x <? 2 ^ (w - 1)).

Lemma in_sb_spec w x : in_sb w x = true ↔ in_s w x.
Proof. unfold in_sb, in_s. rewrite andb_true_iff, Z.leb_le, Z.ltb_lt. done. Qed.

(** Signed arithmetic on [int32_t] and [long]: a result out of range is undefined. *)
Definition chk_i32 (x : Z) : outcome Z := if in_sb 32 x then Ret x else Undef.
Definition chk_i64 (x : Z) : outcome Z := if in_sb 64 x then Ret x else Undef.

Lemma wrapu_id w x : in_u w x → wrapu w x = x.
Proof. intros. by apply Z.mod_small. Qed.

Lemma wraps_id w x : 0 < w → in_s w x → wraps w x = x.
Proof.
  unfold in_s, wraps. intros Hw Hx.
  assert (2 ^ w = 2 * 2 ^ (w - 1)) as Hpow.
  { rewrite <- Z.pow_succ_r by lia. f_equal. lia. }
  rewrite Z.mod_small; lia.
Qed.

Lemma wrapu_range w x : 0 ≤ w → in_u w (wrapu w x).
Proof. intros. apply Z.mod_pos_bound. by apply Z.pow_pos_nonneg. Qed.

Lemma wraps_range w x : 0 < w → in_s w (wraps w x).
Proof.
  unfold in_s, wraps. intros Hw.
  assert (2 ^ w = 2 * 2 ^ (w - 1)) as Hpow.
  { rewrite <- Z.pow_succ_r by lia. f_equal. lia. }
  pose proof (Z.mod_pos_bound (x + 2 ^ (w - 1)) (2 ^ w)).
  pose proof (Z.pow_pos_nonneg 2 (w - 1)). lia.
Qed.

Lemma land_ff_mod x : Z.land x 255 = x `mod` 256.
Proof. exact (Z.land_ones x 8 ltac:(lia)). Qed.

Lemma land_ffff_mod x : Z.land x 65535 = x `mod` 65536.
Proof. exact (Z.land_ones x 16 ltac:(lia)). Qed.
