(* ===== verification/CppStd.v ===== *)
(** * The parts of the C++ standard library the code uses

    Checked access to [std::string] and [std::vector], searching and trimming,
    the conversions [std::stol], [std::stoul], [std::stoi] and [std::strtol],
    and the decimal formatting of integers by [std::ostream], with the round
    trip between formatting and parsing. *)
From S2P Require Import Prelude.

(** ** std::string

    Positions and counts are [size_t]; [npos] is its largest value. *)
Definition npos : Z := 2 ^ 64 - 1.
Definition size (s : bytes) : Z := Z.of_nat (length s).

(** [s.substr(pos, n)]; a count of [npos] means up to the end. *)
Definition substr (s : bytes) (pos n : Z) : outcome bytes :=
  if size s <? pos then Throw (out_of_range "basic_string::substr")
  else if n =? npos then Ret (drop (Z.to_nat pos) s)
  else Ret (take (Z.to_nat (Z.min n (size s - pos))) (drop (Z.to_nat pos) s)).

(** [s.erase(pos)]: drop everything from [pos] on. *)
Definition erase_from (s : bytes) (pos : Z) : outcome bytes :=
  if size s <? pos then Throw (out_of_range "basic_string::erase")
  else Ret (take (Z.to_nat pos) s).

(** [s.at(i)]. *)
Definition str_at (s : bytes) (i : nat) : outcome ascii :=
  match s !! i with
  | Some c => Ret c
  | None => Throw (out_of_range "basic_string::at")
  end.

(** [v.at(i)] on a vector. *)
Definition vec_at {A} (v : list A) (i : nat) : outcome A :=
  match v !! i with
  | Some x => Ret x
  | None => Throw (out_of_range "vector::_M_range_check")
  end.

Fixpoint prefixb (p s : bytes) : bool :=
  match p, s with
  | [], _ => true
  | _ :: _, [] => false
  | c :: p', d :: s' => Ascii.eqb c d && prefixb p' s'
  end.

(** [s.find(sep)]; [None] is [npos]. *)
Fixpoint find (sep s : bytes) : option nat :=
  if prefixb sep s then Some 0%nat
  else match s with
       | [] => None
       | _ :: s' => S <$> find sep s'
       end.

Definition memb (c : ascii) (set : bytes) : bool := existsb (Ascii.eqb c) set.
Arguments memb : simpl never.

Fixpoint find_first_not_of (set s : bytes) : option nat :=
  match s with
  | [] => None
  | c :: s' => if memb c set then S <$> find_first_not_of set s' else Some 0%nat
  end.

Fixpoint find_last_not_of (set s : bytes) : option nat :=
  match s with
  | [] => None
  | c :: s' =>
    match find_last_not_of set s' with
    | Some i => Some (S i)
    | None => if memb c set then None else Some 0%nat
    end
  end.

(** Equality of two strings. *)
Definition str_eqb (s t : bytes) : bool := bool_decide (s = t).

(** ** Parsing integers *)
Definition isspace (c : ascii) : bool :=
  let x := code c in (x =? 32) || ((9 <=? x) && (x <=? 13)).

Definition digit_val (base : Z) (c : ascii) : option Z :=
  let x := code c in
  let d := if (48 <=? x) && (x <=? 57) then x - 48
           else if (97 <=? x) && (x <=? 122) then x - 87
           else if (65 <=? x) && (x <=? 90) then x - 55
           else base in
  if d <? base then Some d else None.

(** Value of the longest run of digits, and what follows it. *)
Fixpoint scan_digits (base acc : Z) (s : bytes) : Z * bytes :=
  match s with
  | [] => (acc, [])
  | c :: s' =>
    match digit_val base c with
    | Some d => scan_digits base (acc * base + d) s'
    | None => (acc, s)
    end
  end.

Fixpoint skip_space (s : bytes) : bytes :=
  match s with
  | c :: s' => if isspace c then skip_space s' else s
  | [] => []
  end.

Definition scan_sign (s : bytes) : bool * bytes :=
  match s with
  | c :: s' =>
    if Ascii.eqb c "-" then (true, s')
    else if Ascii.eqb c "+" then (false, s') else (false, s)
  | [] => (false, [])
  end.

(** ["0x"] followed by a hexadecimal digit. *)
Definition has_0x (s : bytes) : bool :=
  match s with
  | z :: x :: d :: _ =>
    Ascii.eqb z "0" && (Ascii.eqb x "x" || Ascii.eqb x "X")
      && bool_decide (is_Some (digit_val 16 d))
  | _ => false
  end.

(** Base selection and prefix removal of [strtol]: base 16 accepts a [0x]
    prefix, base 0 derives the base from the prefix. *)
Definition scan_base (base : Z) (s : bytes) : Z * bytes :=
  if ((base =? 16) || (base =? 0)) && has_0x s then (16, drop 2 s)
  else if base =? 0 then
    match s with
    | c :: _ => (if Ascii.eqb c "0" then 8 else 10, s)
    | [] => (10, s)
    end
  else (base, s).

(** The subject sequence of [strtol]: sign and magnitude, [None] when there is
    no digit to convert. *)
Definition scan_int (base : Z) (s : bytes) : option (bool * Z) :=
  let '(neg, s1) := scan_sign (skip_space s) in
  let '(b, s2) := scan_base base s1 in
  match s2 with
  | c :: _ =>
    match digit_val b c with
    | Some _ => Some (neg, (scan_digits b 0 s2).1)
    | None => None
    end
  | [] => None
  end.

Definition signed (neg : bool) (m : Z) : Z := if neg then - m else m.

(** [std::stol], [std::stoul], [std::stoi] ([long] has 64 bits). *)
Definition stol (s : bytes) : outcome Z :=
  match scan_int 10 s with
  | None => Throw (invalid_argument "stol")
  | Some (neg, m) =>
    if in_sb 64 (signed neg m) then Ret (signed neg m)
    else Throw (out_of_range "stol")
  end.

Definition stoul_base (base : Z) (s : bytes) : outcome Z :=
  match scan_int base s with
  | None => Throw (invalid_argument "stoul")
  | Some (neg, m) =>
    if m <? 2 ^ 64 then Ret (wrapu 64 (signed neg m))
    else Throw (out_of_range "stoul")
  end.
Definition stoul (s : bytes) : outcome Z := stoul_base 10 s.

Definition stoi (s : bytes) : outcome Z :=
  match scan_int 10 s with
  | None => Throw (invalid_argument "stoi")
  | Some (neg, m) =>
    if in_sb 32 (signed neg m) then Ret (signed neg m)
    else Throw (out_of_range "stoi")
  end.

(** [strtol(s, NULL, base)]: no exception; 0 when nothing converts, the nearest
    bound when out of range. *)
Definition strtol (base : Z) (s : bytes) : Z :=
  match scan_int base s with
  | None => 0
  | Some (neg, m) => Z.max (- 2 ^ 63) (Z.min (2 ^ 63 - 1) (signed neg m))
  end.

(** ** Formatting integers *)
Definition digit (d : Z) : ascii := Ascii.ascii_of_nat (Z.to_nat (48 + d)).

Fixpoint digits_go (fuel : nat) (n : Z) (acc : bytes) : bytes :=
  match fuel with
  | O => acc
  | S f =>
    let acc' := digit (n `mod` 10) :: acc in
    if n <? 10 then acc' else digits_go f (n `div` 10) acc'
  end.

(** A non-negative number in decimal; its binary length bounds the digits. *)
Definition show_nat (n : Z) : bytes := digits_go (S (Z.to_nat (Z.log2 n))) n [].

(** [os << n] for a signed or unsigned integer. *)
Definition show (n : Z) : bytes :=
  if n <? 0 then "-"%char :: show_nat (- n) else show_nat n.

(** [os << std::setfill(c) << std::setw(w) << s]. *)
Definition setw (c : ascii) (w : nat) (s : bytes) : bytes :=
  replicate (w - length s) c ++ s.

(** ** Lemmas: string access *)
Lemma prefixb_spec p s : prefixb p s = true ↔ p `prefix_of` s.
Proof.
  revert s. induction p as [|c p IH]; intros [|d s]; simpl; split; intros H;
    try done; try apply prefix_nil.
  - by apply prefix_nil_not in H.
  - apply andb_true_iff in H as [Hc Hp]. apply Ascii.eqb_eq in Hc as ->.
    apply prefix_cons, IH, Hp.
  - apply andb_true_iff. pose proof (prefix_cons_inv_1 _ _ _ _ H) as ->.
    apply prefix_cons_inv_2 in H. by rewrite Ascii.eqb_refl, IH.
Qed.

Lemma find_Some sep s i :
  find sep s = Some i → s = take i s ++ sep ++ drop (i + length sep) s.
Proof.
  revert i. induction s as [|c s IH]; intros i; simpl.
  - destruct (prefixb sep []) eqn:E; [|done]. intros [= <-].
    by apply prefixb_spec, prefix_nil_inv in E as ->.
  - destruct (prefixb sep (c :: s)) eqn:E.
    + intros [= <-]. apply prefixb_spec in E as [k Hk].
      rewrite Hk. simpl. by rewrite drop_app_length.
    + destruct (find sep s) as [j|]; simpl; [|done].
      intros [= <-]. simpl. f_equal. by apply IH.
Qed.

Lemma find_le sep s i : find sep s = Some i → (i + length sep ≤ length s)%nat.
Proof.
  intros H. pose proof (find_Some _ _ _ H) as E.
  revert i H E. induction s as [|c s IH]; intros i; simpl.
  - destruct (prefixb sep []) eqn:E; [|done]. intros [= <-] _.
    by apply prefixb_spec, prefix_nil_inv in E as ->.
  - destruct (prefixb sep (c :: s)) eqn:E.
    + intros [= <-] _. apply prefixb_spec, prefix_length in E. simpl in *. lia.
    + destruct (find sep s) as [j|] eqn:Ej; simpl; [|done].
      intros [= <-] _. pose proof (find_Some _ _ _ Ej) as E'.
      specialize (IH j eq_refl E'). lia.
Qed.

(** The separator occurs nowhere before the position found. *)
Lemma find_first sep s i j :
  find sep s = Some i → (j < i)%nat → prefixb sep (drop j s) = false.
Proof.
  revert i j. induction s as [|c s IH]; intros i j; simpl.
  - destruct (prefixb sep []); [|done]. intros [= <-]. lia.
  - destruct (prefixb sep (c :: s)) eqn:E; [intros [= <-]; lia|].
    destruct (find sep s) as [k|]; simpl; [|done]. intros [= <-] Hj.
    destruct j as [|j]; simpl; [done|]. apply (IH k); [done|lia].
Qed.

Lemma find_None sep s : find sep s = None → ∀ j, prefixb sep (drop j s) = false.
Proof.
  induction s as [|c s IH]; simpl.
  - destruct (prefixb sep []) eqn:E; [done|]. intros _ [|j]; done.
  - destruct (prefixb sep (c :: s)) eqn:E; [done|].
    destruct (find sep s) as [k|]; simpl; [done|]. intros _ [|j]; [done|].
    by apply IH.
Qed.

(** Absence of a one-character separator is non-membership. *)
Lemma find_char_app c a b :
  c ∉ a → find [c] (a ++ c :: b) = Some (length a).
Proof.
  induction a as [|d a IH]; intros Hc; simpl.
  - by rewrite Ascii.eqb_refl.
  - apply not_elem_of_cons in Hc as [Hne Hc].
    destruct (Ascii.eqb_spec c d); [done|]. simpl. by rewrite IH.
Qed.

Lemma find_char_None c a : c ∉ a → find [c] a = None.
Proof.
  induction a as [|d a IH]; intros Hc; simpl; [done|].
  apply not_elem_of_cons in Hc as [Hne Hc].
  destruct (Ascii.eqb_spec c d); [done|]. simpl. by rewrite IH.
Qed.

Lemma substr_npos (n : nat) s :
  (n ≤ length s)%nat → substr s (Z.of_nat n) npos = Ret (drop n s).
Proof.
  intros Hn. unfold substr, size. rewrite (proj2 (Z.ltb_ge _ _)) by lia.
  rewrite Z.eqb_refl, Nat2Z.id. done.
Qed.

Lemma substr_1_npos c s : substr (c :: s) 1 npos = Ret s.
Proof. apply (substr_npos 1). simpl. lia. Qed.

Lemma substr_2_npos c d s : substr (c :: d :: s) 2 npos = Ret s.
Proof. apply (substr_npos 2). simpl. lia. Qed.

Lemma erase_from_app s t : erase_from (s ++ t) (size (s ++ t) - size t) = Ret s.
Proof.
  unfold erase_from, size. rewrite length_app.
  rewrite (proj2 (Z.ltb_ge _ _)) by lia. f_equal.
  replace (Z.to_nat _) with (length s) by lia. apply take_app_length.
Qed.

(** ** Lemmas: printing and parsing integers *)
Lemma code_digit d : 0 ≤ d < 10 → code (digit d) = 48 + d.
Proof.
  intros Hd. unfold code, digit. rewrite Ascii.nat_ascii_embedding by lia. lia.
Qed.

Lemma digit_val_digit d : 0 ≤ d < 10 → digit_val 10 (digit d) = Some d.
Proof.
  intros Hd. unfold digit_val. rewrite code_digit by done. simpl.
  rewrite (proj2 (Z.leb_le 48 _)), (proj2 (Z.leb_le _ 57)) by lia. simpl.
  rewrite (proj2 (Z.ltb_lt _ _)) by lia. f_equal. lia.
Qed.

(** The digits printed for [n] are read back as [n], whatever precedes. *)
Lemma scan_digits_go fuel n acc :
  0 ≤ n < 2 ^ Z.of_nat (S fuel) →
  ∃ k, 0 ≤ k ∧ ∀ a,
    scan_digits 10 a (digits_go (S fuel) n acc) =
    scan_digits 10 (a * 10 ^ k + n) acc.
Proof.
  revert n acc. induction fuel as [|f IH]; intros n acc Hn.
  - exists 1. split; [lia|]. intros a. simpl.
    assert ((n <? 10) = true) as -> by (apply Z.ltb_lt; lia).
    rewrite Z.mod_small by lia. simpl. by rewrite digit_val_digit by lia.
  - change (digits_go (S (S f)) n acc) with
      (let acc' := digit (n `mod` 10) :: acc in
       if n <? 10 then acc' else digits_go (S f) (n `div` 10) acc').
    assert (0 ≤ n `mod` 10 < 10) as Hm by (apply Z.mod_pos_bound; lia).
    cbv zeta. destruct (Z.ltb_spec n 10) as [Hlt|Hge].
    + exists 1. split; [lia|]. intros a. simpl.
      rewrite digit_val_digit by done. rewrite Z.mod_small by lia. done.
    + destruct (IH (n `div` 10) (digit (n `mod` 10) :: acc)) as (k & Hk & E).
      { rewrite Nat2Z.inj_succ, Z.pow_succ_r in Hn by lia. split.
        - apply Z.div_pos; lia.
        - apply Z.div_lt_upper_bound; lia. }
      exists (k + 1). split; [lia|]. intros a. rewrite E. simpl.
      rewrite digit_val_digit by done. f_equal.
      rewrite Z.pow_add_r by lia. pose proof (Z_div_mod_eq_full n 10). nia.
Qed.

Lemma digits_go_app fuel n acc rest :
  digits_go fuel n acc ++ rest = digits_go fuel n (acc ++ rest).
Proof.
  revert n acc. induction fuel as [|f IH]; intros n acc; simpl; [done|].
  destruct (n <? 10); [done|]. apply IH.
Qed.

Lemma show_nat_fuel n : 0 ≤ n → 0 ≤ n < 2 ^ Z.of_nat (S (Z.to_nat (Z.log2 n))).
Proof.
  intros Hn. split; [done|].
  rewrite Nat2Z.inj_succ, Z2Nat.id by apply Z.log2_nonneg.
  destruct (Z.eq_dec n 0) as [->|]; [done|]. apply Z.log2_spec. lia.
Qed.

Lemma show_nat_scan n rest :
  0 ≤ n → ∃ k, 0 ≤ k ∧ ∀ a,
    scan_digits 10 a (show_nat n ++ rest) = scan_digits 10 (a * 10 ^ k + n) rest.
Proof.
  intros Hn. unfold show_nat. rewrite digits_go_app.
  apply scan_digits_go, show_nat_fuel, Hn.
Qed.

(** Every printed character is a digit, and there is at least one. *)
Definition is_digit (c : ascii) : Prop := 48 ≤ code c ≤ 57.

Lemma digits_go_digits fuel n acc :
  0 ≤ n → Forall is_digit acc → Forall is_digit (digits_go fuel n acc).
Proof.
  revert n acc. induction fuel as [|f IH]; intros n acc Hn Hacc; simpl; [done|].
  assert (0 ≤ n `mod` 10 < 10) by (apply Z.mod_pos_bound; lia).
  assert (Forall is_digit (digit (n `mod` 10) :: acc)).
  { constructor; [|done]. unfold is_digit. rewrite code_digit by done. lia. }
  destruct (n <? 10); [done|]. apply IH; [|done]. apply Z.div_pos; lia.
Qed.

Lemma digits_go_length fuel n acc : (length acc ≤ length (digits_go fuel n acc))%nat.
Proof.
  revert n acc. induction fuel as [|f IH]; intros n acc; simpl; [lia|].
  destruct (n <? 10); simpl; [lia|].
  etrans; [|apply IH]. simpl. lia.
Qed.

Lemma show_nat_digits n : 0 ≤ n → Forall is_digit (show_nat n).
Proof. intros. by apply digits_go_digits. Qed.

Lemma show_nat_nonempty n : (0 < length (show_nat n))%nat.
Proof.
  unfold show_nat. simpl. destruct (n <? 10); simpl; [lia|].
  pose proof (digits_go_length (Z.to_nat (Z.log2 n)) (n `div` 10) [digit (n `mod` 10)]).
  simpl in *. lia.
Qed.

Lemma show_nat_cons n : 0 ≤ n → ∃ c s, show_nat n = c :: s ∧ is_digit c.
Proof.
  intros Hn. pose proof (show_nat_nonempty n) as Hl.
  pose proof (show_nat_digits n Hn) as Hd.
  destruct (show_nat n) as [|c s]; simpl in Hl; [lia|].
  exists c, s. by inv Hd.
Qed.

Lemma is_digit_not_space c : is_digit c → isspace c = false.
Proof.
  unfold is_digit, isspace. intros.
  rewrite (proj2 (Z.eqb_neq _ _)) by lia. simpl.
  destruct (Z.leb_spec (code c) 13); [lia|]. apply andb_false_r.
Qed.

Lemma is_digit_neq c d : is_digit c → (code d < 48 ∨ 57 < code d) → Ascii.eqb c d = false.
Proof. intros Hc Hd. apply Ascii.eqb_neq. intros ->. unfold is_digit in Hc. lia. Qed.

Lemma is_digit_val c : is_digit c → digit_val 10 c = Some (code c - 48).
Proof.
  unfold is_digit, digit_val. intros.
  rewrite (proj2 (Z.leb_le 48 _)), (proj2 (Z.leb_le _ 57)) by lia. simpl.
  rewrite (proj2 (Z.ltb_lt _ _)) by lia. done.
Qed.

(** What follows a number ends its scan when it does not start with a digit. *)
Definition stops (rest : bytes) : Prop :=
  match rest with c :: _ => digit_val 10 c = None | [] => True end.

Lemma scan_digits_stops a rest : stops rest → (scan_digits 10 a rest).1 = a.
Proof. destruct rest as [|c rest]; simpl; [done|]. by intros ->. Qed.

Lemma scan_int_show n rest :
  stops rest → scan_int 10 (show n ++ rest) = Some (n <? 0, Z.abs n).
Proof.
  intros Hr. unfold show.
  assert (∀ m, 0 ≤ m → ∃ c s, show_nat m ++ rest = c :: s ∧ is_digit c ∧
            (scan_digits 10 0 (c :: s)).1 = m) as Hscan.
  { intros m Hm. destruct (show_nat_cons m Hm) as (c & s & E & Hc).
    exists c, (s ++ rest). destruct (show_nat_scan m rest Hm) as (k & _ & Hk).
    specialize (Hk 0). rewrite E in *. simpl app in *. split; [done|].
    split; [done|]. rewrite Hk. rewrite scan_digits_stops by done. lia. }
  destruct (Z.ltb_spec n 0) as [Hneg|Hpos].
  - destruct (Hscan (- n)) as (c & s & E & Hc & Hv); [lia|].
    simpl app. rewrite E. unfold scan_int. simpl skip_space. simpl scan_sign.
    unfold scan_base. simpl. rewrite is_digit_val by done.
    simpl scan_digits in Hv. rewrite is_digit_val in Hv by done.
    rewrite Hv. do 2 f_equal. lia.
  - destruct (Hscan n Hpos) as (c & s & E & Hc & Hv). rewrite E.
    unfold scan_int. simpl skip_space. rewrite is_digit_not_space by done.
    unfold scan_sign.
    rewrite (is_digit_neq c "-"), (is_digit_neq c "+")
      by (done || (left; reflexivity)).
    unfold scan_base. simpl andb. cbv iota. simpl Z.eqb. cbv iota.
    rewrite is_digit_val by done. rewrite Hv. do 2 f_equal. lia.
Qed.

Lemma signed_abs n : signed (n <? 0) (Z.abs n) = n.
Proof. unfold signed. destruct (Z.ltb_spec n 0); lia. Qed.

(** Reading back a printed integer, with trailing text. *)
Lemma stol_show n rest : in_s 64 n → stops rest → stol (show n ++ rest) = Ret n.
Proof.
  intros Hn Hr. unfold stol. rewrite scan_int_show by done.
  rewrite signed_abs. by rewrite (proj2 (in_sb_spec 64 n) Hn).
Qed.

Lemma stoi_show n rest : in_s 32 n → stops rest → stoi (show n ++ rest) = Ret n.
Proof.
  intros Hn Hr. unfold stoi. rewrite scan_int_show by done.
  rewrite signed_abs. by rewrite (proj2 (in_sb_spec 32 n) Hn).
Qed.

Lemma stoul_show n rest : in_u 64 n → stops rest → stoul (show n ++ rest) = Ret n.
Proof.
  intros Hn Hr. unfold stoul, stoul_base. rewrite scan_int_show by done.
  rewrite signed_abs, wrapu_id by done. unfold in_u in Hn.
  by rewrite (proj2 (Z.ltb_lt (Z.abs n) (2 ^ 64))) by lia.
Qed.

(** Zero padding does not change the number read. *)
Lemma scan_int_digits c s :
  is_digit c → scan_int 10 (c :: s) = Some (false, (scan_digits 10 0 (c :: s)).1).
Proof.
  intros Hc. unfold scan_int. simpl skip_space. rewrite is_digit_not_space by done.
  unfold scan_sign.
  rewrite (is_digit_neq c "-"), (is_digit_neq c "+") by (done || (left; reflexivity)).
  unfold scan_base. simpl andb. cbv iota. simpl Z.eqb. cbv iota.
  by rewrite is_digit_val.
Qed.

Lemma scan_digits_zeros k s :
  scan_digits 10 0 (replicate k "0"%char ++ s) = scan_digits 10 0 s.
Proof. induction k as [|k IH]; [done|]. exact IH. Qed.

Lemma scan_int_padded w n rest :
  0 ≤ n → stops rest → scan_int 10 (setw "0" w (show n) ++ rest) = Some (false, n).
Proof.
  intros Hn Hr. unfold setw. rewrite <- app_assoc.
  destruct (w - length (show n))%nat as [|k].
  - simpl. rewrite scan_int_show by done. do 2 f_equal; [apply Z.ltb_ge|]; lia.
  - change (replicate (S k) "0"%char ++ show n ++ rest)
      with ("0"%char :: (replicate k "0"%char ++ show n ++ rest)).
    rewrite scan_int_digits by done. do 2 f_equal.
    change ("0"%char :: (replicate k "0"%char ++ show n ++ rest))
      with (replicate (S k) "0"%char ++ show n ++ rest).
    rewrite scan_digits_zeros. unfold show. rewrite (proj2 (Z.ltb_ge n 0)) by lia.
    destruct (show_nat_scan n rest Hn) as (j & _ & ->).
    by rewrite scan_digits_stops.
Qed.

Lemma stoul_padded w n rest :
  in_u 64 n → stops rest → stoul (setw "0" w (show n) ++ rest) = Ret n.
Proof.
  intros Hn Hr. unfold stoul, stoul_base. rewrite scan_int_padded by (done || apply Hn).
  unfold in_u in Hn. rewrite (proj2 (Z.ltb_lt n (2 ^ 64))) by lia.
  unfold signed. by rewrite wrapu_id.
Qed.

(** The conversions and accesses end with a value or an exception. *)
Lemma stol_defined s : defined (stol s).
Proof. unfold stol. by repeat case_match. Qed.
Lemma stoul_base_defined b s : defined (stoul_base b s).
Proof. unfold stoul_base. by repeat case_match. Qed.
Lemma stoul_defined s : defined (stoul s).
Proof. apply stoul_base_defined. Qed.
Lemma stoi_defined s : defined (stoi s).
Proof. unfold stoi. by repeat case_match. Qed.
Lemma substr_defined s p n : defined (substr s p n).
Proof. unfold substr. by repeat case_match. Qed.
Lemma erase_from_defined s p : defined (erase_from s p).
Proof. unfold erase_from. by repeat case_match. Qed.
Lemma str_at_defined s i : defined (str_at s i).
Proof. unfold str_at. by repeat case_match. Qed.
Lemma vec_at_defined {A} (v : list A) i : defined (vec_at v i).
Proof. unfold vec_at. by repeat case_match. Qed.
#[export] Hint Resolve stol_defined stoul_base_defined stoul_defined stoi_defined
  substr_defined erase_from_defined str_at_defined vec_at_defined : safe.

(** A printed number contains digits and possibly a leading minus only. *)
Lemma show_chars n c : c ∈ show n → is_digit c ∨ c = "-"%char.
Proof.
  unfold show. destruct (n <? 0) eqn:E.
  - apply Z.ltb_lt in E. rewrite elem_of_cons. intros [->|H]; [by right|].
    left. assert (0 ≤ - n) as Hn by lia.
    pose proof (show_nat_digits (- n) Hn) as Hd. rewrite Forall_forall in Hd.
    by apply Hd.
  - apply Z.ltb_ge in E. intros H. left.
    pose proof (show_nat_digits n E) as Hd. rewrite Forall_forall in Hd. by apply Hd.
Qed.

Lemma show_no_char n c : (code c < 48 ∨ 57 < code c) → c ≠ "-"%char → c ∉ show n.
Proof.
  intros Hc Hm Hin. apply show_chars in Hin as [H|H]; [|done].
  unfold is_digit in H. lia.
Qed.

(** ** std::map

    An ordered map as the list of its entries in strictly increasing key
    order, which is the order of iteration. *)
Section smap.
Context {V : Type}.

(** [m.insert({k, v})]: an existing entry is kept. *)
Fixpoint map_insert (k : Z) (v : V) (m : list (Z * V)) : list (Z * V) :=
  match m with
  | [] => [(k, v)]
  | (j, w) :: m' =>
    if k <? j then (k, v) :: m
    else if k =? j then m
    else (j, w) :: map_insert k v m'
  end.

Fixpoint map_find (k : Z) (m : list (Z * V)) : option V :=
  match m with
  | [] => None
  | (j, w) :: m' => if k =? j then Some w else map_find k m'
  end.

Definition keys_sorted (m : list (Z * V)) : Prop := StronglySorted Z.lt (map fst m).

Lemma map_insert_lookup k v m j :
  keys_sorted m →
  map_find j (map_insert k v m) =
  match map_find k m with
  | Some _ => map_find j m
  | None => if j =? k then Some v else map_find j m
  end.
Proof.
  unfold keys_sorted. induction m as [|[i w] m IH]; intros Hs; simpl; [done|].
  apply StronglySorted_inv in Hs as [Hs Hall].
  destruct (Z.ltb_spec k i) as [Hlt|Hge].
  - simpl. destruct (Z.eqb_spec k i); [lia|].
    assert (map_find k m = None) as ->; [|done].
    clear IH Hs. simpl in Hall. induction m as [|[i' w'] m IH]; simpl in *; [done|].
    inv Hall. destruct (Z.eqb_spec k i'); [lia|]. by apply IH.
  - destruct (Z.eqb_spec k i) as [->|Hne]; simpl.
    + done.
    + destruct (Z.eqb_spec j i) as [->|Hji].
      * destruct (map_find k m); [done|]. by destruct (Z.eqb_spec i k).
      * rewrite IH by done. done.
Qed.

Lemma map_insert_keys k v m : ∀ j, j ∈ map fst (map_insert k v m) → j = k ∨ j ∈ (map fst m).
Proof.
  induction m as [|[i w] m IH]; intros j; simpl.
  - rewrite elem_of_cons. tauto.
  - destruct (k <? i); [simpl; rewrite elem_of_cons; tauto|].
    destruct (k =? i); [tauto|]. simpl. rewrite !elem_of_cons.
    intros [->|Hj]; [tauto|]. apply IH in Hj. tauto.
Qed.

Lemma map_insert_sorted k v m : keys_sorted m → keys_sorted (map_insert k v m).
Proof.
  unfold keys_sorted. induction m as [|[i w] m IH]; intros Hs; simpl.
  - repeat constructor.
  - pose proof Hs as Hs'. apply StronglySorted_inv in Hs as [Hs Hall]. simpl in *.
    destruct (Z.ltb_spec k i).
    + simpl. constructor; [done|]. constructor; [done|].
      eapply Forall_impl; [exact Hall|]. intros; simpl in *; lia.
    + destruct (Z.eqb_spec k i); [done|]. simpl. constructor; [by apply IH|].
      apply Forall_forall. intros j Hj. apply map_insert_keys in Hj as [->|Hj]; [lia|].
      rewrite Forall_forall in Hall. by apply Hall.
Qed.
End smap.
