(* ===== verification/Utilities.v ===== *)
(** * src/utilities.cpp: string helpers, port lookup, map serialization *)
From S2P Require Import Prelude CppStd.

(** ** Operations *)

(** The loop of [tokenize_string]: [str] shrinks past each separator. *)
Fixpoint tokenize_loop (fuel : nat) (str : bytes) (tokens : list bytes)
    (sep : bytes) : outcome (bytes * list bytes) :=
  match fuel with
  | O => Spin
  | S f =>
    match find sep str with
    | Some pos =>
      tokenize_loop f (drop (pos + length sep) str) (tokens ++ [take pos str]) sep
    | None => Ret (str, tokens ++ [str])
    end
  end.

(** [tokenize_string(str, tokens, sep)]: the new values of its two reference
    arguments.  Every iteration but the last removes at least the separator, so
    one iteration more than the length of [str] is enough when [sep] is not
    empty. *)
Definition tokenize_string (str : bytes) (tokens : list bytes) (sep : bytes) :
    outcome (bytes * list bytes) :=
  tokenize_loop (S (length str)) str tokens sep.

(** The common call: tokens of a string, from an empty vector. *)
Definition tokens_of (str sep : bytes) : outcome (list bytes) :=
  r <-- tokenize_string str [] sep ;; Ret r.2.

Definition char2int (char_is_signed : bool) (c : ascii) : Z :=
  (if char_is_signed then wraps 8 (code c) else code c) - 48.

Definition WHITESPACE : bytes := [SP; LF; CR; TAB; FF; VT].

Definition ltrim (s : bytes) : bytes :=
  match find_first_not_of WHITESPACE s with
  | None => []
  | Some start => drop start s
  end.

Definition rtrim (s : bytes) : bytes :=
  match find_last_not_of WHITESPACE s with
  | None => []
  | Some e => take (e + 1) s
  end.

Definition trim (s : bytes) : bytes := rtrim (ltrim s).

(** The table [specials] of [escape]. *)
Definition specials (c : ascii) : option ascii :=
  if Ascii.eqb c LF then Some "n"%char
  else if Ascii.eqb c CR then Some "r"%char
  else if Ascii.eqb c TAB then Some "t"%char
  else None.

(** [escape(src, escapee, marker)] on a C string: the scan ends at the first
    null character. *)
Fixpoint escape_with (src escapee : bytes) (marker : ascii) : bytes :=
  match src with
  | [] => []
  | c :: src' =>
    if Ascii.eqb c Ascii.zero then []
    else (if memb c escapee then [marker] else [])
           ++ [match specials c with Some d => d | None => c end]
           ++ escape_with src' escapee marker
  end.

Definition escape (src : bytes) : bytes :=
  escape_with src [LF; TAB; CR] (Ascii.ascii_of_nat 92).

(** [serial::PortInfo]. *)
Record PortInfo := mkPortInfo {
  port : bytes;
  description : bytes;
  hardware_id : bytes;
}.

Definition contains (s param : bytes) : bool :=
  match find param s with Some _ => true | None => false end.

(** [printf("%s", s.c_str())]: up to the first null character. *)
Fixpoint c_str (s : bytes) : bytes :=
  match s with
  | c :: s' => if code c =? 0 then [] else c :: c_str s'
  | [] => []
  end.

(** [enumerate_ports()]: what it prints, given the result of
    [serial::list_ports()]. *)
Definition port_line (device : PortInfo) : bytes :=
  str "(" ++ c_str (port device) ++ str ", " ++ c_str (description device) ++ str ", " ++
  c_str (hardware_id device) ++ str ")" ++ [LF].
Definition enumerate_ports (devices_found : list PortInfo) : bytes :=
  str "enumerate_ports : Number of devices found : " ++
  show (Z.of_nat (length devices_found)) ++ [LF] ++ concat (map port_line devices_found).

(** The matching loop of [find_port], over the ports found. *)
Fixpoint devices_match (devices_found : list PortInfo) (param : bytes) :
    list PortInfo :=
  match devices_found with
  | [] => []
  | device :: rest =>
    if contains (description device) param then device :: devices_match rest param
    else if contains (port device) param then device :: devices_match rest param
    else if contains (hardware_id device) param then device :: devices_match rest param
    else devices_match rest param
  end.

(** [find_port(param)], given the result of [serial::list_ports()]. *)
Definition find_port (devices_found : list PortInfo) (param : bytes) : bytes :=
  match devices_match devices_found param with
  | [] => []
  | d :: _ => port d
  end.

Definition quote : ascii := Ascii.ascii_of_nat 34.

Definition map_entry (i : Z * bytes) : bytes :=
  [quote] ++ show i.1 ++ [quote; ":"%char; quote] ++ i.2 ++ [quote].

(** [serial_map]: each entry is written with a trailing comma, then the put
    position moves one back and the closing brace overwrites what is there. *)
Definition serial_map (m : list (Z * bytes)) : bytes :=
  let os := ["{"%char] ++ concat (map (λ i, map_entry i ++ [","%char]) m) in
  take (length os - 1) os ++ ["}"%char].

Definition serialize_map : list (Z * bytes) → bytes := serial_map.

(** ** Tokenizing *)

(** [join sep [t1; ...; tn]] is [t1 sep ... sep tn]. *)
Fixpoint join (sep : bytes) (toks : list bytes) : bytes :=
  match toks with
  | [] => []
  | [t] => t
  | t :: ts => t ++ sep ++ join sep ts
  end.

Lemma join_cons sep t ts : ts ≠ [] → join sep (t :: ts) = t ++ sep ++ join sep ts.
Proof. by destruct ts. Qed.

Lemma take_no_sep sep s pos :
  find sep s = Some pos → contains (take pos s) sep = (bool_decide (sep = [])).
Proof.
  intros H. unfold contains. destruct (find sep (take pos s)) as [j|] eqn:E.
  - pose proof (find_le _ _ _ E) as Hle. pose proof (find_Some _ _ _ E) as Ej.
    rewrite length_take in Hle. destruct sep as [|c sep]; [done|]. exfalso.
    simpl in Hle. assert (prefixb (c :: sep) (drop j s) = false) as Hf.
    { apply (find_first _ _ pos); [done|lia]. }
    assert (prefixb (c :: sep) (drop j s) = true) as Ht; [|congruence].
    apply prefixb_spec. apply (f_equal (drop j)) in Ej.
    rewrite drop_app_ge in Ej by (rewrite length_take; lia).
    rewrite length_take, length_take in Ej.
    replace (j - _)%nat with 0%nat in Ej by lia. simpl drop in Ej.
    rewrite <- (take_drop (pos - j) (drop j s)), <- skipn_firstn_comm.
    replace (j + (pos - j))%nat with pos by lia. rewrite Ej.
    simpl. rewrite <- app_assoc, app_comm_cons. by apply prefix_app_r.
  - destruct sep as [|c sep]; [|done]. destruct (take pos s); done.
Qed.

Lemma tokenize_loop_spec fuel s tokens sep :
  sep ≠ [] → (length s < fuel)%nat →
  ∃ toks, toks ≠ [] ∧
    tokenize_loop fuel s tokens sep = Ret (List.last toks [], tokens ++ toks) ∧
    join sep toks = s ∧ Forall (λ t, contains t sep = false) toks.
Proof.
  intros Hsep. revert s tokens. induction fuel as [|f IH]; intros s tokens Hf; [lia|].
  simpl. destruct (find sep s) as [pos|] eqn:E.
  - pose proof (find_le _ _ _ E) as Hle. pose proof (find_Some _ _ _ E) as Hs.
    destruct (IH (drop (pos + length sep) s) (tokens ++ [take pos s]))
      as (toks & Hne & Eq & Hj & Hall).
    { rewrite length_drop. destruct sep; [done|]. simpl in *. lia. }
    exists (take pos s :: toks). split; [done|]. rewrite Eq. split_and!.
    + rewrite <- app_assoc. by destruct toks.
    + rewrite join_cons, Hj by done. done.
    + constructor; [|done]. rewrite (take_no_sep _ _ _ E).
      by rewrite bool_decide_eq_false_2.
  - exists [s]. split_and!; [done..|]. constructor; [|done].
    unfold contains. by rewrite E.
Qed.

(** C21: [tokenize_string] with a non-empty separator ends; the tokens it appends
    joined by the separator give back the input, no token contains the
    separator, and the input string is left holding the last token. *)
Theorem tokenize_string_spec (s : bytes) (tokens : list bytes) (sep : bytes) :
  sep ≠ [] →
  ∃ toks, tokenize_string s tokens sep = Ret (List.last toks [], tokens ++ toks) ∧
    join sep toks = s ∧ Forall (λ t, contains t sep = false) toks.
Proof.
  intros Hsep.
  destruct (tokenize_loop_spec (S (length s)) s tokens sep) as (toks & _ & H);
    [done|lia|]. by exists toks.
Qed.

Lemma tokens_of_defined s c : defined (tokens_of s [c]).
Proof.
  unfold tokens_of, tokenize_string.
  destruct (tokenize_loop_spec (S (length s)) s [] [c]) as (toks & _ & -> & _);
    [done|lia|done].
Qed.
#[export] Hint Resolve tokens_of_defined : safe.

Lemma tokens_of_nonempty s c : ∃ toks, tokens_of s [c] = Ret toks ∧ toks ≠ [].
Proof.
  unfold tokens_of, tokenize_string.
  destruct (tokenize_loop_spec (S (length s)) s [] [c]) as (toks & Hne & -> & _);
    [done|lia|]. by exists toks.
Qed.

Lemma tokenize_string_spec_witness :
  [";"%char] ≠ [] ∧ ∃ toks,
    tokenize_string (str "0;4000") [] [";"%char] = Ret (List.last toks [], [] ++ toks) ∧
    join [";"%char] toks = str "0;4000" ∧
    Forall (λ t, contains t [";"%char] = false) toks.
Proof. split; [done|]. by apply (tokenize_string_spec _ [] [";"%char]). Defined.

Lemma tokenize_loop_join fuel c toks tokens :
  toks ≠ [] → Forall (λ t, c ∉ t) toks → (length (join [c] toks) < fuel)%nat →
  tokenize_loop fuel (join [c] toks) tokens [c] =
  Ret (List.last toks [], tokens ++ toks).
Proof.
  revert tokens fuel. induction toks as [|t toks IH]; intros tokens fuel Hne Hall Hf;
    [done|]. inv Hall. destruct fuel as [|f]; [lia|].
  destruct (decide (toks = [])) as [->|Hts].
  - simpl. by rewrite find_char_None.
  - rewrite join_cons in * by done. simpl tokenize_loop.
    simpl app in *. rewrite find_char_app by done.
    rewrite take_app_length, (cons_middle c), app_assoc.
    replace (length t + 1)%nat with (length (t ++ [c])) by (rewrite length_app; done).
    rewrite drop_app_length. rewrite IH; [|done|done|].
    + rewrite <- app_assoc. by destruct toks.
    + rewrite length_app in Hf. simpl in Hf. lia.
Qed.

Lemma tokens_of_joined (c : ascii) (toks : list bytes) :
  toks ≠ [] → Forall (λ t, c ∉ t) toks → tokens_of (join [c] toks) [c] = Ret toks.
Proof.
  intros Hne Hall. unfold tokens_of, tokenize_string.
  rewrite tokenize_loop_join by (done || lia). done.
Qed.

(** Tokenizing on a one-character separator inverts joining: fields that do
    not contain the separator are recovered exactly. *)
Lemma tokens_of_join (c : ascii) (toks : list bytes) :
  toks ≠ [] → Forall (λ t, c ∉ t) toks → tokens_of (join [c] toks) [c] = Ret toks.
Proof. apply tokens_of_joined. Qed.

Lemma tokens_of_join_witness :
  tokens_of (join [";"%char] [str "0"; str "-12"]) [";"%char] = Ret [str "0"; str "-12"].
Proof.
  apply (tokens_of_join ";"%char); [done|].
  by apply (bool_decide_unpack _); vm_compute.
Defined.

(** With an empty separator the loop never ends: no number of iterations is
    enough, for any input. *)
Lemma tokenize_empty_sep (fuel : nat) (s : bytes) (tokens : list bytes) :
  tokenize_loop fuel s tokens [] = Spin.
Proof.
  revert s tokens. induction fuel as [|f IH]; intros s tokens; [done|].
  simpl. destruct s; simpl; apply IH.
Qed.

(** ** Trimming *)
Definition is_ws (c : ascii) : Prop := memb c WHITESPACE = true.

Lemma ltrim_cons c s :
  ltrim (c :: s) = if memb c WHITESPACE then ltrim s else c :: s.
Proof.
  unfold ltrim. cbn [find_first_not_of]. destruct (memb c WHITESPACE); [|done].
  by destruct (find_first_not_of WHITESPACE s).
Qed.

Lemma rtrim_cons c s :
  rtrim (c :: s) =
  match rtrim s with
  | [] => if memb c WHITESPACE then [] else [c]
  | t => c :: t
  end.
Proof.
  unfold rtrim. cbn [find_last_not_of].
  destruct (find_last_not_of WHITESPACE s) as [i|] eqn:E.
  - destruct s as [|d s]; [done|]. rewrite !Nat.add_1_r. done.
  - by destruct (memb c WHITESPACE).
Qed.

Lemma ltrim_split s : ∃ l, s = l ++ ltrim s ∧ Forall is_ws l ∧
  match ltrim s with [] => True | c :: _ => ¬ is_ws c end.
Proof.
  induction s as [|c s (l & E & Hl & Hh)].
  - by exists [].
  - rewrite ltrim_cons. destruct (memb c WHITESPACE) eqn:Ec.
    + exists (c :: l). split_and!; [simpl; by rewrite <- E|by constructor|done].
    + exists []. split_and!; [done..|]. unfold is_ws. by rewrite Ec.
Qed.

Lemma rtrim_split s : ∃ r, s = rtrim s ++ r ∧ Forall is_ws r ∧
  match List.rev (rtrim s) with [] => True | c :: _ => ¬ is_ws c end.
Proof.
  induction s as [|c s (r & E & Hr & Hl)].
  - by exists [].
  - rewrite rtrim_cons. destruct (rtrim s) as [|d t] eqn:Et.
    + destruct (memb c WHITESPACE) eqn:Ec.
      * exists (c :: s). simpl in E. subst s. split_and!; [done|by constructor|done].
      * exists s. simpl in E. subst s. split_and!; [done..|].
        simpl. unfold is_ws. by rewrite Ec.
    + exists r. split_and!; [simpl; by rewrite E at 1|done|].
      simpl in *. destruct (List.rev t ++ [d]) eqn:Er; [|done].
      by apply app_eq_nil in Er as [_ ?].
Qed.

Lemma rtrim_head c s : ¬ is_ws c → ∃ t, rtrim (c :: s) = c :: t.
Proof.
  intros Hc. rewrite rtrim_cons. destruct (rtrim s); [|by eexists].
  unfold is_ws in Hc. destruct (memb c WHITESPACE); [done|]. by eexists.
Qed.

(** [trim] removes exactly the surrounding whitespace: what it drops on each
    side is whitespace, and what it keeps neither starts nor ends with it. *)
Lemma trim_spec (s : bytes) :
  ∃ l r, s = l ++ trim s ++ r ∧ Forall is_ws l ∧ Forall is_ws r ∧
    match trim s with [] => True | c :: _ => ¬ is_ws c end ∧
    match List.rev (trim s) with [] => True | c :: _ => ¬ is_ws c end.
Proof.
  destruct (ltrim_split s) as (l & El & Hl & Hh).
  destruct (rtrim_split (ltrim s)) as (r & Er & Hr & Ht).
  exists l, r. unfold trim. split_and!; [by rewrite <- Er|done|done| |done].
  destruct (ltrim s) as [|c t]; [done|].
  destruct (rtrim_head c t Hh) as [u ->]. done.
Qed.

(** Words: non-empty and free of whitespace.  Words joined by blanks survive
    trimming and tokenizing. *)
Definition word (t : bytes) : Prop := t ≠ [] ∧ Forall (λ c, ¬ is_ws c) t.

Lemma rtrim_ws w : Forall is_ws w → rtrim w = [].
Proof.
  induction 1 as [|c w Hc Hw IH]; [done|]. rewrite rtrim_cons, IH. by rewrite Hc.
Qed.

Lemma rtrim_app a c w : ¬ is_ws c → Forall is_ws w → rtrim (a ++ c :: w) = a ++ [c].
Proof.
  intros Hc Hw. induction a as [|x a IH]; simpl.
  - rewrite rtrim_cons, rtrim_ws by done. unfold is_ws in Hc.
    by destruct (memb c WHITESPACE).
  - rewrite rtrim_cons, IH. by destruct a.
Qed.

Lemma trim_framed c a z w :
  ¬ is_ws c → ¬ is_ws z → Forall is_ws w → a ++ [z] ≠ [] →
  ∀ s, c :: s = a ++ [z] → trim ((a ++ [z]) ++ w) = a ++ [z].
Proof.
  intros Hc Hz Hw _ s E. unfold trim. rewrite <- E at 1. simpl.
  rewrite ltrim_cons. unfold is_ws in Hc. destruct (memb c WHITESPACE); [done|].
  change (c :: s ++ w) with ((c :: s) ++ w). rewrite E, <- app_assoc. by apply rtrim_app.
Qed.

Lemma word_ends t : word t → ∃ c s a z, t = c :: s ∧ t = a ++ [z] ∧ ¬ is_ws c ∧ ¬ is_ws z.
Proof.
  intros [Hne Hall]. rewrite Forall_forall in Hall.
  destruct (exists_last Hne) as (a & z & E). destruct t as [|c s]; [done|].
  exists c, s, a, z. split; [done|]. split; [done|].
  split; apply Hall; [by left|]. rewrite E. apply elem_of_app. right. by left.
Qed.

Lemma join_ends toks : toks ≠ [] → Forall word toks →
  ∃ c s a z, join [SP] toks = c :: s ∧ join [SP] toks = a ++ [z] ∧ ¬ is_ws c ∧ ¬ is_ws z.
Proof.
  intros Hne Hall. induction Hall as [|t ts Ht Hts IH]; [done|].
  destruct (word_ends t Ht) as (c & s & a & z & E1 & E2 & Hc & Hz).
  destruct ts as [|t' ts']; [simpl; eauto 10|].
  destruct IH as (c' & s' & a' & z' & E1' & E2' & Hc' & Hz'); [done|].
  rewrite join_cons by done. exists c, (s ++ [SP] ++ join [SP] (t' :: ts')).
  exists (t ++ [SP] ++ a'), z'. rewrite E1 at 1. split; [done|].
  rewrite E2' at 1. by rewrite !app_assoc.
Qed.

Lemma trim_words toks w : toks ≠ [] → Forall word toks → Forall is_ws w →
  trim (join [SP] toks ++ w) = join [SP] toks.
Proof.
  intros Hne Hall Hw.
  destruct (join_ends toks Hne Hall) as (c & s & a & z & E1 & E2 & Hc & Hz).
  rewrite E2 in *. eapply (trim_framed c); eauto. by destruct a.
Qed.

Lemma word_no_blank t : word t → SP ∉ t.
Proof.
  intros [_ Hall] Hin. rewrite Forall_forall in Hall. apply (Hall SP Hin). by vm_compute.
Qed.

Lemma tokens_of_words toks : toks ≠ [] → Forall word toks →
  tokens_of (join [SP] toks) [SP] = Ret toks.
Proof.
  intros Hne Hall. apply tokens_of_joined; [done|].
  eapply Forall_impl; [exact Hall|]. apply word_no_blank.
Qed.

Lemma show_word n : word (show n).
Proof.
  split.
  - unfold show. pose proof (show_nat_nonempty n). case_match; [done|].
    intros E. rewrite E in *. simpl in *. lia.
  - apply Forall_forall. intros c [Hc| ->]%show_chars; [|by vm_compute].
    unfold is_ws, memb, WHITESPACE. simpl.
    rewrite !(is_digit_neq c) by (done || (left; reflexivity)). done.
Qed.

(** ** Escaping for log output *)
Lemma specials_printable c :
  ∀ d, specials c = Some d → d ∉ [LF; CR; TAB].
Proof.
  unfold specials. intros d.
  repeat case_match; intros [= <-]; apply (bool_decide_unpack _); by vm_compute.
Qed.

(** Escaped text has no line feed, carriage return or tab left in it, so a
    device answer always prints on one line. *)
Lemma escape_one_line (s : bytes) (c : ascii) :
  c ∈ [LF; CR; TAB] → c ∉ escape s.
Proof.
  intros Hc. unfold escape. induction s as [|d s IH]; simpl.
  - apply not_elem_of_nil.
  - destruct (Ascii.eqb d Ascii.zero); [apply not_elem_of_nil|].
    rewrite not_elem_of_app. split.
    { destruct (memb d _); [|apply not_elem_of_nil].
      rewrite list_elem_of_singleton. intros ->.
      revert Hc. apply (bool_decide_unpack _). by vm_compute. }
    rewrite not_elem_of_cons. split; [|done]. intros ->.
    destruct (specials d) as [x|] eqn:E.
    + by apply specials_printable in E.
    + unfold specials in E. revert Hc. rewrite !elem_of_cons.
      repeat case_match; simplify_eq.
      rewrite Ascii.eqb_neq in *. intros [?|[?|[?|?%elem_of_nil]]]; done.
Qed.

Lemma escape_one_line_witness :
  LF ∈ [LF; CR; TAB] ∧ LF ∉ escape (str "*1" ++ [CR; LF]).
Proof.
  assert (LF ∈ [LF; CR; TAB]) as H by (apply (bool_decide_unpack _); by vm_compute).
  split; [exact H|]. exact (escape_one_line _ LF H).
Defined.

(** ** Port lookup *)
Definition port_matches (param : bytes) (d : PortInfo) : bool :=
  contains (description d) param || contains (port d) param
    || contains (hardware_id d) param.

Lemma devices_match_filter ds param :
  devices_match ds param = List.filter (port_matches param) ds.
Proof.
  induction ds as [|d ds IH]; simpl; [done|]. unfold port_matches. rewrite IH.
  by destruct (contains (description d) param), (contains (port d) param),
    (contains (hardware_id d) param).
Qed.

(** [find_port] returns the port of the first device one of whose three
    fields contains the parameter, and the empty string exactly when it finds no
    such device (or that device has no port name). *)
Lemma find_port_first (ds : list PortInfo) (param : bytes) :
  (find_port ds param = [] ∧ Forall (λ d, port_matches param d = false) ds) ∨
  (∃ before d after, ds = before ++ d :: after ∧
     Forall (λ d, port_matches param d = false) before ∧
     port_matches param d = true ∧ find_port ds param = port d).
Proof.
  unfold find_port. rewrite devices_match_filter.
  induction ds as [|d ds IH]; simpl; [by left|].
  destruct (port_matches param d) eqn:E.
  - right. by exists [], d, ds.
  - destruct IH as [[-> H]|(b & d' & a & -> & Hb & Hd & ->)].
    + left. split; [done|]. by constructor.
    + right. exists (d :: b), d', a. split_and!; [done|by constructor|done..].
Qed.

(** ** Map serialization *)
Lemma concat_entries_comma m :
  m ≠ [] →
  concat (map (λ i, map_entry i ++ [","%char]) m) =
  join [","%char] (map map_entry m) ++ [","%char].
Proof.
  induction m as [|i m IH]; intros Hne; [done|]. cbn [map List.concat].
  destruct (decide (m = [])) as [->|Hm]; [by rewrite app_nil_r|].
  rewrite IH, join_cons by (done || by destruct m). by rewrite <- !app_assoc.
Qed.

(** A non-empty map is serialized as its entries separated by commas, in
    braces; the empty map is serialized as a lone closing brace. *)
Lemma serialize_map_spec (m : list (Z * bytes)) :
  serialize_map m =
  match m with
  | [] => str "}"
  | _ => str "{" ++ join [","%char] (map map_entry m) ++ str "}"
  end.
Proof.
  destruct m as [|i m]; [done|].
  unfold serialize_map, serial_map. rewrite concat_entries_comma by done.
  set (j := join _ _). cbv zeta. rewrite (app_assoc ["{"%char] j), length_app.
  cbn [length]. rewrite Nat.add_sub, take_app_length. by rewrite <- app_assoc.
Qed.
