(* ===== verification/Ports.v ===== *)
(** * src/impl/list_ports/list_ports_linux.cc: the serial ports of the system

    Paths, the reading of sysfs and the formatting helper, and the list of ports.
    The file system ([glob], [stat], [realpath] and the first line of a file) and
    the success of memory allocation are parameters. *)
From S2P Require Import Prelude CppStd Utilities.

Definition SLASH : ascii := "/"%char.

(** What the code asks the system for. *)
Record filesystem := mkFs {
  (** the paths that match a pattern, in the order of [glob] *)
  sys_glob : bytes → list bytes;
  (** [stat] succeeds *)
  sys_stat : bytes → bool;
  (** the result of [realpath], [None] on failure *)
  sys_realpath : bytes → option bytes;
  (** the first line of a file, [None] when it cannot be opened *)
  sys_first_line : bytes → option bytes;
}.

(** [path.rfind("/")]; [None] is [npos]. *)
Fixpoint rfind_slash (path : bytes) : option nat :=
  match path with
  | [] => None
  | c :: path' =>
    match rfind_slash path' with
    | Some i => Some (S i)
    | None => if Ascii.eqb c SLASH then Some 0%nat else None
    end
  end.

Definition basename (path : bytes) : bytes :=
  match rfind_slash path with
  | None => path
  | Some pos => drop (pos + 1) path
  end.

Definition dirname (path : bytes) : bytes :=
  match rfind_slash path with
  | None => path
  | Some pos => if (pos =? 0)%nat then [SLASH] else take pos path
  end.

(** The text [vsnprintf] makes of a format whose only conversion is [%s]. *)
Fixpoint printf_s (fmt : bytes) (args : list bytes) : bytes :=
  match fmt with
  | "%"%char :: "s"%char :: fmt' =>
    match args with
    | a :: args' => c_str a ++ printf_s fmt' args'
    | [] => printf_s fmt' []
    end
  | c :: fmt' => c :: printf_s fmt' args
  | [] => []
  end.

Definition INT_MAX : Z := 2 ^ 31 - 1.

Module Ports.
Section ports.
(** [malloc] or [realloc] of so many bytes succeeds. *)
Variable alloc : Z → bool.
Variable fs : filesystem.

(** The loop of [format] on the complete text, from its [n]th last iteration;
    [None] when the iterations are used up. *)
Fixpoint format_loop (n : nat) (loop_count buffer_size_bytes : Z) (text : bytes) :
    option bytes :=
  match n with
  | O => None
  | S n' =>
    let return_value := if INT_MAX <? size text then -1 else size text in
    if return_value <? 0 then Some []
    else if buffer_size_bytes <=? return_value then
      let buffer_size_bytes := return_value + 1 in
      if negb (alloc buffer_size_bytes) then Some []
      else if 5 <? loop_count + 1 then Some []
      else format_loop n' (loop_count + 1) buffer_size_bytes text
    else Some text
  end.

(** [format(fmt, ...)]; at most six iterations are made. *)
Definition format (fmt : string) (args : list bytes) : bytes :=
  if negb (alloc 256) then []
  else match format_loop 6 0 256 (printf_s (str fmt) args) with
       | Some r => r
       | None => []
       end.

(** [glob(patterns)]: the results of the patterns one after the other. *)
Definition glob (patterns : list bytes) : list bytes := concat (map (sys_glob fs) patterns).

Definition path_exists (path : bytes) : bool := sys_stat fs path.

Definition realpath (path : bytes) : bytes :=
  match sys_realpath fs path with Some r => r | None => [] end.

Definition read_line (file : bytes) : bytes :=
  match sys_first_line fs file with Some l => l | None => [] end.

(** The device number that is read as well is not used. *)
Definition usb_sysfs_friendly_name (sys_usb_path : bytes) : bytes :=
  let manufacturer := read_line (sys_usb_path ++ str "/manufacturer") in
  let product := read_line (sys_usb_path ++ str "/product") in
  let serial := read_line (sys_usb_path ++ str "/serial") in
  if (length manufacturer =? 0)%nat && (length product =? 0)%nat && (length serial =? 0)%nat
  then []
  else format "%s %s %s" [manufacturer; product; serial].

Definition usb_sysfs_hw_string (sysfs_path : bytes) : bytes :=
  let serial_number := read_line (sysfs_path ++ str "/serial") in
  let serial_number :=
    if 0 <? size serial_number then format "SNR=%s" [serial_number] else serial_number in
  let vid := read_line (sysfs_path ++ str "/idVendor") in
  let pid := read_line (sysfs_path ++ str "/idProduct") in
  format "USB VID:PID=%s:%s %s" [vid; pid; serial_number].

(** [device_name.compare(0, 6, prefix) == 0] for a prefix of six characters. *)
Definition starts6 (prefix : string) (device_name : bytes) : bool :=
  str_eqb (take 6 device_name) (str prefix).

(** The two USB branches: the names found under the path of the device. *)
Definition usb_info (sys_device_path : bytes) : bytes * bytes :=
  if path_exists sys_device_path then
    (usb_sysfs_friendly_name sys_device_path, usb_sysfs_hw_string sys_device_path)
  else ([], []).

Definition get_sysfs_info (device_path : bytes) : bytes * bytes :=
  let device_name := basename device_path in
  let sys_device_path := format "/sys/class/tty/%s/device" [device_name] in
  let '(friendly_name, hardware_id) :=
    if starts6 "ttyUSB" device_name then
      usb_info (dirname (dirname (realpath sys_device_path)))
    else if starts6 "ttyACM" device_name then
      usb_info (dirname (realpath sys_device_path))
    else
      let sys_id_path := sys_device_path ++ str "/id" in
      ([], if path_exists sys_id_path then read_line sys_id_path else []) in
  (if (length friendly_name =? 0)%nat then device_name else friendly_name,
   if (length hardware_id =? 0)%nat then str "n/a" else hardware_id).

Definition search_globs : list bytes :=
  [str "/dev/ttyACM*"; str "/dev/ttyS*"; str "/dev/ttyUSB*"; str "/dev/tty.*";
   str "/dev/cu.*"; str "/dev/rfcomm*"].

(** The entry of a device found. *)
Definition port_entry (device : bytes) : PortInfo :=
  let '(friendly_name, hardware_id) := get_sysfs_info device in
  mkPortInfo device friendly_name hardware_id.

Definition list_ports : list PortInfo := map port_entry (glob search_globs).
End ports.
End Ports.

(** ** Paths *)
Lemma rfind_slash_spec path pos : rfind_slash path = Some pos →
  path = take pos path ++ SLASH :: drop (pos + 1) path ∧ SLASH ∉ drop (pos + 1) path.
Proof.
  revert pos. induction path as [|c path IH]; intros pos; simpl; [done|].
  assert (rfind_slash path = None → SLASH ∉ path) as Hnone.
  { clear. induction path as [|c path IH]; simpl; [by intros _ ?%not_elem_of_nil|].
    destruct (rfind_slash path); [done|]. destruct (Ascii.eqb_spec c SLASH); [done|].
    intros _. apply not_elem_of_cons. auto. }
  destruct (rfind_slash path) as [i|].
  - intros [= <-]. destruct (IH i eq_refl) as [E Hn]. simpl. split; [by f_equal|done].
  - destruct (Ascii.eqb_spec c SLASH) as [->|]; [|done]. intros [= <-]. simpl.
    rewrite drop_0. auto.
Qed.

(** A path with a directory part is its [dirname], a slash and its [basename], and
    the [basename] contains no slash. *)
Lemma path_roundtrip (path : bytes) (pos : nat) :
  rfind_slash path = Some pos → (0 < pos)%nat →
  dirname path ++ SLASH :: basename path = path ∧ SLASH ∉ basename path.
Proof.
  intros Hp Hpos. destruct (rfind_slash_spec path pos Hp) as [E Hn].
  unfold dirname, basename. rewrite Hp. destruct (Nat.eqb_spec pos 0); [lia|]. auto.
Qed.

(** ** Formatting *)
Section format_facts.
Variable alloc : Z → bool.

Lemma format_two (text : bytes) :
  ∃ r, Ports.format_loop alloc 2 0 256 text = Some r ∧ (r = text ∨ r = []) ∧
       ((∀ n, alloc n = true) → size text ≤ INT_MAX → r = text).
Proof.
  unfold Ports.format_loop. destruct (Z.ltb_spec INT_MAX (size text)); simpl.
  { exists []. split; [done|]. split; [auto|]. lia. }
  assert (0 ≤ size text) by (unfold size; lia).
  rewrite (proj2 (Z.ltb_ge (size text) 0)) by lia.
  destruct (Z.leb_spec 256 (size text)); [|by exists text; auto].
  destruct (alloc (size text + 1)) eqn:Ea; simpl.
  - rewrite (proj2 (Z.leb_gt (size text + 1) (size text))) by lia. exists text. auto.
  - exists []. split; [done|]. split; [auto|]. intros Hall. by rewrite Hall in Ea.
Qed.

(** The loop of [format] ends after at most two of its six iterations; its result
    is the complete text or empty, and the complete text when memory is available
    and the text is not longer than an [int] can count. *)
Lemma format_terminates (text : bytes) :
  ∃ r, Ports.format_loop alloc 2 0 256 text = Some r ∧ (r = text ∨ r = []) ∧
       ((∀ n, alloc n = true) → size text ≤ INT_MAX → r = text).
Proof. apply format_two. Qed.

Lemma format_loop_more n k lc bs text r :
  Ports.format_loop alloc n lc bs text = Some r →
  Ports.format_loop alloc (n + k) lc bs text = Some r.
Proof.
  revert lc bs. induction n as [|n IH]; intros lc bs; simpl; [done|].
  repeat case_match; auto.
Qed.

Lemma format_exact fmt args : (∀ n, alloc n = true) →
  size (printf_s (str fmt) args) ≤ INT_MAX →
  Ports.format alloc fmt args = printf_s (str fmt) args.
Proof.
  intros Ha Hs. unfold Ports.format. rewrite Ha. simpl negb. cbv iota.
  destruct (format_two (printf_s (str fmt) args)) as (r & Hr & _ & Hex).
  change 6%nat with (2 + 4)%nat. rewrite (format_loop_more 2 4 _ _ _ r Hr). auto.
Qed.
End format_facts.

(** ** Finding a device by its serial number *)
Lemma contains_app (a b c : bytes) : contains (a ++ b ++ c) b = true.
Proof.
  unfold contains. destruct (find b (a ++ b ++ c)) eqn:E; [done|].
  pose proof (find_None _ _ E (length a)) as H. rewrite drop_app_length in H.
  assert (prefixb b (b ++ c) = true) as Hp by (apply prefixb_spec; by exists c). congruence.
Qed.

Lemma find_port_app before d after param :
  Forall (λ d, port_matches param d = false) before → port_matches param d = true →
  find_port (before ++ d :: after) param = port d.
Proof.
  intros Hb Hd. unfold find_port. rewrite devices_match_filter.
  induction Hb as [|d' before Hd' _ IH]; simpl; [by rewrite Hd|]. by rewrite Hd'.
Qed.

Lemma c_str_app a b : c_str a = a → c_str (a ++ b) = a ++ c_str b.
Proof.
  induction a as [|x a IH]; simpl; [done|]. destruct (code x =? 0); [done|].
  intros [= H]. f_equal. auto.
Qed.

Lemma c_str_size s : size (c_str s) ≤ size s.
Proof.
  unfold size. induction s as [|x s IH]; simpl; [done|]. destruct (code x =? 0); simpl; lia.
Qed.

Section search.
Variable alloc : Z → bool.
Variable fs : filesystem.
Hypothesis Halloc : ∀ n, alloc n = true.

(** The sysfs directory of a USB serial device. *)
Definition usb_dir (device : bytes) : bytes :=
  dirname (dirname (Ports.realpath fs
    (Ports.format alloc "/sys/class/tty/%s/device" [basename device]))).

Lemma hw_string_serial dir sn :
  Ports.read_line fs (dir ++ str "/serial") = sn → sn ≠ [] → c_str sn = sn →
  size (Ports.read_line fs (dir ++ str "/idVendor")) +
  size (Ports.read_line fs (dir ++ str "/idProduct")) + size sn ≤ 2 ^ 30 →
  ∃ pre, Ports.usb_sysfs_hw_string alloc fs dir = pre ++ sn ++ [].
Proof.
  intros Hsn Hne Hc Hlen. unfold Ports.usb_sysfs_hw_string. rewrite Hsn.
  assert (0 < size sn) as Hpos by (destruct sn; [done|]; unfold size; simpl; lia).
  rewrite (proj2 (Z.ltb_lt _ _) Hpos).
  set (vid := Ports.read_line fs (dir ++ str "/idVendor")) in *.
  set (pid := Ports.read_line fs (dir ++ str "/idProduct")) in *.
  pose proof (c_str_size vid). pose proof (c_str_size pid).
  assert (0 ≤ size vid ∧ 0 ≤ size pid) as [??] by (unfold size; lia).
  assert (Ports.format alloc "SNR=%s" [sn] = str "SNR=" ++ sn) as ->.
  { rewrite format_exact; [simpl; by rewrite Hc, app_nil_r|done|].
    simpl printf_s. rewrite Hc, app_nil_r. unfold size, INT_MAX in *. simpl. lia. }
  assert (printf_s (str "USB VID:PID=%s:%s %s") [vid; pid; str "SNR=" ++ sn] =
    str "USB VID:PID=" ++ c_str vid ++ str ":" ++ c_str pid ++ str " SNR=" ++ sn) as E.
  { simpl. by rewrite Hc, app_nil_r. }
  rewrite format_exact; [|done|].
  - rewrite E, app_nil_r.
    exists (str "USB VID:PID=" ++ c_str vid ++ str ":" ++ c_str pid ++ str " SNR=").
    by rewrite <- !app_assoc.
  - rewrite E. unfold size, INT_MAX in *. rewrite !length_app. simpl. lia.
Qed.

End search.

(** ** A system with two USB devices *)
Definition lookup_in {A} (t : list (string * A)) (k : bytes) : option A :=
  match List.find (λ e, str_eqb (str e.1) k) t with Some e => Some e.2 | None => None end.

Definition two_devices : filesystem := mkFs
  (λ p, if str_eqb p (str "/dev/ttyUSB*") then [str "/dev/ttyUSB0"; str "/dev/ttyUSB1"] else [])
  (λ p, str_eqb p (str "/sys/devices/usb1/1-1") || str_eqb p (str "/sys/devices/usb1/1-2"))
  (lookup_in
     [("/sys/class/tty/ttyUSB0/device", str "/sys/devices/usb1/1-1/1-1:1.0/ttyUSB0");
      ("/sys/class/tty/ttyUSB1/device", str "/sys/devices/usb1/1-2/1-2:1.0/ttyUSB1")]%string)
  (lookup_in
     [("/sys/devices/usb1/1-1/serial", str "6ATT1788D");
      ("/sys/devices/usb1/1-2/serial", str "A9J0G3SV");
      ("/sys/devices/usb1/1-2/idVendor", str "0403");
      ("/sys/devices/usb1/1-2/idProduct", str "6001")]%string).


Lemma path_roundtrip_witness :
  dirname (str "/dev/ttyUSB1") ++ SLASH :: basename (str "/dev/ttyUSB1") = str "/dev/ttyUSB1".
Proof.
  apply (path_roundtrip (str "/dev/ttyUSB1") 4); [by vm_compute|lia].
Defined.
