(* ===== verification/PortsWin.v ===== *)
(** * src/impl/list_ports/list_ports_win.cc: the serial ports of Windows

    The enumeration over the devices of the class of ports and their entries in the
    registry, for the build without UNICODE, in which [TCHAR] is [char] and
    [utf8_encode] is not used.  The registry is a parameter.  The buffers are arrays
    of indeterminate contents; an access outside them is undefined. *)
From S2P Require Import Prelude CppStd Utilities Ports.

Definition NUL : ascii := ascii_of_nat 0.

(** A device: the data of its value [PortName] and of its two properties, [None]
    where the query fails. *)
Record win_device := mkWinDevice {
  reg_port_name : option bytes;
  reg_friendly_name : option bytes;
  reg_hardware_id : option bytes;
}.

Definition port_name_max_length : Z := 256.
Definition friendly_name_max_length : Z := 256.
Definition hardware_id_max_length : Z := 256.
Definition EXIT_SUCCESS : Z := 0.
Definition ERROR_FILE_NOT_FOUND : Z := 2.
Definition ERROR_MORE_DATA : Z := 234.

Module WinPorts.

(** The data at the start of a buffer. *)
Definition store (data buf : bytes) : bytes := data ++ drop (length data) buf.

(** [RegQueryValueEx] into a buffer of [len] bytes: the result, the buffer and the
    length of the data.  Data that does not fit is not stored. *)
Definition RegQueryValueEx (value : option bytes) (buf : bytes) (len : Z) : Z * bytes * Z :=
  match value with
  | None => (ERROR_FILE_NOT_FOUND, buf, len)
  | Some d => if size d <=? len then (EXIT_SUCCESS, store d buf, size d)
              else (ERROR_MORE_DATA, buf, size d)
  end.

(** [SetupDiGetDeviceRegistryProperty]: success, the buffer and the length. *)
Definition GetDeviceRegistryProperty (value : option bytes) (buf : bytes) (len : Z) :
    bool * bytes * Z :=
  match value with
  | None => (false, buf, 0)
  | Some d => if size d <=? len then (true, store d buf, size d) else (false, buf, size d)
  end.

(** [buf[i] = '\0'] *)
Definition terminate_at (buf : bytes) (i : Z) : outcome bytes :=
  if (0 <=? i) && (i <? size buf) then Ret (<[Z.to_nat i := NUL]> buf) else Undef.

(** [std::string s = buf]: the characters before the first null character, which
    must be in the buffer. *)
Definition string_of (buf : bytes) : outcome bytes :=
  if memb NUL buf then Ret (c_str buf) else Undef.

Definition get_port_name (dev : win_device) (garbage : bytes) : outcome (option bytes) :=
  let '(return_code, port_name, port_name_length) :=
    RegQueryValueEx (reg_port_name dev) garbage port_name_max_length in
  if negb (return_code =? EXIT_SUCCESS) then Ret None
  else
    port_name <--
      (if (0 <? port_name_length) && (port_name_length <=? port_name_max_length)
       then terminate_at port_name (port_name_length - 1)
       else terminate_at port_name 0) ;;
    Ret (Some port_name).

(** The two properties are read in the same way. *)
Definition get_property (value : option bytes) (garbage : bytes) (max_length : Z) :
    outcome bytes :=
  let '(got, buf, actual_length) := GetDeviceRegistryProperty value garbage max_length in
  buf <-- (if got && (0 <? actual_length) then terminate_at buf (actual_length - 1)
           else terminate_at buf 0) ;;
  string_of buf.

(** The body of the loop: the entry for a device, if it is listed. *)
Definition port_entry (dev : win_device) (garbage : bytes) : outcome (option PortInfo) :=
  p <-- get_port_name dev garbage ;;
  match p with
  | None => Ret None
  | Some port_name =>
    name <-- string_of port_name ;;
    if contains name (str "LPT") then Ret None
    else
      friendlyName <-- get_property (reg_friendly_name dev) garbage friendly_name_max_length ;;
      hardwareId <-- get_property (reg_hardware_id dev) garbage hardware_id_max_length ;;
      Ret (Some (mkPortInfo name friendlyName hardwareId))
  end.

(** The loop over the devices [SetupDiEnumDeviceInfo] delivers. *)
Fixpoint list_ports (devices : list win_device) (garbage : bytes) : outcome (list PortInfo) :=
  match devices with
  | [] => Ret []
  | dev :: rest =>
    e <-- port_entry dev garbage ;;
    found <-- list_ports rest garbage ;;
    Ret (match e with Some p => p :: found | None => found end)
  end.
End WinPorts.

(** ** What is listed *)

(** What is made of the data of a registry entry: the last byte is taken to be the
    terminator. *)
Definition shown (value : option bytes) : bytes :=
  match value with
  | Some d => if size d <=? 256 then c_str (take (length d - 1) d) else []
  | None => []
  end.

Definition listed (dev : win_device) : option PortInfo :=
  match reg_port_name dev with
  | Some d =>
    if (size d <=? 256) && negb (contains (shown (Some d)) (str "LPT"))
    then Some (mkPortInfo (shown (Some d)) (shown (reg_friendly_name dev))
                 (shown (reg_hardware_id dev)))
    else None
  | None => None
  end.

Lemma c_str_stop a b : c_str (a ++ NUL :: b) = c_str a.
Proof. induction a as [|x a IH]; simpl; [done|]. destruct (code x =? 0); [done|]. by rewrite IH. Qed.

Lemma memb_middle c (a b : bytes) : memb c (a ++ c :: b) = true.
Proof. unfold memb. rewrite existsb_app. simpl. by rewrite Ascii.eqb_refl, orb_true_r. Qed.

Lemma c_str_take k (s : bytes) : c_str s = s → c_str (take k s) = take k s.
Proof.
  revert k. induction s as [|x s IH]; intros [|k]; simpl; try done.
  destruct (code x =? 0); [done|]. intros [= H]. f_equal. auto.
Qed.

(** A buffer with a terminator inside reads as the text before it. *)
Lemma terminated_text (buf : bytes) (i : nat) : (i < length buf)%nat →
  ∃ buf', WinPorts.terminate_at buf (Z.of_nat i) = Ret buf' ∧
          WinPorts.string_of buf' = Ret (c_str (take i buf)).
Proof.
  intros Hi. unfold WinPorts.terminate_at, WinPorts.string_of, size.
  rewrite (proj2 (andb_true_iff _ _)) by lia. eexists. split; [done|].
  by rewrite Nat2Z.id, insert_take_drop, memb_middle, c_str_stop.
Qed.

Section listing.
Context (garbage : bytes) (Hg : length garbage = 256%nat).

Lemma store_length d : (length d ≤ 256)%nat → length (WinPorts.store d garbage) = 256%nat.
Proof. intros Hd. unfold WinPorts.store. rewrite length_app, length_drop. lia. Qed.

(** The common end of the queries: data that fits, terminated at its last byte. *)
Lemma stored_text d : size d ≤ 256 →
  ∃ buf, (if 0 <? size d then WinPorts.terminate_at (WinPorts.store d garbage) (size d - 1)
          else WinPorts.terminate_at (WinPorts.store d garbage) 0) = Ret buf ∧
         WinPorts.string_of buf = Ret (c_str (take (length d - 1) d)).
Proof.
  unfold size. intros Hd. pose proof (store_length d ltac:(lia)) as Hl.
  destruct (Z.ltb_spec 0 (Z.of_nat (length d))) as [H0|H0].
  - destruct (terminated_text (WinPorts.store d garbage) (length d - 1)) as (b & E & Es); [lia|].
    exists b. replace (Z.of_nat (length d) - 1) with (Z.of_nat (length d - 1)) by lia.
    split; [done|]. rewrite Es. unfold WinPorts.store. by rewrite take_app_le by lia.
  - destruct (terminated_text (WinPorts.store d garbage) 0) as (b & E & Es); [lia|].
    exists b. split; [done|]. rewrite Es. by destruct d; [|simpl in H0; lia].
Qed.

Lemma get_property_shown value : WinPorts.get_property value garbage 256 = Ret (shown value).
Proof.
  unfold WinPorts.get_property, WinPorts.GetDeviceRegistryProperty, shown.
  destruct (terminated_text garbage 0) as (b & E & Es); [lia|].
  destruct value as [d|]; [destruct (Z.leb_spec (size d) 256) as [Hd|Hd]|]; simpl.
  - destruct (stored_text d Hd) as (b' & E' & Es'). rewrite E'. simpl. exact Es'.
  - change 0 with (Z.of_nat 0) at 1. rewrite E. simpl. exact Es.
  - change 0 with (Z.of_nat 0) at 1. rewrite E. simpl. exact Es.
Qed.

Lemma port_entry_listed dev : WinPorts.port_entry dev garbage = Ret (listed dev).
Proof.
  unfold WinPorts.port_entry, WinPorts.get_port_name, WinPorts.RegQueryValueEx, listed.
  destruct (reg_port_name dev) as [d|]; [|done].
  change port_name_max_length with 256. unfold shown at 1 2.
  destruct (Z.leb_spec (size d) 256) as [Hd|Hd]; [|done]. cbn [negb EXIT_SUCCESS].
  rewrite (proj2 (Z.leb_le (size d) 256) Hd), andb_true_r.
  destruct (stored_text d Hd) as (b & E & Es). simpl. rewrite E. simpl. rewrite Es. simpl.
  destruct (contains _ _); [done|]. simpl.
  by rewrite !get_property_shown.
Qed.

Lemma list_ports_listed devices : WinPorts.list_ports devices garbage = Ret (omap listed devices).
Proof.
  induction devices as [|dev rest IH]; [done|]. simpl. rewrite port_entry_listed.
  simpl. rewrite IH. simpl. by destruct (listed dev).
Qed.
End listing.

(** C25: the enumeration stays inside its buffers whatever the registry holds, and
    lists exactly the devices with a port name that fits and is no printer port.
    A text stored with its terminator is delivered unchanged; one stored without,
    which the registry allows, loses its last character. *)
Theorem win_ports_listed (devices : list win_device) (garbage : bytes) :
  length garbage = 256%nat →
  WinPorts.list_ports devices garbage = Ret (omap listed devices) ∧
  ∀ s, c_str s = s → size s < 256 →
    shown (Some (s ++ [NUL])) = s ∧ shown (Some s) = take (length s - 1) s.
Proof.
  intros Hg. split.
  - by apply list_ports_listed.
  - intros s Hs Hl. unfold shown, size in *. rewrite length_app. simpl length.
    rewrite !(proj2 (Z.leb_le _ _)) by lia. split; [|by apply c_str_take].
    by rewrite Nat.add_sub, take_app_length.
Qed.

Definition two_entries : list win_device :=
  [mkWinDevice (Some (str "COM3" ++ [NUL])) (Some (str "USB Serial Port (COM3)"))
     (Some (str "FTDIBUS\COMPORT" ++ [NUL; NUL]));
   mkWinDevice (Some (str "LPT1" ++ [NUL])) None None].

Lemma win_ports_listed_witness :
  WinPorts.list_ports two_entries (repeat "x"%char 256) =
  Ret [mkPortInfo (str "COM3") (str "USB Serial Port (COM3") (str "FTDIBUS\COMPORT")].
Proof. apply (win_ports_listed two_entries (repeat "x"%char 256)). reflexivity. Defined.
