(* ===== verification/PortsWinUnicode.v ===== *)
(** * src/impl/list_ports/list_ports_win.cc in the build with UNICODE

    In this build [TCHAR] is a 16-bit [wchar_t], so that each of the three arrays has
    512 bytes, while the registry is still told that there are 256 and answers with
    lengths in bytes, which the code uses as indices of characters.  The texts are
    converted with [utf8_encode].  The registry, as in PortsWin.v, and
    [WideCharToMultiByte] are parameters; the contents of the arrays before the queries
    are indeterminate and differ from array to array. *)
From S2P Require Import Prelude CppStd Utilities Ports PortsWin.

(** [WideCharToMultiByte(CP_UTF8, 0, s, n, buf, len, NULL, NULL)]: the number of bytes
    and the buffer. *)
Class Win32Text := WideCharToMultiByte : list Z → bytes → Z → Z * bytes.

(** Its documented behaviour: it fails with 0 for no characters, it returns the size
    needed for a buffer of size 0, and it stores the encoding where it fits. *)
Class Win32TextOK `{Win32Text} (utf8 : list Z → bytes) : Prop := {
  utf8_nil : utf8 [] = [];
  no_characters buf len : WideCharToMultiByte [] buf len = (0, buf);
  size_needed w buf : w ≠ [] → WideCharToMultiByte w buf 0 = (size (utf8 w), buf);
  encoded w buf len : w ≠ [] → size (utf8 w) ≤ len → size buf = len →
    WideCharToMultiByte w buf len =
    (size (utf8 w), utf8 w ++ drop (length (utf8 w)) buf);
}.

Module WinPortsW.

(** The characters in a buffer, two bytes each with the low one first. *)
Fixpoint units (buf : bytes) : list Z :=
  match buf with
  | lo :: hi :: rest => code lo + 256 * code hi :: units rest
  | _ => []
  end.

(** The characters before the first null character. *)
Fixpoint wtext (w : list Z) : list Z :=
  match w with
  | c :: w' => if c =? 0 then [] else c :: wtext w'
  | [] => []
  end.

(** [buf[i] = '\0'], on an array of characters of two bytes. *)
Definition terminate_at (buf : bytes) (i : Z) : outcome bytes :=
  if (0 <=? i) && (2 * i + 1 <? size buf)
  then Ret (<[Z.to_nat (2 * i) := NUL]> (<[Z.to_nat (2 * i + 1) := NUL]> buf))
  else Undef.

(** [std::wstring s = buf] *)
Definition wstring_of (buf : bytes) : outcome (list Z) :=
  if existsb (λ c, c =? 0) (units buf) then Ret (wtext (units buf)) else Undef.

(** [wcsstr(s, p) != NULL] *)
Fixpoint wcsstr (s p : list Z) : bool :=
  bool_decide (take (length p) s = p) ||
  match s with [] => false | _ :: s' => wcsstr s' p end.

Section unicode.
Context `{Win32Text}.

Definition utf8_encode (wstr : list Z) : bytes :=
  let size_needed := (WideCharToMultiByte wstr [] 0).1 in
  let strTo := repeat NUL (Z.to_nat size_needed) in
  (WideCharToMultiByte wstr strTo size_needed).2.

Definition get_port_name (dev : win_device) (garbage : bytes) : outcome (option bytes) :=
  let '(return_code, port_name, port_name_length) :=
    WinPorts.RegQueryValueEx (reg_port_name dev) garbage port_name_max_length in
  if negb (return_code =? EXIT_SUCCESS) then Ret None
  else
    port_name <--
      (if (0 <? port_name_length) && (port_name_length <=? port_name_max_length)
       then terminate_at port_name (port_name_length - 1)
       else terminate_at port_name 0) ;;
    Ret (Some port_name).

Definition get_property (value : option bytes) (garbage : bytes) (max_length : Z) :
    outcome (list Z) :=
  let '(got, buf, actual_length) :=
    WinPorts.GetDeviceRegistryProperty value garbage max_length in
  buf <-- (if got && (0 <? actual_length) then terminate_at buf (actual_length - 1)
           else terminate_at buf 0) ;;
  wstring_of buf.

(** The body of the loop; [g1], [g2] and [g3] are what the three arrays hold. *)
Definition port_entry (dev : win_device) (g1 g2 g3 : bytes) : outcome (option PortInfo) :=
  p <-- get_port_name dev g1 ;;
  match p with
  | None => Ret None
  | Some port_name =>
    name <-- wstring_of port_name ;;
    if wcsstr name (map code (str "LPT")) then Ret None
    else
      friendly <-- get_property (reg_friendly_name dev) g2 friendly_name_max_length ;;
      hardware <-- get_property (reg_hardware_id dev) g3 hardware_id_max_length ;;
      Ret (Some (mkPortInfo (utf8_encode name) (utf8_encode friendly)
                   (utf8_encode hardware)))
  end.

(** The loop; [garbage i k] is the contents of array [k] in iteration [i]. *)
Fixpoint list_ports (devices : list win_device) (garbage : nat → nat → bytes) (i : nat) :
    outcome (list PortInfo) :=
  match devices with
  | [] => Ret []
  | dev :: rest =>
    e <-- port_entry dev (garbage i 0%nat) (garbage i 1%nat) (garbage i 2%nat) ;;
    found <-- list_ports rest garbage (S i) ;;
    Ret (match e with Some p => p :: found | None => found end)
  end.
End unicode.
End WinPortsW.
Import WinPortsW.

(** ** What is listed *)

(** Characters as the bytes of the registry. *)
Definition wbytes (w : list Z) : bytes :=
  w ≫= λ c, [ascii_of_nat (Z.to_nat (c mod 256)); ascii_of_nat (Z.to_nat (c / 256))].

(** A text of 16-bit characters with no null character inside. *)
Definition wide_text (w : list Z) : Prop := Forall (λ c, 0 < c < 2 ^ 16) w.

(** What is made of the data of an entry: the terminator is written at twice the
    length of the data, so that the data is followed by what the array held. *)
Definition wshown (value : option bytes) (garbage : bytes) : list Z :=
  match value with
  | Some d => if size d <=? 256
              then wtext (take (length d - 1) (units (WinPorts.store d garbage))) else []
  | None => []
  end.

Definition wlisted (utf8 : list Z → bytes) (dev : win_device) (g1 g2 g3 : bytes) :
    option PortInfo :=
  match reg_port_name dev with
  | Some d =>
    if (size d <=? 256) && negb (wcsstr (wshown (Some d) g1) (map code (str "LPT")))
    then Some (mkPortInfo (utf8 (wshown (Some d) g1)) (utf8 (wshown (reg_friendly_name dev) g2))
                 (utf8 (wshown (reg_hardware_id dev) g3)))
    else None
  | None => None
  end.

Fixpoint wlist (utf8 : list Z → bytes) (devices : list win_device)
    (garbage : nat → nat → bytes) (i : nat) : list PortInfo :=
  match devices with
  | [] => []
  | dev :: rest =>
    match wlisted utf8 dev (garbage i 0%nat) (garbage i 1%nat) (garbage i 2%nat) with
    | Some p => p :: wlist utf8 rest garbage (S i)
    | None => wlist utf8 rest garbage (S i)
    end
  end.

Lemma units_app (a b : bytes) (n : nat) : length a = (2 * n)%nat →
  units (a ++ b) = units a ++ units b ∧ length (units a) = n.
Proof.
  revert a. induction n as [|n IH]; intros [|x [|y a]] Ha; simpl in *; try lia; [done|].
  destruct (IH a ltac:(lia)) as [-> ->]. done.
Qed.

Lemma wtext_stop a b : wtext (a ++ 0 :: b) = wtext a.
Proof. induction a as [|x a IH]; simpl; [done|]. destruct (x =? 0); [done|]. by rewrite IH. Qed.

Lemma wtext_app a b : Forall (λ c, 0 < c) a → wtext (a ++ b) = a ++ wtext b.
Proof.
  induction 1 as [|x a Hx Ha IH]; simpl; [done|].
  by rewrite (proj2 (Z.eqb_neq x 0)), IH by lia.
Qed.

Lemma units_wbytes w : wide_text w → units (wbytes w) = w.
Proof.
  induction 1 as [|c w Hc Hw IH]; [done|]. simpl. rewrite IH. f_equal.
  unfold code. pose proof (Z.mod_pos_bound c 256 ltac:(lia)).
  pose proof (Z.div_pos c 256). assert (c / 256 < 256) by (apply Z.div_lt_upper_bound; lia).
  rewrite !nat_ascii_embedding by lia. rewrite !Z2Nat.id by lia.
  pose proof (Z.div_mod c 256). lia.
Qed.

Lemma length_wbytes w : length (wbytes w) = (2 * length w)%nat.
Proof. induction w as [|c w IH]; simpl; [done|]. unfold wbytes in *. rewrite IH. lia. Qed.

(** A buffer of 256 characters with a terminator written at [i] reads as the text
    before it. *)
Lemma terminated_wtext (buf : bytes) (i : nat) : length buf = 512%nat → (i < 256)%nat →
  ∃ buf', terminate_at buf (Z.of_nat i) = Ret buf' ∧
          wstring_of buf' = Ret (wtext (take i (units buf))).
Proof.
  intros Hl Hi. unfold terminate_at, size.
  rewrite (proj2 (andb_true_iff _ _)) by lia. eexists. split; [done|].
  assert (∃ a x y b, buf = a ++ x :: y :: b ∧ length a = (2 * i)%nat) as
    (a & x & y & b & -> & Ha).
  { exists (take (2 * i) buf). destruct (drop (2 * i) buf) as [|x [|y b]] eqn:E;
      apply (f_equal length) in E as El; rewrite length_drop in El; simpl in El; try lia.
    exists x, y, b. rewrite <- E, take_drop, length_take. split; [done|lia]. }
  replace (Z.to_nat (2 * Z.of_nat i)) with (length a + 0)%nat by lia.
  replace (Z.to_nat (2 * Z.of_nat i + 1)) with (length a + 1)%nat by lia.
  rewrite !insert_app_r. cbn [insert list_insert].
  unfold wstring_of. destruct (units_app a (NUL :: NUL :: b) i Ha) as [-> Hn].
  destruct (units_app a (x :: y :: b) i Ha) as [-> _]. rewrite take_app_length' by done.
  cbn [units]. change (code NUL + 256 * code NUL) with 0.
  by rewrite existsb_app, wtext_stop, orb_comm.
Qed.

Section listing.
Context `{Win32Text} (utf8 : list Z → bytes) {HOK : Win32TextOK utf8}.

(** The two calls of [utf8_encode] size the string exactly. *)
Lemma utf8_encode_utf8 w : utf8_encode w = utf8 w.
Proof using HOK.
  unfold utf8_encode. destruct (decide (w = [])) as [->|Hw].
  - rewrite !no_characters, utf8_nil. done.
  - rewrite size_needed by done. cbn [fst]. unfold size at 1. rewrite Nat2Z.id.
    rewrite encoded; [|done|lia|unfold size; by rewrite repeat_length].
    cbn [snd]. by rewrite drop_ge, app_nil_r by (rewrite repeat_length; lia).
Qed.

Lemma stored_wtext d garbage : length garbage = 512%nat → size d ≤ 256 →
  ∃ buf, (if 0 <? size d then terminate_at (WinPorts.store d garbage) (size d - 1)
          else terminate_at (WinPorts.store d garbage) 0) = Ret buf ∧
         wstring_of buf =
           Ret (wtext (take (length d - 1) (units (WinPorts.store d garbage)))).
Proof.
  unfold size. intros Hg Hd.
  assert (length (WinPorts.store d garbage) = 512%nat) as Hl.
  { unfold WinPorts.store. rewrite length_app, length_drop. lia. }
  destruct (terminated_wtext _ (length d - 1) Hl) as (b & E & Es); [lia|].
  exists b. split; [|done]. rewrite <- E.
  destruct (Z.ltb_spec 0 (Z.of_nat (length d))); f_equal; lia.
Qed.

Lemma get_property_wshown value garbage : length garbage = 512%nat →
  get_property value garbage 256 = Ret (wshown value garbage).
Proof.
  intros Hg. unfold get_property, WinPorts.GetDeviceRegistryProperty, wshown.
  destruct (terminated_wtext garbage 0 Hg) as (b & E & Es); [lia|].
  destruct value as [d|]; [destruct (Z.leb_spec (size d) 256) as [Hd|Hd]|]; simpl.
  - destruct (stored_wtext d garbage Hg Hd) as (b' & E' & Es'). rewrite E'. exact Es'.
  - change 0 with (Z.of_nat 0) at 1. rewrite E. exact Es.
  - change 0 with (Z.of_nat 0) at 1. rewrite E. exact Es.
Qed.

Lemma port_entry_wlisted dev g1 g2 g3 :
  length g1 = 512%nat → length g2 = 512%nat → length g3 = 512%nat →
  port_entry dev g1 g2 g3 = Ret (wlisted utf8 dev g1 g2 g3).
Proof using HOK.
  intros H1 H2 H3.
  unfold port_entry, get_port_name, WinPorts.RegQueryValueEx, wlisted.
  destruct (reg_port_name dev) as [d|]; [|done].
  change port_name_max_length with 256. unfold wshown at 1 2.
  destruct (Z.leb_spec (size d) 256) as [Hd|Hd]; [|done]. cbn [negb EXIT_SUCCESS].
  rewrite (proj2 (Z.leb_le (size d) 256) Hd), andb_true_r.
  destruct (stored_wtext d g1 H1 Hd) as (b & E & Es). simpl. rewrite E. simpl. rewrite Es. simpl.
  destruct (wcsstr _ _); [done|]. simpl.
  rewrite !get_property_wshown by done. simpl. by rewrite !utf8_encode_utf8.
Qed.

Lemma list_ports_wlist devices garbage i : (∀ i k, length (garbage i k) = 512%nat) →
  list_ports devices garbage i = Ret (wlist utf8 devices garbage i).
Proof using HOK.
  intros Hg. revert i. induction devices as [|dev rest IH]; intros i; [done|]. simpl.
  rewrite port_entry_wlisted by done. simpl. rewrite IH. simpl. by destruct (wlisted _ _ _ _ _).
Qed.
End listing.

(** A text stored with its terminator is read as it is, whatever follows. *)
Lemma wshown_terminated w garbage : wide_text w → (length w ≤ 127)%nat →
  wshown (Some (wbytes w ++ [NUL; NUL])) garbage = w.
Proof.
  intros Hw Hl. unfold wshown, size. rewrite length_app, length_wbytes.
  rewrite (proj2 (Z.leb_le _ _)) by (simpl; lia).
  unfold WinPorts.store. rewrite <- app_assoc.
  destruct (units_app (wbytes w) ([NUL; NUL] ++ drop (length (wbytes w ++ [NUL; NUL])) garbage)
              (length w) (length_wbytes w)) as [-> Hn].
  rewrite (units_wbytes _ Hw). cbn [app units]. change (code NUL + 256 * code NUL) with 0.
  rewrite take_app_ge by (cbn [length]; lia).
  replace (_ - length w)%nat with (S (length w)) by (cbn [length]; lia).
  cbn [take]. rewrite wtext_stop, <- (app_nil_r w) at 1.
  rewrite wtext_app; [by rewrite app_nil_r|]. eapply Forall_impl; [exact Hw|simpl; lia].
Qed.

(** One stored without terminator is followed by up to [length w - 1] characters of
    what the array held. *)
Lemma wshown_unterminated w garbage : wide_text w → (0 < length w ≤ 128)%nat →
  wshown (Some (wbytes w)) garbage =
  w ++ wtext (take (length w - 1) (units (drop (2 * length w) garbage))).
Proof.
  intros Hw Hl. unfold wshown, size. rewrite length_wbytes.
  rewrite (proj2 (Z.leb_le _ _)) by lia. unfold WinPorts.store.
  destruct (units_app (wbytes w) (drop (length (wbytes w)) garbage)
              (length w) (length_wbytes w)) as [-> Hn].
  rewrite (units_wbytes _ Hw), length_wbytes, take_app_ge by lia.
  replace (2 * length w - 1 - length w)%nat with (length w - 1)%nat by lia.
  apply wtext_app. eapply Forall_impl; [exact Hw|simpl; lia].
Qed.

(** C26: in the build with UNICODE the enumeration also stays inside its arrays whatever
    the registry holds, and lists the devices whose port name has at most 256 bytes and
    is no printer port, with their texts in UTF-8.  A text of up to 127 characters
    stored with its terminator is delivered unchanged whatever the arrays held before;
    one stored without is followed by as many characters of the array, less one, as it
    has itself. *)
Theorem win_unicode_listed `{Win32Text} (utf8 : list Z → bytes) (HOK : Win32TextOK utf8)
    (devices : list win_device) (garbage : nat → nat → bytes) :
  (∀ i k, length (garbage i k) = 512%nat) →
  list_ports devices garbage 0 = Ret (wlist utf8 devices garbage 0) ∧
  ∀ w g, wide_text w →
    ((length w ≤ 127)%nat → wshown (Some (wbytes w ++ [NUL; NUL])) g = w) ∧
    ((0 < length w ≤ 128)%nat → wshown (Some (wbytes w)) g =
       w ++ wtext (take (length w - 1) (units (drop (2 * length w) g)))).
Proof.
  intros Hg. split; [by apply list_ports_wlist|].
  intros w g Hw. split; intros Hl; [by apply wshown_terminated|by apply wshown_unterminated].
Qed.

(** ** UTF-8 *)

(** The code points of a text in UTF-16; a surrogate without its other half is
    replaced. *)
Fixpoint code_points (w : list Z) : list Z :=
  match w with
  | [] => []
  | c :: rest =>
    if (0xD800 <=? c) && (c <? 0xDC00) then
      match rest with
      | d :: rest' =>
        if (0xDC00 <=? d) && (d <? 0xE000)
        then 0x10000 + Z.shiftl (c - 0xD800) 10 + (d - 0xDC00) :: code_points rest'
        else 0xFFFD :: code_points rest
      | [] => [0xFFFD]
      end
    else if (0xDC00 <=? c) && (c <? 0xE000) then 0xFFFD :: code_points rest
    else c :: code_points rest
  end.

(** The bytes of a code point. *)
Definition utf8_bytes (c : Z) : list Z :=
  let cont i := Z.lor 0x80 (Z.land (Z.shiftr c i) 0x3F) in
  if c <? 0x80 then [c]
  else if c <? 0x800 then [Z.lor 0xC0 (Z.shiftr c 6); cont 0]
  else if c <? 0x10000 then [Z.lor 0xE0 (Z.shiftr c 12); cont 6; cont 0]
  else [Z.lor 0xF0 (Z.shiftr c 18); cont 12; cont 6; cont 0].

Definition utf8 (w : list Z) : bytes :=
  map (λ b, ascii_of_nat (Z.to_nat b)) (code_points w ≫= utf8_bytes).

#[export] Instance win32_utf8 : Win32Text := λ w buf len,
  if bool_decide (w = []) then (0, buf)
  else if len =? 0 then (size (utf8 w), buf)
  else if size (utf8 w) <=? len then (size (utf8 w), utf8 w ++ drop (length (utf8 w)) buf)
  else (0, buf).

#[export] Instance win32_utf8_ok : Win32TextOK utf8.
Proof.
  split.
  - done.
  - done.
  - intros w buf Hw. unfold WideCharToMultiByte, win32_utf8. by rewrite bool_decide_eq_false_2.
  - intros w buf len Hw Hs Hb. unfold WideCharToMultiByte, win32_utf8.
    rewrite bool_decide_eq_false_2 by done. destruct (Z.eqb_spec len 0) as [->|_].
    + unfold size in *. destruct buf; [|simpl in Hb; lia].
      destruct (utf8 w); [done|simpl in Hs; lia].
    + by rewrite (proj2 (Z.leb_le _ _)).
Qed.

(** A port stored with its terminator, with the description in Greek stored without:
    what the array held appears behind it. *)
Definition unicode_entries : list win_device :=
  [mkWinDevice (Some (wbytes (map code (str "COM4")) ++ [NUL; NUL]))
     (Some (wbytes [0x3B1; 0x3B2])) None;
   mkWinDevice (Some (wbytes (map code (str "LPT1")) ++ [NUL; NUL])) None None].

Lemma win_unicode_listed_witness :
  list_ports unicode_entries (λ _ _, repeat "x"%char 512) 0 =
  Ret [mkPortInfo (str "COM4")
         (map ascii_of_nat [0xCE; 0xB1; 0xCE; 0xB2; 0xE7; 0xA1; 0xB8]%nat) []].
Proof.
  destruct (win_unicode_listed utf8 win32_utf8_ok unicode_entries
              (λ _ _, repeat "x"%char 512) ltac:(done)) as [E _].
  rewrite E. vm_compute. reflexivity.
Defined.
