(* ===== verification/PortsMac.v ===== *)
(** * src/impl/list_ports/list_ports_osx.cc: the serial ports of macOS

    The walk through the registry of devices and the properties read from it.  The
    registry (IOKit) is a parameter.  The references the code holds to objects of
    Core Foundation and of the registry are counted, since releasing them is part of
    what the code does. *)
From S2P Require Import Prelude CppStd Utilities Ports.

(** A property: a string, with its ASCII encoding if it has one, a number, or a value
    of another type. *)
Inductive cfvalue := CFString (ascii : option bytes) | CFNumber (n : Z) | CFOther.

(** An object is a positive number; 0 is no object. *)
Record ioregistry := mkRegistry {
  io_class : Z → option bytes;
  io_parent : Z → option Z;
  io_property : Z → bytes → option cfvalue;
  (** [IOMasterPort] succeeds, [IOServiceMatching] returns a dictionary, and the
      serial services *)
  io_master_ok : bool;
  io_matching_ok : bool;
  io_services : option (list Z);
  (** [CFNumberGetValue] of a number as a signed 16-bit integer, [None] on failure *)
  cf_get_int16 : Z → option Z;
}.

(** The documented behaviour: the call fails when the number is out of range. *)
Class CFNumbers (reg : ioregistry) : Prop := {
  get_int16_ok n : in_sb 16 n = true → cf_get_int16 reg n = Some n;
  get_int16_range n : in_sb 16 n = false → cf_get_int16 reg n = None;
}.

(** The references held: what a function of Core Foundation or of the registry creates
    for its caller, less what was released.  The dictionary of [IOServiceMatching] is
    consumed by [IOServiceGetMatchingServices] and is not counted. *)
Record refs := mkRefs { cf_refs : Z; io_refs : Z }.
#[export] Instance eta_refs : Eta refs := λ r, mkRefs (cf_refs r) (io_refs r).

Definition MAXPATHLEN : Z := 1024.
Definition HARDWARE_ID_STRING_LENGTH : Z := 128.

(** [%04x] of a 16-bit number. *)
Definition hex_digit (n : Z) : ascii :=
  if n <? 10 then ascii_of_nat (Z.to_nat (48 + n)) else ascii_of_nat (Z.to_nat (87 + n)).
Definition hex4 (n : Z) : bytes :=
  map (λ i, hex_digit (Z.land (Z.shiftr n i) 15)) [12; 8; 4; 0].

Module MacPorts.
Section mac_ports.
Context (reg : ioregistry).

Definition retain_cf : M refs unit := modify (λ r, r <| cf_refs := cf_refs r + 1 |>).
Definition CFRelease : M refs unit := modify (λ r, r <| cf_refs := cf_refs r - 1 |>).
Definition retain_io : M refs unit := modify (λ r, r <| io_refs := io_refs r + 1 |>).
Definition IOObjectRelease : M refs unit := modify (λ r, r <| io_refs := io_refs r - 1 |>).

(** [IORegistryEntryCreateCFProperty]: the caller owns what it returns. *)
Definition CreateCFProperty (entry : Z) (key : bytes) : M refs (option cfvalue) :=
  let v := io_property reg entry key in
  (match v with Some _ => retain_cf | None => ret tt end) ;; ret v.

(** [CFStringGetCString] fails without an ASCII encoding and when the text and its
    terminator do not fit into the buffer. *)
Definition cfstring_to_string (cfstring : option bytes) : bytes :=
  match cfstring with
  | Some cstring => if size cstring <? MAXPATHLEN then c_str cstring else []
  | None => []
  end.

Definition get_device_path (serial_port : Z) : M refs bytes :=
  callout_path <- CreateCFProperty serial_port (str "IOCalloutDevice") ;;
  match callout_path with
  | None => ret []
  | Some v =>
    let device_path := match v with CFString s => cfstring_to_string s | _ => [] end in
    CFRelease ;; ret device_path
  end.

Definition get_class_name (obj : Z) : bytes :=
  match io_class reg obj with Some class_name => class_name | None => [] end.

(** The loop of [get_parent_iousb_device]: the device reached and whether the last
    call succeeded.  [IORegistryEntryGetParentEntry] returns a new reference. *)
Fixpoint parent_loop (fuel : nat) (device : Z) (kern_success : bool) : M refs Z :=
  match fuel with
  | O => spin
  | S f =>
    if str_eqb (get_class_name device) (str "IOUSBDevice")
    then ret (if kern_success then device else 0)
    else
      match io_parent reg device with
      | None => ret 0
      | Some parent => retain_io ;; parent_loop f parent true
      end
  end.
Definition get_parent_iousb_device (fuel : nat) (serial_port : Z) : M refs Z :=
  parent_loop fuel serial_port false.

(** The key is a string made for the call; its creation is taken to succeed. *)
Definition get_string_property (device : Z) (property : bytes) : M refs bytes :=
  if device =? 0 then ret []
  else
    retain_cf ;;
    name <- CreateCFProperty device property ;;
    r <- (match name with
          | None => ret []
          | Some v =>
            let property_name := match v with CFString s => cfstring_to_string s | _ => [] end in
            CFRelease ;; ret property_name
          end) ;;
    CFRelease ;; ret r.

Definition get_int_property (device : Z) (property : bytes) : M refs Z :=
  if device =? 0 then ret 0
  else
    retain_cf ;;
    number <- CreateCFProperty device property ;;
    CFRelease ;;
    match number with
    | None => ret 0
    | Some v =>
      let result :=
        match v with
        | CFNumber n => match cf_get_int16 reg n with Some w => u16 w | None => 0 end
        | _ => 0
        end in
      CFRelease ;; ret result
    end.

Definition rtrim (str : bytes) : bytes :=
  match find_last_not_of [SP; TAB; FF; VT; LF; CR] str with
  | Some found => take (found + 1) str
  | None => []
  end.

(** The text [snprintf] makes, and what the buffer holds when it fits. *)
Definition hardware_text (vendor_id product_id : Z) (serial_number : bytes) : bytes :=
  str "USB VID:PID=" ++ hex4 vendor_id ++ str ":" ++ hex4 product_id ++ str " SNR=" ++
  c_str serial_number.

(** The entry of a port; [parent] is its USB device. *)
Definition port_entry (device_path : bytes) (parent : Z) : M refs PortInfo :=
  product <- get_string_property parent (str "USB Product Name") ;;
  let device_name := rtrim product in
  vendor <- get_string_property parent (str "USB Vendor Name") ;;
  let vendor_name := rtrim vendor in
  let text := rtrim (vendor_name ++ str " " ++ device_name) in
  sn <- get_string_property parent (str "USB Serial Number") ;;
  let serial_number := rtrim sn in
  vendor_id <- get_int_property parent (str "idVendor") ;;
  product_id <- get_int_property parent (str "idProduct") ;;
  let hw :=
    if negb (vendor_id =? 0) && negb (product_id =? 0) then
      let serial_number := if str_eqb serial_number [] then str "None" else serial_number in
      let cstring := hardware_text vendor_id product_id serial_number in
      if size cstring <? HARDWARE_ID_STRING_LENGTH then cstring else str "n/a"
    else str "n/a" in
  ret (mkPortInfo device_path (if str_eqb text [] then str "n/a" else text) hw).

(** The loop over the iterator. *)
Fixpoint ports_loop (fuel : nat) (services : list Z) : M refs (list PortInfo) :=
  match services with
  | [] => ret []
  | serial_port :: rest =>
    retain_io ;;
    device_path <- get_device_path serial_port ;;
    parent <- get_parent_iousb_device fuel serial_port ;;
    IOObjectRelease ;;
    if str_eqb device_path [] then ports_loop fuel rest
    else
      info <- port_entry device_path parent ;;
      found <- ports_loop fuel rest ;;
      ret (info :: found)
  end.

Definition list_ports (fuel : nat) : M refs (list PortInfo) :=
  if negb (io_master_ok reg) then ret []
  else if negb (io_matching_ok reg) then ret []
  else
    match io_services reg with
    | None => ret []
    | Some services =>
      retain_io ;;
      found <- ports_loop fuel services ;;
      IOObjectRelease ;;
      ret found
    end.
End mac_ports.
End MacPorts.

(** ** Trimming *)

(** The two [rtrim] of the repository, with their sets of characters in a different
    order, are the same function. *)
Lemma mac_rtrim s : MacPorts.rtrim s = rtrim s.
Proof.
  unfold MacPorts.rtrim, rtrim.
  assert (find_last_not_of [SP; TAB; FF; VT; LF; CR] s = find_last_not_of WHITESPACE s) as ->;
    [|done].
  induction s as [|c s IH]; [done|]. cbn [find_last_not_of]. rewrite IH.
  destruct (find_last_not_of WHITESPACE s); [done|].
  assert (memb c [SP; TAB; FF; VT; LF; CR] = memb c WHITESPACE) as ->; [|done].
  unfold memb, WHITESPACE. cbn [existsb].
  by destruct (Ascii.eqb c SP), (Ascii.eqb c TAB), (Ascii.eqb c FF), (Ascii.eqb c VT),
    (Ascii.eqb c LF), (Ascii.eqb c CR).
Qed.

(** ** The walk to the USB device *)
Section mac_facts.
Context (reg : ioregistry).

Definition usb_class (d : Z) : bool :=
  str_eqb (MacPorts.get_class_name reg d) (str "IOUSBDevice").

(** The entries the walk from [d] reaches, and the USB device it ends at, 0 without
    one. *)
Inductive ancestors : Z → list Z → Z → Prop :=
| anc_usb d : usb_class d = true → ancestors d [] d
| anc_root d : usb_class d = false → io_parent reg d = None → ancestors d [] 0
| anc_step d p ps u : usb_class d = false → io_parent reg d = Some p →
    ancestors p ps u → ancestors d (p :: ps) u.

(** The result for a port: a port that is itself a USB device has none. *)
Inductive usb_device (s : Z) : list Z → Z → Prop :=
| usb_self : usb_class s = true → usb_device s [] 0
| usb_above ps u : usb_class s = false → ancestors s ps u → usb_device s ps u.

Lemma ancestors_unique d ps u ps' u' : ancestors d ps u → ancestors d ps' u' → u' = u.
Proof.
  intros H. revert ps' u'. induction H; inversion 1; subst; try congruence.
  match goal with H1 : _ = Some ?p, H2 : _ = Some ?q |- _ => assert (p = q) as -> by congruence end.
  eauto.
Qed.

Lemma usb_device_unique s ps u ps' u' : usb_device s ps' u' → usb_device s ps u → u' = u.
Proof.
  intros [H'|? ? H' A'] [H|? ? H A]; try congruence. by eapply ancestors_unique.
Qed.

Definition add_io (n : Z) (r : refs) : refs := mkRefs (cf_refs r) (io_refs r + n).

Lemma add_io_add m n r : add_io m (add_io n r) = add_io (n + m) r.
Proof. unfold add_io. simpl. f_equal. lia. Qed.

Lemma parent_loop_run d ps u fuel r : ancestors d ps u → (length ps < fuel)%nat →
  MacPorts.parent_loop reg fuel d true r = (Ret u, add_io (Z.of_nat (length ps)) r).
Proof.
  intros H. revert fuel r.
  induction H as [d Hu|d Hu Hp|d p ps u Hu Hp _ IH]; intros [|fuel] r Hf; simpl in Hf; try lia;
    cbn [MacPorts.parent_loop]; unfold usb_class in Hu; rewrite Hu.
  - unfold ret, add_io. destruct r; simpl. by rewrite Z.add_0_r.
  - rewrite Hp. unfold ret, add_io. destruct r; simpl. by rewrite Z.add_0_r.
  - rewrite Hp. unfold bind, MacPorts.retain_io, modify. rewrite IH by lia.
    f_equal. destruct r. unfold add_io, upd. cbn -[Z.of_nat]. f_equal. lia.
Qed.

Lemma parent_run s ps u fuel r : usb_device s ps u → (length ps < fuel)%nat →
  MacPorts.get_parent_iousb_device reg fuel s r =
  (Ret u, add_io (Z.of_nat (length ps)) r).
Proof.
  unfold MacPorts.get_parent_iousb_device. intros [Hu|ps' u' Hu Ha] Hf.
  - destruct fuel as [|fuel]; [lia|]. cbn [MacPorts.parent_loop]. unfold usb_class in Hu.
    rewrite Hu. unfold ret, add_io. destruct r; simpl. by rewrite Z.add_0_r.
  - rewrite <- (parent_loop_run _ _ _ _ r Ha Hf). destruct fuel as [|fuel]; [lia|].
    cbn [MacPorts.parent_loop]. unfold usb_class in Hu. by rewrite Hu.
Qed.

(** In a registry without cycles the walk ends, after at most as many steps as the
    depth of the entry. *)
Context (rank : Z → nat).
Hypothesis Hrank : ∀ d p, io_parent reg d = Some p → (rank p < rank d)%nat.

Lemma ancestors_exist d : ∃ ps u, ancestors d ps u ∧ (length ps ≤ rank d)%nat.
Proof.
  induction d as [d IH] using (induction_ltof1 _ rank). unfold ltof in IH.
  destruct (usb_class d) eqn:Eu.
  { exists [], d. split; [by constructor|simpl; lia]. }
  destruct (io_parent reg d) as [p|] eqn:Ep.
  - destruct (IH p (Hrank d p Ep)) as (ps & u & Ha & Hl). exists (p :: ps), u.
    specialize (Hrank d p Ep). split; [by econstructor|simpl; lia].
  - exists [], 0. split; [by constructor|simpl; lia].
Qed.

Lemma usb_device_exists s : ∃ ps u, usb_device s ps u ∧ (length ps ≤ rank s)%nat.
Proof.
  destruct (usb_class s) eqn:Eu.
  - exists [], 0. split; [by constructor|simpl; lia].
  - destruct (ancestors_exist s) as (ps & u & Ha & Hl). exists ps, u. split; [by constructor|done].
Qed.

(** ** The properties of an entry *)
Definition text_of (v : option cfvalue) : bytes :=
  match v with Some (CFString s) => MacPorts.cfstring_to_string s | _ => [] end.
Definition number_of (v : option cfvalue) : Z :=
  match v with
  | Some (CFNumber n) => match cf_get_int16 reg n with Some w => u16 w | None => 0 end
  | _ => 0
  end.
Definition text_property (d : Z) (key : string) : bytes :=
  if d =? 0 then [] else text_of (io_property reg d (str key)).
Definition number_property (d : Z) (key : string) : Z :=
  if d =? 0 then 0 else number_of (io_property reg d (str key)).

Ltac refs_eq := unfold bind, ret, MacPorts.retain_cf, MacPorts.CFRelease, modify, upd;
  cbn; f_equal; f_equal; lia.

Lemma device_path_run s r :
  MacPorts.get_device_path reg s r =
  (Ret (text_of (io_property reg s (str "IOCalloutDevice"))), r).
Proof.
  destruct r. unfold MacPorts.get_device_path, MacPorts.CreateCFProperty.
  destruct (io_property reg s (str "IOCalloutDevice")) as [[]|]; refs_eq.
Qed.

Lemma string_property_run d key r :
  MacPorts.get_string_property reg d (str key) r = (Ret (text_property d key), r).
Proof.
  destruct r. unfold MacPorts.get_string_property, MacPorts.CreateCFProperty, text_property.
  destruct (d =? 0); [done|]. destruct (io_property reg d (str key)) as [[]|]; refs_eq.
Qed.

Lemma int_property_run d key r :
  MacPorts.get_int_property reg d (str key) r = (Ret (number_property d key), r).
Proof.
  destruct r. unfold MacPorts.get_int_property, MacPorts.CreateCFProperty, number_property.
  destruct (d =? 0); [done|]. destruct (io_property reg d (str key)) as [[]|]; refs_eq.
Qed.

(** The hardware id of an entry. *)
Definition usb_hardware (u : Z) : bytes :=
  let vid := number_property u "idVendor" in
  let pid := number_property u "idProduct" in
  let sn := rtrim (text_property u "USB Serial Number") in
  let text := MacPorts.hardware_text vid pid (if str_eqb sn [] then str "None" else sn) in
  if (vid =? 0) || (pid =? 0) || (HARDWARE_ID_STRING_LENGTH <=? size text)
  then str "n/a" else text.

Lemma port_entry_run path u r :
  ∃ i, MacPorts.port_entry reg path u r = (Ret i, r) ∧ port i = path ∧
       hardware_id i = usb_hardware u ∧ description i ≠ [].
Proof.
  unfold MacPorts.port_entry, bind.
  rewrite !string_property_run, !int_property_run. unfold ret. eexists.
  split; [done|]. cbn [port hardware_id description]. split; [done|].
  rewrite !mac_rtrim. split.
  - unfold usb_hardware.
    destruct (number_property u "idVendor" =? 0), (number_property u "idProduct" =? 0); try done.
    cbn [negb andb orb]. rewrite Z.leb_antisym. by destruct (size _ <? _).
  - case_match eqn:E; [done|]. intros H. by rewrite H in E.
Qed.

Lemma usb_hardware_size u : size (usb_hardware u) < HARDWARE_ID_STRING_LENGTH.
Proof.
  unfold usb_hardware. destruct (_ || _) eqn:E; [done|].
  apply orb_false_iff in E as [_ E]. by apply Z.leb_gt in E.
Qed.

(** ** The list *)

(** The entries of a list of services: those with a path, in order, each with the
    hardware id of its USB device. *)
Definition path_of (s : Z) : bytes := text_of (io_property reg s (str "IOCalloutDevice")).

Inductive listing : list Z → list (list Z) → list PortInfo → Prop :=
| list_nil : listing [] [] []
| list_skip s ss ps pss u found : path_of s = [] → usb_device s ps u →
    listing ss pss found → listing (s :: ss) (ps :: pss) found
| list_port s ss ps pss u i found : path_of s ≠ [] → usb_device s ps u →
    port i = path_of s → hardware_id i = usb_hardware u → description i ≠ [] →
    listing ss pss found → listing (s :: ss) (ps :: pss) (i :: found).

Lemma ports_loop_run fuel services r :
  Forall (λ s, (rank s < fuel)%nat) services →
  ∃ pss found, listing services pss found ∧
    MacPorts.ports_loop reg fuel services r =
    (Ret found, add_io (Z.of_nat (length (concat pss))) r).
Proof.
  intros Hs. revert r. induction Hs as [|s ss Hf _ IH]; intros r.
  { exists [], []. split; [constructor|]. destruct r. unfold add_io. simpl.
    by rewrite Z.add_0_r. }
  destruct (usb_device_exists s) as (ps & u & Hu & Hl).
  cbn [MacPorts.ports_loop]. unfold bind, MacPorts.retain_io, modify.
  rewrite device_path_run.
  rewrite (parent_run s ps u) by (done || lia). unfold MacPorts.IOObjectRelease, modify. cbv beta iota.
  match goal with |- context [(if _ then _ else _) ?x] =>
    replace x with (add_io (Z.of_nat (length ps)) r)
      by (destruct r; unfold add_io, upd; cbn -[Z.of_nat]; f_equal; lia) end.
  fold (path_of s). destruct (IH (add_io (Z.of_nat (length ps)) r)) as (pss & found & Hl' & E).
  rewrite add_io_add in E.
  assert (length (concat (ps :: pss)) = length ps + length (concat pss))%nat as Hlen
    by apply length_app.
  destruct (str_eqb (path_of s) []) eqn:Ep.
  - apply bool_decide_eq_true in Ep. exists (ps :: pss), found. split; [by econstructor|].
    by rewrite E, Hlen, Nat2Z.inj_add.
  - destruct (port_entry_run (path_of s) u (add_io (Z.of_nat (length ps)) r))
      as (i & Ei & Hi1 & Hi2 & Hi3).
    rewrite Ei, E. exists (ps :: pss), (i :: found). rewrite Hlen, Nat2Z.inj_add.
    apply bool_decide_eq_false in Ep. split; [by econstructor|done].
Qed.

Lemma list_ports_run fuel services r :
  io_master_ok reg = true → io_matching_ok reg = true → io_services reg = Some services →
  Forall (λ s, (rank s < fuel)%nat) services →
  ∃ pss found, listing services pss found ∧
    MacPorts.list_ports reg fuel r =
    (Ret found, add_io (Z.of_nat (length (concat pss))) r).
Proof.
  intros Hm Hd Hs Hf. unfold MacPorts.list_ports. rewrite Hm, Hd, Hs. cbn [negb].
  unfold bind, MacPorts.retain_io, MacPorts.IOObjectRelease, modify. cbv beta iota.
  match goal with |- context [MacPorts.ports_loop reg fuel services ?x] =>
    destruct (ports_loop_run fuel services x Hf) as (pss & found & Hl & E) end.
  rewrite E. exists pss, found. split; [done|]. unfold ret. f_equal.
  destruct r. unfold add_io, upd. cbn -[Z.of_nat]. f_equal. lia.
Qed.

Lemma listing_ports services pss found : listing services pss found →
  map port found = List.filter (λ p, negb (str_eqb p [])) (map path_of services) ∧
  length pss = length services ∧
  Forall (λ i, size (hardware_id i) < HARDWARE_ID_STRING_LENGTH ∧ description i ≠ []) found.
Proof.
  induction 1 as [|s ss ps pss u found Hp _ _ (IH1 & IH2 & IH3)
                  |s ss ps pss u i found Hp _ E1 E2 E3 _ (IH1 & IH2 & IH3)].
  - done.
  - simpl. rewrite Hp. simpl. auto.
  - simpl. unfold str_eqb at 1. rewrite bool_decide_eq_false_2 by done. simpl.
    rewrite IH1, E1, IH2. split_and!; [done..|]. constructor; [|done]. split; [|done].
    rewrite E2. apply usb_hardware_size.
Qed.

(** C24: in a registry without cycles the search of macOS ends.  It lists the ports that
    have a path, in the order of the registry, with a hardware id that fits its
    buffer.  Every object of Core Foundation is released; the registry entries
    reached on the way to the USB devices are not. *)
Theorem mac_ports_listed fuel services r :
  io_master_ok reg = true → io_matching_ok reg = true → io_services reg = Some services →
  Forall (λ s, (rank s < fuel)%nat) services →
  ∃ pss found,
    MacPorts.list_ports reg fuel r =
      (Ret found, mkRefs (cf_refs r) (io_refs r + Z.of_nat (length (concat pss)))) ∧
    Forall2 (λ s ps, ∃ u, usb_device s ps u) services pss ∧
    map port found = List.filter (λ p, negb (str_eqb p [])) (map path_of services) ∧
    Forall (λ i, size (hardware_id i) < HARDWARE_ID_STRING_LENGTH ∧ description i ≠ []) found.
Proof.
  intros Hm Hd Hs Hf.
  destruct (list_ports_run fuel services r Hm Hd Hs Hf) as (pss & found & Hl & E).
  exists pss, found. destruct (listing_ports _ _ _ Hl) as (H1 & _ & H3).
  split_and!; [exact E| |done..].
  clear -Hl. induction Hl; constructor; eauto.
Qed.

(** ** Finding a device by its serial number *)
Context `{!CFNumbers reg}.

Lemma number_property_small d key n : d ≠ 0 →
  io_property reg d (str key) = Some (CFNumber n) → 0 < n < 2 ^ 15 → number_property d key = n.
Proof.
  intros Hd Hp Hn. unfold number_property. destruct (Z.eqb_spec d 0); [done|].
  rewrite Hp. simpl. rewrite get_int16_ok.
  - unfold u16, wrapu. apply Z.mod_small. lia.
  - unfold in_sb. apply andb_true_iff. rewrite Z.leb_le, Z.ltb_lt. simpl in *. lia.
Qed.

Lemma number_property_large d key n : io_property reg d (str key) = Some (CFNumber n) →
  2 ^ 15 ≤ n → number_property d key = 0.
Proof.
  intros Hp Hn. unfold number_property. destruct (d =? 0); [done|].
  rewrite Hp. simpl. rewrite get_int16_range; [done|].
  unfold in_sb. apply andb_false_iff. right. apply Z.ltb_ge. simpl in *. lia.
Qed.

(** The serial number a USB device reports. *)
Definition reports_serial (u : Z) (sn : bytes) : Prop :=
  io_property reg u (str "USB Serial Number") = Some (CFString (Some sn)) ∧
  rtrim sn = sn ∧ c_str sn = sn ∧ sn ≠ [].

Lemma text_property_serial u sn : u ≠ 0 → reports_serial u sn → size sn < 102 →
  rtrim (text_property u "USB Serial Number") = sn.
Proof.
  intros Hu (Hp & Hr & Hc & _) Hs. unfold text_property. destruct (Z.eqb_spec u 0); [done|].
  rewrite Hp. simpl. rewrite (proj2 (Z.ltb_lt _ _)) by (unfold MAXPATHLEN; lia).
  by rewrite Hc.
Qed.

Lemma usb_hardware_text u vid pid sn : u ≠ 0 → reports_serial u sn → size sn < 102 →
  io_property reg u (str "idVendor") = Some (CFNumber vid) → 0 < vid < 2 ^ 15 →
  io_property reg u (str "idProduct") = Some (CFNumber pid) → 0 < pid < 2 ^ 15 →
  usb_hardware u = MacPorts.hardware_text vid pid sn.
Proof.
  intros Hu Hsn Hs Hv Hvr Hp Hpr. unfold usb_hardware.
  rewrite (number_property_small u _ vid), (number_property_small u _ pid) by done.
  rewrite (text_property_serial u sn) by done. destruct Hsn as (_ & _ & Hc & Hne).
  unfold str_eqb. rewrite (bool_decide_eq_false_2 (sn = [])) by done.
  destruct (Z.eqb_spec vid 0), (Z.eqb_spec pid 0); try lia. cbn [orb].
  destruct (Z.leb_spec HARDWARE_ID_STRING_LENGTH (size (MacPorts.hardware_text vid pid sn)));
    [|done]. exfalso. revert H. unfold MacPorts.hardware_text. rewrite Hc.
  unfold size, HARDWARE_ID_STRING_LENGTH in *. rewrite !length_app. simpl. lia.
Qed.

Lemma listing_app before s after pss found : listing (before ++ s :: after) pss found →
  path_of s ≠ [] → ∃ ps u fb i fa, usb_device s ps u ∧ found = fb ++ i :: fa ∧
    port i = path_of s ∧ hardware_id i = usb_hardware u ∧
    Forall (λ j, In (port j) (map path_of before)) fb.
Proof.
  revert pss found. induction before as [|b before IH]; intros pss found H Hp.
  - inversion H; subst; [done|]. eexists _, _, [], _, _. split_and!; eauto.
  - simpl in H. inversion H as [|? ? ? pss' ? ? _ _ Hr|? ? ? pss' ? j found' _ _ Hj _ _ Hr]; subst.
    + destruct (IH _ _ Hr Hp) as (qs & w & fb & i & fa & ? & ? & ? & ? & Hfb).
      exists qs, w, fb, i, fa. split_and!; [done..|]. eapply Forall_impl; [done|].
      intros. simpl. by right.
    + destruct (IH _ _ Hr Hp) as (qs & w & fb & i & fa & ? & -> & ? & ? & Hfb).
      exists qs, w, (j :: fb), i, fa. split_and!; [done..|]. constructor; [simpl; left; congruence|].
      eapply Forall_impl; [done|]. intros. simpl. by right.
Qed.

(** [find_port] with the serial number of a USB device returns the path of its port,
    when its vendor and product numbers are below 0x8000, no other port mentions the
    number and no port has the same path. *)
Lemma mac_find_port fuel before s after ps u vid pid sn r :
  io_master_ok reg = true → io_matching_ok reg = true →
  io_services reg = Some (before ++ s :: after) →
  Forall (λ s, (rank s < fuel)%nat) (before ++ s :: after) →
  path_of s ≠ [] → ¬ In (path_of s) (map path_of before) → usb_device s ps u → u ≠ 0 →
  reports_serial u sn → size sn < 102 →
  io_property reg u (str "idVendor") = Some (CFNumber vid) → 0 < vid < 2 ^ 15 →
  io_property reg u (str "idProduct") = Some (CFNumber pid) → 0 < pid < 2 ^ 15 →
  ∃ found r', MacPorts.list_ports reg fuel r = (Ret found, r') ∧
    (Forall (λ i, port i ≠ path_of s → port_matches sn i = false) found →
     find_port found sn = path_of s).
Proof.
  intros Hm Hd Hs Hf Hp Hnew Hu Hu0 Hsn Hsz Hv Hvr Hpi Hpr.
  destruct (list_ports_run fuel _ r Hm Hd Hs Hf) as (pss & found & Hl & E).
  exists found, (add_io (Z.of_nat (length (concat pss))) r). split; [done|]. intros Hoth.
  destruct (listing_app _ _ _ _ _ Hl Hp) as (ps' & u' & fb & i & fa & Hu' & -> & Hi & Hh & Hfb).
  rewrite <- Hi. apply find_port_app.
  - apply Forall_app in Hoth as [Hoth _].
    eapply Forall_impl; [exact (List.Forall_and Hoth Hfb)|].
    simpl. intros j [Hj1 Hj2]. apply Hj1. intros Ej. by rewrite Ej in Hj2.
  - rewrite (usb_device_unique _ _ _ _ _ Hu' Hu) in Hh.
    rewrite (usb_hardware_text u vid pid sn) in Hh by done.
    unfold port_matches. rewrite Hh. destruct Hsn as (_ & _ & Hc & _).
    assert (∃ pre, MacPorts.hardware_text vid pid sn = pre ++ sn ++ []) as [pre ->].
    { eexists. unfold MacPorts.hardware_text. rewrite Hc, app_nil_r, !app_assoc. done. }
    by rewrite contains_app, !orb_true_r.
Qed.

(** A vendor or product number from 0x8000 on is read as 0, and the hardware id of its
    ports is [n/a]: the serial number is not listed. *)
Lemma mac_large_id_lost u vid pid :
  io_property reg u (str "idVendor") = Some (CFNumber vid) →
  io_property reg u (str "idProduct") = Some (CFNumber pid) →
  2 ^ 15 ≤ vid ∨ 2 ^ 15 ≤ pid → usb_hardware u = str "n/a".
Proof.
  intros Hv Hp H. unfold usb_hardware.
  destruct H as [H|H]; [rewrite (number_property_large _ _ _ Hv H)
                       |rewrite (number_property_large _ _ _ Hp H)];
    by rewrite ?Z.eqb_refl, ?orb_true_r.
Qed.
End mac_facts.

(** ** A registry with two devices *)

(** Two ports, 1 and 2: port 1 has an adapter 3 above it, a driver 4 above that and the
    USB device 5 at the top; port 2 is a modem without USB device. *)
Definition two_ports : ioregistry := mkRegistry
  (λ d, if d =? 5 then Some (str "IOUSBDevice") else Some (str "IOService"))
  (λ d, if d =? 1 then Some 3 else if d =? 3 then Some 4 else if d =? 4 then Some 5 else None)
  (λ d k,
     if (d =? 1) && str_eqb k (str "IOCalloutDevice")
     then Some (CFString (Some (str "/dev/cu.usbserial")))
     else if (d =? 2) && str_eqb k (str "IOCalloutDevice")
     then Some (CFString (Some (str "/dev/cu.modem")))
     else if negb (d =? 5) then None
     else if str_eqb k (str "USB Serial Number") then Some (CFString (Some (str "A9J0G3SV")))
     else if str_eqb k (str "idVendor") then Some (CFNumber 1027)
     else if str_eqb k (str "idProduct") then Some (CFNumber 24577)
     else None)
  true true (Some [2; 1]) (λ n, if in_sb 16 n then Some n else None).

Definition two_ports_rank (d : Z) : nat :=
  if d =? 1 then 3 else if d =? 3 then 2 else if d =? 4 then 1 else 0.

Lemma two_ports_ranked d p :
  io_parent two_ports d = Some p → (two_ports_rank p < two_ports_rank d)%nat.
Proof.
  simpl. unfold two_ports_rank.
  destruct (Z.eqb_spec d 1) as [->|]; [intros [= <-]; vm_compute; lia|].
  destruct (Z.eqb_spec d 3) as [->|]; [intros [= <-]; vm_compute; lia|].
  destruct (Z.eqb_spec d 4) as [->|]; [intros [= <-]; vm_compute; lia|done].
Qed.

Lemma two_ports_numbers : CFNumbers two_ports.
Proof. split; intros n H; simpl; by rewrite H. Qed.

Lemma two_ports_fuel : Forall (λ s, (two_ports_rank s < 4)%nat) [2; 1].
Proof. repeat constructor. Qed.

(** The search leaves the three entries above the USB port referenced. *)
Example two_ports_leak :
  (MacPorts.list_ports two_ports 4 (mkRefs 0 0)).2 = mkRefs 0 3.
Proof. vm_compute. reflexivity. Qed.

Lemma mac_ports_listed_witness :
  ∃ pss found,
    MacPorts.list_ports two_ports 4 (mkRefs 0 0) =
      (Ret found, mkRefs 0 (0 + Z.of_nat (length (concat pss)))) ∧
    Forall2 (λ s ps, ∃ u, usb_device two_ports s ps u) [2; 1] pss ∧
    map port found =
      List.filter (λ p, negb (str_eqb p [])) (map (path_of two_ports) [2; 1]) ∧
    Forall (λ i, size (hardware_id i) < HARDWARE_ID_STRING_LENGTH ∧ description i ≠ []) found.
Proof.
  exact (mac_ports_listed two_ports two_ports_rank two_ports_ranked 4 [2; 1] (mkRefs 0 0)
    eq_refl eq_refl eq_refl two_ports_fuel).
Defined.

Lemma mac_find_port_witness :
  ∃ found r', MacPorts.list_ports two_ports 4 (mkRefs 0 0) = (Ret found, r') ∧
    (Forall (λ i, port i ≠ path_of two_ports 1 →
       port_matches (str "A9J0G3SV") i = false) found →
     find_port found (str "A9J0G3SV") = path_of two_ports 1).
Proof.
  apply (@mac_find_port two_ports two_ports_rank two_ports_ranked two_ports_numbers
    4 [2] 1 [] [3; 4; 5] 5 1027 24577 (str "A9J0G3SV") (mkRefs 0 0));
    try reflexivity; try lia; try exact two_ports_fuel; try discriminate.
  - vm_compute. intros [H|[]]. discriminate H.
  - apply usb_above; [reflexivity|]. repeat (eapply anc_step; [reflexivity..|]).
    by apply anc_usb.
  - by split_and!.
Defined.

(** The other port does not mention the number: the search of the witness finds it. *)
Example two_ports_found :
  match MacPorts.list_ports two_ports 4 (mkRefs 0 0) with
  | (Ret found, _) => find_port found (str "A9J0G3SV") = str "/dev/cu.usbserial"
  | _ => False
  end.
Proof. vm_compute. reflexivity. Qed.
