(* ===== verification/Serial.v ===== *)
(** * src/serial.cc and include/serial/serial.h: the serial port front end

    [serial::Serial] forwards to a platform implementation [SerialImpl] (the
    pimpl idiom) and adds the scoped locks and the line oriented reads.  The
    implementation is an interface here: the class [SerialImpl] lists its
    operations, [SerialImplOK] what the front end and the devices rely on.
    UnixSerial.v and WinSerial.v give the implementations of src/impl/unix.cc and
    win.cc and discharge the interface; Loopback.v gives a small concrete port. *)
From S2P Require Import Prelude CppStd.

(** ** Port settings (serial.h) *)
Inductive bytesize_t := fivebits | sixbits | sevenbits | eightbits.
Inductive parity_t := parity_none | parity_odd | parity_even | parity_mark | parity_space.
Inductive stopbits_t := stopbits_one | stopbits_two | stopbits_one_point_five.
Inductive flowcontrol_t := flowcontrol_none | flowcontrol_software | flowcontrol_hardware.

#[export] Instance flowcontrol_eq_dec : EqDecision flowcontrol_t.
Proof. solve_decision. Defined.

Definition bytesize_val (b : bytesize_t) : Z :=
  match b with fivebits => 5 | sixbits => 6 | sevenbits => 7 | eightbits => 8 end.
Definition parity_val (p : parity_t) : Z :=
  match p with
  | parity_none => 0 | parity_odd => 1 | parity_even => 2
  | parity_mark => 3 | parity_space => 4
  end.
Definition stopbits_val (s : stopbits_t) : Z :=
  match s with stopbits_one => 1 | stopbits_two => 2 | stopbits_one_point_five => 3 end.

Record Timeout := mkTimeout {
  inter_byte_timeout : Z;
  read_timeout_constant : Z;
  read_timeout_multiplier : Z;
  write_timeout_constant : Z;
  write_timeout_multiplier : Z;
}.

Definition Timeout_max : Z := 2 ^ 32 - 1.

Definition simpleTimeout (timeout : Z) : Timeout :=
  mkTimeout Timeout_max timeout 0 timeout 0.

(** No time is added per byte: what [simpleTimeout] builds. *)
Definition constant_timeout (t : Timeout) : Prop :=
  read_timeout_multiplier t = 0 ∧ write_timeout_multiplier t = 0.

(** ** The implementation interface *)
Class SerialImpl (P : Type) := {
  (** the bodies of the constructor and of the destructor *)
  impl_construct : M P unit;
  impl_destroy : M P unit;
  impl_open : M P unit;
  impl_close : M P unit;
  impl_isOpen : P → bool;
  impl_available : M P Z;
  impl_waitReadable : Z → M P bool;
  impl_waitByteTimes : Z → M P unit;
  (** the bytes read; their number is the C++ result *)
  impl_read : nat → M P bytes;
  (** the number of bytes accepted *)
  impl_write : bytes → M P nat;
  impl_flush : M P unit;
  impl_flushInput : M P unit;
  impl_flushOutput : M P unit;
  impl_setPort : bytes → M P unit;
  impl_getPort : P → bytes;
  impl_setTimeout : Timeout → M P unit;
  impl_getTimeout : P → Timeout;
  impl_setBaudrate : Z → M P unit;
  impl_getBaudrate : P → Z;
  impl_setBytesize : bytesize_t → M P unit;
  impl_getBytesize : P → bytesize_t;
  impl_setParity : parity_t → M P unit;
  impl_getParity : P → parity_t;
  impl_setStopbits : stopbits_t → M P unit;
  impl_getStopbits : P → stopbits_t;
  impl_setFlowcontrol : flowcontrol_t → M P unit;
  impl_getFlowcontrol : P → flowcontrol_t;
  impl_sendBreak : Z → M P unit;
  impl_setBreak : bool → M P unit;
  impl_setRTS : bool → M P unit;
  impl_setDTR : bool → M P unit;
  impl_waitForChange : M P bool;
  impl_getCTS : M P bool;
  impl_getDSR : M P bool;
  impl_getRI : M P bool;
  impl_getCD : M P bool;
  impl_readLock : M P unit;
  impl_readUnlock : P → P;
  impl_writeLock : M P unit;
  impl_writeUnlock : P → P;
  (** [std::this_thread::sleep_for]: time passes for the port and its device *)
  sleep_for_ms : Z → P → P;
}.

(** What is observed of a port: whether it is open, every byte handed over for
    transmission so far, which of its two mutexes are held, and whether its
    settings, its file descriptor and its mutexes are usable. *)
Record pview := mkView {
  v_open : bool;
  v_out : bytes;
  v_rlock : bool;
  v_wlock : bool;
  v_ok : bool;
}.
#[export] Instance eta_pview : Eta pview := λ v,
  mkView (v_open v) (v_out v) (v_rlock v) (v_wlock v) (v_ok v).

Class Observable (P : Type) := pv : P → pview.

(** The operation changes nothing observable, whether it returns or throws. *)
Definition quiet {P A} `{Observable P} (m : M P A) : Prop :=
  ∀ s, v_ok (pv s) = true →
    wp m (spec (λ _ s', pv s' = pv s) (λ _ s', pv s' = pv s)) s.

(** The contract of an implementation. *)
Class SerialImplOK (P : Type) `{SerialImpl P, Observable P} : Prop := {
  isOpen_pv s : impl_isOpen s = v_open (pv s);
  open_ok s : v_ok (pv s) = true → wp impl_open
    (spec (λ _ s', pv s' = pv s <| v_open := true |>) (λ _ s', pv s' = pv s)) s;
  close_ok s : v_ok (pv s) = true → wp impl_close
    (spec (λ _ s', pv s' = pv s <| v_open := false |>) (λ _ s', pv s' = pv s)) s;
  read_ok n s : v_ok (pv s) = true → wp (impl_read n)
    (spec (λ bs s', (length bs ≤ n)%nat ∧ pv s' = pv s) (λ _ s', pv s' = pv s)) s;
  write_ok d s : v_ok (pv s) = true → wp (impl_write d)
    (spec (λ n s', (n ≤ length d)%nat ∧
                   pv s' = pv s <| v_out := v_out (pv s) ++ take n d |>)
          (λ _ s', ∃ k, (k ≤ length d)%nat ∧
                   pv s' = pv s <| v_out := v_out (pv s) ++ take k d |>)) s;
  waitReadable_ok t s : v_ok (pv s) = true → v_open (pv s) = true →
    wp (impl_waitReadable t) (spec (λ _ s', pv s' = pv s) (λ _ s', pv s' = pv s)) s;
  flush_ok : quiet impl_flush;
  flushInput_ok : quiet impl_flushInput;
  flushOutput_ok : quiet impl_flushOutput;
  setPort_ok p : quiet (impl_setPort p);
  setTimeout_ok t : constant_timeout t → quiet (impl_setTimeout t);
  setBaudrate_ok b : 4 ≤ b < 2 ^ 32 → quiet (impl_setBaudrate b);
  setBytesize_ok b : quiet (impl_setBytesize b);
  setParity_ok b : quiet (impl_setParity b);
  setStopbits_ok b : quiet (impl_setStopbits b);
  setFlowcontrol_ok f : quiet (impl_setFlowcontrol f);
  setBreak_ok b : quiet (impl_setBreak b);
  setRTS_ok b : quiet (impl_setRTS b);
  setDTR_ok b : quiet (impl_setDTR b);
  getCTS_ok : quiet impl_getCTS;
  getDSR_ok : quiet impl_getDSR;
  getRI_ok : quiet impl_getRI;
  getCD_ok : quiet impl_getCD;
  readLock_ok s : v_ok (pv s) = true → v_rlock (pv s) = false →
    wp impl_readLock (post (λ _ s', pv s' = pv s <| v_rlock := true |>) (λ _ _, False)) s;
  readUnlock_ok s : v_ok (pv s) = true →
    pv (impl_readUnlock s) = pv s <| v_rlock := false |>;
  writeLock_ok s : v_ok (pv s) = true → v_wlock (pv s) = false →
    wp impl_writeLock (post (λ _ s', pv s' = pv s <| v_wlock := true |>) (λ _ _, False)) s;
  writeUnlock_ok s : v_ok (pv s) = true →
    pv (impl_writeUnlock s) = pv s <| v_wlock := false |>;
  sleep_ok ms s : pv (sleep_for_ms ms s) = pv s;
}.

(** The operations of the implementation other than the locks end. *)
Class SerialImplLive (P : Type) `{SerialImpl P} : Prop := {
  open_live : live impl_open;
  close_live : live impl_close;
  read_live n : live (impl_read n);
  write_live d : live (impl_write d);
  waitReadable_live t : live (impl_waitReadable t);
  flush_live : live impl_flush;
  flushInput_live : live impl_flushInput;
  flushOutput_live : live impl_flushOutput;
  setPort_live p : live (impl_setPort p);
  setTimeout_live t : live (impl_setTimeout t);
  setBaudrate_live b : live (impl_setBaudrate b);
  setBytesize_live b : live (impl_setBytesize b);
  setParity_live b : live (impl_setParity b);
  setStopbits_live b : live (impl_setStopbits b);
}.

(** ** Serial *)
Module Serial.
Section serial.
Context {P : Type} `{SerialImpl P}.

(** [Serial(port, ..., timeout, ...)] on a port with the members initialised, and
    [~Serial()]. *)
Definition construct (timeout : Timeout) : M P unit :=
  impl_construct ;; impl_setTimeout timeout.
Definition destroy : M P unit := impl_destroy.

Definition open : M P unit := impl_open.
Definition close : M P unit := impl_close.
Definition isOpen (s : P) : bool := impl_isOpen s.
Definition available : M P Z := impl_available.

Definition waitReadable : M P bool :=
  timeout <- gets impl_getTimeout ;;
  impl_waitReadable (read_timeout_constant timeout).

Definition waitByteTimes (count : Z) : M P unit := impl_waitByteTimes count.

(** The scoped locks: taken on entry, released by the destructor on every
    exit from the scope. *)
Definition ScopedReadLock {A} (body : M P A) : M P A :=
  impl_readLock ;; finally body impl_readUnlock.
Definition ScopedWriteLock {A} (body : M P A) : M P A :=
  impl_writeLock ;; finally body impl_writeUnlock.

(** [read_(buffer, size)], without lock. *)
Definition read_ (size : nat) : M P bytes := impl_read size.

(** [read(buffer, size)] on a [std::string] or vector: the bytes read are
    appended to the caller's buffer. *)
Definition read (buffer : bytes) (size : nat) : M P (bytes * nat) :=
  ScopedReadLock (bs <- impl_read size ;; ret (buffer ++ bs, length bs)).

Definition read_string (size : nat) : M P bytes :=
  r <- read [] size ;; ret r.1.

(** The last [n] bytes of [l]. *)
Definition lastn (n : nat) (l : bytes) : bytes := drop (length l - n) l.

(** The loop of [readline]; [acc] is [buffer_] up to [read_so_far].  A byte is
    stored at [buffer_ + read_so_far], which must be inside the [size] bytes
    allocated. *)
Fixpoint readline_loop (fuel size : nat) (eol acc : bytes) : M P bytes :=
  match fuel with
  | O => spin
  | S f =>
    if (size <=? length acc)%nat then undef
    else
      bs <- read_ 1 ;;
      let acc := acc ++ bs in
      if (length bs =? 0)%nat then ret acc
      else if (length acc <? length eol)%nat then readline_loop f size eol acc
      else if str_eqb (lastn (length eol) acc) eol then ret acc
      else if (length acc =? size)%nat then ret acc
      else readline_loop f size eol acc
  end.

(** [readline(buffer, size, eol)]: the line is appended to [buffer], its length
    returned.  Every iteration reads a byte or leaves the loop, and the loop is
    left at [size] bytes: [size + 1] iterations are enough. *)
Definition readline (buffer : bytes) (size : nat) (eol : bytes) : M P (bytes * nat) :=
  ScopedReadLock (
    line <- readline_loop (S size) size eol [] ;;
    ret (buffer ++ line, length line)).

Definition readline_string (size : nat) (eol : bytes) : M P bytes :=
  r <- readline [] size eol ;; ret r.1.

(** The loop of [readlines]; [start_of_line] indexes into [acc]. *)
Fixpoint readlines_loop (fuel size : nat) (eol acc : bytes) (start_of_line : nat)
    (lines : list bytes) : M P (list bytes) :=
  match fuel with
  | O => spin
  | S f =>
    if (length acc <? size)%nat then
      bs <- read_ 1 ;;
      let acc := acc ++ bs in
      let read_so_far := length acc in
      if (length bs =? 0)%nat then
        ret (if negb (start_of_line =? read_so_far)%nat
             then lines ++ [drop start_of_line acc] else lines)
      else if (read_so_far <? length eol)%nat then
        readlines_loop f size eol acc start_of_line lines
      else
        let '(lines, start_of_line) :=
          if str_eqb (lastn (length eol) acc) eol
          then (lines ++ [drop start_of_line acc], read_so_far)
          else (lines, start_of_line) in
        if (read_so_far =? size)%nat then
          ret (if negb (start_of_line =? read_so_far)%nat
               then lines ++ [drop start_of_line acc] else lines)
        else readlines_loop f size eol acc start_of_line lines
    else ret lines
  end.

Definition readlines (size : nat) (eol : bytes) : M P (list bytes) :=
  ScopedReadLock (readlines_loop (S size) size eol [] 0 []).

Definition write_ (data : bytes) : M P nat := impl_write data.
Definition write (data : bytes) : M P nat := ScopedWriteLock (write_ data).

Definition setPort (port : bytes) : M P unit :=
  ScopedReadLock (ScopedWriteLock (
    was_open <- gets impl_isOpen ;;
    (when was_open do close) ;;
    impl_setPort port ;;
    when was_open do open)).

Definition getPort (s : P) : bytes := impl_getPort s.
Definition setTimeout (timeout : Timeout) : M P unit := impl_setTimeout timeout.
Definition getTimeout (s : P) : Timeout := impl_getTimeout s.
Definition setBaudrate (baudrate : Z) : M P unit := impl_setBaudrate baudrate.
Definition getBaudrate (s : P) : Z := u32 (impl_getBaudrate s).
Definition setBytesize (bytesize : bytesize_t) : M P unit := impl_setBytesize bytesize.
Definition getBytesize (s : P) : bytesize_t := impl_getBytesize s.
Definition setParity (parity : parity_t) : M P unit := impl_setParity parity.
Definition getParity (s : P) : parity_t := impl_getParity s.
Definition setStopbits (stopbits : stopbits_t) : M P unit := impl_setStopbits stopbits.
Definition getStopbits (s : P) : stopbits_t := impl_getStopbits s.
Definition setFlowcontrol (f : flowcontrol_t) : M P unit := impl_setFlowcontrol f.
Definition getFlowcontrol (s : P) : flowcontrol_t := impl_getFlowcontrol s.

Definition flush : M P unit := ScopedReadLock (ScopedWriteLock impl_flush).
Definition flushInput : M P unit := ScopedReadLock impl_flushInput.
Definition flushOutput : M P unit := ScopedWriteLock impl_flushOutput.

Definition sendBreak (duration : Z) : M P unit := impl_sendBreak duration.
Definition setBreak (level : bool) : M P unit := impl_setBreak level.
Definition setRTS (level : bool) : M P unit := impl_setRTS level.
Definition setDTR (level : bool) : M P unit := impl_setDTR level.
Definition waitForChange : M P bool := impl_waitForChange.
Definition getCTS : M P bool := impl_getCTS.
Definition getDSR : M P bool := impl_getDSR.
Definition getRI : M P bool := impl_getRI.
Definition getCD : M P bool := impl_getCD.
End serial.
End Serial.

(** ** Contracts of the front end *)
Lemma lastn_app n (l k : bytes) : length k = n → Serial.lastn n (l ++ k) = k.
Proof.
  intros <-. unfold Serial.lastn. rewrite length_app, Nat.add_sub.
  apply drop_app_length.
Qed.

Lemma lastn_suffix n (l : bytes) : (n ≤ length l)%nat →
  length (Serial.lastn n l) = n ∧ ∃ k, l = k ++ Serial.lastn n l.
Proof.
  intros Hn. unfold Serial.lastn. rewrite length_drop. split; [lia|].
  exists (take (length l - n) l). by rewrite take_drop.
Qed.

Section serial_facts.
Context {P : Type} {HI : SerialImpl P} {HO : Observable P} {HOK : SerialImplOK P}.

Definition unlocked (s : P) : Prop :=
  (v_rlock (pv s) = false ∧ v_wlock (pv s) = false) ∧ v_ok (pv s) = true.

(** A scope under the read lock: the lock is free again on every exit. *)
Lemma scoped_read_spec {A} (body : M P A) R E s :
  v_ok (pv s) = true → v_rlock (pv s) = false →
  (∀ s1, pv s1 = pv s <| v_rlock := true |> →
     wp body (spec (λ a s', R a (impl_readUnlock s'))
                   (λ e s', E e (impl_readUnlock s'))) s1) →
  wp (Serial.ScopedReadLock body) (spec R E) s.
Proof.
  intros Hok Hl Hb. eapply wp_bind_spec.
  - eapply wp_mono; [by apply readLock_ok|]. intros [] s1; simpl; [|done..].
    intros Hs. exact Hs.
  - simpl. intros _ s1 Hs1. apply wp_finally_spec. by apply Hb.
Qed.

Lemma scoped_write_spec {A} (body : M P A) R E s :
  v_ok (pv s) = true → v_wlock (pv s) = false →
  (∀ s1, pv s1 = pv s <| v_wlock := true |> →
     wp body (spec (λ a s', R a (impl_writeUnlock s'))
                   (λ e s', E e (impl_writeUnlock s'))) s1) →
  wp (Serial.ScopedWriteLock body) (spec R E) s.
Proof.
  intros Hok Hl Hb. eapply wp_bind_spec.
  - eapply wp_mono; [by apply writeLock_ok|]. intros [] s1; simpl; [|done..].
    intros Hs. exact Hs.
  - simpl. intros _ s1 Hs1. apply wp_finally_spec. by apply Hb.
Qed.

Lemma relock_read (s s1 s2 : P) :
  v_ok (pv s) = true → v_rlock (pv s) = false → pv s1 = pv s <| v_rlock := true |> → pv s2 = pv s1 →
  pv (impl_readUnlock s2) = pv s.
Proof.
  intros Hok Hl H1 H2. rewrite readUnlock_ok, H2, H1 by (by rewrite H2, H1).
  destruct (pv s); simpl in *. by subst.
Qed.

Lemma relock_write (s s1 s2 : P) :
  v_ok (pv s) = true → v_wlock (pv s) = false → pv s1 = pv s <| v_wlock := true |> → pv s2 = pv s1 →
  pv (impl_writeUnlock s2) = pv s.
Proof.
  intros Hok Hl H1 H2. rewrite writeUnlock_ok, H2, H1 by (by rewrite H2, H1).
  destruct (pv s); simpl in *. by subst.
Qed.

Lemma flushInput_spec s : v_rlock (pv s) = false → v_ok (pv s) = true →
  wp Serial.flushInput (spec (λ _ s', pv s' = pv s) (λ _ s', pv s' = pv s)) s.
Proof.
  intros Hl Hok. apply scoped_read_spec; [done..|]. intros s1 H1.
  eapply wp_spec_mono; [apply flushInput_ok; by rewrite H1|simpl; eauto using relock_read..].
Qed.

Lemma flushOutput_spec s : v_wlock (pv s) = false → v_ok (pv s) = true →
  wp Serial.flushOutput (spec (λ _ s', pv s' = pv s) (λ _ s', pv s' = pv s)) s.
Proof.
  intros Hl Hok. apply scoped_write_spec; [done..|]. intros s1 H1.
  eapply wp_spec_mono; [apply flushOutput_ok; by rewrite H1|simpl; eauto using relock_write..].
Qed.

(** What [write] adds to the transmitted bytes. *)
Lemma write_spec d s : v_wlock (pv s) = false → v_ok (pv s) = true →
  wp (Serial.write d)
    (spec (λ n s', (n ≤ length d)%nat ∧
                   pv s' = pv s <| v_out := v_out (pv s) ++ take n d |>)
          (λ _ s', ∃ k, (k ≤ length d)%nat ∧
                   pv s' = pv s <| v_out := v_out (pv s) ++ take k d |>)) s.
Proof.
  intros Hl Hok. apply scoped_write_spec; [done..|]. intros s1 H1.
  eapply wp_spec_mono; [apply write_ok; by rewrite H1|..].
  - intros n s2 [Hn H2]. split; [done|]. rewrite writeUnlock_ok, H2, H1 by (by rewrite H2, H1).
    destruct (pv s); simpl in *. by subst.
  - intros e s2 (k & Hk & H2). exists k. split; [done|].
    rewrite writeUnlock_ok, H2, H1 by (by rewrite H2, H1). destruct (pv s); simpl in *. by subst.
Qed.

Lemma readline_loop_spec fuel size eol acc s :
  (length eol ≤ size)%nat → (length acc < size)%nat → v_ok (pv s) = true →
  wp (Serial.readline_loop fuel size eol acc)
    (spec (λ line s', pv s' = pv s ∧ (length line ≤ size)%nat)
          (λ _ s', pv s' = pv s)) s.
Proof.
  intros He. revert acc s. induction fuel as [|f IH]; intros acc s Ha Hok; [done|].
  cbn [Serial.readline_loop]. rewrite (proj2 (Nat.leb_gt _ _)) by done.
  eapply wp_bind_spec; [by apply read_ok|]. simpl. intros bs s1 [Hbs H1].
  assert (v_ok (pv s1) = true) by by rewrite H1.
  destruct (length bs =? 0)%nat eqn:E0.
  { apply wp_ret. simpl. split; [done|]. rewrite length_app. lia. }
  apply Nat.eqb_neq in E0.
  assert (length (acc ++ bs) ≤ size)%nat by (rewrite length_app; lia).
  destruct (length (acc ++ bs) <? length eol)%nat eqn:E1.
  { apply Nat.ltb_lt in E1. rewrite <- H1. apply IH; [lia|done]. }
  destruct (str_eqb _ eol); [by apply wp_ret|].
  destruct (length (acc ++ bs) =? size)%nat eqn:E2; [by apply wp_ret|].
  apply Nat.eqb_neq in E2. rewrite <- H1. apply IH; [lia|done].
Qed.

(** [readline] disturbs nothing observable and stays inside its buffer. *)
Lemma readline_spec buffer size eol s :
  v_rlock (pv s) = false → v_ok (pv s) = true → (length eol ≤ size)%nat →
  (0 < size)%nat →
  wp (Serial.readline buffer size eol)
    (spec (λ r s', pv s' = pv s ∧ ∃ line, r = (buffer ++ line, length line) ∧
                   (length line ≤ size)%nat)
          (λ _ s', pv s' = pv s)) s.
Proof.
  intros Hl Hok He Hs. apply scoped_read_spec; [done..|]. intros s1 H1.
  assert (v_ok (pv s1) = true) by by rewrite H1.
  eapply wp_bind_spec.
  - eapply wp_spec_mono; [by apply readline_loop_spec|simpl..].
    + intros line s2 [H2 Hline]. exact (conj H2 Hline).
    + intros e s2 H2. by eapply relock_read.
  - simpl. intros line s2 [H2 Hline]. apply wp_ret. simpl.
    split; [by eapply relock_read|]. by exists line.
Qed.

Lemma readlines_loop_spec fuel size eol acc start lines s : v_ok (pv s) = true →
  wp (Serial.readlines_loop fuel size eol acc start lines)
    (spec (λ _ s', pv s' = pv s) (λ _ s', pv s' = pv s)) s.
Proof.
  revert acc start lines s. induction fuel as [|f IH]; intros acc start lines s Hok; [done|].
  cbn [Serial.readlines_loop]. destruct (length acc <? size)%nat; [|by apply wp_ret].
  eapply wp_bind_spec; [eapply wp_spec_mono; [by apply read_ok|..]|].
  - intros bs s1 [_ H1]. exact H1.
  - done.
  - simpl. intros bs s1 H1. assert (v_ok (pv s1) = true) by by rewrite H1.
    destruct (length bs =? 0)%nat; [by apply wp_ret|].
    destruct (_ <? _)%nat; [rewrite <- H1; by apply IH|].
    destruct (str_eqb _ eol); (destruct (_ =? size)%nat; [by apply wp_ret|]);
      rewrite <- H1; by apply IH.
Qed.

Lemma readlines_spec size eol s : v_rlock (pv s) = false → v_ok (pv s) = true →
  wp (Serial.readlines size eol)
    (spec (λ _ s', pv s' = pv s) (λ _ s', pv s' = pv s)) s.
Proof.
  intros Hl Hok. apply scoped_read_spec; [done..|]. intros s1 H1.
  eapply wp_spec_mono; [apply readlines_loop_spec; by rewrite H1|simpl; eauto using relock_read..].
Qed.

(** ** Termination of the line reads *)
Context `{!SerialImplLive P}.

Lemma readline_loop_live fuel size eol acc :
  (size - length acc < fuel)%nat → live (Serial.readline_loop fuel size eol acc).
Proof.
  revert acc. induction fuel as [|f IH]; intros acc Hf; [lia|].
  cbn [Serial.readline_loop]. destruct (Nat.leb_spec size (length acc)); [by intros s|].
  apply live_bind; [apply read_live|]. intros bs.
  destruct (length bs =? 0)%nat eqn:E0; [by intros s|]. apply Nat.eqb_neq in E0.
  assert (size - length (acc ++ bs) < f)%nat by (rewrite length_app; lia).
  repeat (case_match; [by first [intros s; done|apply IH]|]). by apply IH.
Qed.

Lemma readlines_loop_live fuel size eol acc start lines :
  (size - length acc < fuel)%nat →
  live (Serial.readlines_loop fuel size eol acc start lines).
Proof.
  revert acc start lines. induction fuel as [|f IH]; intros acc start lines Hf; [lia|].
  cbn [Serial.readlines_loop]. destruct (Nat.ltb_spec (length acc) size); [|by intros s].
  apply live_bind; [apply read_live|]. intros bs.
  destruct (length bs =? 0)%nat eqn:E0; [by intros s|]. apply Nat.eqb_neq in E0.
  assert (size - length (acc ++ bs) < f)%nat by (rewrite length_app; lia).
  destruct (_ <? _)%nat; [by apply IH|].
  destruct (str_eqb _ eol); (case_match; [by intros s|]); by apply IH.
Qed.

Lemma scoped_read_ends {A} (body : M P A) s :
  live body → v_ok (pv s) = true → v_rlock (pv s) = false →
  (Serial.ScopedReadLock body s).1 ≠ Spin.
Proof.
  intros Hb Hok Hl. unfold Serial.ScopedReadLock, bind.
  pose proof (readLock_ok s Hok Hl) as Hr. unfold wp in Hr.
  destruct (impl_readLock s) as [[] s1]; simpl in *; try done.
  unfold finally. specialize (Hb s1). by destruct (body s1) as [[] s2].
Qed.

Lemma scoped_write_ends {A} (body : M P A) s :
  live body → v_ok (pv s) = true → v_wlock (pv s) = false →
  (Serial.ScopedWriteLock body s).1 ≠ Spin.
Proof.
  intros Hb Hok Hl. unfold Serial.ScopedWriteLock, bind.
  pose proof (writeLock_ok s Hok Hl) as Hr. unfold wp in Hr.
  destruct (impl_writeLock s) as [[] s1]; simpl in *; try done.
  unfold finally. specialize (Hb s1). by destruct (body s1) as [[] s2].
Qed.

(** An operation that keeps the locks and ends is safe between scopes. *)
Lemma safe_unlocked {A} (m : M P A) :
  (∀ s, unlocked s → wp m (spec (λ _, unlocked) (λ _, unlocked)) s) →
  (∀ s, unlocked s → (m s).1 ≠ Spin) →
  safe unlocked m.
Proof. intros Hs Hl s Hu. apply wp_spec_live; auto. Qed.

Lemma unlocked_pv (s s' : P) : pv s' = pv s → unlocked s → unlocked s'.
Proof. unfold unlocked. by intros ->. Qed.

Lemma quiet_unlocked {A} (m : M P A) s :
  wp m (spec (λ _ s', pv s' = pv s) (λ _ s', pv s' = pv s)) s →
  unlocked s → wp m (spec (λ _, unlocked) (λ _, unlocked)) s.
Proof.
  intros Hm Hu. eapply wp_spec_mono; [exact Hm|..]; simpl;
    intros ? s' Hs'; by eapply unlocked_pv.
Qed.

Lemma quiet_safe {A} (m : M P A) : quiet m → live m → safe unlocked m.
Proof. intros Hq Hl. apply safe_unlocked; [|auto].
  intros s Hu. apply quiet_unlocked; [apply Hq; apply Hu|done].
Qed.

Lemma open_safe : safe unlocked Serial.open.
Proof.
  apply safe_unlocked; [|by intros; apply open_live]. intros s Hu.
  eapply wp_spec_mono; [apply open_ok; apply Hu|..]; unfold unlocked in *; simpl;
    by intros ? s' ->.
Qed.

Lemma close_safe : safe unlocked Serial.close.
Proof.
  apply safe_unlocked; [|by intros; apply close_live]. intros s Hu.
  eapply wp_spec_mono; [apply close_ok; apply Hu|..]; unfold unlocked in *; simpl;
    by intros ? s' ->.
Qed.

Lemma flushInput_safe : safe unlocked Serial.flushInput.
Proof.
  apply safe_unlocked; intros s [[Hr Hw] Hok].
  - apply quiet_unlocked; [by apply flushInput_spec|done].
  - apply scoped_read_ends; [apply flushInput_live|done..].
Qed.

Lemma flushOutput_safe : safe unlocked Serial.flushOutput.
Proof.
  apply safe_unlocked; intros s [[Hr Hw] Hok].
  - apply quiet_unlocked; [by apply flushOutput_spec|done].
  - apply scoped_write_ends; [apply flushOutput_live|done..].
Qed.

Lemma write_safe d : safe unlocked (Serial.write d).
Proof.
  apply safe_unlocked; intros s [[Hr Hw] Hok].
  - eapply wp_spec_mono; [by apply write_spec|..]; unfold unlocked; simpl.
    + by intros n s' [_ ->].
    + by intros e s' (k & _ & ->).
  - apply scoped_write_ends; [apply write_live|done..].
Qed.

Lemma readline_safe buffer size eol :
  (length eol ≤ size)%nat → (0 < size)%nat →
  safe unlocked (Serial.readline buffer size eol).
Proof.
  intros He Hs. apply safe_unlocked; intros s [[Hr Hw] Hok].
  - eapply quiet_unlocked; [|done].
    eapply wp_spec_mono; [by apply readline_spec|simpl; tauto|done].
  - apply scoped_read_ends; [|done..]. apply live_bind; [|by intros ? ?].
    apply readline_loop_live. simpl. lia.
Qed.

Lemma readlines_safe size eol : safe unlocked (Serial.readlines size eol).
Proof.
  apply safe_unlocked; intros s [[Hr Hw] Hok].
  - eapply quiet_unlocked; [|done]. by apply readlines_spec.
  - apply scoped_read_ends; [|done..]. apply readlines_loop_live. simpl. lia.
Qed.

Lemma setTimeout_safe t : safe unlocked (Serial.setTimeout (simpleTimeout t)).
Proof. apply quiet_safe; [by apply setTimeout_ok|apply setTimeout_live]. Qed.
Lemma setBaudrate_safe b : 4 ≤ b < 2 ^ 32 → safe unlocked (Serial.setBaudrate b).
Proof. intros Hb. apply quiet_safe; [by apply setBaudrate_ok|apply setBaudrate_live]. Qed.
Lemma setBytesize_safe b : safe unlocked (Serial.setBytesize b).
Proof. apply quiet_safe; [apply setBytesize_ok|apply setBytesize_live]. Qed.
Lemma setParity_safe b : safe unlocked (Serial.setParity b).
Proof. apply quiet_safe; [apply setParity_ok|apply setParity_live]. Qed.
Lemma setStopbits_safe b : safe unlocked (Serial.setStopbits b).
Proof. apply quiet_safe; [apply setStopbits_ok|apply setStopbits_live]. Qed.

(** Without and under both locks, with [o] transmitted. *)
Definition unlocked_at (o : bytes) (s : P) : Prop := unlocked s ∧ v_out (pv s) = o.
Definition locked_at (o : bytes) (s : P) : Prop :=
  ((v_rlock (pv s) = true ∧ v_wlock (pv s) = true) ∧ v_ok (pv s) = true) ∧ v_out (pv s) = o.

Lemma scoped_both_safe {A} o (body : M P A) :
  safe (locked_at o) body →
  safe (unlocked_at o) (Serial.ScopedReadLock (Serial.ScopedWriteLock body)).
Proof.
  intros Hb s [[[Hr Hw] Hok] Ho].
  unfold Serial.ScopedReadLock, Serial.ScopedWriteLock, wp, bind.
  pose proof (readLock_ok s Hok Hr) as H1. unfold wp in H1.
  destruct (impl_readLock s) as [[] s1]; simpl in H1; try done. unfold finally.
  assert (v_wlock (pv s1) = false) as Hw1 by (by rewrite H1).
  assert (v_ok (pv s1) = true) as Hok1 by (by rewrite H1).
  pose proof (writeLock_ok s1 Hok1 Hw1) as H2. unfold wp in H2.
  destruct (impl_writeLock s1) as [[] s2]; simpl in H2; try done.
  assert (locked_at o s2) as Hl by (unfold locked_at; by rewrite H2, H1).
  specialize (Hb s2 Hl). unfold wp in Hb.
  destruct (body s2) as [[] s3]; simpl in *; try done;
    unfold unlocked_at, unlocked, locked_at in *; rewrite readUnlock_ok; rewrite writeUnlock_ok;
    simpl; tauto.
Qed.

Lemma setPort_unlocked_at o p : safe (unlocked_at o) (Serial.setPort p).
Proof.
  apply scoped_both_safe.
  assert (∀ {A} (m : M P A) (f : pview → pview), live m →
    (∀ v, (v_rlock (f v), v_wlock (f v), v_ok (f v), v_out (f v)) =
          (v_rlock v, v_wlock v, v_ok v, v_out v)) →
    (∀ s, v_ok (pv s) = true →
       wp m (spec (λ _ s', pv s' = f (pv s)) (λ _ s', pv s' = pv s)) s) →
    safe (locked_at o) m) as Hs.
  { intros A m f Hl Hf Hm s [[[Hr Hw] Hok] Ho]. apply wp_spec_live; [apply Hl|].
    injection (Hf (pv s)) as E1 E2 E3 E4. unfold locked_at.
    eapply wp_spec_mono; [by apply Hm|..]; simpl; intros ? s' ->; [|done].
    by rewrite E1, E2, E3, E4. }
  assert (safe (locked_at o) Serial.open) by
    (apply (Hs _ _ (λ v, v <| v_open := true |>)); [apply open_live|done|apply open_ok]).
  assert (safe (locked_at o) Serial.close) by
    (apply (Hs _ _ (λ v, v <| v_open := false |>)); [apply close_live|done|apply close_ok]).
  assert (safe (locked_at o) (impl_setPort p)) by
    (apply (Hs _ _ id); [apply setPort_live|done|apply setPort_ok]).
  eauto 20 with safe.
Qed.

Lemma setPort_safe p : safe unlocked (Serial.setPort p).
Proof.
  intros s Hu. eapply wp_mono; [by apply (setPort_unlocked_at (v_out (pv s)))|].
  intros [] s'; simpl; try done; by intros [? _].
Qed.

Lemma sleep_unlocked ms s : unlocked s → unlocked (sleep_for_ms ms s).
Proof. intros Hu. eapply unlocked_pv; [apply sleep_ok|done]. Qed.
End serial_facts.

#[export] Hint Resolve open_safe close_safe flushInput_safe flushOutput_safe
  write_safe readline_safe readlines_safe setTimeout_safe setPort_safe
  setBaudrate_safe setBytesize_safe setParity_safe setStopbits_safe
  sleep_unlocked : safe.

(** ** What the line reads return *)

(** [ends_with eol l]: the test of the loops for a complete line. *)
Definition ends_with (eol l : bytes) : bool :=
  (length eol <=? length l)%nat && str_eqb (Serial.lastn (length eol) l) eol.

(** [line] ends with [eol] and does so for the first time. *)
Definition first_eol (eol line : bytes) : Prop :=
  ends_with eol line = true ∧
  ∀ k, (k < length line)%nat → ends_with eol (take k line) = false.

Lemma ends_with_last e z l :
  ends_with (e ++ [z]) l = true → ∃ l', l = l' ++ [z].
Proof.
  unfold ends_with. rewrite andb_true_iff, Nat.leb_le. intros [Hle Heq].
  unfold str_eqb in Heq. apply bool_decide_eq_true in Heq.
  destruct (lastn_suffix _ _ Hle) as [_ [k Hk]].
  exists (k ++ e). rewrite Hk, Heq. by rewrite app_assoc.
Qed.

Lemma ends_with_app eol l : ends_with eol (l ++ eol) = true.
Proof.
  unfold ends_with. rewrite andb_true_iff, Nat.leb_le, length_app. split; [lia|].
  rewrite lastn_app by done. unfold str_eqb. by apply bool_decide_eq_true.
Qed.

(** A body free of the last character of the terminator, followed by the
    terminator, is one line. *)
Lemma first_eol_intro body e z :
  z ∉ body ++ e → first_eol (e ++ [z]) (body ++ e ++ [z]).
Proof.
  intros Hz. split; [apply ends_with_app|]. intros k Hk.
  destruct (ends_with (e ++ [z]) (take k (body ++ e ++ [z]))) eqn:E; [|done].
  exfalso. apply ends_with_last in E as [l' E]. apply Hz.
  rewrite app_assoc, !length_app in Hk. simpl in Hk.
  rewrite app_assoc, take_app_le in E by (rewrite length_app; lia).
  rewrite <- (take_drop k (body ++ e)), E. apply elem_of_app. left.
  apply elem_of_app. right. by apply list_elem_of_singleton.
Qed.

Section line_reads.
Context {P : Type} `{SerialImpl P}.

(** [reads s bs s']: one-byte reads from [s] deliver [bs], reaching [s']. *)
Inductive reads : P → bytes → P → Prop :=
  | reads_nil s : reads s [] s
  | reads_cons s c s1 bs s2 :
      impl_read 1 s = (Ret [c], s1) → reads s1 bs s2 → reads s (c :: bs) s2.

Lemma reads_app s bs s1 cs s2 :
  reads s bs s1 → reads s1 cs s2 → reads s (bs ++ cs) s2.
Proof. induction 1; intros; simpl; [done|]. econstructor; eauto. Qed.

Lemma reads_app_inv s bs cs s2 :
  reads s (bs ++ cs) s2 → ∃ s1, reads s bs s1 ∧ reads s1 cs s2.
Proof.
  revert s. induction bs as [|c bs IH]; intros s Hr; simpl in *.
  - exists s. split; [constructor|done].
  - inversion Hr as [|? ? s1 ? ? Hc Hr']; subst. apply IH in Hr' as (s3 & ? & ?).
    exists s3. split; [|done]. by econstructor.
Qed.

Lemma readline_loop_complete fuel size eol acc s rest s' :
  reads s rest s' → rest ≠ [] → first_eol eol (acc ++ rest) →
  (length (acc ++ rest) ≤ size)%nat → (length rest ≤ fuel)%nat →
  Serial.readline_loop fuel size eol acc s = (Ret (acc ++ rest), s').
Proof.
  intros Hr. revert fuel acc.
  induction Hr as [s|s c s1 bs s2 Hc Hr IH]; intros fuel acc Hne Hfe Hsz Hf; [done|].
  destruct fuel as [|f]; simpl in Hf; [lia|]. cbn [Serial.readline_loop].
  rewrite (cons_middle c), app_assoc in *. rewrite length_app in Hsz.
  rewrite (proj2 (Nat.leb_gt _ _)) by (rewrite length_app in Hsz; simpl in *; lia).
  rewrite (bind_ret_run _ _ _ [c] s1) by done. cbn [length Nat.eqb].
  destruct bs as [|d bs].
  - inv Hr. rewrite app_nil_r in *. destruct Hfe as [Hend _].
    unfold ends_with in Hend. apply andb_true_iff in Hend as [Hle Heq].
    apply Nat.leb_le in Hle. rewrite (proj2 (Nat.ltb_ge _ _)) by done. by rewrite Heq.
  - assert (Serial.readline_loop f size eol (acc ++ [c]) s1 =
              (Ret ((acc ++ [c]) ++ d :: bs), s2)) as Hrec.
    { apply IH; [done|done|by rewrite length_app|simpl in *; lia]. }
    assert (ends_with eol (acc ++ [c]) = false) as Hno.
    { rewrite <- (take_app_length (acc ++ [c]) (d :: bs)). apply Hfe.
      rewrite (length_app (acc ++ [c])). simpl. lia. }
    unfold ends_with in Hno. apply andb_false_iff in Hno as [Hlt|Hneq].
    + apply Nat.leb_gt in Hlt. by rewrite (proj2 (Nat.ltb_lt _ _)) by done.
    + rewrite Hneq. destruct (_ <? _)%nat; [done|].
      rewrite (proj2 (Nat.eqb_neq _ _)); [done|]. simpl in Hsz. lia.
Qed.

(** The read ends at a timeout: what was received is returned as it is. *)
Lemma readline_loop_timeout fuel size eol acc s rest s1 s' :
  reads s rest s1 → impl_read 1 s1 = (Ret [], s') →
  (∀ k, (k ≤ length (acc ++ rest))%nat → ends_with eol (take k (acc ++ rest)) = false) →
  (length (acc ++ rest) < size)%nat → (length rest < fuel)%nat →
  Serial.readline_loop fuel size eol acc s = (Ret (acc ++ rest), s').
Proof.
  intros Hr. revert fuel acc.
  induction Hr as [s|s c s1 bs s2 Hc Hr IH]; intros fuel acc Hto Hno Hsz Hf;
    (destruct fuel as [|f]; simpl in Hf; [lia|]); cbn [Serial.readline_loop].
  - rewrite app_nil_r in *. rewrite (proj2 (Nat.leb_gt _ _)) by done.
    rewrite (bind_ret_run _ _ _ [] s') by done. simpl. by rewrite app_nil_r.
  - rewrite (cons_middle c), app_assoc in *. pose proof Hsz as Hsz'.
    rewrite length_app in Hsz'.
    rewrite (proj2 (Nat.leb_gt _ _)) by (rewrite length_app in Hsz'; simpl in *; lia).
    rewrite (bind_ret_run _ _ _ [c] s1) by done. cbn [length Nat.eqb].
    assert (ends_with eol (acc ++ [c]) = false) as Hn.
    { rewrite <- (take_app_length (acc ++ [c]) bs). apply Hno.
      rewrite (length_app (acc ++ [c])). lia. }
    unfold ends_with in Hn. apply andb_false_iff in Hn as [Hlt|Hneq].
    + apply Nat.leb_gt in Hlt. rewrite (proj2 (Nat.ltb_lt _ _)) by done.
      apply IH; auto; lia.
    + rewrite Hneq. destruct (_ <? _)%nat; [apply IH; auto; lia|].
      rewrite (proj2 (Nat.eqb_neq _ _)) by lia. apply IH; auto; lia.
Qed.

Lemma readline_line (buffer : bytes) (size : nat) (eol line : bytes) (s s0 s1 : P) :
  impl_readLock s = (Ret tt, s0) → reads s0 line s1 → line ≠ [] →
  first_eol eol line → (length line ≤ size)%nat →
  Serial.readline buffer size eol s =
  (Ret (buffer ++ line, length line), impl_readUnlock s1).
Proof.
  intros Hlock Hr Hne Hfe Hsz. unfold Serial.readline, Serial.ScopedReadLock.
  rewrite (bind_ret_run _ _ _ tt s0) by done. unfold finally.
  erewrite bind_ret_run; [done|].
  apply (readline_loop_complete (S size) size eol [] s0 line s1); auto; lia.
Qed.

(** C7: [readline] returns exactly one line: when the port delivers a line, up
    to and including the first occurrence of the terminator, and it fits the
    size, the line is appended to the caller's buffer, its length returned, and
    nothing beyond it is consumed. *)
Theorem readline_returns_line (buffer : bytes) (size : nat) (eol line : bytes)
    (s s0 s1 : P) :
  impl_readLock s = (Ret tt, s0) → reads s0 line s1 → line ≠ [] →
  first_eol eol line → (length line ≤ size)%nat →
  Serial.readline buffer size eol s =
  (Ret (buffer ++ line, length line), impl_readUnlock s1).
Proof. apply readline_line. Qed.

(** ** readlines *)
Lemma ends_with_char z l c : ends_with [z] (l ++ [c]) = Ascii.eqb c z.
Proof.
  destruct (Ascii.eqb_spec c z) as [->|Hne]; [apply (ends_with_app [z])|].
  destruct (ends_with [z] (l ++ [c])) eqn:E; [|done].
  apply (ends_with_last []) in E as [l' E]. by apply app_inj_tail in E as [_ ?].
Qed.

Lemma readlines_step fuel size z acc start lines s c s1 :
  impl_read 1 s = (Ret [c], s1) → (length acc + 1 < size)%nat →
  Serial.readlines_loop (S fuel) size [z] acc start lines s =
  if Ascii.eqb c z
  then Serial.readlines_loop fuel size [z] (acc ++ [c]) (length (acc ++ [c]))
         (lines ++ [drop start (acc ++ [c])]) s1
  else Serial.readlines_loop fuel size [z] (acc ++ [c]) start lines s1.
Proof.
  intros Hc Hsz. cbn [Serial.readlines_loop].
  rewrite (proj2 (Nat.ltb_lt _ _)) by lia.
  rewrite (bind_ret_run _ _ _ [c] s1) by done. cbn [length Nat.eqb].
  pose proof (ends_with_char z acc c) as He. unfold ends_with in He.
  assert ((1 <=? length (acc ++ [c]))%nat = true) as Hle
    by (apply Nat.leb_le; rewrite length_app; simpl; lia).
  cbn [length] in He. rewrite Hle in He. simpl in He. rewrite He.
  rewrite (proj2 (Nat.ltb_ge _ _)) by (apply Nat.leb_le in Hle; lia).
  rewrite (proj2 (Nat.eqb_neq (length (acc ++ [c])) size))
    by (rewrite length_app; simpl; lia).
  by destruct (Ascii.eqb c z).
Qed.

(** One more line goes by. *)
Lemma readlines_one_line fuel size z acc start lines s body s1 :
  z ∉ body → reads s (body ++ [z]) s1 →
  (length acc + length body + 1 < size)%nat →
  Serial.readlines_loop (length body + 1 + fuel) size [z] acc start lines s =
  Serial.readlines_loop fuel size [z] (acc ++ body ++ [z])
    (length (acc ++ body ++ [z])) (lines ++ [drop start (acc ++ body ++ [z])]) s1.
Proof.
  revert acc s. induction body as [|c body IH]; intros acc s Hz Hr Hsz;
    cbn [length app Nat.add] in *.
  - inversion Hr as [|? ? s2 ? ? Hc Hr']; subst. inv Hr'.
    erewrite readlines_step by (done || lia). by rewrite Ascii.eqb_refl.
  - apply not_elem_of_cons in Hz as [Hne Hz].
    inversion Hr as [|? ? s2 ? ? Hc Hr']; subst.
    erewrite readlines_step by (done || lia).
    rewrite (proj2 (Ascii.eqb_neq _ _)) by done.
    rewrite (IH (acc ++ [c])); [|done|done|rewrite length_app; simpl; lia].
    by rewrite <- !app_assoc.
Qed.

Definition terminated (z : ascii) (bodies : list bytes) : list bytes :=
  map (λ b, b ++ [z]) bodies.

Lemma readlines_loop_complete fuel size z acc lines s bodies s1 s2 :
  Forall (λ b, z ∉ b) bodies →
  reads s (List.concat (terminated z bodies)) s1 → impl_read 1 s1 = (Ret [], s2) →
  (length acc + length (List.concat (terminated z bodies)) < size)%nat →
  (length (List.concat (terminated z bodies)) < fuel)%nat →
  Serial.readlines_loop fuel size [z] acc (length acc) lines s =
  (Ret (lines ++ terminated z bodies), s2).
Proof.
  intros Hall. revert fuel acc lines s.
  induction Hall as [|b bodies Hb Hall IH]; intros fuel acc lines s Hr Hto Hsz Hf; simpl in *.
  - inv Hr. destruct fuel as [|f]; [lia|]. cbn [Serial.readlines_loop].
    rewrite (proj2 (Nat.ltb_lt _ _)) by lia.
    rewrite (bind_ret_run _ _ _ [] s2) by done. simpl. rewrite !app_nil_r.
    by rewrite Nat.eqb_refl.
  - apply reads_app_inv in Hr as (s3 & Hr1 & Hr2). rewrite !length_app in *. simpl in *.
    replace fuel with (length b + 1 + (fuel - (length b + 1)))%nat by lia.
    rewrite (readlines_one_line _ _ _ _ _ _ _ b s3) by (done || lia).
    rewrite drop_app_length.
    rewrite IH; [by rewrite <- app_assoc|done|done| |lia].
    rewrite !length_app. simpl. lia.
Qed.

Lemma readlines_terminated (size : nat) (z : ascii) (bodies : list bytes)
    (s s0 s1 s2 : P) :
  impl_readLock s = (Ret tt, s0) → Forall (λ b, z ∉ b) bodies →
  reads s0 (List.concat (terminated z bodies)) s1 → impl_read 1 s1 = (Ret [], s2) →
  (length (List.concat (terminated z bodies)) < size)%nat →
  Serial.readlines size [z] s = (Ret (terminated z bodies), impl_readUnlock s2).
Proof.
  intros Hlock Hall Hr Hto Hsz. unfold Serial.readlines, Serial.ScopedReadLock.
  rewrite (bind_ret_run _ _ _ tt s0) by done. unfold finally.
  assert (Serial.readlines_loop (S size) size [z] [] 0 [] s0 =
          (Ret ([] ++ terminated z bodies), s2)) as ->; [|done].
  apply (readlines_loop_complete (S size) size z [] [] s0 bodies s1 s2); auto.
Qed.

(** [readlines] splits its input into its lines: when the port delivers
    complete lines and then times out, the result is those lines, in order and
    each with its terminator. *)
Lemma readlines_splits (size : nat) (z : ascii) (bodies : list bytes)
    (s s0 s1 s2 : P) :
  impl_readLock s = (Ret tt, s0) → Forall (λ b, z ∉ b) bodies →
  reads s0 (List.concat (terminated z bodies)) s1 → impl_read 1 s1 = (Ret [], s2) →
  (length (List.concat (terminated z bodies)) < size)%nat →
  Serial.readlines size [z] s = (Ret (terminated z bodies), impl_readUnlock s2).
Proof. apply readlines_terminated. Qed.

End line_reads.
