(* ===== verification/Loopback.v ===== *)
(** * A concrete port

    A scripted peer behind a serial port, used to run the models: every
    completely accepted write makes the next scripted reply available, a
    scripted limit can cut a write short, and re-opening the port can bring in
    a late reply.  It satisfies the interface of Serial.v, which shows that the
    interface can be met and that the theorems stated against it apply. *)
From S2P Require Import Prelude CppStd Serial.

Record loop := mkLoop {
  l_open : bool;
  l_port : bytes;
  l_timeout : Timeout;
  l_baud : Z;
  l_bytesize : bytesize_t;
  l_parity : parity_t;
  l_stopbits : stopbits_t;
  l_flowcontrol : flowcontrol_t;
  l_rlock : bool;
  l_wlock : bool;
  (** bytes accepted for transmission *)
  l_out : bytes;
  (** bytes waiting to be read *)
  l_rx : bytes;
  (** replies to the next complete writes *)
  l_replies : list bytes;
  (** bytes that arrive at the next openings of the port *)
  l_late : list bytes;
  (** limits on the next writes; none when exhausted *)
  l_limits : list nat;
  (** milliseconds slept *)
  l_slept : Z;
}.
#[export] Instance eta_loop : Eta loop := λ l,
  mkLoop (l_open l) (l_port l) (l_timeout l) (l_baud l) (l_bytesize l) (l_parity l)
    (l_stopbits l) (l_flowcontrol l) (l_rlock l) (l_wlock l)
    (l_out l) (l_rx l) (l_replies l) (l_late l) (l_limits l) (l_slept l).

Definition loop_init (replies late : list bytes) (limits : list nat) : loop :=
  mkLoop false [] (simpleTimeout 0) 9600 eightbits parity_none stopbits_one flowcontrol_none
    false false [] [] replies late limits 0.

Definition loop_require_open (what : string) : M loop unit :=
  b <- gets l_open ;; if b then ret tt else throw (PortNotOpenedException what).

Definition loop_open : M loop unit :=
  l <- gets id ;;
  if str_eqb (l_port l) [] then throw (invalid_argument "Empty port is invalid.")
  else if l_open l then throw (SerialException "Serial port already open.")
  else modify (λ l, l <| l_open := true |>
                      <| l_rx := l_rx l ++ hd [] (l_late l) |>
                      <| l_late := tl (l_late l) |>).

Definition loop_read (n : nat) : M loop bytes :=
  loop_require_open "Serial::read" ;;
  bs <- gets (λ l, take n (l_rx l)) ;;
  modify (λ l, l <| l_rx := drop n (l_rx l) |>) ;;
  ret bs.

Definition loop_write (d : bytes) : M loop nat :=
  loop_require_open "Serial::write" ;;
  n <- gets (λ l, Nat.min (length d) (hd (length d) (l_limits l))) ;;
  modify (λ l, l <| l_out := l_out l ++ take n d |> <| l_limits := tl (l_limits l) |>) ;;
  (when (n =? length d)%nat do
     modify (λ l, l <| l_rx := l_rx l ++ hd [] (l_replies l) |>
                    <| l_replies := tl (l_replies l) |>)) ;;
  ret n.

Definition loop_lock (get : loop → bool) (set : loop → loop) : M loop unit :=
  b <- gets get ;; if b then spin else modify set.

#[export] Instance loop_impl : SerialImpl loop := {|
  impl_construct := l <- gets id ;; when negb (str_eqb (l_port l) []) do loop_open;
  impl_destroy := modify (λ l, l <| l_open := false |>);
  impl_open := loop_open;
  impl_close := modify (λ l, l <| l_open := false |>);
  impl_isOpen := l_open;
  impl_available := gets (λ l, size (l_rx l));
  impl_waitReadable _ := gets (λ l, negb (str_eqb (l_rx l) []));
  impl_waitByteTimes _ := ret tt;
  impl_read := loop_read;
  impl_write := loop_write;
  impl_flush := loop_require_open "Serial::flush";
  impl_flushInput :=
    loop_require_open "Serial::flushInput" ;; modify (λ l, l <| l_rx := [] |>);
  impl_flushOutput := loop_require_open "Serial::flushOutput";
  impl_setPort p := modify (λ l, l <| l_port := p |>);
  impl_getPort := l_port;
  impl_setTimeout t := modify (λ l, l <| l_timeout := t |>);
  impl_getTimeout := l_timeout;
  impl_setBaudrate b := modify (λ l, l <| l_baud := b |>);
  impl_getBaudrate := l_baud;
  impl_setBytesize b := modify (λ l, l <| l_bytesize := b |>);
  impl_getBytesize := l_bytesize;
  impl_setParity p := modify (λ l, l <| l_parity := p |>);
  impl_getParity := l_parity;
  impl_setStopbits b := modify (λ l, l <| l_stopbits := b |>);
  impl_getStopbits := l_stopbits;
  impl_setFlowcontrol f := modify (λ l, l <| l_flowcontrol := f |>);
  impl_getFlowcontrol := l_flowcontrol;
  impl_sendBreak _ := loop_require_open "Serial::sendBreak";
  impl_setBreak _ := loop_require_open "Serial::setBreak";
  impl_setRTS _ := loop_require_open "Serial::setRTS";
  impl_setDTR _ := loop_require_open "Serial::setDTR";
  impl_waitForChange := ret true;
  impl_getCTS := loop_require_open "Serial::getCTS" ;; ret false;
  impl_getDSR := loop_require_open "Serial::getDSR" ;; ret false;
  impl_getRI := loop_require_open "Serial::getRI" ;; ret false;
  impl_getCD := loop_require_open "Serial::getCD" ;; ret false;
  impl_readLock := loop_lock l_rlock (λ l, l <| l_rlock := true |>);
  impl_readUnlock l := l <| l_rlock := false |>;
  impl_writeLock := loop_lock l_wlock (λ l, l <| l_wlock := true |>);
  impl_writeUnlock l := l <| l_wlock := false |>;
  sleep_for_ms ms l := l <| l_slept := l_slept l + ms |>;
|}.

#[export] Instance loop_obs : Observable loop := λ l,
  mkView (l_open l) (l_out l) (l_rlock l) (l_wlock l) true.

Ltac loop_case :=
  intros; unfold quiet, live; intros; unfold wp; simpl;
  unfold loop_open, loop_read, loop_write, loop_require_open, loop_lock,
    bind, gets, modify, ret, throw, spin in *; simpl in *;
  repeat case_match; simplify_eq/=; auto.

#[export] Instance loop_ok : SerialImplOK loop.
Proof.
  split; loop_case; try done.
  - rewrite length_take. split; [lia|done].
  - split; [lia|done].
  - split; [lia|done].
  - exists 0%nat. split; [lia|]. unfold pv, loop_obs, upd. simpl.
    by rewrite app_nil_r.
Qed.

#[export] Instance loop_live : SerialImplLive loop.
Proof. split; loop_case; done. Qed.

(** Reading byte by byte delivers what is waiting. *)
Lemma loop_reads (bs rest : bytes) (s : loop) :
  l_open s = true → l_rx s = bs ++ rest → reads s bs (s <| l_rx := rest |>).
Proof.
  revert s. induction bs as [|c bs IH]; intros s Ho Hrx; simpl in *.
  - assert (s <| l_rx := rest |> = s) as ->; [|constructor].
    rewrite <- Hrx. by destruct s.
  - econstructor.
    + simpl. unfold loop_read, loop_require_open, bind, gets, modify, ret.
      rewrite Ho, Hrx. reflexivity.
    + pose proof (IH (s <| l_rx := bs ++ rest |>)) as Hr.
      specialize (Hr Ho eq_refl). unfold upd in *. simpl in *. by rewrite drop_0.
Qed.

(** A port that is open with [rx] waiting to be read. *)
Definition loop_with (rx : bytes) : loop :=
  loop_init [] [] [] <| l_open := true |> <| l_rx := rx |>.

(** The same port while its read lock is held. *)
Definition loop_reading (rx : bytes) : loop := loop_with rx <| l_rlock := true |>.

Lemma readline_returns_line_witness :
  ∃ s', Serial.readline (str "<") 64 [LF; CR] (loop_with (str "0;-12" ++ [LF; CR] ++ str "rest"))
        = (Ret (str "<0;-12" ++ [LF; CR], 7%nat), s') ∧ l_rx s' = str "rest".
Proof.
  eexists. split.
  - apply (readline_returns_line (str "<") 64 [LF; CR] (str "0;-12" ++ [LF; CR]) _
      (loop_reading (str "0;-12" ++ [LF; CR] ++ str "rest"))).
    + reflexivity.
    + apply (loop_reads _ (str "rest")); reflexivity.
    + done.
    + apply (first_eol_intro (str "0;-12") [LF] CR).
      apply (bool_decide_unpack _); by vm_compute.
    + vm_compute. lia.
  - reflexivity.
Defined.

Lemma readlines_splits_witness :
  Serial.readlines 64 [CR] (loop_with (str "SE" ++ [CR] ++ str "00" ++ [CR])) =
  (Ret [str "SE" ++ [CR]; str "00" ++ [CR]], loop_with []).
Proof.
  refine (readlines_splits 64 CR [str "SE"; str "00"]
    (loop_with (str "SE" ++ [CR] ++ str "00" ++ [CR]))
    (loop_reading (str "SE" ++ [CR] ++ str "00" ++ [CR]))
    (loop_reading []) (loop_reading []) _ _ _ _ _).
  - reflexivity.
  - apply (bool_decide_unpack _); by vm_compute.
  - apply (loop_reads _ []); reflexivity.
  - reflexivity.
  - vm_compute. lia.
Defined.
