(* ===== verification/UnixSerial.v ===== *)
(** * src/impl/unix.cc and include/serial/impl/unix.h: the port on Linux

    The implementation behind [serial::Serial].  The operating system is a
    parameter: the class [Unix] lists the calls the code makes, [UnixOK] what
    their documentation promises, including that time passes.  From these the file
    discharges the interface of Serial.v, with its loops shown to end.  What the
    conditional compilation depends on, the speeds of <termios.h>, mark and space parity
    and the way to set other rates, is part of the system; the numbers of the terminal
    flags are those of Linux. *)
From S2P Require Import Prelude CppStd Serial.

(** ** The operating system *)

(** Result of a call: a value, or -1 with [errno]. *)
Inductive sysret (A : Type) := SysOk (a : A) | SysErr (errno : Z).
Arguments SysOk {A} a.
Arguments SysErr {A} errno.

Definition EINTR : Z := 4.
Definition ENFILE : Z := 23.
Definition EMFILE : Z := 24.
Definition FD_SETSIZE : Z := 1024.

Record timespec := mkTimespec { tv_sec : Z; tv_nsec : Z }.

(** A time in nanoseconds. *)
Definition ns (t : timespec) : Z := tv_sec t * 10 ^ 9 + tv_nsec t.

(** The speed, which Linux keeps among the bits of [c_cflag], is in fields of its
    own. *)
Record termios := mkTermios {
  c_iflag : Z;
  c_oflag : Z;
  c_cflag : Z;
  c_lflag : Z;
  c_ispeed : Z;
  c_ospeed : Z;
  c_vmin : Z;
  c_vtime : Z;
}.
#[export] Instance eta_termios : Eta termios := λ t,
  mkTermios (c_iflag t) (c_oflag t) (c_cflag t) (c_lflag t) (c_ispeed t) (c_ospeed t)
    (c_vmin t) (c_vtime t).

Record serial_struct := mkSerialStruct {
  ser_flags : Z;
  baud_base : Z;
  custom_divisor : Z;
}.

(** How a rate without a constant is set: by IOSSIOSPEED on macOS, through the divisor
    with TIOCSSERIAL on Linux, or not at all. *)
Inductive custom_bauds := ByIossiospeed | ByDivisor | NoCustomBauds.

(** The calls; [select] reports the number of ready descriptors and whether the
    one asked for is among them.  [os_break] is TIOCSBRK and TIOCCBRK,
    [os_modem_set] is TIOCMBIS and TIOCMBIC, [os_modem_get] is TIOCMGET and
    [os_modem_wait] is TIOCMIWAIT. *)
Class Unix (W : Type) := {
  os_open : bytes → W → sysret Z * W;
  os_close : Z → W → sysret unit * W;
  os_read : Z → nat → W → sysret bytes * W;
  os_write : Z → bytes → W → sysret nat * W;
  os_select_read : Z → timespec → W → sysret (Z * bool) * W;
  os_select_write : Z → timespec → W → sysret (Z * bool) * W;
  os_select_none : timespec → W → W;
  os_now : W → timespec * W;
  os_tcgetattr : Z → W → sysret termios * W;
  os_tcsetattr : Z → termios → W → W;
  os_get_serial : Z → W → sysret serial_struct * W;
  os_set_serial : Z → serial_struct → W → sysret unit * W;
  os_inq : Z → W → sysret Z * W;
  os_tcdrain : Z → W → W;
  os_tciflush : Z → W → W;
  os_tcoflush : Z → W → W;
  os_tcsendbreak : Z → Z → W → W;
  os_break : Z → bool → W → sysret unit * W;
  os_modem_set : Z → bool → Z → W → sysret unit * W;
  os_modem_get : Z → W → sysret Z * W;
  os_modem_wait : Z → Z → W → sysret unit * W;
  os_sleep_ms : Z → W → W;
  (** the constants for rates, whether CMSPAR is defined, and how others are set *)
  os_speeds : list (Z * Z);
  os_cmspar : bool;
  os_custom : custom_bauds;
  os_iossiospeed : Z → Z → W → sysret unit * W;
  os_errno : W → Z;
  os_strerror : Z → bytes;
  (** the bytes accepted by [write] so far, the clock in nanoseconds, and how
      often the next [open] can still be interrupted by a signal *)
  os_out : W → bytes;
  os_clock : W → Z;
  os_patience : W → Z;
}.

(** Nothing is transmitted and time does not run backwards. *)
Definition passes {W} `{Unix W} (w w' : W) : Prop :=
  os_out w' = os_out w ∧ os_clock w ≤ os_clock w'.

(** What the documentation of the calls promises.  Descriptors stay below
    FD_SETSIZE, the default limit of a process. *)
Class UnixOK (W : Type) `{Unix W} : Prop := {
  open_fd p w fd w' : os_open p w = (SysOk fd, w') → 0 ≤ fd < FD_SETSIZE;
  read_length fd n w bs w' : os_read fd n w = (SysOk bs, w') → (length bs ≤ n)%nat;
  write_count fd d w n w' :
    os_write fd d w = (SysOk n, w') → (n ≤ length d)%nat ∧ os_out w' = os_out w ++ take n d;
  write_error fd d w e w' : os_write fd d w = (SysErr e, w') → os_out w' = os_out w;
  write_clock fd d w : os_clock w ≤ os_clock (os_write fd d w).2;
  baud_base_range fd w ser w' :
    os_get_serial fd w = (SysOk ser, w') → 0 ≤ baud_base ser < 2 ^ 31;
  now_clock w : os_clock w < os_clock (os_now w).2 ∧ ns (os_now w).1 = os_clock (os_now w).2;
  now_out w : os_out (os_now w).2 = os_out w;
  patience_range w : 0 ≤ os_patience w < 2 ^ 64;
  open_interrupted p w w' :
    os_open p w = (SysErr EINTR, w') → os_patience w' < os_patience w;
  open_passes p w : passes w (os_open p w).2;
  close_passes fd w : passes w (os_close fd w).2;
  read_passes fd n w : passes w (os_read fd n w).2;
  select_read_passes fd t w : passes w (os_select_read fd t w).2;
  select_write_passes fd t w : passes w (os_select_write fd t w).2;
  select_none_passes t w : passes w (os_select_none t w);
  tcgetattr_passes fd w : passes w (os_tcgetattr fd w).2;
  tcsetattr_passes fd t w : passes w (os_tcsetattr fd t w);
  get_serial_passes fd w : passes w (os_get_serial fd w).2;
  set_serial_passes fd x w : passes w (os_set_serial fd x w).2;
  iossiospeed_passes fd x w : passes w (os_iossiospeed fd x w).2;
  inq_passes fd w : passes w (os_inq fd w).2;
  tcdrain_passes fd w : passes w (os_tcdrain fd w);
  tciflush_passes fd w : passes w (os_tciflush fd w);
  tcoflush_passes fd w : passes w (os_tcoflush fd w);
  break_passes fd b w : passes w (os_break fd b w).2;
  modem_set_passes fd b x w : passes w (os_modem_set fd b x w).2;
  modem_get_passes fd w : passes w (os_modem_get fd w).2;
  sleep_passes t w : passes w (os_sleep_ms t w);
}.

(** ** Terminal flags (Linux) *)
Definition CLOCAL := 2048.
Definition CREAD := 128.
Definition ICANON := 2.
Definition ECHO := 8.
Definition ECHOE := 16.
Definition ECHOK := 32.
Definition ECHONL := 64.
Definition ISIG := 1.
Definition IEXTEN := 32768.
Definition OPOST := 1.
Definition INLCR := 64.
Definition IGNCR := 128.
Definition ICRNL := 256.
Definition IGNBRK := 1.
Definition IUCLC := 512.
Definition PARMRK := 8.
Definition CSIZE := 48.
Definition CS5 := 0.
Definition CS6 := 16.
Definition CS7 := 32.
Definition CS8 := 48.
Definition CSTOPB := 64.
Definition INPCK := 16.
Definition ISTRIP := 32.
Definition PARENB := 256.
Definition PARODD := 512.
Definition CMSPAR := 1073741824.
Definition IXON := 1024.
Definition IXOFF := 4096.
Definition IXANY := 2048.
Definition CRTSCTS := 2147483648.
Definition ASYNC_SPD_MASK := 4144.
Definition ASYNC_SPD_CUST := 48.
Definition TIOCM_DTR := 2.
Definition TIOCM_RTS := 4.
Definition TIOCM_CTS := 32.
Definition TIOCM_CD := 64.
Definition TIOCM_RI := 128.
Definition TIOCM_DSR := 256.

(** The speeds of [<termios.h>] on Linux. *)
Definition linux_speeds : list (Z * Z) :=
  [(0, 0); (50, 1); (75, 2); (110, 3); (134, 4); (150, 5); (200, 6); (300, 7); (600, 8);
   (1200, 9); (1800, 10); (2400, 11); (4800, 12); (9600, 13); (19200, 14); (57600, 4097);
   (38400, 15); (115200, 4098); (230400, 4099); (460800, 4100); (500000, 4101);
   (576000, 4102); (921600, 4103); (1000000, 4104); (1152000, 4105); (1500000, 4106);
   (2000000, 4107); (2500000, 4108); (3000000, 4109); (3500000, 4110); (4000000, 4111)].

Fixpoint baud_code (baudrate : Z) (t : list (Z * Z)) : option Z :=
  match t with
  | [] => None
  | (b, c) :: t' => if baudrate =? b then Some c else baud_code baudrate t'
  end.

(** ** Time *)
(** [MillisecondTimer(millis)] at time [now]: its [expiry].  The code computes
    in [double]; all numbers here are integers below 2^53. *)
Definition timer_expiry (now : timespec) (millis : Z) : timespec :=
  let nsec := tv_nsec now + millis * 10 ^ 6 in
  if 10 ^ 9 <=? nsec
  then mkTimespec (tv_sec now + nsec `quot` 10 ^ 9) (Z.rem nsec (10 ^ 9))
  else mkTimespec (tv_sec now) nsec.

(** [remaining()] at time [now], truncated to milliseconds.  The [double] sum of
    the code has the same integer part: below 2^32 milliseconds its error is under
    half a nanosecond. *)
Definition timer_remaining (expiry now : timespec) : Z :=
  ((tv_sec expiry - tv_sec now) * 10 ^ 9 + (tv_nsec expiry - tv_nsec now)) `quot` 10 ^ 6.

Definition timespec_from_ms (millis : Z) : timespec :=
  let sec := millis `quot` 1000 in mkTimespec sec ((millis - sec * 1000) * 10 ^ 6).

(** ** The port *)
Record unix (W : Type) := mkUnix {
  port_ : bytes;
  fd_ : Z;
  is_open_ : bool;
  timeout_ : Timeout;
  baudrate_ : Z;
  parity_ : parity_t;
  bytesize_ : bytesize_t;
  stopbits_ : stopbits_t;
  flowcontrol_ : flowcontrol_t;
  xonxoff_ : bool;
  rtscts_ : bool;
  byte_time_ns_ : Z;
  read_mutex : bool;
  write_mutex : bool;
  os : W;
}.
Arguments mkUnix {W}.
Arguments port_ {W}.
Arguments fd_ {W}.
Arguments is_open_ {W}.
Arguments timeout_ {W}.
Arguments baudrate_ {W}.
Arguments parity_ {W}.
Arguments bytesize_ {W}.
Arguments stopbits_ {W}.
Arguments flowcontrol_ {W}.
Arguments xonxoff_ {W}.
Arguments rtscts_ {W}.
Arguments byte_time_ns_ {W}.
Arguments read_mutex {W}.
Arguments write_mutex {W}.
Arguments os {W}.
#[export] Instance eta_unix W : Eta (unix W) := λ u,
  mkUnix (port_ u) (fd_ u) (is_open_ u) (timeout_ u) (baudrate_ u) (parity_ u)
    (bytesize_ u) (stopbits_ u) (flowcontrol_ u) (xonxoff_ u) (rtscts_ u)
    (byte_time_ns_ u) (read_mutex u) (write_mutex u) (os u).

Module UnixImpl.
Section unix_ops.
Context {W : Type} {HU : Unix W}.
Implicit Types u : unix W.

(** A call with a result, and one without. *)
Definition sys {A} (call : W → A * W) : M (unix W) A := λ u,
  let '(a, w) := call (os u) in (Ret a, u <| os := w |>).
Definition sys_ (call : W → W) : M (unix W) unit :=
  modify (λ u, u <| os := call (os u) |>).

Definition set_flags (x on off : Z) : Z := Z.lor (Z.ldiff x off) on.

(** The terminal settings computed by [reconfigurePort], in its order. *)
Definition raw_mode (t : termios) : termios :=
  t <| c_cflag := Z.lor (c_cflag t) (Z.lor CLOCAL CREAD) |>
    <| c_lflag := Z.ldiff (c_lflag t)
         (Z.lor ICANON (Z.lor ECHO (Z.lor ECHOE (Z.lor ECHOK (Z.lor ECHONL
           (Z.lor ISIG IEXTEN)))))) |>
    <| c_oflag := Z.ldiff (c_oflag t) OPOST |>
    <| c_iflag := Z.ldiff (Z.ldiff (Z.ldiff (c_iflag t)
         (Z.lor INLCR (Z.lor IGNCR (Z.lor ICRNL IGNBRK)))) IUCLC) PARMRK |>.

Definition with_speed (baud : option Z) (t : termios) : termios :=
  match baud with
  | Some b => t <| c_ispeed := b |> <| c_ospeed := b |>
  | None => t
  end.

Definition with_bytesize (b : bytesize_t) (t : termios) : termios :=
  let cs := match b with eightbits => CS8 | sevenbits => CS7 | sixbits => CS6
                       | fivebits => CS5 end in
  t <| c_cflag := Z.lor (Z.ldiff (c_cflag t) CSIZE) cs |>.

Definition with_stopbits (b : stopbits_t) (t : termios) : termios :=
  match b with
  | stopbits_one => t <| c_cflag := Z.ldiff (c_cflag t) CSTOPB |>
  | stopbits_one_point_five | stopbits_two => t <| c_cflag := Z.lor (c_cflag t) CSTOPB |>
  end.

Definition with_parity (p : parity_t) (t : termios) : termios :=
  let t := t <| c_iflag := Z.ldiff (c_iflag t) (Z.lor INPCK ISTRIP) |> in
  match p with
  | parity_none => t <| c_cflag := Z.ldiff (c_cflag t) (Z.lor PARENB PARODD) |>
  | parity_even => t <| c_cflag := Z.lor (Z.ldiff (c_cflag t) PARODD) PARENB |>
  | parity_odd => t <| c_cflag := Z.lor (c_cflag t) (Z.lor PARENB PARODD) |>
  | parity_mark => t <| c_cflag := Z.lor (c_cflag t) (Z.lor PARENB (Z.lor CMSPAR PARODD)) |>
  | parity_space =>
    t <| c_cflag := Z.ldiff (Z.lor (c_cflag t) (Z.lor PARENB CMSPAR)) PARODD |>
  end.

Definition with_flowcontrol (xonxoff rtscts : bool) (t : termios) : termios :=
  let t := if xonxoff then t <| c_iflag := Z.lor (c_iflag t) (Z.lor IXON IXOFF) |>
           else t <| c_iflag := Z.ldiff (c_iflag t) (Z.lor IXON (Z.lor IXOFF IXANY)) |> in
  let t := if rtscts then t <| c_cflag := Z.lor (c_cflag t) CRTSCTS |>
           else t <| c_cflag := Z.ldiff (c_cflag t) CRTSCTS |> in
  t <| c_vmin := 0 |> <| c_vtime := 0 |>.

(** [byte_time_ns_] of the settings.  A rate of 0 divides to infinity and the
    conversion of that to an integer is undefined; so is that of -1 and below. *)
Definition byte_time (baudrate : Z) (b : bytesize_t) (p : parity_t) (st : stopbits_t) :
    outcome Z :=
  if baudrate =? 0 then Undef
  else
    let bit_time_ns := 10 ^ 9 `div` baudrate in
    let t := u32 (bit_time_ns * (1 + bytesize_val b + parity_val p + stopbits_val st)) in
    match st with
    | stopbits_one_point_five =>
      let t2 := 2 * t - 3 * bit_time_ns in
      if t2 <? -1 then Undef else Ret (t2 `quot` 2)
    | _ => Ret t
    end.

(** A custom rate on Linux: the divisor is set through the driver. *)
Definition divisor_speed (fd : Z) : M (unix W) unit :=
  r <- sys (os_get_serial fd) ;;
  match r with
  | SysErr e => throw (IOErrno e)
  | SysOk ser =>
    rate <- gets (λ u, i32 (baudrate_ u)) ;;
    (if rate =? 0 then undef else ret tt) ;;
    d <- lift (chk_i32 (baud_base ser `quot` rate)) ;;
    let ser := mkSerialStruct (set_flags (ser_flags ser) ASYNC_SPD_CUST ASYNC_SPD_MASK)
                 (baud_base ser) d in
    r <- sys (os_set_serial fd ser) ;;
    match r with SysErr e => throw (IOErrno e) | SysOk _ => ret tt end
  end.

(** On macOS the rate itself is given to the driver. *)
Definition iossio_speed (fd : Z) : M (unix W) unit :=
  rate <- gets baudrate_ ;;
  r <- sys (os_iossiospeed fd rate) ;;
  match r with SysErr e => throw (IOErrno e) | SysOk _ => ret tt end.

Definition custom_speed (fd : Z) : M (unix W) unit :=
  match os_custom with
  | ByIossiospeed => iossio_speed fd
  | ByDivisor => divisor_speed fd
  | NoCustomBauds => throw (invalid_argument "OS does not currently support custom bauds")
  end.

(** Mark and space parity need CMSPAR. *)
Definition parity_supported (p : parity_t) : bool :=
  os_cmspar || match p with parity_mark | parity_space => false | _ => true end.

(** The two flow control members. *)
Definition flow_members u : unix W :=
  match flowcontrol_ u with
  | flowcontrol_none => u <| xonxoff_ := false |> <| rtscts_ := false |>
  | flowcontrol_software => u <| xonxoff_ := true |> <| rtscts_ := false |>
  | flowcontrol_hardware => u <| xonxoff_ := false |> <| rtscts_ := true |>
  end.

Definition reconfigurePort : M (unix W) unit :=
  fd <- gets fd_ ;;
  if fd =? -1 then
    throw (IOException "Invalid file descriptor, is the serial port open?")
  else
    r <- sys (os_tcgetattr fd) ;;
    match r with
    | SysErr _ => throw (IOException "::tcgetattr")
    | SysOk options =>
      u <- gets id ;;
      let baud := baud_code (baudrate_ u) os_speeds in
      (when negb (parity_supported (parity_ u)) do
         throw (invalid_argument "OS does not support mark or space parity")) ;;
      let options := with_parity (parity_ u) (with_stopbits (stopbits_ u)
        (with_bytesize (bytesize_ u) (with_speed baud (raw_mode options)))) in
      modify flow_members ;;
      u <- gets id ;;
      sys_ (os_tcsetattr fd (with_flowcontrol (xonxoff_ u) (rtscts_ u) options)) ;;
      (match baud with None => custom_speed fd | Some _ => ret tt end) ;;
      t <- lift (byte_time (baudrate_ u) (bytesize_ u) (parity_ u) (stopbits_ u)) ;;
      modify (λ u, u <| byte_time_ns_ := t |>)
    end.

(** [open()]; an interrupted call is repeated by recursion, which is the
    iteration of [loop] here. *)
Definition open_step (_ : unit) : M (unix W) (unit + unit) :=
  u <- gets id ;;
  if str_eqb (port_ u) [] then throw (invalid_argument "Empty port is invalid.")
  else if is_open_ u then throw (SerialException "Serial port already open.")
  else
    r <- sys (os_open (port_ u)) ;;
    match r with
    | SysErr e =>
      modify (λ u, u <| fd_ := -1 |>) ;;
      if e =? EINTR then ret (inl tt)
      else if (e =? ENFILE) || (e =? EMFILE) then
        throw (IOException "Too many file handles open.")
      else throw (IOErrno e)
    | SysOk fd =>
      modify (λ u, u <| fd_ := fd |>) ;;
      reconfigurePort ;;
      modify (λ u, u <| is_open_ := true |>) ;;
      ret (inr tt)
    end.
Definition open : M (unix W) unit := loop (2 ^ 64) open_step tt.

Definition close : M (unix W) unit :=
  u <- gets id ;;
  when is_open_ u do (
    (when negb (fd_ u =? -1) do (
       r <- sys (os_close (fd_ u)) ;;
       match r with
       | SysOk _ => modify (λ u, u <| fd_ := -1 |>)
       | SysErr e => throw (IOErrno e)
       end)) ;;
    modify (λ u, u <| is_open_ := false |>)).

Definition isOpen u : bool := is_open_ u.

Definition available : M (unix W) Z :=
  u <- gets id ;;
  if negb (is_open_ u) then ret 0
  else
    r <- sys (os_inq (fd_ u)) ;;
    match r with SysErr e => throw (IOErrno e) | SysOk count => ret (size_t count) end.

(** [FD_SET(fd, set)] is undefined outside [0, FD_SETSIZE). *)
Definition fd_set (fd : Z) : M (unix W) unit :=
  if (0 <=? fd) && (fd <? FD_SETSIZE) then ret tt else undef.

Definition waitReadable (timeout : Z) : M (unix W) bool :=
  fd <- gets fd_ ;;
  fd_set fd ;;
  r <- sys (os_select_read fd (timespec_from_ms timeout)) ;;
  match r with
  | SysErr e => if e =? EINTR then ret false else throw (IOErrno e)
  | SysOk (n, isset) =>
    if n =? 0 then ret false
    else if negb isset then
      throw (IOException "select reports ready to read, but our fd isn't in the list, this shouldn't happen!")
    else ret true
  end.

Definition waitByteTimes (count : Z) : M (unix W) unit :=
  t <- gets byte_time_ns_ ;;
  sys_ (os_select_none (mkTimespec 0 (wraps 64 (size_t (t * count))))).

(** [timespec_now()]: the clock of the system. *)
Definition timespec_now : M (unix W) timespec := sys os_now.
Definition timer (millis : Z) : M (unix W) timespec :=
  now <- timespec_now ;; ret (timer_expiry now (u32 millis)).
Definition remaining (expiry : timespec) : M (unix W) Z :=
  now <- timespec_now ;; ret (timer_remaining expiry now).

(** [t_c + t_m * N] in [long], of two [uint32_t] fields. *)
Definition total_timeout_ms (constant multiplier : Z) (n : nat) : outcome Z :=
  match chk_i64 (u32 multiplier * Z.of_nat n) with
  | Ret m => chk_i64 (u32 constant + m)
  | o => o
  end.

(** One iteration of the loop of [read]; [buf] is what was read so far. *)
Definition read_step (size : nat) (expiry : timespec) (buf : bytes) :
    M (unix W) (bytes + bytes) :=
  if negb (length buf <? size)%nat then ret (inr buf)
  else
    left <- remaining expiry ;;
    if left <=? 0 then ret (inr buf)
    else
      t <- gets timeout_ ;;
      ready <- waitReadable (Z.min (u32 left) (inter_byte_timeout t)) ;;
      if negb ready then ret (inl buf)
      else
        (when (1 <? size)%nat && (inter_byte_timeout t =? Timeout_max) do (
           bytes_available <- available ;;
           let have := size_t (bytes_available + Z.of_nat (length buf)) in
           when have <? Z.of_nat size do waitByteTimes (Z.of_nat size - have))) ;;
        fd <- gets fd_ ;;
        r <- sys (os_read fd (size - length buf)) ;;
        match r with
        | SysErr _ | SysOk [] =>
          throw (SerialException "device reports readiness to read but returned no data (device disconnected?)")
        | SysOk bs =>
          let buf := buf ++ bs in
          if (length buf =? size)%nat then ret (inr buf)
          else if (length buf <? size)%nat then ret (inl buf)
          else throw (SerialException "read over read, too many bytes where read, this shouldn't happen, might be a logical error!")
        end.

Definition read (size : nat) : M (unix W) bytes :=
  u <- gets id ;;
  if negb (is_open_ u) then throw (PortNotOpenedException "Serial::read")
  else
    t <- lift (total_timeout_ms (read_timeout_constant (timeout_ u))
                 (read_timeout_multiplier (timeout_ u)) size) ;;
    expiry <- timer t ;;
    r <- sys (os_read (fd_ u) size) ;;
    loop (2 ^ 53) (read_step size expiry)
      (match r with SysOk bs => bs | SysErr _ => [] end).

Definition no_data (errno now : Z) (written length : nat) : exn :=
  SerialException (String.string_of_list_ascii
    (str "device reports readiness to write but returned no data (device disconnected?)" ++
     str " errno=" ++ show errno ++ str " bytes_written_now= " ++ show now ++
     str " bytes_written=" ++ show (Z.of_nat written) ++
     str " length=" ++ show (Z.of_nat length))).

(** The call of [::write] on a descriptor that is ready. *)
Definition write_some (data : bytes) (fd : Z) (bytes_written : nat) :
    M (unix W) ((nat * bool) + nat) :=
  r <- sys (os_write fd (drop bytes_written data)) ;;
  errno <- gets (λ u, os_errno (os u)) ;;
  match r with
  | SysErr e =>
    if e =? EINTR then ret (inl (bytes_written, false))
    else throw (no_data e (-1) bytes_written (length data))
  | SysOk 0%nat => throw (no_data errno 0 bytes_written (length data))
  | SysOk now =>
    let bytes_written := (bytes_written + now)%nat in
    if (bytes_written =? length data)%nat then ret (inr bytes_written)
    else if (bytes_written <? length data)%nat then ret (inl (bytes_written, false))
    else throw (SerialException "write over wrote, too many bytes where written, this shouldn't happen, might be a logical error!")
  end.

(** One iteration of the loop of [write]: the bytes written so far and
    [first_iteration]. *)
Definition write_step (data : bytes) (expiry : timespec) (st : nat * bool) :
    M (unix W) ((nat * bool) + nat) :=
  let '(bytes_written, first_iteration) := st in
  if negb (bytes_written <? length data)%nat then ret (inr bytes_written)
  else
    left <- remaining expiry ;;
    if negb first_iteration && (left <=? 0) then ret (inr bytes_written)
    else
      fd <- gets fd_ ;;
      fd_set fd ;;
      r <- sys (os_select_write fd (timespec_from_ms (u32 left))) ;;
      match r with
      | SysErr e => if e =? EINTR then ret (inl (bytes_written, false)) else throw (IOErrno e)
      | SysOk (n, isset) =>
        if n =? 0 then ret (inr bytes_written)
        else if negb isset then
          throw (IOException "select reports ready to write, but our fd isn't in the list, this shouldn't happen!")
        else
          write_some data fd bytes_written
      end.

Definition write (data : bytes) : M (unix W) nat :=
  u <- gets id ;;
  if negb (is_open_ u) then throw (PortNotOpenedException "Serial::write")
  else
    t <- lift (total_timeout_ms (write_timeout_constant (timeout_ u))
                 (write_timeout_multiplier (timeout_ u)) (length data)) ;;
    expiry <- timer t ;;
    loop (2 ^ 54) (write_step data expiry) (0%nat, true).

Definition setPort (port : bytes) : M (unix W) unit := modify (λ u, u <| port_ := port |>).
Definition getPort u : bytes := port_ u.
Definition setTimeout (timeout : Timeout) : M (unix W) unit :=
  modify (λ u, u <| timeout_ := timeout |>).
Definition getTimeout u : Timeout := timeout_ u.

(** A setting is stored and, on an open port, applied. *)
Definition apply_setting (set : unix W → unix W) : M (unix W) unit :=
  modify set ;;
  b <- gets is_open_ ;;
  when b do reconfigurePort.
Definition setBaudrate (baudrate : Z) : M (unix W) unit :=
  apply_setting (λ u, u <| baudrate_ := baudrate |>).
Definition getBaudrate u : Z := baudrate_ u.
Definition getBytesize u : bytesize_t := bytesize_ u.
Definition getParity u : parity_t := parity_ u.
Definition getStopbits u : stopbits_t := stopbits_ u.
Definition getFlowcontrol u : flowcontrol_t := flowcontrol_ u.
Definition setBytesize (bytesize : bytesize_t) : M (unix W) unit :=
  apply_setting (λ u, u <| bytesize_ := bytesize |>).
Definition setParity (parity : parity_t) : M (unix W) unit :=
  apply_setting (λ u, u <| parity_ := parity |>).
Definition setStopbits (stopbits : stopbits_t) : M (unix W) unit :=
  apply_setting (λ u, u <| stopbits_ := stopbits |>).
Definition setFlowcontrol (flowcontrol : flowcontrol_t) : M (unix W) unit :=
  apply_setting (λ u, u <| flowcontrol_ := flowcontrol |>).

Definition require_open (what : string) : M (unix W) Z :=
  u <- gets id ;;
  if is_open_ u then ret (fd_ u) else throw (PortNotOpenedException what).

Definition flush : M (unix W) unit :=
  fd <- require_open "Serial::flush" ;; sys_ (os_tcdrain fd).
Definition flushInput : M (unix W) unit :=
  fd <- require_open "Serial::flushInput" ;; sys_ (os_tciflush fd).
Definition flushOutput : M (unix W) unit :=
  fd <- require_open "Serial::flushOutput" ;; sys_ (os_tcoflush fd).

(** ** Break and modem lines *)
Definition ioctl_failed (what : string) (errno : Z) : exn :=
  SerialException (String.string_of_list_ascii
    (str what ++ show errno ++ str " " ++ os_strerror errno)).

Definition sendBreak (duration : Z) : M (unix W) unit :=
  fd <- require_open "Serial::sendBreak" ;;
  sys_ (os_tcsendbreak fd (duration `quot` 4)).

Definition setBreak (level : bool) : M (unix W) unit :=
  fd <- require_open "Serial::setBreak" ;;
  r <- sys (os_break fd level) ;;
  match r with
  | SysOk _ => ret tt
  | SysErr e => throw (ioctl_failed
      (if level then "setBreak failed on a call to ioctl(TIOCSBRK): "
       else "setBreak failed on a call to ioctl(TIOCCBRK): ") e)
  end.

Definition setRTS (level : bool) : M (unix W) unit :=
  fd <- require_open "Serial::setRTS" ;;
  r <- sys (os_modem_set fd level TIOCM_RTS) ;;
  match r with
  | SysOk _ => ret tt
  | SysErr e => throw (ioctl_failed
      (if level then "setRTS failed on a call to ioctl(TIOCMBIS): "
       else "setRTS failed on a call to ioctl(TIOCMBIC): ") e)
  end.

Definition setDTR (level : bool) : M (unix W) unit :=
  fd <- require_open "Serial::setDTR" ;;
  r <- sys (os_modem_set fd level TIOCM_DTR) ;;
  match r with
  | SysOk _ => ret tt
  | SysErr e => throw (ioctl_failed
      (if level then "setDTR failed on a call to ioctl(TIOCMBIS): "
       else "setDTR failed on a call to ioctl(TIOCMBIC): ") e)
  end.

Definition waitForChange : M (unix W) bool :=
  fd <- gets fd_ ;;
  r <- sys (os_modem_wait fd
    (Z.lor TIOCM_CD (Z.lor TIOCM_DSR (Z.lor TIOCM_RI TIOCM_CTS)))) ;;
  match r with
  | SysOk _ => ret true
  | SysErr e => throw (ioctl_failed "waitForDSR failed on a call to ioctl(TIOCMIWAIT): " e)
  end.

(** The common body of the four getters. *)
Definition modem_line (what failed : string) (mask : Z) : M (unix W) bool :=
  fd <- require_open what ;;
  r <- sys (os_modem_get fd) ;;
  match r with
  | SysErr e => throw (ioctl_failed failed e)
  | SysOk status => ret (negb (0 =? Z.land status mask))
  end.
Definition getCTS : M (unix W) bool :=
  modem_line "Serial::getCTS" "getCTS failed on a call to ioctl(TIOCMGET): " TIOCM_CTS.
Definition getDSR : M (unix W) bool :=
  modem_line "Serial::getDSR" "getDSR failed on a call to ioctl(TIOCMGET): " TIOCM_DSR.
Definition getRI : M (unix W) bool :=
  modem_line "Serial::getRI" "getRI failed on a call to ioctl(TIOCMGET): " TIOCM_RI.
Definition getCD : M (unix W) bool :=
  modem_line "Serial::getCD" "getCD failed on a call to ioctl(TIOCMGET): " TIOCM_CD.

(** ** Locks: [pthread_mutex_lock] on a mutex that is held does not return. *)
Definition readLock : M (unix W) unit :=
  b <- gets read_mutex ;; if b then spin else modify (λ u, u <| read_mutex := true |>).
Definition readUnlock u : unix W := u <| read_mutex := false |>.
Definition writeLock : M (unix W) unit :=
  b <- gets write_mutex ;; if b then spin else modify (λ u, u <| write_mutex := true |>).
Definition writeUnlock u : unix W := u <| write_mutex := false |>.

(** ** Construction and destruction.  [byte_time_ns_] starts indeterminate. *)
Definition init (port : bytes) (baudrate : Z) (b : bytesize_t) (p : parity_t)
    (st : stopbits_t) (fl : flowcontrol_t) (garbage : Z) (w : W) : unix W :=
  mkUnix port (-1) false (mkTimeout 0 0 0 0 0) baudrate p b st fl false false garbage
    false false w.
Definition construct : M (unix W) unit :=
  u <- gets id ;; when negb (str_eqb (port_ u) []) do open.
Definition destroy : M (unix W) unit := noexcept close.
End unix_ops.
End UnixImpl.

(** ** The contract of the port *)

#[export] Instance unix_impl {W} `{Unix W} : SerialImpl (unix W) := {|
  impl_construct := UnixImpl.construct;
  impl_destroy := UnixImpl.destroy;
  impl_open := UnixImpl.open;
  impl_close := UnixImpl.close;
  impl_isOpen := UnixImpl.isOpen;
  impl_available := UnixImpl.available;
  impl_waitReadable := UnixImpl.waitReadable;
  impl_waitByteTimes := UnixImpl.waitByteTimes;
  impl_read := UnixImpl.read;
  impl_write := UnixImpl.write;
  impl_flush := UnixImpl.flush;
  impl_flushInput := UnixImpl.flushInput;
  impl_flushOutput := UnixImpl.flushOutput;
  impl_setPort := UnixImpl.setPort;
  impl_getPort := UnixImpl.getPort;
  impl_setTimeout := UnixImpl.setTimeout;
  impl_getTimeout := UnixImpl.getTimeout;
  impl_setBaudrate := UnixImpl.setBaudrate;
  impl_getBaudrate := UnixImpl.getBaudrate;
  impl_setBytesize := UnixImpl.setBytesize;
  impl_getBytesize := UnixImpl.getBytesize;
  impl_setParity := UnixImpl.setParity;
  impl_getParity := UnixImpl.getParity;
  impl_setStopbits := UnixImpl.setStopbits;
  impl_getStopbits := UnixImpl.getStopbits;
  impl_setFlowcontrol := UnixImpl.setFlowcontrol;
  impl_getFlowcontrol := UnixImpl.getFlowcontrol;
  impl_sendBreak := UnixImpl.sendBreak;
  impl_setBreak := UnixImpl.setBreak;
  impl_setRTS := UnixImpl.setRTS;
  impl_setDTR := UnixImpl.setDTR;
  impl_waitForChange := UnixImpl.waitForChange;
  impl_getCTS := UnixImpl.getCTS;
  impl_getDSR := UnixImpl.getDSR;
  impl_getRI := UnixImpl.getRI;
  impl_getCD := UnixImpl.getCD;
  impl_readLock := UnixImpl.readLock;
  impl_readUnlock := UnixImpl.readUnlock;
  impl_writeLock := UnixImpl.writeLock;
  impl_writeUnlock := UnixImpl.writeUnlock;
  sleep_for_ms ms u := u <| os := os_sleep_ms ms (os u) |>;
|}.

Definition fd_ok (fd : Z) : bool := (0 <=? fd) && (fd <? FD_SETSIZE).
Definition rate_ok (baudrate : Z) : bool := (4 <=? baudrate) && (baudrate <? 2 ^ 32).

(** The state in which no operation is undefined: a rate that gives a byte time,
    timeouts without a part per byte, and a proper descriptor while open. *)
Definition usable {W} (u : unix W) : bool :=
  rate_ok (baudrate_ u)
  && ((read_timeout_multiplier (timeout_ u) =? 0)
      && (write_timeout_multiplier (timeout_ u) =? 0))
  && implb (is_open_ u) (fd_ok (fd_ u)).

#[export] Instance unix_obs {W} `{Unix W} : Observable (unix W) := λ u,
  mkView (is_open_ u) (os_out (os u)) (read_mutex u) (write_mutex u) (usable u).

Section unix_facts.
Context {W : Type} {HU : Unix W} {HUOK : UnixOK W}.
Implicit Types u : unix W.

(** *** Operations that transmit nothing *)

(** What [usable] and the mutexes depend on. *)
Definition settings u :=
  (fd_ u, is_open_ u, timeout_ u, baudrate_ u, read_mutex u, write_mutex u).

(** [d] was handed to the system, no such setting changed. *)
Definition moved (d : bytes) u u' : Prop :=
  settings u' = settings u ∧ os_out (os u') = os_out (os u) ++ d.

Lemma moved_refl u : moved [] u u.
Proof. split; [done|]. by rewrite app_nil_r. Qed.
Lemma moved_trans d d' u u1 u2 : moved d u u1 → moved d' u1 u2 → moved (d ++ d') u u2.
Proof.
  intros [H1 O1] [H2 O2]. split; [congruence|]. by rewrite O2, O1, app_assoc.
Qed.
Lemma moved_pv d u u' : moved d u u' → pv u' = pv u <| v_out := v_out (pv u) ++ d |>.
Proof.
  intros [Hs Ho]. unfold settings in Hs. simplify_eq.
  unfold pv, unix_obs, usable, upd. simpl. congruence.
Qed.
Lemma moved_nil_pv u u' : moved [] u u' → pv u' = pv u.
Proof. intros H. rewrite (moved_pv _ _ _ H), app_nil_r. unfold upd. by destruct (pv u). Qed.

(** [calmly C m]: from a state of [C] the operation is defined and transmits nothing. *)
Definition calmly {A} (C : unix W → Prop) (m : M (unix W) A) : Prop :=
  ∀ u, C u → wp m (spec (λ _, moved [] u) (λ _, moved [] u)) u.

Definition stable (C : unix W → Prop) : Prop := ∀ u u', settings u' = settings u → C u → C u'.

Lemma calmly_bind {A B} C (m : M (unix W) A) (k : A → M (unix W) B) :
  stable C → calmly C m → (∀ a, calmly C (k a)) → calmly C (bind m k).
Proof.
  intros HC Hm Hk u Hu. eapply wp_bind_spec; [by apply Hm|]. intros a u1 H1. simpl in H1.
  eapply wp_spec_mono; [apply Hk; eapply HC; [apply H1|done]|..]; simpl; intros ? u2 H2;
    exact (moved_trans [] [] _ _ _ H1 H2).
Qed.
Lemma calmly_ret {A} C (a : A) : calmly C (ret a).
Proof. intros u _. apply moved_refl. Qed.
Lemma calmly_throw {A} C e : calmly (A:=A) C (throw e).
Proof. intros u _. apply moved_refl. Qed.
Lemma calmly_gets {A} C (f : unix W → A) : calmly C (gets f).
Proof. intros u _. apply moved_refl. Qed.
Lemma calmly_modify C f :
  (∀ u, settings (f u) = settings u ∧ os (f u) = os u) → calmly C (modify f).
Proof.
  intros Hf u _. destruct (Hf u) as [Hs Ho]. apply wp_modify. split; [done|].
  by rewrite Ho, app_nil_r.
Qed.
Lemma calmly_sys {A} C (call : W → A * W) :
  (∀ w, passes w (call w).2) → calmly C (UnixImpl.sys call).
Proof.
  intros Hc u _. unfold wp, UnixImpl.sys. specialize (Hc (os u)).
  destruct (call (os u)) as [a w]. split; [done|]. simpl. rewrite app_nil_r. apply Hc.
Qed.
Lemma calmly_sys_ C (call : W → W) :
  (∀ w, passes w (call w)) → calmly C (UnixImpl.sys_ call).
Proof. intros Hc u _. split; [done|]. simpl. rewrite app_nil_r. apply Hc. Qed.
Lemma calmly_lift {A} C (o : outcome A) : o ≠ Undef → calmly C (lift o).
Proof. intros Ho u _. destruct o; try done; apply moved_refl. Qed.
Lemma calmly_weaken {A} (C C' : unix W → Prop) (m : M (unix W) A) :
  (∀ u, C u → C' u) → calmly C' m → calmly C m.
Proof. intros HC Hm u Hu. by apply Hm, HC. Qed.
Lemma now_passes w : passes w (os_now w).2.
Proof. split; [apply now_out|]. pose proof (now_clock w). lia. Qed.

(** *** Time *)
Definition later {A} (m : M (unix W) A) : Prop :=
  ∀ u, os_clock (os u) ≤ os_clock (os (m u).2).

Lemma later_bind {A B} (m : M (unix W) A) (k : A → M (unix W) B) :
  later m → (∀ a, later (k a)) → later (bind m k).
Proof.
  intros Hm Hk u. unfold bind. specialize (Hm u). destruct (m u) as [[a|e| |] u1]; try done.
  specialize (Hk a u1). simpl in Hm. lia.
Qed.
Lemma later_gets {A} (f : unix W → A) : later (gets f).
Proof. by intros u. Qed.
Lemma later_ret {A} (a : A) : later (ret a).
Proof. by intros u. Qed.
Lemma later_throw {A} e : later (A:=A) (throw e).
Proof. by intros u. Qed.
Lemma later_sys {A} (call : W → A * W) :
  (∀ w, os_clock w ≤ os_clock (call w).2) → later (UnixImpl.sys call).
Proof.
  intros Hc u. unfold UnixImpl.sys. specialize (Hc (os u)). by destruct (call (os u)).
Qed.
Lemma later_sys_ (call : W → W) :
  (∀ w, os_clock w ≤ os_clock (call w)) → later (UnixImpl.sys_ call).
Proof. intros Hc u. apply Hc. Qed.

(** The two kinds of starting states. *)
Definition ok u : Prop := usable u = true.
Definition opened u : Prop := usable u = true ∧ is_open_ u = true.

Lemma ok_stable : stable ok.
Proof. unfold stable, ok, usable, settings. intros u u' ?. simplify_eq. congruence. Qed.
Lemma opened_stable : stable opened.
Proof. unfold stable, opened, usable, settings. intros u u' ?. simplify_eq. intuition congruence. Qed.

Lemma ok_rate u : ok u → 4 ≤ baudrate_ u < 2 ^ 32.
Proof.
  unfold ok, usable, rate_ok. rewrite !andb_true_iff, Z.leb_le, Z.ltb_lt. tauto.
Qed.
Lemma ok_timeout u : ok u → constant_timeout (timeout_ u).
Proof.
  unfold ok, usable, constant_timeout. rewrite !andb_true_iff, !Z.eqb_eq. tauto.
Qed.
Lemma opened_ok u : opened u → ok u.
Proof. by intros []. Qed.
Lemma opened_fd u : opened u → fd_ok (fd_ u) = true.
Proof. intros [Hu Ho]. unfold usable in Hu. rewrite Ho, !andb_true_iff in Hu. apply Hu. Qed.

Lemma calmly_bind_gets {A B} C (f : unix W → A) (k : A → M (unix W) B) :
  (∀ u, C u → calmly C (k (f u))) → calmly C (bind (gets f) k).
Proof. intros Hk u Hu. by apply wp_bind_gets, Hk. Qed.
Lemma wp_bind_sys {A B} (call : W → A * W) (k : A → M (unix W) B) Q u :
  (∀ a w, call (os u) = (a, w) → wp (k a) Q (u <| os := w |>)) →
  wp (bind (UnixImpl.sys call) k) Q u.
Proof.
  intros Hk. unfold wp, bind, UnixImpl.sys. destruct (call (os u)) as [a w] eqn:E.
  by apply Hk.
Qed.
Lemma calmly_bind_sys {A B} C (call : W → A * W) (k : A → M (unix W) B) :
  stable C → (∀ w, passes w (call w).2) →
  (∀ w a w', call w = (a, w') → calmly C (k a)) → calmly C (bind (UnixImpl.sys call) k).
Proof.
  intros HC Hp Hk u Hu. specialize (Hp (os u)). apply wp_bind_sys. intros a w E.
  rewrite E in Hp.
  assert (moved [] u (u <| os := w |>)) as H1.
  { split; [done|]. simpl. rewrite app_nil_r. apply Hp. }
  eapply wp_spec_mono; [eapply Hk; [done|]; eapply HC; [apply H1|done]|..]; simpl;
    intros ? u2 H2; exact (moved_trans [] [] _ _ _ H1 H2).
Qed.
End unix_facts.

Create HintDb unix.

(** Proofs of [calmly] and [later] follow the text of the operation. *)
#[export] Hint Resolve ok_stable opened_stable opened_ok calmly_ret calmly_throw calmly_gets
  later_ret later_throw later_gets open_passes close_passes read_passes select_read_passes
  select_write_passes select_none_passes tcgetattr_passes tcsetattr_passes get_serial_passes
  set_serial_passes iossiospeed_passes inq_passes tcdrain_passes tciflush_passes tcoflush_passes break_passes
  modem_set_passes modem_get_passes sleep_passes now_passes : unix.
Ltac calm_step :=
  match goal with
  | |- calmly _ (bind (gets _) _) => apply calmly_bind_gets; intros
  | |- calmly _ (bind (UnixImpl.sys _) _) =>
      apply calmly_bind_sys; [eauto with unix..|intros]
  | |- calmly _ (bind _ _) => apply calmly_bind; [eauto with unix| |intros]
  | |- calmly _ (UnixImpl.sys _) => apply calmly_sys; eauto with unix
  | |- calmly _ (UnixImpl.sys_ _) => apply calmly_sys_; eauto with unix
  | |- calmly _ (modify _) => apply calmly_modify; intros
  | |- calmly _ (lift _) => apply calmly_lift
  | |- calmly _ (if ?b then _ else _) => destruct b eqn:?
  | |- calmly _ (match ?r with _ => _ end) => destruct r eqn:?
  | |- calmly _ _ => by eauto with unix
  end.
Ltac solve_calm := repeat calm_step.

Section unix_calm.
Context {W : Type} {HU : Unix W} {HUOK : UnixOK W}.
Implicit Types u : unix W.

Lemma byte_time_defined baudrate b p st :
  4 ≤ baudrate < 2 ^ 32 → UnixImpl.byte_time baudrate b p st ≠ Undef.
Proof.
  intros Hb. unfold UnixImpl.byte_time. case_match; [lia|].
  set (q := 10 ^ 9 `div` baudrate).
  assert (0 ≤ q ≤ 250000000) as Hq.
  { unfold q. split; [apply Z.div_pos; lia|]. apply Z.div_le_upper_bound; lia. }
  destruct st; try done. unfold u32. rewrite wrapu_id; cycle 1.
  { unfold in_u. destruct b, p; simpl bytesize_val; simpl parity_val; simpl stopbits_val; lia. }
  case_match; [|done]. destruct b, p; simpl in *; lia.
Qed.

Lemma i32_rate_nonzero x : 4 ≤ x < 2 ^ 32 → i32 x ≠ 0.
Proof.
  unfold i32, wraps. intros Hx H.
  pose proof (Z.mod_eq (x + 2 ^ (32 - 1)) (2 ^ 32)).
  pose proof (Z.mod_pos_bound (x + 2 ^ (32 - 1)) (2 ^ 32)). lia.
Qed.

Lemma divisor_defined base rate :
  0 ≤ base < 2 ^ 31 → chk_i32 (base `quot` rate) ≠ Undef.
Proof.
  intros Hb. unfold chk_i32.
  assert (in_sb 32 (base `quot` rate) = true) as ->; [|done].
  apply in_sb_spec. unfold in_s.
  destruct (decide (rate = 0)) as [->|Hr]; [by destruct base; vm_compute|].
  pose proof (Z.quot_abs base rate Hr) as Ha. rewrite Z.quot_div_nonneg in Ha by lia.
  assert (Z.abs base `div` Z.abs rate ≤ Z.abs base) by (apply Z.div_le_upper_bound; nia).
  lia.
Qed.

Lemma custom_speed_calm fd : calmly ok (UnixImpl.custom_speed (W:=W) fd).
Proof.
  unfold UnixImpl.custom_speed, UnixImpl.iossio_speed, UnixImpl.divisor_speed. solve_calm.
  - apply Z.eqb_eq in Heqb. exfalso.
    by apply (i32_rate_nonzero (baudrate_ u)); [apply ok_rate|].
  - apply divisor_defined. by eapply baud_base_range.
Qed.
Hint Resolve custom_speed_calm : unix.

Lemma reconfigurePort_calm : calmly ok (UnixImpl.reconfigurePort (W:=W)).
Proof.
  unfold UnixImpl.reconfigurePort. solve_calm.
  all: try (unfold UnixImpl.flow_members; destruct (flowcontrol_ _); done).
  all: try done.
  all: by apply byte_time_defined, ok_rate.
Qed.
Hint Resolve reconfigurePort_calm : unix.

Lemma available_calm C : stable C → calmly C (UnixImpl.available (W:=W)).
Proof. intros HC. unfold UnixImpl.available. solve_calm. Qed.

Lemma waitReadable_calm t : calmly opened (UnixImpl.waitReadable (W:=W) t).
Proof.
  unfold UnixImpl.waitReadable, UnixImpl.fd_set. solve_calm.
  match goal with H : opened _ |- _ => apply opened_fd in H; unfold fd_ok in H end. congruence.
Qed.

Lemma waitByteTimes_calm C n : stable C → calmly C (UnixImpl.waitByteTimes (W:=W) n).
Proof. intros HC. unfold UnixImpl.waitByteTimes. solve_calm. Qed.

Lemma remaining_calm C e : stable C → calmly C (UnixImpl.remaining (W:=W) e).
Proof. intros HC. unfold UnixImpl.remaining, UnixImpl.timespec_now. solve_calm. Qed.

Lemma timer_calm C e : stable C → calmly C (UnixImpl.timer (W:=W) e).
Proof. intros HC. unfold UnixImpl.timer, UnixImpl.timespec_now. solve_calm. Qed.
Hint Resolve available_calm waitReadable_calm waitByteTimes_calm remaining_calm timer_calm : unix.

Lemma require_open_calm C what : calmly C (UnixImpl.require_open (W:=W) what).
Proof. unfold UnixImpl.require_open. solve_calm. Qed.
Hint Resolve require_open_calm : unix.

Lemma modem_line_calm what failed mask : calmly ok (UnixImpl.modem_line (W:=W) what failed mask).
Proof. unfold UnixImpl.modem_line. solve_calm. Qed.

Lemma calmly_quiet {A} (m : M (unix W) A) : calmly ok m → quiet m.
Proof.
  intros Hm u Hu. eapply wp_spec_mono; [by apply Hm|..]; simpl; intros ? u' H;
    exact (moved_nil_pv _ _ H).
Qed.

Lemma total_timeout_constant c n : UnixImpl.total_timeout_ms c 0 n = Ret (u32 c).
Proof.
  unfold UnixImpl.total_timeout_ms, chk_i64. change (u32 0 * Z.of_nat n) with 0.
  change (in_sb 64 0) with true. cbv iota. rewrite Z.add_0_r.
  pose proof (wrapu_range 32 c ltac:(lia)) as Hc. unfold in_u in Hc.
  assert (in_sb 64 (u32 c) = true) as ->; [|done]. apply in_sb_spec. unfold in_s, u32. lia.
Qed.

(** *** [read] *)

(** The results of an operation, whatever its state. *)
Definition yields {A} (m : M (unix W) A) (R : A → Prop) : Prop :=
  ∀ u a u', m u = (Ret a, u') → R a.

Lemma reading_bind {A B} (m : M (unix W) A) (k : A → M (unix W) B) R :
  (∀ a, yields (k a) R) → yields (bind m k) R.
Proof.
  intros Hk u b u'. unfold bind. destruct (m u) as [[a|e| |] u1]; try done. apply Hk.
Qed.

Definition read_bound (size : nat) (r : bytes + bytes) : Prop :=
  match r with inl b | inr b => (length b ≤ size)%nat end.

Lemma read_step_bound size expiry buf :
  (length buf ≤ size)%nat → yields (UnixImpl.read_step (W:=W) size expiry buf) (read_bound size).
Proof.
  intros Hb. unfold UnixImpl.read_step.
  case_match; [by intros u a u' [= <- _]|]. apply reading_bind. intros left.
  case_match; [by intros u a u' [= <- _]|]. do 2 (apply reading_bind; intros ?).
  case_match; [by intros u r u' [= <- _]|]. do 3 (apply reading_bind; intros ?).
  case_match; [|by intros u r u' [=]]. case_match; [by intros u r u' [=]|].
  case_match eqn:E1; [|case_match eqn:E2]; intros u r u' [=]; subst; simpl.
  - apply Nat.eqb_eq in E1. lia.
  - apply Nat.ltb_lt in E2. lia.
Qed.

Lemma read_step_calm size expiry buf :
  calmly opened (UnixImpl.read_step (W:=W) size expiry buf).
Proof. unfold UnixImpl.read_step. solve_calm. Qed.

Lemma calmly_yields {A} C (m : M (unix W) A) R u :
  calmly C m → yields m R → C u →
  wp m (spec (λ a u', R a ∧ moved [] u u') (λ _, moved [] u)) u.
Proof.
  intros Hm HR Hu. specialize (Hm u Hu). specialize (HR u). unfold wp in *.
  destruct (m u) as [[a|e| |] u']; simpl in *; eauto.
Qed.

Lemma loop_calm {X A} C p (body : X → M (unix W) (X + A)) x (I : X → Prop) (R : A → Prop) u :
  stable C →
  (∀ x, calmly C (body x)) →
  (∀ x, I x → yields (body x) (λ r, match r with inl y => I y | inr a => R a end)) →
  I x → C u →
  wp (loop p body x) (spec (λ a u', R a ∧ moved [] u u') (λ _, moved [] u)) u.
Proof.
  intros HC Hb Hy Hx Hu.
  apply (loop_spec body (λ y u', I y ∧ moved [] u u')); [|by split; [|apply moved_refl]].
  intros y u1 [Hy1 H1].
  eapply wp_spec_mono; [eapply calmly_yields; [apply Hb|by apply Hy|]|..]; simpl.
  - eapply HC; [apply H1|done].
  - intros [] u2 [HI H2]; (split; [exact HI|exact (moved_trans [] [] _ _ _ H1 H2)]).
  - intros e u2 H2; exact (moved_trans [] [] _ _ _ H1 H2).
Qed.

Lemma moved_after {A} (m : M (unix W) A) (R : A → Prop) u u1 :
  moved [] u u1 →
  wp m (spec (λ a u', R a ∧ moved [] u1 u') (λ _, moved [] u1)) u1 →
  wp m (spec (λ a u', R a ∧ moved [] u u') (λ _, moved [] u)) u1.
Proof.
  intros H1 Hm. eapply wp_spec_mono; [exact Hm|..]; simpl.
  - intros a u2 [Ha H2]. split; [done|]. exact (moved_trans [] [] _ _ _ H1 H2).
  - intros e u2 H2. exact (moved_trans [] [] _ _ _ H1 H2).
Qed.

Lemma os_read_yields fd n :
  yields (UnixImpl.sys (W:=W) (os_read fd n))
    (λ r, (length (match r with SysOk bs => bs | SysErr _ => [] end) ≤ n)%nat).
Proof.
  intros v r v'. unfold UnixImpl.sys. destruct (os_read fd n (os v)) as [r' w] eqn:E.
  intros [= <- _]. destruct r'; [by eapply read_length|simpl; lia].
Qed.

Lemma read_calm size u : ok u →
  wp (UnixImpl.read size)
    (spec (λ bs u', (length bs ≤ size)%nat ∧ moved [] u u') (λ _, moved [] u)) u.
Proof.
  intros Hu. unfold UnixImpl.read. apply wp_bind_gets. simpl.
  destruct (is_open_ u) eqn:Ho; simpl; [|apply moved_refl].
  destruct (ok_timeout _ Hu) as [-> _]. rewrite total_timeout_constant.
  apply wp_bind, wp_lift.
  eapply wp_bind_spec; [by apply (timer_calm opened); [apply opened_stable|]|].
  intros expiry u1 H1. simpl in H1.
  eapply wp_bind_spec.
  { eapply moved_after; [exact H1|].
    eapply (calmly_yields (λ _, True)); [apply calmly_sys, read_passes| |done].
    apply os_read_yields. }
  intros r u2 [Hr H2]. simpl in H2. apply (moved_after _ _ u u2 H2).
  apply (loop_calm opened _ _ _ (λ b, (length b ≤ size)%nat)).
  - apply opened_stable.
  - intros b. apply read_step_calm.
  - intros b Hb v a v' E. pose proof (read_step_bound size expiry b Hb v a v' E) as HB.
    by destruct a.
  - done.
  - eapply opened_stable; [apply H2|done].
Qed.

(** *** [write] *)
Lemma wp_bind_calm {A B} C d (m : M (unix W) A) (k : A → M (unix W) B) R
    (E : exn → unix W → Prop) u0 u :
  calmly C m → C u → moved d u0 u → (∀ e u', moved d u0 u' → E e u') →
  (∀ a u', moved d u0 u' → wp (k a) (spec R E) u') →
  wp (bind m k) (spec R E) u.
Proof.
  intros Hm Hu H0 HE Hk.
  assert (∀ u', moved [] u u' → moved d u0 u') as Ht.
  { intros u' H. rewrite <- (app_nil_r d). exact (moved_trans _ _ _ _ _ H0 H). }
  eapply wp_bind_spec; [|intros a u'; apply Hk].
  eapply wp_spec_mono; [by apply Hm|..]; simpl; auto.
Qed.

Section write.
Context (data : bytes) (u0 : unix W) (Hu0 : opened u0).

Definition wrote (n : nat) u : Prop := (n ≤ length data)%nat ∧ moved (take n data) u0 u.
Definition wrote_some u : Prop := ∃ n, wrote n u.
Definition write_inv (st : nat * bool) : unix W → Prop := wrote st.1.

Lemma wrote_opened n u : wrote n u → opened u.
Proof. intros [_ H]. eapply opened_stable; [apply H|done]. Qed.

Lemma write_some_spec fd n u : wrote n u →
  wp (UnixImpl.write_some data fd n)
    (spec (loop_post write_inv wrote) (λ _, wrote_some)) u.
Proof.
  intros [Hn Hm]. unfold UnixImpl.write_some. apply wp_bind_sys. intros [k|e] w Er.
  - apply write_count in Er as [Hk Ho]. rewrite length_drop in Hk.
    assert (wrote (n + k) (u <| os := w |>)) as Hw.
    { split; [lia|]. rewrite <- take_take_drop. eapply moved_trans; [exact Hm|]. by split. }
    apply wp_bind_gets. destruct k as [|k]; [by exists (n + 0)%nat|].
    case_match; [exact Hw|]. case_match; [exact Hw|]. by exists (n + S k)%nat.
  - apply write_error in Er.
    assert (wrote n (u <| os := w |>)) as Hw.
    { split; [done|]. destruct Hm as [Hs Ho]. split; [exact Hs|]. simpl. congruence. }
    apply wp_bind_gets. case_match; [exact Hw|by exists n].
Qed.

Lemma write_step_spec expiry st u : write_inv st u →
  wp (UnixImpl.write_step data expiry st)
    (spec (loop_post write_inv wrote) (λ _, wrote_some)) u.
Proof.
  destruct st as [n first]. intros Hw. unfold write_inv in Hw. simpl in Hw.
  unfold UnixImpl.write_step. case_match; [exact Hw|]. pose proof Hw as [Hn Hm].
  assert (∀ (e : exn) u', moved (take n data) u0 u' → wrote_some u') as HE.
  { intros _ u' H'. by exists n. }
  eapply wp_bind_calm; [by eapply remaining_calm, opened_stable|by eapply wrote_opened
    |exact Hm|exact HE|]. clear Hw Hm u. intros left u Hm.
  case_match; [by split|]. apply wp_bind_gets.
  assert (opened u) as Hop by (by eapply (wrote_opened n)).
  apply opened_fd in Hop as Hfd. unfold UnixImpl.fd_set. unfold fd_ok in Hfd. rewrite Hfd.
  apply wp_bind, wp_ret.
  eapply wp_bind_calm; [by eapply (calmly_sys opened), select_write_passes|done|exact Hm
    |exact HE|]. clear Hfd Hop Hm. intros r u' Hm.
  repeat case_match; try (by split); try (by exists n). by apply write_some_spec.
Qed.
End write.

Lemma write_spec_unix data u : ok u →
  wp (UnixImpl.write data)
    (spec (λ n u', (n ≤ length data)%nat ∧ moved (take n data) u u')
          (λ _ u', ∃ k, (k ≤ length data)%nat ∧ moved (take k data) u u')) u.
Proof.
  intros Hu. unfold UnixImpl.write. apply wp_bind_gets. simpl.
  assert (∀ (e : exn) u', moved [] u u' →
    ∃ k, (k ≤ length data)%nat ∧ moved (take k data) u u') as HE.
  { intros _ u' H'. exists 0%nat. split; [lia|done]. }
  destruct (is_open_ u) eqn:Ho; simpl; [|exact (HE (PortNotOpenedException EmptyString) _ (moved_refl u))].
  assert (opened u) as Hop by done.
  destruct (ok_timeout _ Hu) as [_ ->]. rewrite total_timeout_constant.
  apply wp_bind, wp_lift.
  eapply wp_bind_calm; [by apply (timer_calm opened), opened_stable|done|apply moved_refl
    |exact HE|]. intros expiry u1 H1.
  apply (loop_spec _ (write_inv data u) (wrote data u) (λ _, wrote_some data u)).
  - intros st u2. by apply write_step_spec.
  - split; [simpl; lia|done].
Qed.

(** *** Opening, closing and the settings *)
Lemma closed_pv u w fd : is_open_ u = false → os_out w = os_out (os u) →
  pv (u <| os := w |> <| fd_ := fd |>) = pv u.
Proof.
  intros Ho Hw. unfold pv, unix_obs, usable, upd. simpl. by rewrite Ho, Hw.
Qed.

Lemma opening_pv u : is_open_ u = false → fd_ok (fd_ u) = true →
  pv (u <| is_open_ := true |>) = pv u <| v_open := true |>.
Proof.
  intros Ho Hf. unfold pv, unix_obs, usable, upd. simpl. by rewrite Ho, Hf.
Qed.

Lemma pv_ok u u' : pv u' = pv u → ok u → ok u'.
Proof. intros H Hu. change (v_ok (pv u') = true). by rewrite H. Qed.

Lemma open_body u : ok u → is_open_ u = false →
  wp (UnixImpl.reconfigurePort ;; modify (λ u, u <| is_open_ := true |>) ;; ret (inr tt : unit + unit))
    (spec (λ r u', r = inr tt ∧ (fd_ok (fd_ u) = true → pv u' = pv u <| v_open := true |>))
          (λ _ u', pv u' = pv u)) u.
Proof.
  intros Hu Ho. eapply (wp_bind_calm ok []); [apply reconfigurePort_calm|done|apply moved_refl|..].
  - intros _ u'. apply moved_nil_pv.
  - intros _ u' H. split; [done|]. intros Hf. rewrite <- (moved_nil_pv _ _ H).
    destruct H as [Hs _]. unfold settings in Hs. simplify_eq. apply opening_pv; congruence.
Qed.

Lemma open_spec_unix u : ok u →
  wp UnixImpl.open (spec (λ _ u', pv u' = pv u <| v_open := true |>) (λ _ u', pv u' = pv u)) u.
Proof.
  intros Hu. apply (loop_spec _ (λ _ u', pv u' = pv u)); [|done].
  intros [] u1 H1. apply wp_bind_gets. simpl. case_match; [done|].
  destruct (is_open_ u1) eqn:Ho; [done|]. apply wp_bind_sys. intros r w E.
  pose proof (open_passes (port_ u1) (os u1)) as [Hw _]. rewrite E in Hw. simpl in Hw.
  assert (∀ fd, pv (u1 <| os := w |> <| fd_ := fd |>) = pv u) as Hpv.
  { intros fd. rewrite <- H1. by apply closed_pv. }
  destruct r as [fd|e]; apply wp_bind_modify.
  - apply open_fd in E.
    eapply wp_spec_mono; [apply open_body; [apply (pv_ok u); [apply Hpv|done]|done]|..]; simpl.
    + intros r u' [-> Hr]. simpl. rewrite Hr; [by rewrite Hpv|]. unfold fd_ok. simpl.
      rewrite andb_true_iff, Z.leb_le, Z.ltb_lt. done.
    + intros e u' ->. apply Hpv.
  - case_match; [apply Hpv|]. case_match; apply Hpv.
Qed.

Lemma close_spec_unix u : ok u →
  wp UnixImpl.close (spec (λ _ u', pv u' = pv u <| v_open := false |>) (λ _ u', pv u' = pv u)) u.
Proof.
  intros Hu. apply wp_bind_gets. simpl. destruct (is_open_ u) eqn:Ho.
  - pose proof (opened_fd u (conj Hu Ho)) as Hf.
    assert (fd_ u =? -1 = false) as -> by (unfold fd_ok in Hf; lia). simpl. apply wp_bind, wp_bind_sys.
    intros r w E. pose proof (close_passes (fd_ u) (os u)) as [Hw _]. rewrite E in Hw.
    simpl in Hw. unfold ok, usable in Hu. rewrite andb_true_iff in Hu. destruct Hu as [Hu _].
    destruct r as [[]|e]; [apply wp_modify, wp_modify|apply wp_throw]; simpl;
      unfold pv, unix_obs, usable, upd; simpl; by rewrite Hu, Hw, Ho, Hf.
  - simpl. unfold wp, ret, spec, pv, unix_obs, upd. simpl. by rewrite Ho.
Qed.

Lemma apply_setting_quiet (set : unix W → unix W) :
  (∀ u, ok u → pv (set u) = pv u) → quiet (UnixImpl.apply_setting set).
Proof.
  intros Hs u Hu. specialize (Hs u Hu). unfold UnixImpl.apply_setting.
  apply wp_bind_modify, wp_bind_gets. rewrite <- Hs.
  apply calmly_quiet; [solve_calm|]. by apply (pv_ok u).
Qed.
End unix_calm.

#[export] Hint Resolve require_open_calm reconfigurePort_calm available_calm waitReadable_calm
  waitByteTimes_calm remaining_calm timer_calm : unix.

(** The port meets the contract of Serial.v. *)
#[export] Instance unix_ok {W} `{UnixOK W} : SerialImplOK (unix W).
Proof.
  split.
  - done.
  - apply open_spec_unix.
  - apply close_spec_unix.
  - intros n s Hs. eapply wp_spec_mono; [by apply read_calm|..]; simpl.
    + intros bs s' [Hl Hm]. split; [done|by apply moved_nil_pv].
    + intros e s'. apply moved_nil_pv.
  - intros d s Hs. eapply wp_spec_mono; [by apply write_spec_unix|..]; simpl.
    + intros k s' [Hl Hm]. split; [done|by apply moved_pv].
    + intros e s' (k & Hl & Hm). exists k. split; [done|by apply moved_pv].
  - intros t s Hs Ho. eapply wp_spec_mono; [by apply waitReadable_calm|..]; simpl;
      intros ? s'; apply moved_nil_pv.
  - apply calmly_quiet. simpl. unfold UnixImpl.flush. solve_calm.
  - apply calmly_quiet. simpl. unfold UnixImpl.flushInput. solve_calm.
  - apply calmly_quiet. simpl. unfold UnixImpl.flushOutput. solve_calm.
  - by intros p u Hu.
  - intros t [Hr Hw] u Hu. simpl in *. unfold wp, spec, pv, unix_obs, usable, upd in *.
    simpl in *. rewrite Hr, Hw. revert Hu. rewrite !andb_true_iff. intros [[-> [-> ->]] ->]. done.
  - intros b Hb. apply apply_setting_quiet. intros u Hu. unfold pv, unix_obs, usable, upd.
    simpl. unfold ok, usable in Hu. rewrite !andb_true_iff in Hu. destruct Hu as [[-> [-> ->]] ->].
    by assert (rate_ok b = true) as -> by (unfold rate_ok; lia).
  - intros b. by apply apply_setting_quiet.
  - intros b. by apply apply_setting_quiet.
  - intros b. by apply apply_setting_quiet.
  - intros b. by apply apply_setting_quiet.
  - intros b. apply calmly_quiet. simpl. unfold UnixImpl.setBreak. solve_calm.
  - intros b. apply calmly_quiet. simpl. unfold UnixImpl.setRTS. solve_calm.
  - intros b. apply calmly_quiet. simpl. unfold UnixImpl.setDTR. solve_calm.
  - apply calmly_quiet, modem_line_calm.
  - apply calmly_quiet, modem_line_calm.
  - apply calmly_quiet, modem_line_calm.
  - apply calmly_quiet, modem_line_calm.
  - intros u _ Hu. simpl in *. unfold wp, UnixImpl.readLock, bind, gets. by rewrite Hu.
  - done.
  - intros u _ Hu. simpl in *. unfold wp, UnixImpl.writeLock, bind, gets. by rewrite Hu.
  - done.
  - intros ms u. unfold pv, unix_obs, upd. simpl.
    by destruct (sleep_passes ms (os u)) as [-> _].
Qed.

(** ** The operations end *)

Lemma passes_clock {W} `{Unix W} (w w' : W) : passes w w' → os_clock w ≤ os_clock w'.
Proof. by intros []. Qed.

Ltac later_step :=
  match goal with
  | |- later (bind _ _) => apply later_bind; [|intros]
  | |- later (UnixImpl.sys _) => apply later_sys; intros;
      first [apply write_clock | apply passes_clock; eauto with unix]
  | |- later (UnixImpl.sys_ _) => apply later_sys_; intros; apply passes_clock; eauto with unix
  | |- later (if ?b then _ else _) => destruct b
  | |- later (match ?r with _ => _ end) => destruct r
  | |- later _ => by eauto with unix
  end.
Ltac solve_later := repeat later_step.

Ltac live_step :=
  match goal with
  | |- live (bind _ _) => apply live_bind; [|intros]
  | |- live (if ?b then _ else _) => destruct b
  | |- live (match ?r with _ => _ end) => destruct r
  | |- live (UnixImpl.sys ?c) => intros ?; unfold UnixImpl.sys; by destruct (c _)
  | |- live (lift _) => intros ?; unfold lift, UnixImpl.byte_time, UnixImpl.total_timeout_ms,
        chk_i32, chk_i64; simpl; repeat case_match; done
  | |- live _ => by eauto with unix
  | |- live _ => by intros ?
  end.
Ltac solve_live := repeat live_step.

Section unix_live.
Context {W : Type} {HU : Unix W} {HUOK : UnixOK W}.
Implicit Types u : unix W.

Lemma waitReadable_later t : later (UnixImpl.waitReadable (W:=W) t).
Proof. unfold UnixImpl.waitReadable, UnixImpl.fd_set. solve_later. by intros u. Qed.
Lemma available_later : later (UnixImpl.available (W:=W)).
Proof. unfold UnixImpl.available. solve_later. Qed.
Lemma waitByteTimes_later n : later (UnixImpl.waitByteTimes (W:=W) n).
Proof. unfold UnixImpl.waitByteTimes. solve_later. Qed.
Lemma write_some_later d fd n : later (UnixImpl.write_some (W:=W) d fd n).
Proof. unfold UnixImpl.write_some. solve_later. Qed.
Hint Resolve waitReadable_later available_later waitByteTimes_later write_some_later : unix.

(** A positive rest of time lies before the expiry. *)
Lemma remaining_run e u : ∃ left u1,
  UnixImpl.remaining e u = (Ret left, u1) ∧ os_clock (os u) < os_clock (os u1) ∧
  (0 < left → os_clock (os u1) < ns e).
Proof.
  unfold UnixImpl.remaining, UnixImpl.timespec_now, bind, UnixImpl.sys, ret.
  pose proof (now_clock (os u)) as [Hc Hn]. destruct (os_now (os u)) as [now w].
  simpl in *. do 2 eexists. split; [done|]. split; [done|]. simpl. rewrite <- Hn.
  unfold timer_remaining, ns. intros Hl.
  destruct (Z.le_gt_cases ((tv_sec e - tv_sec now) * 10 ^ 9 + (tv_nsec e - tv_nsec now)) 0)
    as [Hle|]; [|lia].
  pose proof (Z.quot_le_mono _ _ (10 ^ 6) ltac:(lia) Hle). rewrite Z.quot_0_l in *; lia.
Qed.

(** The expiry lies at most 2^32 milliseconds ahead. *)
Lemma timer_expiry_ns now millis : ns (timer_expiry now millis) = ns now + millis * 10 ^ 6.
Proof.
  unfold timer_expiry, ns. case_match; simpl; [|lia].
  pose proof (Z.quot_rem (tv_nsec now + millis * 10 ^ 6) (10 ^ 9)). lia.
Qed.

Lemma timer_run millis u : ∃ e u1,
  UnixImpl.timer millis u = (Ret e, u1) ∧ ns e - os_clock (os u1) < 2 ^ 32 * 10 ^ 6.
Proof.
  unfold UnixImpl.timer, UnixImpl.timespec_now, bind, UnixImpl.sys, ret.
  pose proof (now_clock (os u)) as [Hc Hn]. destruct (os_now (os u)) as [now w].
  simpl in *. do 2 eexists. split; [done|]. simpl. rewrite timer_expiry_ns, <- Hn.
  pose proof (wrapu_range 32 millis ltac:(lia)) as Hr. unfold in_u, u32 in *. lia.
Qed.

(** *** [read] *)
Definition time_left (e : timespec) u : Z := Z.max 0 (ns e - os_clock (os u)).

Lemma read_step_decreases size e buf u buf' u' :
  UnixImpl.read_step size e buf u = (Ret (inl buf'), u') →
  0 ≤ time_left e u' < time_left e u.
Proof.
  unfold UnixImpl.read_step. case_match; [done|].
  destruct (remaining_run e u) as (left & u1 & Hr & Hc & Hl).
  rewrite (bind_ret_run _ _ _ _ _ Hr). case_match; [done|].
  match goal with |- ?m u1 = _ → _ => assert (later m) as Hm by solve_later end.
  intros Hrun. specialize (Hm u1). rewrite Hrun in Hm. simpl in Hm.
  unfold time_left. lia.
Qed.

Lemma waitReadable_ends t : live (UnixImpl.waitReadable (W:=W) t).
Proof. unfold UnixImpl.waitReadable, UnixImpl.fd_set. solve_live. Qed.
Lemma available_ends : live (UnixImpl.available (W:=W)).
Proof. unfold UnixImpl.available. solve_live. Qed.
Hint Resolve waitReadable_ends available_ends : unix.

Lemma read_step_ends size e buf : live (UnixImpl.read_step (W:=W) size e buf).
Proof. unfold UnixImpl.read_step, UnixImpl.remaining, UnixImpl.timespec_now. solve_live. Qed.

Lemma read_ends size : live (UnixImpl.read (W:=W) size).
Proof.
  unfold UnixImpl.read. apply live_bind; [by intros ?|]. intros u0.
  case_match; [by intros ?|]. apply live_bind; [solve_live|]. intros t u.
  destruct (timer_run t u) as (e & u1 & Ht & Hns). rewrite (bind_ret_run _ _ _ _ _ Ht).
  pose proof (read_passes (fd_ u0) size (os u1)) as [_ Hc]. unfold bind at 1, UnixImpl.sys.
  destruct (os_read _ _ _) as [r w]. simpl in Hc.
  apply (loop_ends _ (λ _, time_left e)).
  - intros. apply read_step_ends.
  - intros. by eapply read_step_decreases.
  - unfold time_left. simpl. lia.
Qed.

(** *** [write] *)
Definition write_measure (e : timespec) (st : nat * bool) u : Z :=
  time_left e u + if st.2 then 1 else 0.

Definition not_first (r : (nat * bool) + nat) : Prop :=
  match r with inl st => st.2 = false | inr _ => True end.

Lemma write_step_first d e st : yields (UnixImpl.write_step (W:=W) d e st) not_first.
Proof.
  destruct st as [n first]. unfold UnixImpl.write_step, UnixImpl.write_some.
  repeat first [case_match | apply reading_bind; intros ?]; intros u r u' Hr;
    unfold ret, throw in Hr; by simplify_eq.
Qed.

Lemma write_step_decreases d e st u st' u' :
  UnixImpl.write_step d e st u = (Ret (inl st'), u') →
  0 ≤ write_measure e st' u' < write_measure e st u.
Proof.
  intros Hs. pose proof (write_step_first _ _ _ _ _ _ Hs) as Hf. simpl in Hf. revert Hs.
  destruct st as [n first]. unfold UnixImpl.write_step. case_match; [done|].
  destruct (remaining_run e u) as (left & u1 & Hr & Hc & Hl).
  rewrite (bind_ret_run _ _ _ _ _ Hr). case_match; [done|].
  match goal with |- ?m u1 = _ → _ => assert (later m) as Hm
    by (unfold UnixImpl.fd_set; solve_later; by intros ?) end.
  intros Hrun. specialize (Hm u1). rewrite Hrun in Hm. simpl in Hm.
  unfold write_measure, time_left. rewrite Hf. destruct first; simpl in *; lia.
Qed.

Lemma write_step_ends d e st : live (UnixImpl.write_step (W:=W) d e st).
Proof.
  unfold UnixImpl.write_step, UnixImpl.remaining, UnixImpl.timespec_now, UnixImpl.fd_set, UnixImpl.write_some.
  solve_live.
Qed.

Lemma write_ends d : live (UnixImpl.write (W:=W) d).
Proof.
  unfold UnixImpl.write. apply live_bind; [by intros ?|]. intros u0.
  case_match; [by intros ?|]. apply live_bind; [solve_live|]. intros t u.
  destruct (timer_run t u) as (e & u1 & Ht & Hns). rewrite (bind_ret_run _ _ _ _ _ Ht).
  apply (loop_ends _ (write_measure e)).
  - intros. apply write_step_ends.
  - intros. by eapply write_step_decreases.
  - unfold write_measure, time_left. simpl. lia.
Qed.

(** *** [open] *)
Lemma reconfigurePort_ends : live (UnixImpl.reconfigurePort (W:=W)).
Proof. unfold UnixImpl.reconfigurePort, UnixImpl.custom_speed, UnixImpl.iossio_speed,
  UnixImpl.divisor_speed. solve_live. Qed.
Hint Resolve reconfigurePort_ends : unix.

Lemma open_step_decreases u u' : UnixImpl.open_step tt u = (Ret (inl tt), u') →
  0 ≤ os_patience (os u') < os_patience (os u).
Proof.
  intros Hs. split; [apply patience_range|]. revert Hs.
  unfold UnixImpl.open_step. unfold bind at 1, gets, id. case_match; [done|].
  case_match; [done|]. unfold bind at 1, UnixImpl.sys.
  destruct (os_open _ _) as [r w] eqn:E. destruct r as [fd|e].
  - unfold bind, modify, ret. destruct (UnixImpl.reconfigurePort _) as [[]]; done.
  - unfold bind, modify, ret, throw. case_match eqn:Ee; [|by case_match].
    intros [= <-]. apply Z.eqb_eq in Ee as ->. simpl. by eapply open_interrupted.
Qed.

Lemma open_ends : live (UnixImpl.open (W:=W)).
Proof.
  intros u. apply (loop_ends _ (λ _ u, os_patience (os u))).
  - intros x u1. revert u1. change (live (UnixImpl.open_step (W:=W) x)).
    unfold UnixImpl.open_step. solve_live.
  - intros [] u1 [] u2 Hs. by apply open_step_decreases.
  - apply patience_range.
Qed.
End unix_live.

(** Under the same assumptions every operation ends. *)
#[export] Instance unix_live {W} `{UnixOK W} : SerialImplLive (unix W).
Proof.
  split; intros; simpl.
  - apply open_ends.
  - unfold UnixImpl.close. solve_live.
  - apply read_ends.
  - apply write_ends.
  - apply waitReadable_ends.
  - unfold UnixImpl.flush, UnixImpl.require_open. solve_live.
  - unfold UnixImpl.flushInput, UnixImpl.require_open. solve_live.
  - unfold UnixImpl.flushOutput, UnixImpl.require_open. solve_live.
  - by intros u.
  - by intros u.
  - unfold UnixImpl.setBaudrate, UnixImpl.apply_setting. solve_live. apply reconfigurePort_ends.
  - unfold UnixImpl.setBytesize, UnixImpl.apply_setting. solve_live. apply reconfigurePort_ends.
  - unfold UnixImpl.setParity, UnixImpl.apply_setting. solve_live. apply reconfigurePort_ends.
  - unfold UnixImpl.setStopbits, UnixImpl.apply_setting. solve_live. apply reconfigurePort_ends.
Qed.

(** ** A terminal

    A small operating system with one terminal, to run the port: bytes of [t_rx]
    can be read, everything is accepted at once, and [t_broken] makes the query of
    the terminal settings fail. *)
Record tty := mkTty {
  t_attr : termios;
  t_rx : bytes;
  t_out : bytes;
  t_clock : Z;
  t_broken : bool;
}.
#[export] Instance eta_tty : Eta tty := λ t,
  mkTty (t_attr t) (t_rx t) (t_out t) (t_clock t) (t_broken t).

Definition tty_wait (t : timespec) (w : tty) : tty :=
  w <| t_clock := t_clock w + Z.max 0 (ns t) |>.

#[export] Instance tty_unix : Unix tty := {|
  os_open _ w := (SysOk 3, w);
  os_close _ w := (SysOk tt, w);
  os_read _ n w := (SysOk (take n (t_rx w)), w <| t_rx := drop n (t_rx w) |>);
  os_write _ d w := (SysOk (length d), w <| t_out := t_out w ++ d |>);
  os_select_read _ t w :=
    match t_rx w with
    | [] => (SysOk (0, false), tty_wait t w)
    | _ => (SysOk (1, true), w)
    end;
  os_select_write _ _ w := (SysOk (1, true), w);
  os_select_none := tty_wait;
  os_now w := let c := t_clock w + 1 in
    (mkTimespec (c `div` 10 ^ 9) (c `mod` 10 ^ 9), w <| t_clock := c |>);
  os_tcgetattr _ w := (if t_broken w then SysErr 25 else SysOk (t_attr w), w);
  os_tcsetattr _ t w := w <| t_attr := t |>;
  os_get_serial _ w := (SysOk (mkSerialStruct 0 115200 0), w);
  os_set_serial _ _ w := (SysOk tt, w);
  os_speeds := linux_speeds;
  os_cmspar := true;
  os_custom := ByDivisor;
  os_iossiospeed _ _ w := (SysErr 25, w);
  os_inq _ w := (SysOk (Z.of_nat (length (t_rx w))), w);
  os_tcdrain _ w := w;
  os_tciflush _ w := w <| t_rx := [] |>;
  os_tcoflush _ w := w;
  os_tcsendbreak _ _ w := w;
  os_break _ _ w := (SysOk tt, w);
  os_modem_set _ _ _ w := (SysOk tt, w);
  os_modem_get _ w := (SysOk 0, w);
  os_modem_wait _ _ w := (SysOk tt, w);
  os_sleep_ms ms w := tty_wait (timespec_from_ms ms) w;
  os_errno _ := 0;
  os_strerror _ := str "Success";
  os_out := t_out;
  os_clock := t_clock;
  os_patience _ := 0;
|}.

Lemma tty_wait_passes t w : passes w (tty_wait t w).
Proof. split; [done|]. simpl. lia. Qed.

#[export] Instance tty_ok : UnixOK tty.
Proof.
  split; simpl; intros;
    try (split; [done|simpl; lia]); try (apply tty_wait_passes); simplify_eq; try done.
  - rewrite length_take. lia.
  - simpl. by rewrite firstn_all.
  - split; [lia|]. unfold ns. simpl. pose proof (Z.div_mod (t_clock w + 1) (10 ^ 9)). lia.
  - destruct (t_rx w); [apply tty_wait_passes|split; [done|simpl; lia]].
Qed.

(** The terminal as it is after boot, in canonical mode with echo. *)
Definition tty_boot (rx : bytes) (broken : bool) : tty :=
  mkTty (mkTermios 1280 5 191 35387 15 15 1 0) rx [] 0 broken.

(** ** What the port promises *)



(** The settings [reconfigurePort] computes from the present ones. *)
Definition configured {W} `{Unix W} (u : unix W) (t : termios) : termios :=
  UnixImpl.with_flowcontrol (bool_decide (flowcontrol_ u = flowcontrol_software))
    (bool_decide (flowcontrol_ u = flowcontrol_hardware))
    (UnixImpl.with_parity (parity_ u) (UnixImpl.with_stopbits (stopbits_ u)
      (UnixImpl.with_bytesize (bytesize_ u)
        (UnixImpl.with_speed (baud_code (baudrate_ u) os_speeds) (UnixImpl.raw_mode t))))).

(** Terminal settings [t] that say what the settings of the port [u] say: raw
    bytes, the frame, the flow control, and reads that return at once. *)
Record says {W} `{Unix W} (u : unix W) (t : termios) : Prop := {
  says_local : Z.land (c_cflag t) (Z.lor CLOCAL CREAD) = Z.lor CLOCAL CREAD;
  says_raw : Z.land (c_lflag t) (Z.lor ICANON (Z.lor ECHO (Z.lor ISIG IEXTEN))) = 0 ∧
             Z.land (c_oflag t) OPOST = 0 ∧
             Z.land (c_iflag t) (Z.lor INLCR (Z.lor IGNCR (Z.lor ICRNL (Z.lor IUCLC
               (Z.lor PARMRK (Z.lor INPCK ISTRIP)))))) = 0;
  says_bytesize : Z.land (c_cflag t) CSIZE =
    match bytesize_ u with fivebits => CS5 | sixbits => CS6 | sevenbits => CS7
                         | eightbits => CS8 end;
  says_stopbits : Z.land (c_cflag t) CSTOPB =
    match stopbits_ u with stopbits_one => 0 | _ => CSTOPB end;
  says_parity : Z.land (c_cflag t) (Z.lor PARENB PARODD) =
    match parity_ u with
    | parity_none => 0
    | parity_even | parity_space => PARENB
    | parity_odd | parity_mark => Z.lor PARENB PARODD
    end;
  says_flow : Z.land (c_cflag t) CRTSCTS =
                match flowcontrol_ u with flowcontrol_hardware => CRTSCTS | _ => 0 end ∧
              Z.land (c_iflag t) (Z.lor IXON IXOFF) =
                match flowcontrol_ u with flowcontrol_software => Z.lor IXON IXOFF | _ => 0 end;
  says_poll : c_vmin t = 0 ∧ c_vtime t = 0;
  says_speed : ∀ c, baud_code (baudrate_ u) os_speeds = Some c →
    c_ispeed t = c ∧ c_ospeed t = c;
}.

Lemma land_ldiff_l x k m : Z.land (Z.ldiff x k) m = Z.land x (Z.ldiff m k).
Proof.
  apply Z.bits_inj'. intros n _. rewrite !Z.land_spec, !Z.ldiff_spec.
  by destruct (Z.testbit x n), (Z.testbit k n), (Z.testbit m n).
Qed.

(** The steps of [reconfigurePort] change the bits they are about and no others. *)
Ltac bits_other :=
  intros Hm; apply Z.bits_inj'; intros n _;
  pose proof (f_equal (λ x, Z.testbit x n) Hm) as Hn; cbv beta in Hn;
  rewrite Z.land_spec, Z.bits_0 in Hn; revert Hn;
  repeat first [rewrite Z.land_spec | rewrite Z.lor_spec | rewrite Z.ldiff_spec];
  repeat match goal with |- context [Z.testbit ?x n] => destruct (Z.testbit x n) end;
  done.

Lemma cflag_bytesize b t m : Z.land m CSIZE = 0 →
  Z.land (c_cflag (UnixImpl.with_bytesize b t)) m = Z.land (c_cflag t) m.
Proof.
  change CSIZE with (Z.lor CSIZE (Z.lor CS5 (Z.lor CS6 (Z.lor CS7 CS8)))) at 1.
  destruct b; simpl; bits_other.
Qed.
Lemma cflag_stopbits st t m : Z.land m CSTOPB = 0 →
  Z.land (c_cflag (UnixImpl.with_stopbits st t)) m = Z.land (c_cflag t) m.
Proof. destruct st; simpl; bits_other. Qed.
Lemma cflag_parity p t m : Z.land m (Z.lor PARENB (Z.lor PARODD CMSPAR)) = 0 →
  Z.land (c_cflag (UnixImpl.with_parity p t)) m = Z.land (c_cflag t) m.
Proof. destruct p; simpl; bits_other. Qed.
Lemma cflag_flow x r t m : Z.land m CRTSCTS = 0 →
  Z.land (c_cflag (UnixImpl.with_flowcontrol x r t)) m = Z.land (c_cflag t) m.
Proof. destruct x, r; simpl; bits_other. Qed.
Lemma iflag_flow x r t m : Z.land m (Z.lor IXON (Z.lor IXOFF IXANY)) = 0 →
  Z.land (c_iflag (UnixImpl.with_flowcontrol x r t)) m = Z.land (c_iflag t) m.
Proof. destruct x, r; simpl; bits_other. Qed.

Lemma lor_absorb x k v : Z.land k v = k → Z.lor (Z.land x k) v = v.
Proof.
  intros Hk. apply Z.bits_inj'. intros n _. rewrite <- Hk.
  rewrite Z.lor_spec, !Z.land_spec.
  by destruct (Z.testbit x n), (Z.testbit k n), (Z.testbit v n).
Qed.

(** Masked flags reduce to masks of the original word. *)
Ltac literal x := lazymatch x with Z0 => idtac | Zpos _ => idtac end.
Ltac masks :=
  cbv [CLOCAL CREAD ICANON ECHO ECHOE ECHOK ECHONL ISIG IEXTEN OPOST INLCR IGNCR ICRNL IGNBRK
    IUCLC PARMRK CSIZE CS5 CS6 CS7 CS8 CSTOPB INPCK ISTRIP PARENB PARODD CMSPAR IXON IXOFF IXANY
    CRTSCTS];
  repeat first
  [ rewrite Z.land_lor_distr_l
  | rewrite land_ldiff_l
  | match goal with
    | |- context [?op ?a ?b] =>
        literal a; literal b;
        let v := eval vm_compute in (op a b) in literal v; change (op a b) with v
    end ];
  rewrite ?Z.land_0_r, ?Z.lor_0_r; first [reflexivity | by apply lor_absorb].

Lemma speed_flags o t : let t' := UnixImpl.with_speed o t in
  c_iflag t' = c_iflag t ∧ c_oflag t' = c_oflag t ∧
  c_cflag t' = c_cflag t ∧ c_lflag t' = c_lflag t.
Proof. by destruct o. Qed.

Lemma frame_flags x r p st b t :
  let t1 := UnixImpl.with_parity p (UnixImpl.with_stopbits st (UnixImpl.with_bytesize b t)) in
  let t' := UnixImpl.with_flowcontrol x r t1 in
  c_iflag t1 = Z.ldiff (c_iflag t) (Z.lor INPCK ISTRIP) ∧
  c_lflag t' = c_lflag t ∧ c_oflag t' = c_oflag t ∧
  c_ispeed t' = c_ispeed t ∧ c_ospeed t' = c_ospeed t ∧ c_vmin t' = 0 ∧ c_vtime t' = 0.
Proof. by destruct x, r, p, st. Qed.

Lemma configured_says {W} `{Unix W} (u : unix W) t : says u (configured u t).
Proof.
  unfold configured. set (o := baud_code _ _).
  set (x := bool_decide (_ = flowcontrol_software)).
  set (r := bool_decide (_ = flowcontrol_hardware)).
  destruct (speed_flags o (UnixImpl.raw_mode t)) as (Hi & Ho & Hc & Hl).
  destruct (frame_flags x r (parity_ u) (stopbits_ u) (bytesize_ u)
    (UnixImpl.with_speed o (UnixImpl.raw_mode t))) as (Fi & Fl & Fo & Fis & Fos & Fm & Ft).
  split.
  - rewrite cflag_flow, cflag_parity, cflag_stopbits, cflag_bytesize, Hc by done.
    simpl. masks.
  - split; [|split]; [rewrite Fl, Hl|rewrite Fo, Ho|rewrite iflag_flow, Fi, Hi by done];
      simpl; masks.
  - rewrite cflag_flow, cflag_parity, cflag_stopbits by done.
    destruct (bytesize_ u); simpl; masks.
  - rewrite cflag_flow, cflag_parity by done.
    generalize (UnixImpl.with_bytesize (bytesize_ u)
      (UnixImpl.with_speed o (UnixImpl.raw_mode t))).
    intros t0. destruct (stopbits_ u); simpl; masks.
  - rewrite cflag_flow by done. generalize (UnixImpl.with_stopbits (stopbits_ u)
      (UnixImpl.with_bytesize (bytesize_ u) (UnixImpl.with_speed o (UnixImpl.raw_mode t)))).
    intros t0. destruct (parity_ u); simpl; masks.
  - generalize (UnixImpl.with_parity (parity_ u) (UnixImpl.with_stopbits (stopbits_ u)
      (UnixImpl.with_bytesize (bytesize_ u) (UnixImpl.with_speed o (UnixImpl.raw_mode t))))).
    intros t0. unfold x, r. split; destruct (flowcontrol_ u); simpl; masks.
  - done.
  - intros c Hcode. rewrite Fis, Fos. unfold o. by rewrite Hcode.
Qed.


(** The port of a driver: 9600 baud, eight bits, no parity, one stop bit. *)
Definition tty_port (w : tty) : unix tty :=
  UnixImpl.init (str "/dev/ttyUSB0") 9600 eightbits parity_none stopbits_one flowcontrol_none 0 w
    <| timeout_ := simpleTimeout 1000 |>.


(** The steps for the parities other than mark and space leave the mark/space bit
    as it was: a port set to mark parity and then to even parity is left with space
    parity, not with even parity. *)
Lemma even_after_mark_is_space t :
  c_cflag (UnixImpl.with_parity parity_even (UnixImpl.with_parity parity_mark t)) =
  c_cflag (UnixImpl.with_parity parity_space t) ∧
  Z.land (c_cflag (UnixImpl.with_parity parity_even (UnixImpl.with_parity parity_mark t))) CMSPAR =
    CMSPAR.
Proof.
  split; [|simpl; masks]. unfold UnixImpl.with_parity. cbn [upd eta_termios c_cflag c_iflag].
  generalize (eq_refl : Z.land PARENB PARODD = 0). bits_other.
Qed.

Lemma loop_throws {S X A} p (body : X → M S (X + A)) x s e s' :
  body x s = (Throw e, s') → loop p body x s = (Throw e, s').
Proof.
  intros Hb. assert (loop_upto p body x s = (Throw e, s')) as E.
  { induction p as [p IH|p IH|]; cbn [loop_upto]; [| |done];
      by apply bind_throw_run. }
  unfold loop, bind. by rewrite E.
Qed.

(** C37: when the device opens but is no terminal, [open] throws, keeps the
    descriptor and leaves the port closed; [close], which the destructor calls too,
    then does nothing, so the descriptor is never released. *)
Theorem open_leaks_descriptor {W} (HU : Unix W) (u : unix W) fd w w' e :
  port_ u ≠ [] → is_open_ u = false → fd ≠ -1 →
  os_open (port_ u) (os u) = (SysOk fd, w) →
  os_tcgetattr fd w = (SysErr e, w') →
  ∃ u', UnixImpl.open u = (Throw (IOException "::tcgetattr"), u') ∧
        fd_ u' = fd ∧ is_open_ u' = false ∧ UnixImpl.close u' = (Ret tt, u').
Proof.
  intros Hp Ho Hf Hopen Ht. exists (u <| os := w |> <| fd_ := fd |> <| os := w' |>).
  split; [|split; [done|split; [done|]]].
  - apply loop_throws. unfold UnixImpl.open_step, bind, gets, UnixImpl.sys. simpl.
    unfold str_eqb. rewrite bool_decide_eq_false_2 by done. rewrite Ho, Hopen.
    unfold modify, UnixImpl.reconfigurePort, bind, gets, UnixImpl.sys. simpl.
    assert (fd =? -1 = false) as -> by lia. change (os (u <| os := w |> <| fd_ := fd |>)) with w. by rewrite Ht.
  - unfold UnixImpl.close, bind, gets. simpl. by rewrite Ho.
Qed.

Lemma open_leaks_descriptor_witness :
  ∃ u', UnixImpl.open (tty_port (tty_boot [] true)) =
          (Throw (IOException "::tcgetattr"), u') ∧ fd_ u' = 3 ∧ is_open_ u' = false ∧
        UnixImpl.close u' = (Ret tt, u').
Proof.
  apply (open_leaks_descriptor tty_unix (tty_port (tty_boot [] true)) 3
    (tty_boot [] true) (tty_boot [] true) 25); done.
Defined.
