(* ===== verification/WinSerial.v ===== *)
(** * src/impl/win.cc: the port on Windows

    The second implementation behind [serial::Serial].  The calls of the Windows
    interface are a parameter, the class [Windows]; [WindowsOK] states what their
    documentation promises of the bytes sent and of mutex objects, which a thread
    may take again while it holds them.  From these the file discharges the
    interface of Serial.v.  The class declaration (win.h) is not part of the
    repository: the members are those the constructor initialises and the bodies
    use. *)
From S2P Require Import Prelude CppStd Serial.

(** ** Wide strings: lists of 16-bit units *)
Notation wstring := (list Z).

(** The conversions between [char], which is signed, and [wchar_t]. *)
Definition char_val (c : ascii) : Z := wraps 8 (code c).
Definition widen (c : ascii) : Z := u16 (char_val c).
Definition narrow (w : Z) : ascii := ascii_of_nat (Z.to_nat (u8 w)).

(** What [c_str()] delivers to a function that stops at a null unit. *)
Fixpoint w_c_str (s : wstring) : wstring :=
  match s with
  | [] => []
  | c :: s' => if c =? 0 then [] else c :: w_c_str s'
  end.

Definition windows_com_port_prefix : wstring := [92; 92; 46; 92].
Definition _prefix_port_if_needed (input : wstring) : wstring :=
  if bool_decide (take 4 input = windows_com_port_prefix) then input
  else windows_com_port_prefix ++ input.

(** ** The system *)
Definition INVALID_HANDLE_VALUE : Z := -1.
Definition ERROR_FILE_NOT_FOUND : Z := 2.
Definition WAIT_OBJECT_0 : Z := 0.
Definition ONESTOPBIT : Z := 0.
Definition ONE5STOPBITS : Z := 1.
Definition TWOSTOPBITS : Z := 2.
Definition NOPARITY : Z := 0.
Definition ODDPARITY : Z := 1.
Definition EVENPARITY : Z := 2.
Definition MARKPARITY : Z := 3.
Definition SPACEPARITY : Z := 4.
Definition RTS_CONTROL_DISABLE : Z := 0.
Definition RTS_CONTROL_HANDSHAKE : Z := 2.
Definition PURGE_TXCLEAR : Z := 4.
Definition PURGE_RXCLEAR : Z := 8.
Definition SETRTS : Z := 3.
Definition CLRRTS : Z := 4.
Definition SETDTR : Z := 5.
Definition CLRDTR : Z := 6.
Definition SETBREAK : Z := 8.
Definition CLRBREAK : Z := 9.
Definition EV_CTS : Z := 8.
Definition EV_DSR : Z := 16.
Definition EV_RLSD : Z := 32.
Definition EV_RING : Z := 256.
Definition MS_CTS_ON : Z := 16.
Definition MS_DSR_ON : Z := 32.
Definition MS_RING_ON : Z := 64.
Definition MS_RLSD_ON : Z := 128.

(** The members of a [DCB] the code sets; [dcb_rest] stands for the others. *)
Record DCB := mkDCB {
  BaudRate : Z;
  ByteSize : Z;
  StopBits : Z;
  Parity : Z;
  fOutxCtsFlow : bool;
  fRtsControl : Z;
  fOutX : bool;
  fInX : bool;
  dcb_rest : Z;
}.
#[export] Instance eta_DCB : Eta DCB := λ d,
  mkDCB (BaudRate d) (ByteSize d) (StopBits d) (Parity d) (fOutxCtsFlow d)
    (fRtsControl d) (fOutX d) (fInX d) (dcb_rest d).

Record COMMTIMEOUTS := mkCommTimeouts {
  ReadIntervalTimeout : Z;
  ReadTotalTimeoutMultiplier : Z;
  ReadTotalTimeoutConstant : Z;
  WriteTotalTimeoutMultiplier : Z;
  WriteTotalTimeoutConstant : Z;
}.

(** The calls.  [None] or [false] is a failure, whose code [GetLastError] returns.
    [ReadFile] delivers the bytes read and [WriteFile] the number written. *)
Class Windows (W : Type) := {
  CreateFileW : wstring → W → Z * W;
  CloseHandle : Z → W → bool * W;
  GetLastError : W → Z;
  GetCommState : Z → W → option DCB * W;
  SetCommState : Z → DCB → W → bool * W;
  SetCommTimeouts : Z → COMMTIMEOUTS → W → bool * W;
  ClearCommError : Z → W → option Z * W;
  ReadFile : Z → Z → W → option bytes * W;
  WriteFile : Z → bytes → W → option nat * W;
  FlushFileBuffers : Z → W → W;
  PurgeComm : Z → Z → W → W;
  EscapeCommFunction : Z → Z → W → W;
  SetCommMask : Z → Z → W → bool * W;
  WaitCommEvent : Z → W → bool * W;
  GetCommModemStatus : Z → W → option Z * W;
  CreateMutex : W → Z * W;
  WaitForSingleObject : Z → W → Z * W;
  ReleaseMutex : Z → W → bool * W;
  win_sleep_ms : Z → W → W;
  (** the bytes accepted for transmission so far, and, for a handle of a mutex, how
      often the thread holds it *)
  win_out : W → bytes;
  win_mutex : W → Z → option nat;
}.

(** Nothing is transmitted and no mutex changes. *)
Definition still {W} `{Windows W} (w w' : W) : Prop :=
  win_out w' = win_out w ∧ ∀ h, win_mutex w' h = win_mutex w h.

(** The mutex [h] is now held [n] times, nothing else changes. *)
Definition holds {W} `{Windows W} (h : Z) (n : nat) (w w' : W) : Prop :=
  win_out w' = win_out w ∧
  ∀ h', win_mutex w' h' = if h' =? h then Some n else win_mutex w h'.

(** What the documentation of the calls promises. *)
Class WindowsOK (W : Type) `{Windows W} : Prop := {
  invalid_no_mutex w : win_mutex w INVALID_HANDLE_VALUE = None;
  create_file_still p w : still w (CreateFileW p w).2;
  create_file_handle p w : win_mutex w (CreateFileW p w).1 = None;
  close_file_still h w : win_mutex w h = None → still w (CloseHandle h w).2;
  get_state_still h w : still w (GetCommState h w).2;
  set_state_still h d w : still w (SetCommState h d w).2;
  set_timeouts_still h t w : still w (SetCommTimeouts h t w).2;
  clear_error_still h w : still w (ClearCommError h w).2;
  read_file_still h n w : still w (ReadFile h n w).2;
  read_file_length h n w bs w' :
    0 ≤ n → ReadFile h n w = (Some bs, w') → Z.of_nat (length bs) ≤ n;
  write_file_mutex h d w h' : win_mutex (WriteFile h d w).2 h' = win_mutex w h';
  write_file_some h d w n w' : WriteFile h d w = (Some n, w') →
    (n ≤ length d)%nat ∧ win_out w' = win_out w ++ take n d;
  write_file_none h d w w' : WriteFile h d w = (None, w') →
    ∃ k, (k ≤ length d)%nat ∧ win_out w' = win_out w ++ take k d;
  flush_file_still h w : still w (FlushFileBuffers h w);
  purge_still h f w : still w (PurgeComm h f w);
  escape_still h f w : still w (EscapeCommFunction h f w);
  set_mask_still h m w : still w (SetCommMask h m w).2;
  wait_event_still h w : still w (WaitCommEvent h w).2;
  modem_status_still h w : still w (GetCommModemStatus h w).2;
  create_mutex_new w h w' : CreateMutex w = (h, w') → h ≠ 0 →
    win_mutex w h = None ∧ holds h 0 w w';
  create_mutex_failed w w' : CreateMutex w = (0, w') → still w w';
  wait_mutex w h n : win_mutex w h = Some n →
    (WaitForSingleObject h w).1 = WAIT_OBJECT_0 ∧
    holds h (S n) w (WaitForSingleObject h w).2;
  release_mutex w h n : win_mutex w h = Some (S n) →
    (ReleaseMutex h w).1 = true ∧ holds h n w (ReleaseMutex h w).2;
  release_not_held w h : win_mutex w h = Some 0%nat → still w (ReleaseMutex h w).2;
  win_sleep_still ms w : still w (win_sleep_ms ms w);
}.

(** ** The port *)
Record win (W : Type) := mkWin {
  w_port : wstring;
  w_fd : Z;
  w_is_open : bool;
  w_timeout : Timeout;
  w_baudrate : Z;
  w_parity : parity_t;
  w_bytesize : bytesize_t;
  w_stopbits : stopbits_t;
  w_flowcontrol : flowcontrol_t;
  w_read_mutex : Z;
  w_write_mutex : Z;
  w_os : W;
}.
Arguments mkWin {W}.
Arguments w_port {W}.
Arguments w_fd {W}.
Arguments w_is_open {W}.
Arguments w_timeout {W}.
Arguments w_baudrate {W}.
Arguments w_parity {W}.
Arguments w_bytesize {W}.
Arguments w_stopbits {W}.
Arguments w_flowcontrol {W}.
Arguments w_read_mutex {W}.
Arguments w_write_mutex {W}.
Arguments w_os {W}.
#[export] Instance eta_win W : Eta (win W) := λ u,
  mkWin (w_port u) (w_fd u) (w_is_open u) (w_timeout u) (w_baudrate u) (w_parity u)
    (w_bytesize u) (w_stopbits u) (w_flowcontrol u) (w_read_mutex u) (w_write_mutex u)
    (w_os u).

(** The rates with a constant in the Windows headers; the constant of a rate is the
    rate. *)
Definition cbr_table : list (Z * Z) :=
  [(110, 110); (300, 300); (600, 600); (1200, 1200); (2400, 2400); (4800, 4800);
   (9600, 9600); (14400, 14400); (19200, 19200); (57600, 57600); (38400, 38400);
   (115200, 115200); (128000, 128000); (256000, 256000)].
Fixpoint cbr (baudrate : Z) (t : list (Z * Z)) : Z :=
  match t with
  | [] => u32 baudrate
  | (b, c) :: t' => if baudrate =? b then c else cbr baudrate t'
  end.

Module WinImpl.
Section win_ops.
Context {W : Type} {HW : Windows W}.
Implicit Types u : win W.

(** A call with a result, and one whose result is not used. *)
Definition sys {A} (call : W → A * W) : M (win W) A := λ u,
  let '(a, w) := call (w_os u) in (Ret a, u <| w_os := w |>).
Definition sys_ (call : W → W) : M (win W) unit :=
  modify (λ u, u <| w_os := call (w_os u) |>).

(** An exception with the text of a stream that ends in [GetLastError()]. *)
Definition fail_with {A} (what : string) : M (win W) A :=
  e <- gets (λ u, GetLastError (w_os u)) ;;
  throw (IOException (String.string_of_list_ascii (str what ++ show e))).

Definition getPort u : bytes := map narrow (w_port u).

(** The settings computed by [reconfigurePort], in its order. *)
Definition with_baudrate (baudrate : Z) (d : DCB) : DCB :=
  d <| BaudRate := cbr baudrate cbr_table |>.
Definition with_bytesize (b : bytesize_t) (d : DCB) : DCB :=
  d <| ByteSize := match b with eightbits => 8 | sevenbits => 7 | sixbits => 6
                              | fivebits => 5 end |>.
Definition with_stopbits (b : stopbits_t) (d : DCB) : DCB :=
  d <| StopBits := match b with
         | stopbits_one => ONESTOPBIT
         | stopbits_one_point_five => ONE5STOPBITS
         | stopbits_two => TWOSTOPBITS
         end |>.
Definition with_parity (p : parity_t) (d : DCB) : DCB :=
  d <| Parity := match p with
         | parity_none => NOPARITY
         | parity_even => EVENPARITY
         | parity_odd => ODDPARITY
         | parity_mark => MARKPARITY
         | parity_space => SPACEPARITY
         end |>.
Definition with_flowcontrol (f : flowcontrol_t) (d : DCB) : DCB :=
  match f with
  | flowcontrol_none =>
    d <| fOutxCtsFlow := false |> <| fRtsControl := RTS_CONTROL_DISABLE |>
      <| fOutX := false |> <| fInX := false |>
  | flowcontrol_software =>
    d <| fOutxCtsFlow := false |> <| fRtsControl := RTS_CONTROL_DISABLE |>
      <| fOutX := true |> <| fInX := true |>
  | flowcontrol_hardware =>
    d <| fOutxCtsFlow := true |> <| fRtsControl := RTS_CONTROL_HANDSHAKE |>
      <| fOutX := false |> <| fInX := false |>
  end.
Definition comm_timeouts (t : Timeout) : COMMTIMEOUTS :=
  mkCommTimeouts (inter_byte_timeout t) (read_timeout_multiplier t)
    (read_timeout_constant t) (write_timeout_multiplier t) (write_timeout_constant t).

(** When the settings are refused the handle is closed, but kept in [fd_]. *)
Definition reconfigurePort : M (win W) unit :=
  u <- gets id ;;
  if w_fd u =? INVALID_HANDLE_VALUE then
    throw (IOException "Invalid file descriptor, is the serial port open?")
  else
    r <- sys (GetCommState (w_fd u)) ;;
    match r with
    | None => throw (IOException "Error getting the serial port state.")
    | Some dcb =>
      let dcb := with_flowcontrol (w_flowcontrol u) (with_parity (w_parity u)
        (with_stopbits (w_stopbits u) (with_bytesize (w_bytesize u)
          (with_baudrate (w_baudrate u) dcb)))) in
      ok <- sys (SetCommState (w_fd u) dcb) ;;
      if negb ok then
        _ <- sys (CloseHandle (w_fd u)) ;;
        throw (IOException "Error setting serial port settings.")
      else
        ok <- sys (SetCommTimeouts (w_fd u) (comm_timeouts (w_timeout u))) ;;
        if negb ok then throw (IOException "Error setting timeouts.") else ret tt
    end.

Definition open : M (win W) unit :=
  u <- gets id ;;
  if bool_decide (w_port u = []) then throw (invalid_argument "Empty port is invalid.")
  else if w_is_open u then throw (SerialException "Serial port already open.")
  else
    h <- sys (CreateFileW (w_c_str (_prefix_port_if_needed (w_port u)))) ;;
    modify (λ u, u <| w_fd := h |>) ;;
    if h =? INVALID_HANDLE_VALUE then
      create_file_err <- gets (λ u, GetLastError (w_os u)) ;;
      if create_file_err =? ERROR_FILE_NOT_FOUND then
        throw (IOException (String.string_of_list_ascii
          (str "Specified port, " ++ getPort u ++ str ", does not exist.")))
      else
        throw (IOException (String.string_of_list_ascii
          (str "Unknown error opening the serial port: " ++ show create_file_err)))
    else
      reconfigurePort ;;
      modify (λ u, u <| w_is_open := true |>).

Definition close : M (win W) unit :=
  u <- gets id ;;
  when w_is_open u do (
    (when negb (w_fd u =? INVALID_HANDLE_VALUE) do (
       ok <- sys (CloseHandle (w_fd u)) ;;
       if negb ok then fail_with "Error while closing serial port: "
       else modify (λ u, u <| w_fd := INVALID_HANDLE_VALUE |>))) ;;
    modify (λ u, u <| w_is_open := false |>)).

Definition isOpen u : bool := w_is_open u.

Definition available : M (win W) Z :=
  u <- gets id ;;
  if negb (w_is_open u) then ret 0
  else
    r <- sys (ClearCommError (w_fd u)) ;;
    match r with
    | None => fail_with "Error while checking status of the serial port: "
    | Some cbInQue => ret cbInQue
    end.

Definition waitReadable (timeout : Z) : M (win W) bool :=
  throw (IOException "waitReadable is not implemented on Windows.").
Definition waitByteTimes (count : Z) : M (win W) unit :=
  throw (IOException "waitByteTimes is not implemented on Windows.").

(** The guard of most operations; the handle. *)
Definition require_open (what : string) : M (win W) Z :=
  u <- gets id ;;
  if w_is_open u then ret (w_fd u) else throw (PortNotOpenedException what).

(** The size is passed as a [DWORD]. *)
Definition read (size : nat) : M (win W) bytes :=
  fd <- require_open "Serial::read" ;;
  r <- sys (ReadFile fd (u32 (Z.of_nat size))) ;;
  match r with
  | None => fail_with "Error while reading from the serial port: "
  | Some bs => ret bs
  end.
Definition write (data : bytes) : M (win W) nat :=
  fd <- require_open "Serial::write" ;;
  r <- sys (WriteFile fd (take (Z.to_nat (u32 (size data))) data)) ;;
  match r with
  | None => fail_with "Error while writing to the serial port: "
  | Some n => ret n
  end.

Definition setPort (port : bytes) : M (win W) unit :=
  modify (λ u, u <| w_port := map widen port |>).

(** A setting is stored and, on an open port, applied. *)
Definition apply_setting (set : win W → win W) : M (win W) unit :=
  modify set ;;
  b <- gets w_is_open ;;
  when b do reconfigurePort.
Definition setTimeout (timeout : Timeout) : M (win W) unit :=
  apply_setting (λ u, u <| w_timeout := timeout |>).
Definition getTimeout u : Timeout := w_timeout u.
Definition setBaudrate (baudrate : Z) : M (win W) unit :=
  apply_setting (λ u, u <| w_baudrate := baudrate |>).
Definition getBaudrate u : Z := w_baudrate u.
Definition setBytesize (bytesize : bytesize_t) : M (win W) unit :=
  apply_setting (λ u, u <| w_bytesize := bytesize |>).
Definition getBytesize u : bytesize_t := w_bytesize u.
Definition setParity (parity : parity_t) : M (win W) unit :=
  apply_setting (λ u, u <| w_parity := parity |>).
Definition getParity u : parity_t := w_parity u.
Definition setStopbits (stopbits : stopbits_t) : M (win W) unit :=
  apply_setting (λ u, u <| w_stopbits := stopbits |>).
Definition getStopbits u : stopbits_t := w_stopbits u.
Definition setFlowcontrol (flowcontrol : flowcontrol_t) : M (win W) unit :=
  apply_setting (λ u, u <| w_flowcontrol := flowcontrol |>).
Definition getFlowcontrol u : flowcontrol_t := w_flowcontrol u.

Definition flush : M (win W) unit :=
  fd <- require_open "Serial::flush" ;; sys_ (FlushFileBuffers fd).
Definition flushInput : M (win W) unit :=
  fd <- require_open "Serial::flushInput" ;; sys_ (PurgeComm fd PURGE_RXCLEAR).
Definition flushOutput : M (win W) unit :=
  fd <- require_open "Serial::flushOutput" ;; sys_ (PurgeComm fd PURGE_TXCLEAR).

Definition sendBreak (duration : Z) : M (win W) unit :=
  throw (IOException "sendBreak is not supported on Windows.").
Definition setBreak (level : bool) : M (win W) unit :=
  fd <- require_open "Serial::setBreak" ;;
  sys_ (EscapeCommFunction fd (if level then SETBREAK else CLRBREAK)).
Definition setRTS (level : bool) : M (win W) unit :=
  fd <- require_open "Serial::setRTS" ;;
  sys_ (EscapeCommFunction fd (if level then SETRTS else CLRRTS)).
Definition setDTR (level : bool) : M (win W) unit :=
  fd <- require_open "Serial::setDTR" ;;
  sys_ (EscapeCommFunction fd (if level then SETDTR else CLRDTR)).

Definition waitForChange : M (win W) bool :=
  fd <- require_open "Serial::waitForChange" ;;
  ok <- sys (SetCommMask fd (Z.lor EV_CTS (Z.lor EV_DSR (Z.lor EV_RING EV_RLSD)))) ;;
  if negb ok then ret false
  else
    ok <- sys (WaitCommEvent fd) ;;
    if negb ok then ret false else ret true.

(** The common body of the four getters. *)
Definition modem_line (what failed : string) (mask : Z) : M (win W) bool :=
  fd <- require_open what ;;
  r <- sys (GetCommModemStatus fd) ;;
  match r with
  | None => throw (IOException failed)
  | Some dwModemStatus => ret (negb (Z.land mask dwModemStatus =? 0))
  end.
Definition getCTS : M (win W) bool :=
  modem_line "Serial::getCTS" "Error getting the status of the CTS line." MS_CTS_ON.
Definition getDSR : M (win W) bool :=
  modem_line "Serial::getDSR" "Error getting the status of the DSR line." MS_DSR_ON.
Definition getRI : M (win W) bool :=
  modem_line "Serial::getRI" "Error getting the status of the RI line." MS_RING_ON.
Definition getCD : M (win W) bool :=
  modem_line "Serial::getCD" "Error getting the status of the CD line." MS_RLSD_ON.

(** ** Locks *)
Definition claim (mutex : Z) (failed : string) : M (win W) unit :=
  r <- sys (WaitForSingleObject mutex) ;;
  if negb (r =? WAIT_OBJECT_0) then throw (IOException failed) else ret tt.
Definition release (mutex : Z) (failed : string) : M (win W) unit :=
  ok <- sys (ReleaseMutex mutex) ;;
  if negb ok then throw (IOException failed) else ret tt.
Definition readLock : M (win W) unit :=
  h <- gets w_read_mutex ;; claim h "Error claiming read mutex.".
Definition readUnlock : M (win W) unit :=
  h <- gets w_read_mutex ;; release h "Error releasing read mutex.".
Definition writeLock : M (win W) unit :=
  h <- gets w_write_mutex ;; claim h "Error claiming write mutex.".
Definition writeUnlock : M (win W) unit :=
  h <- gets w_write_mutex ;; release h "Error releasing write mutex.".

(** ** Construction and destruction.  The mutexes are created after the port was
    opened; until then their handles are indeterminate. *)
Definition init (port : bytes) (baudrate : Z) (b : bytesize_t) (p : parity_t)
    (st : stopbits_t) (fl : flowcontrol_t) (garbage : Z) (w : W) : win W :=
  mkWin (map widen port) INVALID_HANDLE_VALUE false (mkTimeout 0 0 0 0 0) baudrate p b st fl
    garbage garbage w.
Definition construct : M (win W) unit :=
  u <- gets id ;;
  (when negb (bool_decide (w_port u = [])) do open) ;;
  r <- sys CreateMutex ;;
  modify (λ u, u <| w_read_mutex := r |>) ;;
  r <- sys CreateMutex ;;
  modify (λ u, u <| w_write_mutex := r |>).
Definition destroy : M (win W) unit :=
  noexcept (
    close ;;
    u <- gets id ;;
    _ <- sys (CloseHandle (w_read_mutex u)) ;;
    _ <- sys (CloseHandle (w_write_mutex u)) ;;
    ret tt).
End win_ops.
End WinImpl.

(** ** The contract of the port

    The scoped locks of serial.cc release in a destructor, where an exception would
    end the program; [release_held] shows that there is none while the lock is held. *)
#[export] Instance win_impl {W} `{Windows W} : SerialImpl (win W) := {|
  impl_construct := WinImpl.construct;
  impl_destroy := WinImpl.destroy;
  impl_open := WinImpl.open;
  impl_close := WinImpl.close;
  impl_isOpen := WinImpl.isOpen;
  impl_available := WinImpl.available;
  impl_waitReadable := WinImpl.waitReadable;
  impl_waitByteTimes := WinImpl.waitByteTimes;
  impl_read := WinImpl.read;
  impl_write := WinImpl.write;
  impl_flush := WinImpl.flush;
  impl_flushInput := WinImpl.flushInput;
  impl_flushOutput := WinImpl.flushOutput;
  impl_setPort := WinImpl.setPort;
  impl_getPort := WinImpl.getPort;
  impl_setTimeout := WinImpl.setTimeout;
  impl_getTimeout := WinImpl.getTimeout;
  impl_setBaudrate := WinImpl.setBaudrate;
  impl_getBaudrate := WinImpl.getBaudrate;
  impl_setBytesize := WinImpl.setBytesize;
  impl_getBytesize := WinImpl.getBytesize;
  impl_setParity := WinImpl.setParity;
  impl_getParity := WinImpl.getParity;
  impl_setStopbits := WinImpl.setStopbits;
  impl_getStopbits := WinImpl.getStopbits;
  impl_setFlowcontrol := WinImpl.setFlowcontrol;
  impl_getFlowcontrol := WinImpl.getFlowcontrol;
  impl_sendBreak := WinImpl.sendBreak;
  impl_setBreak := WinImpl.setBreak;
  impl_setRTS := WinImpl.setRTS;
  impl_setDTR := WinImpl.setDTR;
  impl_waitForChange := WinImpl.waitForChange;
  impl_getCTS := WinImpl.getCTS;
  impl_getDSR := WinImpl.getDSR;
  impl_getRI := WinImpl.getRI;
  impl_getCD := WinImpl.getCD;
  impl_readLock := WinImpl.readLock;
  impl_readUnlock u := (WinImpl.readUnlock u).2;
  impl_writeLock := WinImpl.writeLock;
  impl_writeUnlock u := (WinImpl.writeUnlock u).2;
  sleep_for_ms ms u := u <| w_os := win_sleep_ms ms (w_os u) |>;
|}.

(** A mutex that is held, one that can be used, and no mutex. *)
Definition held (m : option nat) : bool := match m with Some (S _) => true | _ => false end.
Definition sound (m : option nat) : bool :=
  match m with Some n => (n <=? 1)%nat | None => false end.
Definition no_mutex (m : option nat) : bool := match m with None => true | _ => false end.

(** Two mutexes were created, each held at most once, and the handle of the port is
    none of them. *)
Definition mutexes_ok {W} `{Windows W} (u : win W) : bool :=
  sound (win_mutex (w_os u) (w_read_mutex u)) && sound (win_mutex (w_os u) (w_write_mutex u))
  && negb (w_read_mutex u =? w_write_mutex u) && no_mutex (win_mutex (w_os u) (w_fd u)).

#[export] Instance win_obs {W} `{Windows W} : Observable (win W) := λ u,
  mkView (w_is_open u) (win_out (w_os u)) (held (win_mutex (w_os u) (w_read_mutex u)))
    (held (win_mutex (w_os u) (w_write_mutex u))) (mutexes_ok u).

Create HintDb win discriminated.
#[export] Hint Resolve create_file_still get_state_still set_state_still set_timeouts_still
  clear_error_still read_file_still flush_file_still purge_still escape_still set_mask_still
  wait_event_still modem_status_still win_sleep_still : win.

Section win_facts.
Context {W : Type} {HW : Windows W} {HOK : WindowsOK W}.
Implicit Types u : win W.

Lemma still_refl (w : W) : still w w.
Proof. by split. Qed.
Lemma still_trans (w w1 w2 : W) : still w w1 → still w1 w2 → still w w2.
Proof. intros [O1 M1] [O2 M2]. split; [congruence|]. intros h. by rewrite M2. Qed.

(** Only the system changed, without effect on bytes and mutexes. *)
Definition stays u u' : Prop := ∃ w, u' = u <| w_os := w |> ∧ still (w_os u) w.

Lemma stays_refl u : stays u u.
Proof. exists (w_os u). split; [by destruct u|apply still_refl]. Qed.

Lemma stays_pv u u' : stays u u' → pv u' = pv u.
Proof.
  intros (w & -> & [Ho Hm]). unfold pv, win_obs, mutexes_ok. cbn. by rewrite Ho, !Hm.
Qed.

(** [calm u m]: after [u] stayed, [m] ends and lets it stay. *)
Definition calm {A} u (m : M (win W) A) : Prop :=
  ∀ u1, stays u u1 → wp m (post (λ _, stays u) (λ _, stays u)) u1.

Lemma calm_ret {A} u (a : A) : calm u (ret a).
Proof. by intros u1 H1. Qed.
Lemma calm_throw {A} u e : calm (A:=A) u (throw e).
Proof. by intros u1 H1. Qed.
Lemma calm_bind {A B} u (m : M (win W) A) (k : A → M (win W) B) :
  calm u m → (∀ a, calm u (k a)) → calm u (bind m k).
Proof. intros Hm Hk u1 H1. eapply wp_bind_post; [by apply Hm|]. intros a u2. apply Hk. Qed.
Lemma calm_gets {A B} u (f : win W → A) (k : A → M (win W) B) :
  (∀ w, still (w_os u) w → calm u (k (f (u <| w_os := w |>)))) → calm u (bind (gets f) k).
Proof.
  intros Hk u1 (w & -> & Hw). apply wp_bind_gets. apply (Hk w Hw). by exists w.
Qed.
Lemma calm_sys {A} u (call : W → A * W) :
  (∀ w, still (w_os u) w → still w (call w).2) → calm u (WinImpl.sys call).
Proof.
  intros Hc u1 (w & -> & Hw). unfold wp, WinImpl.sys. cbn. specialize (Hc w Hw).
  destruct (call w) as [a w2]. exists w2. split; [done|]. by eapply still_trans.
Qed.
Lemma calm_sys_ u (call : W → W) : (∀ w, still w (call w)) → calm u (WinImpl.sys_ call).
Proof.
  intros Hc u1 (w & -> & Hw). eexists. split; [reflexivity|]. cbn. by eapply still_trans.
Qed.
Lemma calm_fail {A} u what : calm (A:=A) u (WinImpl.fail_with what).
Proof. apply calm_gets. intros w Hw. apply calm_throw. Qed.

(** A handle that is no mutex can be closed. *)
Lemma calm_close u h : win_mutex (w_os u) h = None → calm u (WinImpl.sys (CloseHandle h)).
Proof. intros Hh. apply calm_sys. intros w [_ Hm]. apply close_file_still. by rewrite Hm. Qed.

Lemma mutexes_ok_fd u : v_ok (pv u) = true → win_mutex (w_os u) (w_fd u) = None.
Proof.
  cbn. unfold mutexes_ok. rewrite !andb_true_iff. intros [_ H].
  by destruct (win_mutex (w_os u) (w_fd u)).
Qed.

(** A calm operation is quiet and ends. *)
Lemma calm_quiet {A} (m : M (win W) A) : (∀ u, v_ok (pv u) = true → calm u m) → quiet m.
Proof.
  intros Hm u Hu. eapply wp_mono; [apply (Hm u Hu), stays_refl|].
  intros [] u'; simpl; try done; apply stays_pv.
Qed.
End win_facts.

Ltac calm_step :=
  match goal with
  | |- calm _ (bind (gets _) _) => apply calm_gets; intros
  | |- calm _ (bind _ _) => apply calm_bind; [|intros]
  | |- calm _ (WinImpl.sys (CloseHandle _)) => apply calm_close; by cbn in *
  | |- calm _ (WinImpl.sys _) => apply calm_sys; intros; by eauto with win
  | |- calm _ (WinImpl.sys_ _) => apply calm_sys_; intros; by eauto with win
  | |- calm _ (WinImpl.fail_with _) => apply calm_fail
  | |- calm _ (if ?b then _ else _) => destruct b
  | |- calm _ (match ?r with _ => _ end) => destruct r
  | |- calm _ (ret _) => apply calm_ret
  | |- calm _ (throw _) => apply calm_throw
  end.
Ltac solve_calm := cbv beta zeta; repeat (calm_step; cbv beta zeta).

Section win_contract.
Context {W : Type} {HW : Windows W} {HOK : WindowsOK W}.
Implicit Types u : win W.

Lemma win_reconfigure_calm u :
  win_mutex (w_os u) (w_fd u) = None → calm u WinImpl.reconfigurePort.
Proof. intros Hu. unfold WinImpl.reconfigurePort. solve_calm. Qed.
Hint Extern 1 (calm _ WinImpl.reconfigurePort) => by apply win_reconfigure_calm : win.

(** Another handle that is no mutex. *)
Lemma pv_handle u w h : still (w_os u) w → win_mutex (w_os u) h = None →
  v_ok (pv u) = true → pv (u <| w_os := w |> <| w_fd := h |>) = pv u.
Proof.
  intros [Ho Hm] Hh. unfold pv, win_obs, mutexes_ok. cbn. rewrite Ho, !Hm, Hh.
  rewrite !andb_true_iff. by intros [[[-> ->] ->] ->].
Qed.

Lemma calm_post {A} u (m : M (win W) A) (Q : A → win W → Prop) (E : exn → win W → Prop) :
  calm u m → (∀ a u', stays u u' → Q a u') → (∀ e u', stays u u' → E e u') →
  wp m (post Q E) u.
Proof.
  intros Hm HQ HE. eapply wp_mono; [apply Hm, stays_refl|]. intros []; simpl; auto.
Qed.

Lemma wp_bind_sys_win {A B} (call : W → A * W) (k : A → M (win W) B) Q u :
  wp (k (call (w_os u)).1) Q (u <| w_os := (call (w_os u)).2 |>) →
  wp (bind (WinImpl.sys call) k) Q u.
Proof. unfold wp, bind, WinImpl.sys. by destruct (call (w_os u)). Qed.

Lemma win_open_spec u : v_ok (pv u) = true →
  wp WinImpl.open (post (λ _ u', pv u' = pv u <| v_open := true |>) (λ _ u', pv u' = pv u)) u.
Proof.
  intros Hu. unfold WinImpl.open. apply wp_bind_gets. cbn [id].
  case_bool_decide; [done|]. destruct (w_is_open u) eqn:Ho; [done|].
  set (p := w_c_str _). apply wp_bind_sys_win.
  pose proof (create_file_still p (w_os u)) as Hs.
  pose proof (create_file_handle p (w_os u)) as Hh.
  destruct (CreateFileW p (w_os u)) as [h w]. cbn [fst snd] in *.
  apply wp_bind_modify. set (u1 := u <| w_os := w |> <| w_fd := h |>).
  assert (pv u1 = pv u) as E by (by apply pv_handle).
  assert (win_mutex (w_os u1) (w_fd u1) = None) as H1 by (cbn; by rewrite (proj2 Hs)).
  rewrite <- E. destruct (h =? INVALID_HANDLE_VALUE).
  { apply wp_bind_gets. by destruct (_ =? _). }
  eapply (wp_bind_post _ _ (λ _, stays u1)).
  { apply calm_post; [by apply win_reconfigure_calm|done|]. intros e u'. apply stays_pv. }
  intros _ u2 H2. apply wp_modify. simpl. rewrite <- (stays_pv _ _ H2). done.
Qed.

Lemma win_close_spec u : v_ok (pv u) = true →
  wp WinImpl.close (post (λ _ u', pv u' = pv u <| v_open := false |>) (λ _ u', pv u' = pv u)) u.
Proof.
  intros Hu. unfold WinImpl.close. apply wp_bind_gets. cbn [id].
  destruct (w_is_open u) eqn:Ho; [|unfold pv, win_obs, upd; cbn; by rewrite Ho].
  eapply (wp_bind_post _ _ (λ _ u', pv u' = pv u)).
  - destruct (negb _); [|done]. apply wp_bind_sys_win.
    pose proof (close_file_still _ _ (mutexes_ok_fd u Hu)) as Hs.
    destruct (CloseHandle (w_fd u) (w_os u)) as [b w]. cbn [fst snd] in *.
    destruct b; simpl; [apply wp_modify|]; simpl.
    + apply pv_handle; [done|apply invalid_no_mutex|done].
    + apply stays_pv. by exists w.
  - intros _ u1 E. apply wp_modify. simpl. by rewrite <- E.
Qed.

Lemma win_setting_quiet (set : win W → win W) :
  (∀ u, pv (set u) = pv u ∧ w_os (set u) = w_os u ∧ w_fd (set u) = w_fd u) →
  quiet (WinImpl.apply_setting set).
Proof.
  intros Hset u Hu. destruct (Hset u) as (E & E1 & E2).
  apply wp_bind_modify, wp_bind_gets. rewrite <- E.
  destruct (w_is_open (set u)); [|done].
  eapply wp_mono; [apply (win_reconfigure_calm (set u)), stays_refl|].
  { rewrite E1, E2. by apply mutexes_ok_fd. }
  intros [] u'; simpl; try done; apply stays_pv.
Qed.

(** The state after a read or write, from the answer of the system. *)
Lemma win_read_spec n u : v_ok (pv u) = true →
  wp (WinImpl.read n) (post (λ bs u', (length bs ≤ n)%nat ∧ pv u' = pv u)
    (λ _ u', pv u' = pv u)) u.
Proof.
  intros Hu. unfold WinImpl.read. apply wp_bind, wp_bind_gets. cbn [id].
  destruct (w_is_open u); [|done]. apply wp_ret. set (k := u32 _). apply wp_bind_sys_win.
  pose proof (read_file_still (w_fd u) k (w_os u)) as Hs.
  pose proof (read_file_length (w_fd u) k (w_os u)) as Hl.
  destruct (ReadFile (w_fd u) k (w_os u)) as [[bs|] w]; cbn [fst snd] in *.
  - apply wp_ret. simpl. split; [|apply stays_pv; by exists w].
    unfold k, u32, wrapu in Hl. pose proof (Z.mod_pos_bound (Z.of_nat n) (2 ^ 32)).
    specialize (Hl bs w ltac:(lia) eq_refl). pose proof (Z.mod_le (Z.of_nat n) (2 ^ 32)). lia.
  - apply stays_pv. by exists w.
Qed.

Lemma pv_written u w d : (∀ h, win_mutex w h = win_mutex (w_os u) h) →
  win_out w = win_out (w_os u) ++ d →
  pv (u <| w_os := w |>) = pv u <| v_out := v_out (pv u) ++ d |>.
Proof. intros Hm Ho. unfold pv, win_obs, mutexes_ok, upd. cbn. by rewrite Ho, !Hm. Qed.

Lemma win_write_spec d u : v_ok (pv u) = true →
  wp (WinImpl.write d)
    (post (λ n u', (n ≤ length d)%nat ∧ pv u' = pv u <| v_out := v_out (pv u) ++ take n d |>)
          (λ _ u', ∃ k, (k ≤ length d)%nat ∧
             pv u' = pv u <| v_out := v_out (pv u) ++ take k d |>)) u.
Proof.
  intros Hu. unfold WinImpl.write. apply wp_bind, wp_bind_gets. cbn [id].
  destruct (w_is_open u).
  2:{ exists 0%nat. split; [lia|]. unfold upd. cbn. by rewrite app_nil_r. }
  apply wp_ret. set (k := Z.to_nat _). apply wp_bind_sys_win.
  pose proof (write_file_mutex (w_fd u) (take k d) (w_os u)) as Hm.
  pose proof (write_file_some (w_fd u) (take k d) (w_os u)) as H1.
  pose proof (write_file_none (w_fd u) (take k d) (w_os u)) as H2.
  destruct (WriteFile (w_fd u) (take k d) (w_os u)) as [[n|] w]; cbn [fst snd] in *.
  - destruct (H1 n w eq_refl) as [Hn Ho]. rewrite length_take in Hn. apply wp_ret. simpl.
    split; [lia|]. apply pv_written; [done|]. by rewrite Ho, take_take, Nat.min_l by lia.
  - destruct (H2 w eq_refl) as (j & Hj & Ho). rewrite length_take in Hj. exists j.
    split; [lia|]. apply pv_written; [done|]. by rewrite Ho, take_take, Nat.min_l by lia.
Qed.
(** *** Locks *)
Lemma claim_run h n failed u : win_mutex (w_os u) h = Some n →
  ∃ w, WinImpl.claim h failed u = (Ret tt, u <| w_os := w |>) ∧ holds h (S n) (w_os u) w.
Proof.
  intros Hn. destruct (wait_mutex _ _ _ Hn) as [Hr Hh].
  unfold WinImpl.claim, bind, WinImpl.sys.
  destruct (WaitForSingleObject h (w_os u)) as [r w]. simpl in *. subst r. by exists w.
Qed.

Lemma release_held h n failed u : win_mutex (w_os u) h = Some (S n) →
  ∃ w, WinImpl.release h failed u = (Ret tt, u <| w_os := w |>) ∧ holds h n (w_os u) w.
Proof.
  intros Hn. destruct (release_mutex _ _ _ Hn) as [Hr Hh].
  unfold WinImpl.release, bind, WinImpl.sys.
  destruct (ReleaseMutex h (w_os u)) as [r w]. simpl in *. subst r. by exists w.
Qed.

Lemma release_free h failed u : win_mutex (w_os u) h = Some 0%nat →
  stays u (WinImpl.release h failed u).2.
Proof.
  intros Hn. pose proof (release_not_held _ _ Hn) as Hs.
  unfold WinImpl.release, bind, WinImpl.sys.
  destruct (ReleaseMutex h (w_os u)) as [[] w]; by exists w.
Qed.

Lemma mutexes_ok_elim u : v_ok (pv u) = true →
  (∃ n, win_mutex (w_os u) (w_read_mutex u) = Some n ∧ (n ≤ 1)%nat) ∧
  (∃ n, win_mutex (w_os u) (w_write_mutex u) = Some n ∧ (n ≤ 1)%nat) ∧
  w_read_mutex u ≠ w_write_mutex u ∧ win_mutex (w_os u) (w_fd u) = None.
Proof.
  cbn. unfold mutexes_ok, sound, no_mutex. rewrite !andb_true_iff, negb_true_iff, Z.eqb_neq.
  intros [[[H1 H2] H3] H4]. repeat case_match; try done. split_and!; try done;
    eexists; (split; [done|]); by apply Nat.leb_le.
Qed.

Lemma pv_read_mutex u w n : v_ok (pv u) = true → (n ≤ 1)%nat →
  holds (w_read_mutex u) n (w_os u) w →
  pv (u <| w_os := w |>) = pv u <| v_rlock := (0 <? n)%nat |>.
Proof.
  intros Hu Hn [Ho Hm].
  destruct (mutexes_ok_elim u Hu) as ((r & Hr & Hr1) & (k & Hk & Hk1) & Hne & Hfd).
  unfold pv, win_obs, mutexes_ok, upd. cbn. rewrite Ho, !Hm, Z.eqb_refl.
  rewrite (proj2 (Z.eqb_neq (w_write_mutex u) (w_read_mutex u))) by congruence.
  rewrite (proj2 (Z.eqb_neq (w_fd u) (w_read_mutex u))) by congruence.
  rewrite Hr. unfold sound. rewrite (proj2 (Nat.leb_le n 1)), (proj2 (Nat.leb_le r 1)) by done.
  by destruct n.
Qed.

Lemma pv_write_mutex u w n : v_ok (pv u) = true → (n ≤ 1)%nat →
  holds (w_write_mutex u) n (w_os u) w →
  pv (u <| w_os := w |>) = pv u <| v_wlock := (0 <? n)%nat |>.
Proof.
  intros Hu Hn [Ho Hm].
  destruct (mutexes_ok_elim u Hu) as ((r & Hr & Hr1) & (k & Hk & Hk1) & Hne & Hfd).
  unfold pv, win_obs, mutexes_ok, upd. cbn. rewrite Ho, !Hm, Z.eqb_refl.
  rewrite (proj2 (Z.eqb_neq (w_read_mutex u) (w_write_mutex u))) by congruence.
  rewrite (proj2 (Z.eqb_neq (w_fd u) (w_write_mutex u))) by congruence.
  rewrite Hk. unfold sound. rewrite (proj2 (Nat.leb_le n 1)), (proj2 (Nat.leb_le k 1)) by done.
  by destruct n.
Qed.

(** A mutex that is not held is held never. *)
Lemma held_count n : (n ≤ 1)%nat → n = if held (Some n) then 1%nat else 0%nat.
Proof. by destruct n as [|[|n]]; [..|lia]. Qed.

Lemma win_readLock_spec u : v_ok (pv u) = true → v_rlock (pv u) = false →
  wp WinImpl.readLock (post (λ _ u', pv u' = pv u <| v_rlock := true |>) (λ _ _, False)) u.
Proof.
  intros Hu Hl. destruct (mutexes_ok_elim u Hu) as ((n & Hn & Hn1) & _).
  cbn in Hl. rewrite Hn in Hl. pose proof (held_count n Hn1) as E. rewrite Hl in E. subst n.
  apply wp_bind_gets. unfold wp.
  destruct (claim_run _ _ "Error claiming read mutex." u Hn) as (w & -> & Hw).
  by apply (pv_read_mutex u w 1).
Qed.

Lemma win_writeLock_spec u : v_ok (pv u) = true → v_wlock (pv u) = false →
  wp WinImpl.writeLock (post (λ _ u', pv u' = pv u <| v_wlock := true |>) (λ _ _, False)) u.
Proof.
  intros Hu Hl. destruct (mutexes_ok_elim u Hu) as (_ & (n & Hn & Hn1) & _).
  cbn in Hl. rewrite Hn in Hl. pose proof (held_count n Hn1) as E. rewrite Hl in E. subst n.
  apply wp_bind_gets. unfold wp.
  destruct (claim_run _ _ "Error claiming write mutex." u Hn) as (w & -> & Hw).
  by apply (pv_write_mutex u w 1).
Qed.

Lemma win_readUnlock_spec u : v_ok (pv u) = true →
  pv (WinImpl.readUnlock u).2 = pv u <| v_rlock := false |>.
Proof.
  intros Hu. destruct (mutexes_ok_elim u Hu) as ((n & Hn & Hn1) & _).
  unfold WinImpl.readUnlock, bind, gets. destruct n as [|n].
  - rewrite (stays_pv _ _ (release_free _ _ u Hn)). unfold pv, win_obs, upd. cbn.
    by rewrite Hn.
  - destruct (release_held _ _ "Error releasing read mutex." u Hn) as (w & -> & Hw).
    assert (n = 0%nat) as -> by lia. by apply (pv_read_mutex u w 0); [|lia|].
Qed.

Lemma win_writeUnlock_spec u : v_ok (pv u) = true →
  pv (WinImpl.writeUnlock u).2 = pv u <| v_wlock := false |>.
Proof.
  intros Hu. destruct (mutexes_ok_elim u Hu) as (_ & (n & Hn & Hn1) & _).
  unfold WinImpl.writeUnlock, bind, gets. destruct n as [|n].
  - rewrite (stays_pv _ _ (release_free _ _ u Hn)). unfold pv, win_obs, upd. cbn.
    by rewrite Hn.
  - destruct (release_held _ _ "Error releasing write mutex." u Hn) as (w & -> & Hw).
    assert (n = 0%nat) as -> by lia. by apply (pv_write_mutex u w 0); [|lia|].
Qed.

Lemma win_guarded_calm {A} u what (k : Z → M (win W) A) :
  (∀ fd, calm u (k fd)) → calm u (bind (WinImpl.require_open what) k).
Proof. intros Hk. unfold WinImpl.require_open. solve_calm. apply Hk. Qed.
End win_contract.

Lemma post_spec {S A} (m : M S A) R E s : wp m (post R E) s → wp m (spec R E) s.
Proof. intros H. eapply wp_mono; [exact H|]. by intros []. Qed.

(** The port meets the contract of Serial.v. *)
#[export] Instance win_ok {W} `{WindowsOK W} : SerialImplOK (win W).
Proof.
  split.
  - done.
  - intros u Hu. by apply post_spec, win_open_spec.
  - intros u Hu. by apply post_spec, win_close_spec.
  - intros n u Hu. by apply post_spec, win_read_spec.
  - intros d u Hu. by apply post_spec, win_write_spec.
  - by intros t u Hu Ho.
  - apply calm_quiet. intros u Hu. apply win_guarded_calm. intros fd. solve_calm.
  - apply calm_quiet. intros u Hu. apply win_guarded_calm. intros fd. solve_calm.
  - apply calm_quiet. intros u Hu. apply win_guarded_calm. intros fd. solve_calm.
  - by intros p u Hu.
  - intros t _. by apply win_setting_quiet.
  - intros b _. by apply win_setting_quiet.
  - intros b. by apply win_setting_quiet.
  - intros b. by apply win_setting_quiet.
  - intros b. by apply win_setting_quiet.
  - intros b. by apply win_setting_quiet.
  - intros b. apply calm_quiet. intros u Hu. apply win_guarded_calm. intros fd. solve_calm.
  - intros b. apply calm_quiet. intros u Hu. apply win_guarded_calm. intros fd. solve_calm.
  - intros b. apply calm_quiet. intros u Hu. apply win_guarded_calm. intros fd. solve_calm.
  - apply calm_quiet. intros u Hu. apply win_guarded_calm. intros fd. solve_calm.
  - apply calm_quiet. intros u Hu. apply win_guarded_calm. intros fd. solve_calm.
  - apply calm_quiet. intros u Hu. apply win_guarded_calm. intros fd. solve_calm.
  - apply calm_quiet. intros u Hu. apply win_guarded_calm. intros fd. solve_calm.
  - intros u. apply win_readLock_spec.
  - intros u. apply win_readUnlock_spec.
  - intros u. apply win_writeLock_spec.
  - intros u. apply win_writeUnlock_spec.
  - intros ms u. apply stays_pv. eexists. split; [done|]. apply win_sleep_still.
Qed.

(** ** The operations end: there is no loop, and the calls return. *)
Ltac win_live :=
  repeat match goal with
  | |- live (bind _ _) => apply live_bind; [|intros]
  | |- live (if ?b then _ else _) => destruct b
  | |- live (match ?r with _ => _ end) => destruct r
  | |- live (WinImpl.sys ?c) => intros ?; unfold WinImpl.sys; by destruct (c _)
  | |- live _ => by intros ?
  end.

#[export] Instance win_live {W} `{Windows W} : SerialImplLive (win W).
Proof.
  assert (live (WinImpl.reconfigurePort (W:=W))) by (unfold WinImpl.reconfigurePort; win_live).
  assert (∀ set, live (WinImpl.apply_setting (W:=W) set)) as Hset
    by (intros set; unfold WinImpl.apply_setting; win_live; done).
  split; intros; simpl; try done; try apply Hset;
    unfold WinImpl.open, WinImpl.close, WinImpl.read, WinImpl.write, WinImpl.flush,
      WinImpl.flushInput, WinImpl.flushOutput, WinImpl.require_open; win_live; done.
Qed.

(** ** What the port promises *)

(** C16: the Windows port implements the interface [serial::Serial] and the drivers
    are verified against: every operation, from a usable state, is free of undefined
    behaviour, transmits exactly what it reports and keeps the port usable, with
    mutexes that Windows lets a thread take repeatedly, and the operations end. *)
Theorem win_implements_serial (W : Type) (HW : Windows W) (HOK : WindowsOK W) :
  SerialImplOK (win W) ∧ SerialImplLive (win W).
Proof. split; apply _. Qed.

Lemma narrow_widen c : narrow (widen c) = c.
Proof. by destruct c as [[] [] [] [] [] [] [] []]. Qed.

Lemma prefix_starts s : take 4 (_prefix_port_if_needed s) = windows_com_port_prefix.
Proof. unfold _prefix_port_if_needed. by case_bool_decide. Qed.

(** The name of a port survives the conversion to a wide string and back, byte
    for byte, and the name passed to the system has the device prefix exactly once. *)
Lemma win_port_name {W} (port : bytes) (u u' : win W) :
  WinImpl.setPort port u = (Ret tt, u') →
  WinImpl.getPort u' = port ∧
  (∃ rest, _prefix_port_if_needed (w_port u') = windows_com_port_prefix ++ rest) ∧
  _prefix_port_if_needed (_prefix_port_if_needed (w_port u')) =
    _prefix_port_if_needed (w_port u').
Proof.
  intros [= <-]. split; [|split].
  - unfold WinImpl.getPort. simpl. induction port as [|c port IH]; [done|]. simpl.
    by rewrite narrow_widen, IH.
  - eexists. by rewrite <- (take_drop 4 (_prefix_port_if_needed _)), prefix_starts.
  - unfold _prefix_port_if_needed at 1. by rewrite prefix_starts, bool_decide_eq_true_2.
Qed.

(** The settings [reconfigurePort] computes from the present ones. *)
Definition win_configured {W} (u : win W) (d : DCB) : DCB :=
  WinImpl.with_flowcontrol (w_flowcontrol u) (WinImpl.with_parity (w_parity u)
    (WinImpl.with_stopbits (w_stopbits u) (WinImpl.with_bytesize (w_bytesize u)
      (WinImpl.with_baudrate (w_baudrate u) d)))).


(** ** A machine

    A small system to run the port: files have even handles and mutexes odd ones;
    [c_refuse] makes it refuse settings. *)
Record machine := mkMachine {
  c_files : list Z;
  c_depths : list nat;
  c_rx : bytes;
  c_out : bytes;
  c_dcb : DCB;
  c_refuse : bool;
}.
#[export] Instance eta_machine : Eta machine := λ m,
  mkMachine (c_files m) (c_depths m) (c_rx m) (c_out m) (c_dcb m) (c_refuse m).

Definition machine_mutex (w : machine) (h : Z) : option nat :=
  if (0 <=? h) && Z.odd h then c_depths w !! Z.to_nat (h / 2) else None.
Definition machine_hold (h : Z) (n : nat) (w : machine) : machine :=
  w <| c_depths := <[Z.to_nat (h / 2) := n]> (c_depths w) |>.

#[export] Instance machine_windows : Windows machine := {|
  CreateFileW _ w := let h := 2 * Z.of_nat (length (c_files w)) in
    (h, w <| c_files := c_files w ++ [h] |>);
  CloseHandle h w :=
    (bool_decide (h ∈ c_files w), w <| c_files := filter (λ x, x ≠ h) (c_files w) |>);
  GetLastError _ := 6;
  GetCommState _ w := (Some (c_dcb w), w);
  SetCommState _ d w := if c_refuse w then (false, w) else (true, w <| c_dcb := d |>);
  SetCommTimeouts _ _ w := (true, w);
  ClearCommError _ w := (Some (size (c_rx w)), w);
  ReadFile _ n w := (Some (take (Z.to_nat n) (c_rx w)), w <| c_rx := drop (Z.to_nat n) (c_rx w) |>);
  WriteFile _ d w := (Some (length d), w <| c_out := c_out w ++ d |>);
  FlushFileBuffers _ w := w;
  PurgeComm _ f w := if f =? PURGE_RXCLEAR then w <| c_rx := [] |> else w;
  EscapeCommFunction _ _ w := w;
  SetCommMask _ _ w := (true, w);
  WaitCommEvent _ w := (true, w);
  GetCommModemStatus _ w := (Some 0, w);
  CreateMutex w :=
    (2 * Z.of_nat (length (c_depths w)) + 1, w <| c_depths := c_depths w ++ [0%nat] |>);
  WaitForSingleObject h w :=
    match machine_mutex w h with
    | Some n => (WAIT_OBJECT_0, machine_hold h (S n) w)
    | None => (-1, w)
    end;
  ReleaseMutex h w :=
    match machine_mutex w h with
    | Some (S n) => (true, machine_hold h n w)
    | _ => (false, w)
    end;
  win_sleep_ms _ w := w;
  win_out := c_out;
  win_mutex := machine_mutex;
|}.

(** Odd numbers that are not negative are [2 i + 1]. *)
Lemma odd_handle h : (0 <=? h) && Z.odd h = true → h = 2 * Z.of_nat (Z.to_nat (h / 2)) + 1.
Proof.
  rewrite andb_true_iff, Z.leb_le. intros [H0 Ho]. rewrite Z2Nat.id by (apply Z.div_pos; lia).
  pose proof (Z.div_mod h 2). rewrite Zmod_odd, Ho in *. lia.
Qed.

Lemma machine_hold_holds h n k w : machine_mutex w h = Some k → holds h n w (machine_hold h n w).
Proof.
  intros Hk. split; [done|]. intros h'. cbn. unfold machine_mutex, machine_hold in *. cbn.
  destruct ((0 <=? h) && Z.odd h) eqn:E; [|done].
  destruct (Z.eqb_spec h' h) as [->|Hne].
  - rewrite E. apply list_lookup_insert_eq. by eapply lookup_lt_Some.
  - destruct ((0 <=? h') && Z.odd h') eqn:E'; [|done].
    apply list_lookup_insert_ne. apply odd_handle in E, E'. lia.
Qed.

Lemma machine_new_mutex w :
  let h := 2 * Z.of_nat (length (c_depths w)) + 1 in
  machine_mutex w h = None ∧ holds h 0 w (w <| c_depths := c_depths w ++ [0%nat] |>).
Proof.
  intros h. assert (Z.to_nat (h / 2) = length (c_depths w)) as Eh.
  { unfold h. rewrite Z.mul_comm, Z.div_add_l, Z.add_0_r by done. apply Nat2Z.id. }
  assert ((0 <=? h) && Z.odd h = true) as Ho.
  { unfold h. rewrite Z.odd_add, Z.odd_mul. simpl. apply andb_true_iff. split; [lia|done]. }
  split; [unfold machine_mutex; rewrite Ho, Eh; by apply lookup_ge_None|].
  split; [done|]. intros h'. cbn. unfold machine_mutex. cbn.
  destruct (Z.eqb_spec h' h) as [->|Hne].
  - rewrite Ho, Eh. by apply list_lookup_middle.
  - destruct ((0 <=? h') && Z.odd h') eqn:E'; [|done].
    destruct (decide (Z.to_nat (h' / 2) < length (c_depths w))%nat).
    + by rewrite lookup_app_l.
    + rewrite !(proj2 (lookup_ge_None _ _)); [done|lia|].
      rewrite length_app. simpl. apply odd_handle in E', Ho. lia.
Qed.

#[export] Instance machine_ok : WindowsOK machine.
Proof.
  split; intros; cbn in *; simplify_eq; try by split.
  - unfold machine_mutex. by rewrite Z.odd_mul, andb_false_r.
  - by destruct (c_refuse w).
  - rewrite length_take. lia.
  - split; [lia|]. by rewrite take_ge by lia.
  - by destruct (f =? PURGE_RXCLEAR).
  - apply machine_new_mutex.
  - lia.
  - split; [by case_match|]. case_match; simplify_eq. by eapply machine_hold_holds.
  - repeat case_match; simplify_eq; try done. split; [done|]. by eapply machine_hold_holds.
  - by repeat case_match; simplify_eq.
Qed.

Lemma win_implements_serial_witness :
  SerialImplOK (win machine) ∧ SerialImplLive (win machine).
Proof. apply (win_implements_serial machine machine_windows). exact machine_ok. Defined.

Definition machine_boot (refuse : bool) : machine :=
  mkMachine [0; 2] [] [] [] (mkDCB 9600 8 0 0 false 0 false false 1) refuse.
Definition com_port (refuse : bool) : win machine :=
  WinImpl.init (str "COM3") 9600 eightbits parity_none stopbits_one flowcontrol_none 0
    (machine_boot refuse).

Lemma win_port_name_witness : ∃ u' : win machine,
  WinImpl.setPort (str "COM" ++ [ascii_of_nat 233]) (com_port false) = (Ret tt, u') ∧
  w_port u' = [67; 79; 77; 65513] ∧ WinImpl.getPort u' = str "COM" ++ [ascii_of_nat 233].
Proof.
  eexists. split; [reflexivity|]. split; [reflexivity|].
  by apply (win_port_name _ (com_port false)).
Defined.

