(* ===== verification/Device.v ===== *)
(** * src/Device.cpp and include/Device.hh: the base class of the instruments

    A device owns a serial port and the strings that frame its messages.  The
    section after the model states what a command puts on the wire; the
    instruments build on it. *)
From S2P Require Import Prelude CppStd Utilities Serial Loopback.

Record device (P : Type) := mkDevice {
  m_comport : bytes;
  m_baud : Z;
  m_com_pre : bytes;
  m_com_sfx : bytes;
  m_read_sfx : bytes;
  m_timeout_ms : Z;
  m_serial : P;
}.
Arguments mkDevice {P}.
Arguments m_comport {P}.
Arguments m_baud {P}.
Arguments m_com_pre {P}.
Arguments m_com_sfx {P}.
Arguments m_read_sfx {P}.
Arguments m_timeout_ms {P}.
Arguments m_serial {P}.

#[export] Instance eta_device P : Eta (device P) := λ d,
  mkDevice (m_comport d) (m_baud d) (m_com_pre d) (m_com_sfx d) (m_read_sfx d)
    (m_timeout_ms d) (m_serial d).

Definition serial_l {P} : lens (device P) P :=
  Lens m_serial (λ p d, d <| m_serial := p |>).
#[export] Instance serial_l_ok P : LensOK (@serial_l P).
Proof. split; by intros; destruct s. Qed.

(** The size passed to [readline] and [readlines]. *)
Definition max_line : nat := Z.to_nat 0xFFFF.

Module Device.
Section device_ops.
Context {P : Type} {HI : SerialImpl P}.
Implicit Types d : device P.

(** A member call on [m_serial]. *)
Definition on_serial {A} (m : M P A) : M (device P) A := zoom serial_l m.

(** [Device(port, baud_rate)]; [serial] is the default constructed port and
    [m_read_sfx] starts empty. *)
Definition construct (port : bytes) (baud_rate : Z) (serial : P) : device P :=
  mkDevice port baud_rate [] [CR] [] 500 serial.

(** [~Device()]. *)
Definition destroy : M (device P) unit :=
  noexcept (
    o <- gets (λ d, Serial.isOpen (m_serial d)) ;;
    when o do on_serial Serial.close).

Definition is_open d : bool := Serial.isOpen (m_serial d).
Definition close : M (device P) unit := on_serial Serial.close.

Definition set_timeout (ms : Z) : M (device P) unit :=
  modify (λ d, d <| m_timeout_ms := ms |>).
Definition get_timeout d : Z := m_timeout_ms d.
Definition get_port d : bytes := m_comport d.
Definition get_baud d : Z := m_baud d.
Definition set_com_prefix (pre : bytes) : M (device P) unit :=
  modify (λ d, d <| m_com_pre := pre |>).
Definition set_com_suffix (suf : bytes) : M (device P) unit :=
  modify (λ d, d <| m_com_sfx := suf |>).
Definition set_read_suffix (suf : bytes) : M (device P) unit :=
  modify (λ d, d <| m_read_sfx := suf |>).

Definition write_cmd (cmd : bytes) : M (device P) bool :=
  o <- gets (λ d, Serial.isOpen (m_serial d)) ;;
  (when negb o do on_serial Serial.open) ;;
  on_serial Serial.flushInput ;;
  on_serial Serial.flushOutput ;;
  msg <- gets (λ d, m_com_pre d ++ cmd ++ m_com_sfx d) ;;
  written_bytes <- on_serial (Serial.write msg) ;;
  ret (if negb (written_bytes =? length msg)%nat then false else true).

Definition set_timeout_ms (t : Z) : M (device P) unit :=
  on_serial (Serial.setTimeout (simpleTimeout t)).

(** [read_cmd(answer)]: the new value of [answer] and the result. *)
Definition read_cmd (answer : bytes) : M (device P) (bytes * bool) :=
  sfx <- gets m_read_sfx ;;
  ' (answer, nbytes) <- on_serial (Serial.readline answer max_line sfx) ;;
  if (nbytes =? 0)%nat then ret (answer, false)
  else if (nbytes <? length sfx)%nat then ret (answer, false)
  else if (length answer <? length sfx)%nat then ret (rtrim answer, true)
  else
    answer <- lift (erase_from answer (size answer - size sfx)) ;;
    ret (answer, true).

(** [read_lines(lines)]: the lines; the C++ result is always true. *)
Definition read_lines : M (device P) (list bytes) :=
  sfx <- gets m_read_sfx ;;
  on_serial (Serial.readlines max_line sfx).

Definition reset_connection : M (device P) unit :=
  on_serial Serial.close ;; on_serial Serial.open.
End device_ops.
End Device.

(** ** What a device puts on the wire *)
Section device_facts.
Context {P : Type} {HI : SerialImpl P} {HO : Observable P} {HOK : SerialImplOK P}.
Implicit Types d : device P.

(** The bytes handed over for transmission so far. *)
Definition out d : bytes := v_out (pv (m_serial d)).

(** Neither mutex of the port is held. *)
Definition idle d : Prop := unlocked (m_serial d).

(** From [d] to [d'] only the port changed, its mutexes are free and exactly
    [data] was handed over. *)
Definition sends d (data : bytes) d' : Prop :=
  d' = d <| m_serial := m_serial d' |> ∧ idle d' ∧ out d' = out d ++ data.

(** The message that carries a command. *)
Definition frame d (cmd : bytes) : bytes := m_com_pre d ++ cmd ++ m_com_sfx d.

Lemma sends_refl d : idle d → sends d [] d.
Proof. intros Hi. split; [by destruct d|]. by rewrite app_nil_r. Qed.

Lemma sends_trans d d1 d2 a b : sends d a d1 → sends d1 b d2 → sends d (a ++ b) d2.
Proof.
  intros (E1 & I1 & O1) (E2 & I2 & O2). split; [|split; [done|]].
  - rewrite E2, E1. done.
  - by rewrite O2, O1, app_assoc.
Qed.

Lemma sends_idle d a d' : sends d a d' → idle d'.
Proof. by intros (_ & ? & _). Qed.

Lemma sends_frame d a d' cmd : sends d a d' → frame d' cmd = frame d cmd.
Proof. intros (-> & _ & _). done. Qed.

Lemma sends_read_sfx d a d' : sends d a d' → m_read_sfx d' = m_read_sfx d.
Proof. intros (-> & _ & _). done. Qed.

(** A port operation that hands over nothing. *)
Definition silent {A} (m : M P A) : Prop := ∀ s, unlocked s →
  wp m (spec (λ _ s', unlocked s' ∧ v_out (pv s') = v_out (pv s))
             (λ _ s', unlocked s' ∧ v_out (pv s') = v_out (pv s))) s.

Lemma silent_same {A} (m : M P A) :
  (∀ s, unlocked s → wp m (spec (λ _ s', pv s' = pv s) (λ _ s', pv s' = pv s)) s) →
  silent m.
Proof.
  intros Hm s Hu. eapply wp_spec_mono; [by apply Hm|..]; simpl;
    intros ? s' Hs; (split; [by eapply unlocked_pv|by rewrite Hs]).
Qed.

Lemma open_silent : silent Serial.open.
Proof.
  intros s Hu. eapply wp_spec_mono; [apply open_ok; apply Hu|..]; simpl; intros ? s' Hs;
    unfold unlocked in *; by rewrite Hs.
Qed.
Lemma close_silent : silent Serial.close.
Proof.
  intros s Hu. eapply wp_spec_mono; [apply close_ok; apply Hu|..]; simpl; intros ? s' Hs;
    unfold unlocked in *; by rewrite Hs.
Qed.
Lemma flushInput_silent : silent Serial.flushInput.
Proof. apply silent_same. intros s [[??]?]. by apply flushInput_spec. Qed.
Lemma flushOutput_silent : silent Serial.flushOutput.
Proof. apply silent_same. intros s [[??]?]. by apply flushOutput_spec. Qed.
Lemma readline_silent buffer size eol :
  (length eol ≤ size)%nat → (0 < size)%nat → silent (Serial.readline buffer size eol).
Proof.
  intros He Hs. apply silent_same. intros s [[??]?].
  eapply wp_spec_mono; [by apply readline_spec|simpl; tauto|done].
Qed.
Lemma readlines_silent size eol : silent (Serial.readlines size eol).
Proof. apply silent_same. intros s [[??]?]. by apply readlines_spec. Qed.

Lemma on_serial_silent {A} (m : M P A) d d0 a :
  silent m → sends d0 a d →
  wp (Device.on_serial m) (spec (λ _ d', sends d0 a d') (λ _ d', sends d0 a d')) d.
Proof.
  intros Hm Hs. apply wp_zoom. eapply wp_mono; [apply Hm; apply Hs|].
  assert (∀ s', unlocked s' ∧ v_out (pv s') = v_out (pv (m_serial d)) →
                sends d0 a (d <| m_serial := s' |>)) as Hstep.
  { intros s' [Hu Ho]. rewrite <- (app_nil_r a). eapply sends_trans; [exact Hs|].
    split; [done|]. split; [done|]. unfold out. simpl. by rewrite app_nil_r. }
  intros []; simpl; auto.
Qed.

(** What one transmission of [cmd] leaves on the wire: all of the frame when it
    is reported as written, a proper prefix of it otherwise. *)
Definition attempted d (cmd : bytes) (b : bool) d' : Prop :=
  if b then sends d (frame d cmd) d'
  else ∃ n, (n < length (frame d cmd))%nat ∧ sends d (take n (frame d cmd)) d'.

(** After an exception, some prefix. *)
Definition aborted d (cmd : bytes) d' : Prop :=
  ∃ n, sends d (take n (frame d cmd)) d'.

Lemma write_cmd_spec cmd d : idle d →
  wp (Device.write_cmd cmd)
    (spec (λ b d', attempted d cmd b d') (λ _ d', aborted d cmd d')) d.
Proof.
  intros Hi. unfold Device.write_cmd.
  assert (∀ d1, sends d [] d1 → aborted d cmd d1) as Hab by (intros; by exists 0%nat).
  assert (∀ {A} (m : M P A) d1, silent m → sends d [] d1 →
    wp (Device.on_serial m) (spec (λ _, sends d []) (λ _, aborted d cmd)) d1) as Hq.
  { intros A m d1 Hm H1. eapply wp_spec_mono; [by apply on_serial_silent|done|].
    simpl. auto. }
  apply wp_bind_gets. eapply wp_bind_spec with (R0 := λ _, sends d []).
  { destruct (negb _); [apply Hq; [apply open_silent|]|apply wp_ret];
      by apply sends_refl. }
  intros ? d1 H1. eapply wp_bind_spec; [exact (Hq _ _ _ flushInput_silent H1)|].
  intros ? d2 H2. eapply wp_bind_spec; [exact (Hq _ _ _ flushOutput_silent H2)|].
  intros ? d3 H3. apply wp_bind_gets. fold (frame d3 cmd).
  rewrite (sends_frame _ _ _ cmd H3).
  eapply wp_bind_spec with
    (R0 := λ n d', (n ≤ length (frame d cmd))%nat ∧ sends d (take n (frame d cmd)) d').
  - apply wp_zoom. eapply wp_mono; [apply write_spec; apply (sends_idle _ _ _ H3)|].
    assert (∀ n s', pv s' = pv (m_serial d3) <| v_out := v_out (pv (m_serial d3)) ++
        take n (frame d cmd) |> →
      sends d (take n (frame d cmd)) (d3 <| m_serial := s' |>)) as Hw.
    { intros n s' Hs. eapply (sends_trans _ _ _ [] _ H3). split; [done|].
      unfold idle, unlocked, out. simpl. rewrite Hs. simpl.
      pose proof (sends_idle _ _ _ H3) as [? ?]. done. }
    intros [n|e| |] s'; simpl; [| |done..].
    + intros [Hn Hs]. auto.
    + intros (k & _ & Hs). exists k. auto.
  - intros n d4 [Hn H4]. apply wp_ret. simpl. unfold attempted.
    destruct (Nat.eqb_spec n (length (frame d cmd))) as [->|Hne]; simpl.
    + by rewrite take_ge in H4.
    + exists n. split; [lia|done].
Qed.
Lemma reset_connection_spec d d0 a : sends d0 a d →
  wp Device.reset_connection (spec (λ _, sends d0 a) (λ _, sends d0 a)) d.
Proof.
  intros H. eapply wp_bind_spec; [by apply on_serial_silent; [apply close_silent|]|].
  intros ? d1 H1. by apply on_serial_silent; [apply open_silent|].
Qed.

Lemma device_destroy_spec d d0 a : sends d0 a d →
  wp Device.destroy (spec (λ _, sends d0 a) (λ _, sends d0 a)) d.
Proof.
  intros H. unfold Device.destroy, wp, noexcept, bind, gets.
  destruct (Serial.isOpen (m_serial d)); [|done].
  pose proof (on_serial_silent _ d d0 a close_silent H) as Hc. unfold wp in Hc.
  by destruct (Device.on_serial Serial.close d) as [[] d'].
Qed.

Lemma read_lines_spec d d0 a : sends d0 a d →
  wp Device.read_lines (spec (λ _, sends d0 a) (λ _, sends d0 a)) d.
Proof.
  intros H. apply wp_bind_gets. by apply on_serial_silent; [apply readlines_silent|].
Qed.

(** The invariant of a device between calls. *)
Definition ready d : Prop := idle d ∧ (length (m_read_sfx d) ≤ max_line)%nat.

Lemma sends_ready d a d' : sends d a d' → ready d → ready d'.
Proof. intros (E & I & _) [_ H]. split; [done|]. by rewrite E. Qed.

Lemma read_cmd_spec answer d d0 a : sends d0 a d → ready d →
  wp (Device.read_cmd answer) (spec (λ _, sends d0 a) (λ _, sends d0 a)) d.
Proof.
  intros H [_ Hl]. unfold Device.read_cmd. apply wp_bind_gets. eapply wp_bind_spec.
  { apply on_serial_silent; [|exact H]. apply readline_silent; [done|].
    unfold max_line. lia. }
  cbv beta. intros [b n] d1 H1.
  destruct (n =? 0)%nat; [by apply wp_ret|].
  destruct (n <? _)%nat; [by apply wp_ret|].
  destruct (length b <? _)%nat; [by apply wp_ret|].
  apply wp_bind, wp_lift. unfold erase_from. by destruct (size b <? _).
Qed.

(** A command that was sent: its complete frame, after at most one attempt that
    was cut short. *)
Definition delivered d (cmd : bytes) d' : Prop :=
  ∃ n, (n = 0 ∨ n < length (frame d cmd))%nat ∧
       sends d (take n (frame d cmd) ++ frame d cmd) d'.

(** A command that was given up: parts of at most two attempts. *)
Definition undelivered d (cmd : bytes) d' : Prop :=
  ∃ n m, sends d (take n (frame d cmd) ++ take m (frame d cmd)) d'.

Lemma delivered_ready d cmd d' : delivered d cmd d' → ready d → ready d'.
Proof. intros (n & _ & H). by eapply sends_ready. Qed.

(** ** The operations end, keep the locks and have no undefined behaviour *)

Context {HLive : SerialImplLive P}.

Lemma on_serial_safe {A} (m : M P A) : safe unlocked m → safe ready (Device.on_serial m).
Proof.
  intros Hm d [Hi Hs]. apply wp_zoom. eapply wp_mono; [by apply Hm|].
  by intros [] s'; simpl; [split..| |].
Qed.

Lemma device_destroy_safe : safe ready Device.destroy.
Proof. unfold Device.destroy. eauto 20 using on_serial_safe with safe. Qed.

Lemma device_write_cmd_safe cmd : safe ready (Device.write_cmd cmd).
Proof. unfold Device.write_cmd. eauto 20 using on_serial_safe with safe. Qed.

Lemma device_set_timeout_ms_safe t : safe ready (Device.set_timeout_ms t).
Proof. unfold Device.set_timeout_ms. eauto 20 using on_serial_safe with safe. Qed.

Lemma device_read_lines_safe : safe ready Device.read_lines.
Proof. unfold Device.read_lines. eauto 20 using on_serial_safe with safe. Qed.

Lemma device_reset_connection_safe : safe ready Device.reset_connection.
Proof. unfold Device.reset_connection. eauto 20 using on_serial_safe with safe. Qed.

(** [readline] up to the device's own terminator. *)
Lemma device_readline_safe {A} (answer : bytes) (k : bytes → bytes * nat → M (device P) A) :
  (∀ sfx r, safe ready (k sfx r)) →
  safe ready (sfx <- gets m_read_sfx ;;
              r <- Device.on_serial (Serial.readline answer max_line sfx) ;; k sfx r).
Proof.
  intros Hk d Hd. apply wp_bind_gets. eapply wp_bind_post.
  - apply on_serial_safe; [|done]. apply readline_safe; [apply Hd|].
    unfold max_line. lia.
  - intros r d' Hd'. by apply Hk.
Qed.

Lemma device_read_cmd_safe answer : safe ready (Device.read_cmd answer).
Proof.
  unfold Device.read_cmd. apply (device_readline_safe answer). intros sfx [a n].
  solve_safe.
Qed.
End device_facts.

#[export] Hint Resolve on_serial_safe device_destroy_safe device_write_cmd_safe
  device_set_timeout_ms_safe device_read_lines_safe device_readline_safe
  device_reset_connection_safe device_read_cmd_safe : safe.

(** ** A device as the base class of an instrument

    [bl] selects the base class part of the state of an instrument. *)
Section based.
Context {P : Type} {HI : SerialImpl P} {HO : Observable P} {HOK : SerialImplOK P}.
Context {S : Type} (bl : lens S (device P)) {Hbl : LensOK bl}.
Implicit Types (s : S) (R : device P → Prop).

(** A step in which only the base class part changes, to one satisfying [R]. *)
Definition base_step s R s' : Prop :=
  R (view bl s') ∧ s' = put bl (view bl s') s.

Lemma base_step_trans s s1 s2 R R' R'' :
  base_step s R s1 → base_step s1 R' s2 → (R' (view bl s2) → R'' (view bl s2)) →
  base_step s R'' s2.
Proof.
  intros [_ E1] [H2 E2] HR. split; [auto|]. rewrite E2 at 1. rewrite E1. by rewrite put_put.
Qed.

Lemma base_step_mono s s' R R' :
  base_step s R s' → (R (view bl s') → R' (view bl s')) → base_step s R' s'.
Proof. intros [H E] HR. split; auto. Qed.

Lemma on_base_spec {A} (m : M (device P) A) (Q : A → device P → Prop) E s :
  wp m (spec Q E) (view bl s) →
  wp (zoom bl m) (spec (λ a, base_step s (Q a)) (λ e, base_step s (E e))) s.
Proof.
  intros Hm. apply wp_zoom. eapply wp_mono; [exact Hm|].
  by intros [a|e| |] d'; simpl; [intros H; split; by rewrite view_put..| |].
Qed.

Lemma base_sleep_spec d0 a ms s : sends d0 a (view bl s) →
  wp (zoom bl (Device.on_serial (modify (sleep_for_ms ms))))
    (spec (λ _, base_step s (sends d0 a)) (λ _ _, False)) s.
Proof.
  intros (E & I & O). eapply wp_spec_mono; [apply on_base_spec|intros ? ? H; exact H|].
  - instantiate (1 := λ _ _, False). apply wp_zoom, wp_modify. simpl.
    unfold sends, idle, out in *. simpl. rewrite sleep_ok.
    split; [|by split; [apply sleep_unlocked|]]. rewrite E at 1. done.
  - by intros e s' [[] _].
Qed.
End based.

(** ** What [read_cmd] makes of a reply *)
Section read_cmd.
Context {P : Type} {HI : SerialImpl P}.
Implicit Types d : device P.

Lemma on_serial_run {A} (m : M P A) d o s' :
  m (m_serial d) = (o, s') → Device.on_serial m d = (o, d <| m_serial := s' |>).
Proof. exact (zoom_run serial_l m d o s'). Qed.

(** The tail of [read_cmd] on a line of at least the length of the suffix. *)
Lemma read_cmd_line answer line d s1 :
  Serial.readline answer max_line (m_read_sfx d) (m_serial d) =
    (Ret (answer ++ line, length line), s1) →
  line ≠ [] → (length (m_read_sfx d) ≤ length line)%nat →
  Device.read_cmd answer d =
  (Ret (answer ++ take (length line - length (m_read_sfx d)) line, true),
   d <| m_serial := s1 |>).
Proof.
  intros Hr Hne Hle. unfold Device.read_cmd.
  erewrite bind_ret_run by done. erewrite bind_ret_run by (by apply on_serial_run).
  cbv beta iota.
  rewrite (proj2 (Nat.eqb_neq (length line) 0)) by by destruct line.
  rewrite (proj2 (Nat.ltb_ge (length line) _)) by done.
  rewrite (proj2 (Nat.ltb_ge (length (answer ++ line)) _)) by (rewrite length_app; lia).
  erewrite bind_ret_run; [done|]. unfold lift. f_equal. unfold erase_from, size.
  rewrite (proj2 (Z.ltb_ge _ _)) by lia. f_equal. rewrite length_app.
  replace (Z.to_nat _) with (length answer + (length line - length (m_read_sfx d)))%nat
    by lia.
  by rewrite take_app_add.
Qed.

(** C5: [Device::read_cmd] delivers a complete reply: the bytes up to the
    terminator are appended to the caller's string, the terminator is removed
    and success is reported. *)
Theorem read_cmd_reply (answer body : bytes) (d : device P) (s0 s1 : P) :
  impl_readLock (m_serial d) = (Ret tt, s0) → m_read_sfx d ≠ [] →
  reads s0 (body ++ m_read_sfx d) s1 →
  first_eol (m_read_sfx d) (body ++ m_read_sfx d) →
  (length (body ++ m_read_sfx d) ≤ max_line)%nat →
  Device.read_cmd answer d =
  (Ret (answer ++ body, true), d <| m_serial := impl_readUnlock s1 |>).
Proof.
  intros Hl Hs Hr Hf Hlen.
  assert (body ++ m_read_sfx d ≠ []) as Hne by by intros [_ ?]%app_eq_nil.
  rewrite (read_cmd_line answer (body ++ m_read_sfx d) d (impl_readUnlock s1)).
  - rewrite length_app, Nat.add_sub, take_app_length. done.
  - by apply (readline_line answer max_line _ _ _ s0 s1).
  - done.
  - rewrite length_app. lia.
Qed.

(** C39: on a reply cut off by the read timeout, [Device::read_cmd] removes as
    many bytes as the terminator has although none was received: the last bytes
    of the data are lost and success is reported. *)
Theorem read_cmd_timeout_truncates (answer part : bytes) (d : device P) (s0 s1 s2 : P) :
  impl_readLock (m_serial d) = (Ret tt, s0) → reads s0 part s1 →
  impl_read 1 s1 = (Ret [], s2) → part ≠ [] →
  (∀ k, (k ≤ length part)%nat → ends_with (m_read_sfx d) (take k part) = false) →
  (length (m_read_sfx d) ≤ length part < max_line)%nat →
  Device.read_cmd answer d =
  (Ret (answer ++ take (length part - length (m_read_sfx d)) part, true),
   d <| m_serial := impl_readUnlock s2 |>).
Proof.
  intros Hl Hr Hto Hne Hno Hlen. apply read_cmd_line; [|done|lia].
  unfold Serial.readline, Serial.ScopedReadLock.
  rewrite (bind_ret_run _ _ _ tt s0) by done. unfold finally.
  erewrite bind_ret_run; [done|].
  apply (readline_loop_timeout _ _ _ [] s0 part s1); cbn [app]; auto; lia.
Qed.
End read_cmd.

(** A device on the loopback port, with the terminator of the attenuator. *)
Definition loop_device (rx : bytes) : device loop :=
  Device.construct (str "/dev/ttyUSB0") 38400 (loop_with rx) <| m_read_sfx := [LF; CR] |>.

Lemma read_cmd_reply_witness :
  Device.read_cmd [] (loop_device (str "0;4000" ++ [LF; CR])) =
  (Ret (str "0;4000", true), loop_device []).
Proof.
  refine (read_cmd_reply [] (str "0;4000") (loop_device (str "0;4000" ++ [LF; CR]))
    (loop_reading (str "0;4000" ++ [LF; CR])) (loop_reading []) _ _ _ _ _).
  - reflexivity.
  - done.
  - apply (loop_reads _ []); reflexivity.
  - apply (first_eol_intro (str "0;4000") [LF] CR).
    apply (bool_decide_unpack _); by vm_compute.
  - apply Nat.leb_le. by vm_compute.
Defined.

Lemma read_cmd_timeout_truncates_witness :
  Device.read_cmd [] (loop_device (str "0;4000")) = (Ret (str "0;40", true), loop_device []).
Proof.
  refine (read_cmd_timeout_truncates [] (str "0;4000") (loop_device (str "0;4000"))
    (loop_reading (str "0;4000")) (loop_reading []) (loop_reading []) _ _ _ _ _ _).
  - reflexivity.
  - apply (loop_reads _ []); reflexivity.
  - reflexivity.
  - done.
  - intros k Hk. simpl in Hk. do 7 (destruct k as [|k]; [reflexivity|]). lia.
  - split; [apply Nat.leb_le|apply Nat.ltb_lt]; by vm_compute.
Defined.
