(* ===== verification/Floats.v ===== *)
(** * Floating point numbers: comparison and formatting

    A [float] or [double] is a [spec_float] of the standard library.  Converting
    a [float] to [double] keeps its value, and comparison and formatting depend on
    the value only, so both types share one representation.  The value of a
    finite number is the fraction [num x / den x]. *)
From Stdlib Require Export SpecFloat.
From S2P Require Import Prelude CppStd.

Notation float := spec_float (only parsing).
Notation double := spec_float (only parsing).

Definition num (x : double) : Z :=
  match x with
  | S754_finite s m e => (if s then -1 else 1) * Z.pos m * 2 ^ Z.max e 0
  | _ => 0
  end.

Definition den (x : double) : Z :=
  match x with S754_finite _ _ e => 2 ^ Z.max (- e) 0 | _ => 1 end.

Definition is_nan (x : double) : bool :=
  match x with S754_nan => true | _ => false end.

Definition signbit (x : double) : bool :=
  match x with
  | S754_zero s | S754_infinity s | S754_finite s _ _ => s
  | S754_nan => false
  end.

(** [x < y]; comparisons with a NaN are false. *)
Definition fltb (x y : double) : bool :=
  match x, y with
  | S754_nan, _ | _, S754_nan => false
  | S754_infinity s, S754_infinity s' => s && negb s'
  | S754_infinity s, _ => s
  | _, S754_infinity s => negb s
  | _, _ => num x * den y <? num y * den x
  end.

(** [n / d] rounded to the nearest integer, ties to even; [0 < d]. *)
Definition round_div (n d : Z) : Z :=
  let q := n `div` d in
  match 2 * (n `mod` d) ?= d with
  | Lt => q
  | Gt => q + 1
  | Eq => if Z.even q then q else q + 1
  end.

(** [N] with a decimal point before its last [p] digits. *)
Definition show_decimal (p : nat) (N : Z) : bytes :=
  let w := 10 ^ Z.of_nat p in
  show_nat (N `div` w) ++
  (if (p =? 0)%nat then [] else "."%char :: setw "0" p (show_nat (N `mod` w))).

Definition show_sign (x : double) : bytes := if signbit x then ["-"%char] else [].

(** [os << std::fixed << std::setprecision(p) << x].  The sign of a NaN is not
    modelled. *)
Definition show_fixed (p : nat) (x : double) : bytes :=
  match x with
  | S754_nan => str "nan"
  | S754_infinity _ => show_sign x ++ str "inf"
  | _ => show_sign x ++
         show_decimal p (round_div (Z.abs (num x) * 10 ^ Z.of_nat p) (den x))
  end.

(** Trailing zeros, and then a trailing point, removed. *)
Fixpoint strip_zeros_rev (s : bytes) : bytes :=
  match s with
  | c :: s' =>
    if Ascii.eqb c "0" then strip_zeros_rev s'
    else if Ascii.eqb c "." then s' else s
  | [] => []
  end.
Definition strip_zeros (s : bytes) : bytes := List.rev (strip_zeros_rev (List.rev s)).

(** The decimal exponent of [n / d] for [0 < n]: the [k] with
    [10^k <= n/d < 10^(k+1)]. *)
Fixpoint dec_exp_small (fuel : nat) (n d k : Z) : Z :=
  match fuel with
  | O => k
  | S f => if d <=? n then k else dec_exp_small f (n * 10) d (k - 1)
  end.
Definition dec_exp (n d : Z) : Z :=
  if d <=? n then Z.of_nat (length (show_nat (n `div` d))) - 1
  else dec_exp_small 400 n d 0.

(** [os << x] with the default format: six significant digits. *)
Definition show_float (x : double) : bytes :=
  match x with
  | S754_nan => str "nan"
  | S754_infinity _ => show_sign x ++ str "inf"
  | S754_zero _ => show_sign x ++ str "0"
  | S754_finite _ _ _ =>
    let n := Z.abs (num x) in
    let k := dec_exp n (den x) in
    let N := if k <=? 5 then round_div (n * 10 ^ (5 - k)) (den x)
             else round_div n (den x * 10 ^ (k - 5)) in
    let '(N, k) := if N =? 10 ^ 6 then (10 ^ 5, k + 1) else (N, k) in
    show_sign x ++
    if (k <? -4) || (6 <=? k) then
      strip_zeros (show_decimal 5 N) ++ ["e"%char; if k <? 0 then "-"%char else "+"%char] ++
      setw "0" 2 (show_nat (Z.abs k))
    else if k =? 5 then show_nat N
    else strip_zeros (show_decimal (Z.to_nat (5 - k)) N)
  end.

(** ** Lemmas *)
Lemma den_pos x : 0 < den x.
Proof. destruct x; simpl; lia. Qed.

(** Rounding is off by at most one half. *)
Lemma round_div_spec n d : 0 < d → 2 * Z.abs (round_div n d * d - n) ≤ d.
Proof.
  intros Hd. unfold round_div.
  pose proof (Z.div_mod n d ltac:(lia)) as E.
  pose proof (Z.mod_pos_bound n d Hd) as Hr.
  destruct (Z.compare_spec (2 * (n `mod` d)) d); [case_match|..]; nia.
Qed.

(** A fraction below [k + 1/2] rounds to at most [k]. *)
Lemma round_div_le n d k : 0 < d → 2 * n < (2 * k + 1) * d → round_div n d ≤ k.
Proof. intros Hd Hn. pose proof (round_div_spec n d Hd). nia. Qed.

Lemma round_div_nonneg n d : 0 < d → 0 ≤ n → 0 ≤ round_div n d.
Proof. intros Hd Hn. pose proof (round_div_spec n d Hd). nia. Qed.

(** An exact quotient is not rounded. *)
Lemma round_div_exact q d : 0 < d → round_div (q * d) d = q.
Proof. intros Hd. pose proof (round_div_spec (q * d) d Hd). nia. Qed.

(** A number below ten has one digit. *)
Lemma show_nat_digit n : 0 ≤ n < 10 → show_nat n = [digit n].
Proof.
  intros Hn. unfold show_nat. simpl.
  rewrite (proj2 (Z.ltb_lt _ _)) by lia. by rewrite Z.mod_small.
Qed.

Lemma show_nat_two n : 10 ≤ n < 100 → show_nat n = [digit (n `div` 10); digit (n `mod` 10)].
Proof.
  intros Hn. unfold show_nat. simpl.
  rewrite (proj2 (Z.ltb_ge _ _)) by lia.
  assert (3 ≤ Z.log2 n) by (apply (Z.log2_le_mono 8); lia).
  destruct (Z.to_nat (Z.log2 n)) as [|k] eqn:E; [lia|]. simpl.
  assert (0 ≤ n `div` 10 < 10) by
    (split; [apply Z.div_pos; lia|apply Z.div_lt_upper_bound; lia]).
  rewrite (proj2 (Z.ltb_lt _ _)) by lia. by rewrite (Z.mod_small (n `div` 10)).
Qed.

Lemma show_nat_three n : 100 ≤ n < 1000 →
  show_nat n = [digit (n `div` 100); digit (n `div` 10 `mod` 10); digit (n `mod` 10)].
Proof.
  intros Hn. unfold show_nat. simpl.
  rewrite (proj2 (Z.ltb_ge _ _)) by lia.
  assert (6 ≤ Z.log2 n) by (apply (Z.log2_le_mono 64); lia).
  destruct (Z.to_nat (Z.log2 n)) as [|[|k]] eqn:E; [lia..|]. simpl.
  assert (10 ≤ n `div` 10) by (apply Z.div_le_lower_bound; lia).
  rewrite (proj2 (Z.ltb_ge _ _)) by lia.
  rewrite Z.div_div by lia. change (10 * 10) with 100.
  assert (0 ≤ n `div` 100 < 10) by
    (split; [apply Z.div_pos; lia|apply Z.div_lt_upper_bound; lia]).
  rewrite (proj2 (Z.ltb_lt _ _)) by lia. by rewrite (Z.mod_small (n `div` 100)).
Qed.

(** [std::setfill('0') << std::setw(3)] prints a number below 1000 with exactly
    three digits. *)
Lemma setw3_digits n : 0 ≤ n < 1000 →
  setw "0" 3 (show n) =
  [digit (n `div` 100); digit (n `div` 10 `mod` 10); digit (n `mod` 10)].
Proof.
  intros Hn. unfold show. rewrite (proj2 (Z.ltb_ge n 0)) by lia.
  destruct (decide (n < 10)); [|destruct (decide (n < 100))].
  - rewrite show_nat_digit by lia.
    rewrite (Z.div_small n 100), (Z.div_small n 10), (Z.mod_small n 10) by lia. done.
  - rewrite show_nat_two by lia. rewrite (Z.div_small n 100) by lia.
    rewrite (Z.mod_small (n `div` 10)); [done|].
    split; [apply Z.div_pos; lia|apply Z.div_lt_upper_bound; lia].
  - rewrite show_nat_three by lia. done.
Qed.

(** A number below ten with two decimals is printed as [X.XX]. *)
Lemma show_decimal_2 N : 0 ≤ N < 1000 →
  show_decimal 2 N =
  [digit (N `div` 100); "."%char; digit (N `div` 10 `mod` 10); digit (N `mod` 10)].
Proof.
  intros HN. unfold show_decimal. change (10 ^ Z.of_nat 2) with 100.
  assert (0 ≤ N `div` 100 < 10) by
    (split; [apply Z.div_pos; lia|apply Z.div_lt_upper_bound; lia]).
  rewrite show_nat_digit by done. cbn [Nat.eqb app]. do 2 f_equal.
  pose proof (Z.mod_pos_bound N 100 ltac:(lia)) as Hm.
  assert (N `div` 10 `mod` 10 = N `mod` 100 `div` 10) as ->.
  { change 100 with (10 * 10). rewrite Z.rem_mul_r by lia.
    rewrite Z.mul_comm, Z.div_add by lia.
    rewrite (Z.div_small (N `mod` 10)) by (apply Z.mod_pos_bound; lia). lia. }
  assert (N `mod` 10 = N `mod` 100 `mod` 10) as ->.
  { change 100 with (10 * 10). rewrite Z.rem_mul_r by lia.
    rewrite Z.mul_comm, Z.mod_add, Z.mod_mod by lia. done. }
  destruct (decide (N `mod` 100 < 10)).
  - rewrite show_nat_digit by lia.
    rewrite (Z.div_small (N `mod` 100) 10), (Z.mod_small (N `mod` 100) 10) by lia. done.
  - rewrite show_nat_two by lia. done.
Qed.

(** ** Parsing: std::stod *)
Definition lower (c : ascii) : ascii :=
  if (65 <=? code c) && (code c <=? 90) then Ascii.ascii_of_nat (Z.to_nat (code c + 32))
  else c.

(** Digits with at most one point: their value without the point, their number,
    and how many are after the point. *)
Fixpoint scan_mantissa (base : Z) (s : bytes) (m nd nf : Z) (point : bool) :
    Z * Z * Z * bytes :=
  match s with
  | c :: s' =>
    match digit_val base c with
    | Some d => scan_mantissa base s' (m * base + d) (nd + 1) (if point then nf + 1 else nf) point
    | None =>
      if Ascii.eqb c "." && negb point then scan_mantissa base s' m nd nf true
      else (m, nd, nf, s)
    end
  | [] => (m, nd, nf, [])
  end.

(** The exponent after [marker], 0 when there is none. *)
Definition scan_exponent (marker : ascii) (s : bytes) : Z :=
  match s with
  | c :: s' =>
    if Ascii.eqb (lower c) marker then
      let '(neg, s1) := scan_sign s' in
      match s1 with
      | d :: _ =>
        match digit_val 10 d with
        | Some _ => signed neg (scan_digits 10 0 s1).1
        | None => 0
        end
      | [] => 0
      end
    else 0
  | [] => 0
  end.

Definition prefix_ci (p s : bytes) : bool := str_eqb p (map lower (take (length p) s)).

(** The binary formats: [prec] bits of precision and exponents below [emax]. *)
Section formats.
Context (prec emax : Z).

(** [n / d] rounded to the format, [0 < n] and [0 < d]: the quotient is computed to
    at least one bit more, what remains decides the rounding. *)
Definition round_ratio (neg : bool) (n d : Z) : spec_float :=
  let k := prec + 2 - (Z.log2 n - Z.log2 d) in
  let n' := if 0 <=? k then n * 2 ^ k else n in
  let d' := if 0 <=? k then d else d * 2 ^ (- k) in
  let q := n' `div` d' in
  let r := n' `mod` d' in
  let l := if r =? 0 then loc_Exact else loc_Inexact (2 * r ?= d') in
  binary_round_aux prec emax neg q (- k) l.

(** The result of the conversion and whether it reports a range error: on overflow,
    and on an inexact result below the normal range. *)
Definition convert (neg : bool) (n d : Z) : spec_float * bool :=
  if n =? 0 then (S754_zero neg, false)
  else
    let x := round_ratio neg n d in
    let inexact := negb (Z.abs (num x) * d =? n * den x) in
    match x with
    | S754_infinity _ => (x, true)
    | _ => (x, inexact && (n * 2 ^ (emax - 2) <? d))
    end.

(** [strtof] and [strtod]; [None] when nothing converts. *)
Definition strto (s : bytes) : option (spec_float * bool) :=
  let '(neg, s1) := scan_sign (skip_space s) in
  if prefix_ci (str "inf") s1 then Some (S754_infinity neg, false)
  else if prefix_ci (str "nan") s1 then Some (S754_nan, false)
  else
    let '(hm, hnd, hnf, hrest) := scan_mantissa 16 (drop 2 s1) 0 0 0 false in
    if prefix_ci (str "0x") s1 && (0 <? hnd) then
      let e := scan_exponent "p" hrest - 4 * hnf in
      Some (if 0 <=? e then convert neg (hm * 2 ^ e) 1 else convert neg hm (2 ^ (- e)))
    else
      let '(m, nd, nf, rest) := scan_mantissa 10 s1 0 0 0 false in
      if nd =? 0 then None
      else
        let e := scan_exponent "e" rest - nf in
        Some (if 0 <=? e then convert neg (m * 10 ^ e) 1 else convert neg m (10 ^ (- e))).

(** [std::stof] and [std::stod]. *)
Definition sto (name : string) (s : bytes) : outcome spec_float :=
  match strto s with
  | None => Throw (invalid_argument name)
  | Some (x, erange) => if erange then Throw (out_of_range name) else Ret x
  end.

Lemma sto_defined name s : defined (sto name s).
Proof. unfold sto. by repeat case_match. Qed.
End formats.

Definition stof (s : bytes) : outcome float := sto 24 128 "stof" s.
Definition stod (s : bytes) : outcome double := sto 53 1024 "stod" s.

Lemma stof_defined s : defined (stof s).
Proof. apply sto_defined. Qed.
Lemma stod_defined s : defined (stod s).
Proof. apply sto_defined. Qed.
#[export] Hint Resolve stof_defined stod_defined : safe.

(** The conversion of a [double] to [float]. *)
Definition float_of_double (x : double) : float :=
  match x with
  | S754_finite s m e => binary_normalize 24 128 (if s then Z.neg m else Z.pos m) e s
  | _ => x
  end.
