(* ===== verification/Laser.v ===== *)
(** * src/Laser.cpp and include/Laser.hh: the Surelite laser

    The commands of the laser over the serial line, with the retry after a
    connection reset that each of them has, and the two queries.  Reference
    parameters are results; on an exception the caller's variables are not
    used by any caller in the repository. *)
From S2P Require Import Prelude CppStd Utilities Serial Loopback Device Floats.

Inductive Shutter := Shutter_Open | Shutter_Closed.
Inductive Fire := Fire_Start | Fire_Stop.

Definition Shutter_val (s : Shutter) : Z :=
  match s with Shutter_Open => 1 | Shutter_Closed => 0 end.
Definition Fire_val (s : Fire) : Z :=
  match s with Fire_Start => 1 | Fire_Stop => 0 end.

Record laser (P : Type) := mkLaser {
  l_base : device P;
  m_is_firing : bool;
  m_prescale : Z;
  m_pump_hv : float;
  m_rate : float;
  m_qswitch : Z;
  m_sec_map : list (bytes * bytes);
  m_wait_read : bool;
}.
Arguments mkLaser {P}.
Arguments l_base {P}.
Arguments m_is_firing {P}.
Arguments m_prescale {P}.
Arguments m_pump_hv {P}.
Arguments m_rate {P}.
Arguments m_qswitch {P}.
Arguments m_sec_map {P}.
Arguments m_wait_read {P}.

#[export] Instance eta_laser P : Eta (laser P) := λ l,
  mkLaser (l_base l) (m_is_firing l) (m_prescale l) (m_pump_hv l) (m_rate l)
    (m_qswitch l) (m_sec_map l) (m_wait_read l).

Definition l_base_l {P} : lens (laser P) (device P) :=
  Lens l_base (λ d l, l <| l_base := d |>).
#[export] Instance l_base_l_ok P : LensOK (@l_base_l P).
Proof. split; by intros; destruct s. Qed.

(** The literal [1.3], and the initial values [1.1f] and [10.0f]. *)
Definition d_1_3 : double := S754_finite false 5854679515581645 (-52).
Definition f_1_1 : float := S754_finite false 9227469 (-23).
Definition f_10 : float := S754_finite false 10485760 (-20).

(** The security codes; the same table is in LaserSim.cpp. *)
Definition sec_map : list (bytes * bytes) :=
  [(str "00", str "Normal");
   (str "01", str "Surelite not in serial mode");
   (str "02", str "Coolant flow interrupted");
   (str "03", str "Coolant temperature over temp");
   (str "04", str "(not used)");
   (str "05", str "Laser head problem");
   (str "06", str "External interlock");
   (str "07", str "End of charge not detected before lamp fire");
   (str "08", str "Simmer not detected");
   (str "09", str "Flow switch stuck on")].

Fixpoint sec_find (code : bytes) (m : list (bytes * bytes)) : option bytes :=
  match m with
  | [] => None
  | (k, v) :: m' => if str_eqb k code then Some v else sec_find code m'
  end.

Module Laser.
Section laser_ops.
Context {P : Type} {HI : SerialImpl P}.
Implicit Types l : laser P.

Definition on_device {A} (m : M (device P) A) : M (laser P) A := zoom l_base_l m.
Definition on_serial {A} (m : M P A) : M (laser P) A := on_device (Device.on_serial m).

Definition write_cmd (cmd : bytes) : M (laser P) bool :=
  r <- on_device (Device.write_cmd cmd) ;;
  on_serial (modify (sleep_for_ms 50)) ;;
  ret r.

Definition read_cmd (answer : bytes) : M (laser P) (bytes * bool) :=
  w <- gets m_wait_read ;;
  (when w do (_ <- on_serial Serial.waitReadable ;; ret tt)) ;;
  sfx <- gets (λ l, m_read_sfx (l_base l)) ;;
  ' (answer, nbytes) <- on_serial (Serial.readline answer max_line sfx) ;;
  if (nbytes =? 0)%nat then
    on_device Device.reset_connection ;;
    ' (answer, nbytes) <- on_serial (Serial.readline answer max_line sfx) ;;
    if (nbytes =? 0)%nat then ret (answer, false) else ret (answer, true)
  else if (nbytes <=? length sfx)%nat then ret (answer, false)
  else
    answer <- lift (erase_from answer (size answer - size sfx)) ;;
    ret (answer, true).

(** [Laser(port, baud_rate)]: the members as initialised, then the body.  When
    the body throws, the base class is destroyed. *)
Definition init (port : bytes) (baud_rate : Z) (serial : P) : laser P :=
  let d := Device.construct port baud_rate serial in
  mkLaser (d <| m_read_sfx := m_com_sfx d |>) false 0 f_1_1 f_10 170 sec_map false.

Definition construct_body (d : device P) : M (laser P) unit :=
  on_serial (Serial.setPort (m_comport d)) ;;
  on_serial (Serial.setBaudrate (m_baud d)) ;;
  on_serial (Serial.setBytesize eightbits) ;;
  on_serial (Serial.setParity parity_none) ;;
  on_serial (Serial.setStopbits stopbits_one) ;;
  on_serial (Serial.setTimeout (simpleTimeout (m_timeout_ms d))) ;;
  on_serial Serial.open ;;
  o <- gets (λ l, Serial.isOpen (m_serial (l_base l))) ;;
  when negb o do
    throw (PortNotOpenedException (String.string_of_list_ascii
      (str "Failed to open the port [" ++ m_comport d ++ str ":" ++
       show (m_baud d) ++ str "]"))).
Definition construct : M (laser P) unit :=
  catch (d <- gets l_base ;; construct_body d)
    (λ e, on_device Device.destroy ;; throw e).

(** The statements every command shares: write, and on failure reset the
    connection, write again, and throw when that fails too. *)
Definition send_or_throw (cmd : bytes) (what : string) : M (laser P) unit :=
  resp <- write_cmd cmd ;;
  when negb resp do (
    on_device Device.reset_connection ;;
    resp <- write_cmd cmd ;;
    when negb resp do throw (IOException what)).

Definition shutter (s : Shutter) : M (laser P) unit :=
  send_or_throw (str "SH " ++ show (Shutter_val s)) "Failed to send SH command".
Definition shutter_open : M (laser P) unit := shutter Shutter_Open.
Definition shutter_close : M (laser P) unit := shutter Shutter_Closed.

Definition fire (s : Fire) : M (laser P) unit :=
  send_or_throw (str "ST " ++ show (Fire_val s)) "Failed to send ST command" ;;
  match s with
  | Fire_Start => modify (λ l, l <| m_is_firing := true |>)
  | Fire_Stop => modify (λ l, l <| m_is_firing := false |>)
  end.
Definition fire_start : M (laser P) unit := fire Fire_Start.
Definition fire_stop : M (laser P) unit := fire Fire_Stop.

Definition set_prescale (pre : Z) : M (laser P) unit :=
  let pre := if 99 <? pre then 99 else pre in
  send_or_throw (str "PD " ++ setw "0" 3 (show pre)) "Failed to send PD command" ;;
  modify (λ l, l <| m_prescale := pre |>).
Definition set_pulse_division (pd : Z) : M (laser P) unit := set_prescale pd.

Definition set_pump_voltage (hv : float) : M (laser P) unit :=
  if fltb d_1_3 hv || fltb hv (S754_zero false) then
    throw (range_error (String.string_of_list_ascii
      (str "Argument out of range [" ++ show_float hv ++ str "] --> [0; 1.3].")))
  else
    send_or_throw (str "VA " ++ show_fixed 2 hv) "Failed to send VA command" ;;
    modify (λ l, l <| m_pump_hv := hv |>).

Definition single_shot : M (laser P) unit :=
  set_prescale 0 ;;
  send_or_throw (str "SS") "Failed to send SS command".

Definition get_shot_count : M (laser P) Z :=
  _ <- write_cmd (str "SC") ;;
  let trimmed resp :=
    if 0 <? size resp then lift (erase_from resp (size resp - 1)) else ret resp in
  lines <- on_device Device.read_lines ;;
  resp <-
    (if (length lines =? 0)%nat then
       on_device Device.reset_connection ;;
       lines <- on_device Device.read_lines ;;
       if (length lines =? 0)%nat then throw (IOException "Failed to read shot count")
       else ret []
     else if (length lines =? 1)%nat then
       resp <- lift (vec_at lines 0) ;; trimmed resp
     else
       resp <- lift (vec_at lines 1) ;; trimmed resp) ;;
  count <- lift (stoul resp) ;;
  ret (u32 count).

(** [security(std::string &code)]. *)
Definition security : M (laser P) bytes :=
  send_or_throw (str "SE") "Failed to send SE command" ;;
  lines <- on_device Device.read_lines ;;
  lines <-
    (if (length lines =? 0)%nat then
       on_device Device.reset_connection ;;
       lines <- on_device Device.read_lines ;;
       if (length lines =? 0)%nat then throw (IOException "Failed to read security code")
       else ret lines
     else if negb (length lines =? 2)%nat then
       throw (IOException (String.string_of_list_ascii
         (str "Failed to read security code. Got unexpected number of tokens : " ++
          show (Z.of_nat (length lines)))))
     else ret lines) ;;
  resp <- lift (vec_at lines 1) ;;
  resp <- lift (erase_from resp (size_t (size resp - 1))) ;;
  ret resp.

(** [security(std::string &code, std::string &msg)]. *)
Definition security_msg : M (laser P) (bytes * bytes) :=
  code <- security ;;
  m <- gets m_sec_map ;;
  match sec_find code m with
  | Some msg => ret (code, msg)
  | None => ret (code, [])
  end.

(** [security(uint16_t &code, std::string &msg)]. *)
Definition security_u16 : M (laser P) (Z * bytes) :=
  ' (tmp_code, msg) <- security_msg ;;
  v <- lift (stoul tmp_code) ;;
  ret (u16 (Z.land v 0xFFFF), msg).

(** [security(Security &code, std::string &msg)]; the enumeration has the
    unsigned 32-bit representation. *)
Definition security_enum : M (laser P) (Z * bytes) :=
  ' (tmp_code, msg) <- security_msg ;;
  v <- lift (stol tmp_code) ;;
  ret (u32 v, msg).

Definition set_repetition_rate (rate : float) : M (laser P) unit :=
  send_or_throw (str "RR " ++ show_fixed 1 rate) "Failed to send RR command" ;;
  modify (λ l, l <| m_rate := rate |>).

Definition set_qswitch (qs : Z) : M (laser P) unit :=
  let qs := if 999 <? qs then 999 else qs in
  send_or_throw (str "QS " ++ setw "0" 3 (show qs)) "Failed to send QS command" ;;
  modify (λ l, l <| m_qswitch := qs |>).
End laser_ops.
End Laser.

(** ** Commands *)
Section laser_facts.
Context {P : Type} {HI : SerialImpl P} {HO : Observable P} {HOK : SerialImplOK P}
  {HLive : SerialImplLive P}.
Implicit Types l : laser P.

(** The invariant of a laser between calls. *)
Definition laser_ready l : Prop := ready (l_base l).

Lemma on_device_safe {A} (m : M (device P) A) :
  safe ready m → safe laser_ready (Laser.on_device m).
Proof. apply (safe_zoom l_base_l ready m). Qed.

Lemma laser_on_serial_safe {A} (m : M P A) :
  safe unlocked m → safe laser_ready (Laser.on_serial m).
Proof. intros Hm. by apply on_device_safe, on_serial_safe. Qed.

Lemma laser_write_cmd_safe cmd : safe laser_ready (Laser.write_cmd cmd).
Proof.
  unfold Laser.write_cmd.
  eauto 20 using on_device_safe, laser_on_serial_safe with safe.
Qed.

Lemma send_or_throw_safe cmd what : safe laser_ready (Laser.send_or_throw cmd what).
Proof.
  unfold Laser.send_or_throw.
  eauto 20 using on_device_safe, laser_write_cmd_safe with safe.
Qed.

Lemma laser_write_cmd_spec cmd l : idle (l_base l) →
  wp (Laser.write_cmd cmd)
    (spec (λ b, base_step l_base_l l (attempted (l_base l) cmd b))
          (λ _, base_step l_base_l l (aborted (l_base l) cmd))) l.
Proof.
  intros Hi. unfold Laser.write_cmd.
  eapply wp_bind_spec; [by apply (on_base_spec l_base_l), write_cmd_spec|].
  cbv beta. intros b l1 H1.
  assert (∃ a, sends (l_base l) a (l_base l1) ∧ ∀ d, sends (l_base l) a d →
            attempted (l_base l) cmd b d) as (a & Ha & Hb).
  { destruct H1 as [H1 _]. destruct b; simpl in *; [eauto|].
    destruct H1 as (n & Hn & Hs). eauto 10. }
  eapply wp_bind_spec; [eapply wp_spec_mono; [by apply (base_sleep_spec l_base_l)|..]|].
  - intros ? l2 H2. exact H2.
  - done.
  - cbv beta. intros ? l2 H2. apply wp_ret. eapply (base_step_trans l_base_l); eauto.
Qed.

Lemma send_or_throw_spec cmd what l : laser_ready l →
  wp (Laser.send_or_throw cmd what)
    (spec (λ _, base_step l_base_l l (delivered (l_base l) cmd))
          (λ _, base_step l_base_l l (undelivered (l_base l) cmd))) l.
Proof.
  intros Hr. unfold Laser.send_or_throw. set (d := l_base l).
  eapply wp_bind_spec.
  { eapply wp_spec_mono; [apply laser_write_cmd_spec; apply Hr|intros b l1 H; exact H|].
    intros e l1 [[n H] E]. split; [|done]. exists n, 0%nat. by rewrite app_nil_r. }
  cbv beta. intros b l1 H1. destruct b; simpl negb; cbv iota.
  { apply wp_ret. destruct H1 as [H1 E1]. split; [|done]. by exists 0%nat; split; [left|]. }
  destruct (proj1 H1) as (n & Hn & Hs1).
  eapply wp_bind_spec with (R0 := λ _, base_step l_base_l l (sends d (take n (frame d cmd)))).
  { eapply wp_spec_mono; [by apply (on_base_spec l_base_l), reset_connection_spec|..];
      intros ? l2 H2; (eapply (base_step_trans l_base_l); [exact H1|exact H2|]); [done|].
    intros H. exists n, 0%nat. by rewrite app_nil_r. }
  intros ? l2 H2. assert (frame (l_base l2) cmd = frame d cmd) as Hf
    by exact (sends_frame _ _ _ cmd (proj1 H2)).
  eapply wp_bind_spec.
  { eapply wp_spec_mono; [apply laser_write_cmd_spec; eapply sends_idle, H2|
      intros b l3 H; exact H|].
    intros e l3 H3. eapply (base_step_trans l_base_l); [exact H2|exact H3|]. intros [m H].
    rewrite Hf in H. exists n, m. by eapply sends_trans; [apply H2|]. }
  cbv beta. intros b l3 H3. destruct b; simpl negb; cbv iota.
  - apply wp_ret. eapply (base_step_trans l_base_l); [exact H2|exact H3|]. simpl. rewrite Hf.
    intros H. exists n. split; [by right|]. by eapply sends_trans; [apply H2|].
  - apply wp_throw. eapply (base_step_trans l_base_l); [exact H2|exact H3|].
    intros (m & Hm & H). rewrite Hf in H. exists n, m.
    by eapply sends_trans; [apply H2|].
Qed.

(** ** The settings of the laser as abstract commands *)
Inductive setting :=
  | SetShutter (s : Shutter)
  | SetFire (s : Fire)
  | SetPrescale (pre : Z)
  | SetPump (hv : float)
  | SetRate (rate : float)
  | SetQswitch (qs : Z).

Definition exec (c : setting) : M (laser P) unit :=
  match c with
  | SetShutter s => Laser.shutter s
  | SetFire s => Laser.fire s
  | SetPrescale pre => Laser.set_prescale pre
  | SetPump hv => Laser.set_pump_voltage hv
  | SetRate rate => Laser.set_repetition_rate rate
  | SetQswitch qs => Laser.set_qswitch qs
  end.

(** Whether the value is accepted; a pump voltage can be refused. *)
Definition accepts (c : setting) : bool :=
  match c with
  | SetPump hv => negb (fltb d_1_3 hv || fltb hv (S754_zero false))
  | _ => true
  end.

(** The command text. *)
Definition text (c : setting) : bytes :=
  match c with
  | SetShutter s => str "SH " ++ show (Shutter_val s)
  | SetFire s => str "ST " ++ show (Fire_val s)
  | SetPrescale pre => str "PD " ++ setw "0" 3 (show (Z.min pre 99))
  | SetPump hv => str "VA " ++ show_fixed 2 hv
  | SetRate rate => str "RR " ++ show_fixed 1 rate
  | SetQswitch qs => str "QS " ++ setw "0" 3 (show (Z.min qs 999))
  end.

(** What the object remembers. *)
Definition remember (c : setting) l : laser P :=
  match c with
  | SetShutter _ => l
  | SetFire s => l <| m_is_firing := match s with Fire_Start => true | _ => false end |>
  | SetPrescale pre => l <| m_prescale := Z.min pre 99 |>
  | SetPump hv => l <| m_pump_hv := hv |>
  | SetRate rate => l <| m_rate := rate |>
  | SetQswitch qs => l <| m_qswitch := Z.min qs 999 |>
  end.

Lemma send_then_spec cmd what (f : laser P → laser P) l :
  laser_ready l → (∀ d, l_base (f (l <| l_base := d |>)) = d) →
  wp (Laser.send_or_throw cmd what ;; modify f)
    (spec (λ _ l', ∃ d', delivered (l_base l) cmd d' ∧ l' = f (l <| l_base := d' |>))
          (λ _, base_step l_base_l l (undelivered (l_base l) cmd))) l.
Proof.
  intros Hr Hf. eapply wp_bind_spec; [by apply send_or_throw_spec|].
  cbv beta. intros ? l1 [H1 E1]. apply wp_modify. exists (l_base l1).
  split; [done|]. by rewrite E1 at 1.
Qed.

Lemma clip_min a b : (if b <? a then b else a) = Z.min a b.
Proof. destruct (Z.ltb_spec b a); lia. Qed.

Lemma exec_spec c l : laser_ready l →
  wp (exec c)
    (spec (λ _ l', accepts c = true ∧ ∃ d', delivered (l_base l) (text c) d' ∧
                   l' = remember c (l <| l_base := d' |>))
          (λ _ l', if accepts c then base_step l_base_l l (undelivered (l_base l) (text c)) l'
                   else l' = l)) l.
Proof.
  intros Hr.
  assert (∀ cmd what f, (∀ d, l_base (f (l <| l_base := d |>)) = d) →
    wp (Laser.send_or_throw cmd what ;; modify f)
      (spec (λ _ l', true = true ∧ ∃ d', delivered (l_base l) cmd d' ∧
               l' = f (l <| l_base := d' |>))
            (λ _ l', base_step l_base_l l (undelivered (l_base l) cmd) l')) l) as Hset.
  { intros cmd what f Hf. eapply wp_spec_mono; [by apply send_then_spec|auto|auto]. }
  destruct c as [s|s|pre|hv|rate|qs]; cbn [exec accepts text remember].
  - eapply wp_spec_mono; [by apply send_or_throw_spec|simpl|done].
    intros ? l' [H E]. eauto.
  - unfold Laser.fire. destruct s; by apply Hset.
  - unfold Laser.set_prescale. rewrite clip_min. by apply Hset.
  - unfold Laser.set_pump_voltage. destruct (_ || _); [by apply wp_throw|].
    by apply Hset.
  - by apply Hset.
  - unfold Laser.set_qswitch. rewrite clip_min. by apply Hset.
Qed.

Lemma exec_safe c : safe laser_ready (exec c).
Proof.
  destruct c as [[]|[]|pre|hv|rate|qs]; cbn [exec];
    unfold Laser.shutter, Laser.fire, Laser.set_prescale, Laser.set_pump_voltage,
      Laser.set_repetition_rate, Laser.set_qswitch;
    eauto 20 using send_or_throw_safe with safe.
Qed.

(** C2: every setting of the laser (shutter, fire, prescale, pump voltage,
    repetition rate, Q-switch) ends.  It returns only if the value is accepted
    and the complete frame of its command went out, after at most one truncated
    attempt, and then exactly the setting is remembered; when it throws, either
    the value was refused and nothing happened, or only parts of the frame went
    out and no setting changed. *)
Theorem setting_on_wire (c : setting) (l : laser P) :
  laser_ready l →
  wp (exec c)
    (post (λ _ l', accepts c = true ∧ ∃ d', delivered (l_base l) (text c) d' ∧
                   l' = remember c (l <| l_base := d' |>))
          (λ _ l', if accepts c then base_step l_base_l l (undelivered (l_base l) (text c)) l'
                   else l' = l)) l.
Proof.
  intros Hr. eapply wp_spec_safe; [apply exec_safe|done|by apply exec_spec].
Qed.

(** [single_shot] returns only after the frames of [PD 000] and then [SS]
    went out in this order, and it leaves the prescale at 0. *)
Lemma single_shot_on_wire (l : laser P) :
  laser_ready l →
  wp Laser.single_shot
    (post (λ _ l', m_prescale l' = 0 ∧ ∃ d1, delivered (l_base l) (str "PD 000") d1 ∧
                   delivered d1 (str "SS") (l_base l'))
          (λ _ l', m_prescale l' = m_prescale l ∨ m_prescale l' = 0)) l.
Proof.
  intros Hr. apply (wp_spec_safe laser_ready); [|done|].
  { unfold Laser.single_shot. apply safe_bind; [apply (exec_safe (SetPrescale 0))|].
    intros _. apply send_or_throw_safe. }
  unfold Laser.single_shot. eapply wp_bind_spec.
  - eapply wp_spec_mono; [apply (exec_spec (SetPrescale 0) l Hr)|
      intros ? l1 H; exact H|].
    simpl. intros e l1 [_ ->]. by left.
  - cbv beta. intros ? l1 (_ & d1 & H1 & ->).
    assert (laser_ready (remember (SetPrescale 0) (l <| l_base := d1 |>))) as Hr1
      by by eapply delivered_ready.
    eapply wp_spec_mono; [by apply send_or_throw_spec|..]; simpl.
    + intros ? l2 [H2 ->]. split; [done|]. eauto.
    + intros ? l2 [H2 ->]. by right.
Qed.

Lemma laser_get_shot_count_safe : safe laser_ready Laser.get_shot_count.
Proof.
  unfold Laser.get_shot_count.
  eauto 40 using on_device_safe, laser_write_cmd_safe with safe.
Qed.

Lemma laser_security_safe : safe laser_ready Laser.security.
Proof.
  unfold Laser.security. eauto 40 using on_device_safe, send_or_throw_safe with safe.
Qed.

Lemma laser_security_msg_safe : safe laser_ready Laser.security_msg.
Proof.
  unfold Laser.security_msg. apply safe_bind; [apply laser_security_safe|]. intros code.
  apply safe_bind; [apply safe_gets|]. intros m. destruct (sec_find code m); solve_safe.
Qed.

Lemma laser_single_shot_safe : safe laser_ready Laser.single_shot.
Proof. apply safe_bind; [apply (exec_safe (SetPrescale 0))|]. intros _. apply send_or_throw_safe. Qed.

Lemma laser_destroy_safe : safe laser_ready (Laser.on_device Device.destroy).
Proof. apply on_device_safe. solve_safe. Qed.

(** The constructor, with a baud rate the port accepts. *)
Lemma laser_construct_safe l : laser_ready l → 4 ≤ m_baud (l_base l) < 2 ^ 32 →
  wp Laser.construct (post (λ _, laser_ready) (λ _, laser_ready)) l.
Proof.
  intros Hr Hb. set (d := l_base l) in *.
  enough (safe laser_ready (catch (Laser.construct_body d)
    (λ e, Laser.on_device Device.destroy ;; throw e))) as H by exact (H l Hr).
  unfold Laser.construct_body.
  eauto 40 using laser_destroy_safe, laser_on_serial_safe with safe.
Qed.

(** The queries of the laser end on every input, with a result or an
    exception: no undefined behaviour, no deadlock on the port's mutexes, which
    are free again afterwards. *)
Lemma laser_queries_safe :
  safe (A:=Z) laser_ready Laser.get_shot_count ∧
  safe laser_ready Laser.security_msg ∧
  safe laser_ready Laser.security_u16 ∧
  safe laser_ready Laser.security_enum.
Proof.
  split; [apply laser_get_shot_count_safe|]. split; [apply laser_security_msg_safe|].
  split; (apply safe_bind; [apply laser_security_msg_safe|]); intros [c m]; solve_safe.
Qed.
(** The settings by the names of the class. *)
Lemma laser_shutter_open_safe : safe laser_ready (Laser.shutter_open).
Proof. exact (exec_safe (SetShutter Shutter_Open)). Qed.
Lemma laser_shutter_close_safe : safe laser_ready (Laser.shutter_close).
Proof. exact (exec_safe (SetShutter Shutter_Closed)). Qed.
Lemma laser_fire_start_safe : safe laser_ready (Laser.fire_start).
Proof. exact (exec_safe (SetFire Fire_Start)). Qed.
Lemma laser_fire_stop_safe : safe laser_ready (Laser.fire_stop).
Proof. exact (exec_safe (SetFire Fire_Stop)). Qed.
Lemma laser_set_prescale_safe n : safe laser_ready (Laser.set_prescale n).
Proof. exact (exec_safe (SetPrescale n)). Qed.
Lemma laser_set_pulse_division_safe n : safe laser_ready (Laser.set_pulse_division n).
Proof. exact (exec_safe (SetPrescale n)). Qed.
Lemma laser_set_pump_voltage_safe x : safe laser_ready (Laser.set_pump_voltage x).
Proof. exact (exec_safe (SetPump x)). Qed.
Lemma laser_set_qswitch_safe n : safe laser_ready (Laser.set_qswitch n).
Proof. exact (exec_safe (SetQswitch n)). Qed.
End laser_facts.

#[export] Hint Resolve laser_get_shot_count_safe laser_security_msg_safe
  laser_single_shot_safe laser_destroy_safe on_device_safe : safe.
#[export] Hint Resolve laser_shutter_open_safe laser_shutter_close_safe
  laser_fire_start_safe laser_fire_stop_safe laser_set_prescale_safe
  laser_set_pulse_division_safe laser_set_pump_voltage_safe laser_set_qswitch_safe : safe.


(** ** Command formats *)
Lemma show_fixed_nonneg p x :
  is_nan x = false → signbit x = false → fltb d_1_3 x = false →
  show_fixed p x = show_decimal p (round_div (num x * 10 ^ Z.of_nat p) (den x)).
Proof.
  intros Hn Hs Hle. destruct x as [s|s| |s m e]; simpl in *; subst; try done.
  assert (0 ≤ Z.pos m * 2 ^ Z.max e 0) by lia.
  rewrite (Z.abs_eq (_ * _)) by (destruct (Z.pos m); lia). done.
Qed.

Lemma pump_upper x : fltb d_1_3 x = false → is_nan x = false →
  10 * num x * 2 ^ 52 ≤ 13 * 2 ^ 52 * den x + den x * 2.
Proof.
  intros Hle Hn. pose proof (den_pos x) as Hd.
  destruct x as [s|s| |s m e]; [simpl; lia|simpl; lia|done|].
  unfold fltb, d_1_3 in Hle. apply Z.ltb_ge in Hle.
  change (num (S754_finite false 5854679515581645 (-52))) with 5854679515581645 in Hle.
  change (den (S754_finite false 5854679515581645 (-52))) with (2 ^ 52) in Hle. lia.
Qed.

(** The pump voltage is sent as [VA X.XX] with a value from 0.00 to 1.30 that
    is the argument rounded to the nearest hundredth, for every accepted argument
    but two kinds: a NaN passes the range check and is sent as [VA nan], and a
    negative zero is sent with its sign. *)
Lemma pump_voltage_text (hv : float) :
  accepts (SetPump hv) = true →
  (is_nan hv = true ∧ text (SetPump hv) = str "VA nan") ∨
  (hv = S754_zero true ∧ text (SetPump hv) = str "VA -0.00") ∨
  ∃ N, 0 ≤ N ≤ 130 ∧ 2 * Z.abs (N * den hv - 100 * num hv) ≤ den hv ∧
    text (SetPump hv) = str "VA " ++
      [digit (N `div` 100); "."%char; digit (N `div` 10 `mod` 10); digit (N `mod` 10)].
Proof.
  cbn [accepts text]. rewrite negb_true_iff, orb_false_iff. intros [Hhi Hlo].
  pose proof (den_pos hv) as Hd.
  destruct (is_nan hv) eqn:Hn; [left; by destruct hv|right].
  destruct (signbit hv) eqn:Hs.
  { left. destruct hv as [s|s| |s m e]; simpl in *; subst; try done.
    apply Z.ltb_ge in Hlo. lia. }
  right. rewrite show_fixed_nonneg by done. pose proof (pump_upper hv Hhi Hn) as Hup.
  change (10 ^ Z.of_nat 2) with 100.
  pose proof (round_div_spec (num hv * 100) (den hv) Hd) as Hspec.
  assert (0 ≤ num hv) by (destruct hv; simpl in *; subst; lia).
  exists (round_div (num hv * 100) (den hv)).
  assert (0 ≤ round_div (num hv * 100) (den hv) ≤ 130).
  { split; [apply round_div_nonneg; lia|]. apply round_div_le; lia. }
  split; [done|]. split; [rewrite (Z.mul_comm 100); done|].
  by rewrite show_decimal_2 by lia.
Qed.

(** Prescale and Q-switch delay are sent with exactly three digits, as
    the laser requires, of the value clipped to 99 and 999. *)
Lemma three_digit_text (n : Z) :
  in_u 32 n →
  let digits v := [digit (v `div` 100); digit (v `div` 10 `mod` 10); digit (v `mod` 10)] in
  text (SetPrescale n) = str "PD " ++ digits (Z.min n 99) ∧
  text (SetQswitch n) = str "QS " ++ digits (Z.min n 999).
Proof. intros [Hn _]. cbn [text]. rewrite !setw3_digits by lia. done. Qed.

(** ** What the queries return *)
Section laser_queries.
Context {P : Type} {HI : SerialImpl P}.
Implicit Types l : laser P.

(** The laser after a read on its port left it in [s]. *)
Definition with_serial l (s : P) : laser P :=
  l <| l_base := l_base l <| m_serial := s |> |>.

(** The port of [l] delivers the lines [bodies], each followed by a carriage
    return, and then nothing until the read times out in [s]. *)
Definition replies l (bodies : list bytes) (s : P) : Prop :=
  m_read_sfx (l_base l) = [CR] ∧ Forall (λ b, CR ∉ b) bodies ∧
  (length (List.concat (terminated CR bodies)) < max_line)%nat ∧
  ∃ s0 s1, impl_readLock (m_serial (l_base l)) = (Ret tt, s0) ∧
    reads s0 (List.concat (terminated CR bodies)) s1 ∧ impl_read 1 s1 = (Ret [], s).

Lemma read_lines_replies l bodies s : replies l bodies s →
  Laser.on_device Device.read_lines l =
  (Ret (terminated CR bodies), with_serial l (impl_readUnlock s)).
Proof.
  intros (Hs & Hcr & Hlen & s0 & s1 & Hl & Hr & Ht).
  apply (zoom_run l_base_l _ l _ (l_base l <| m_serial := impl_readUnlock s |>)).
  change (view l_base_l l) with (l_base l). unfold Device.read_lines.
  erewrite bind_ret_run by done. apply on_serial_run.
  rewrite Hs. by apply (readlines_terminated max_line CR bodies _ s0 s1).
Qed.

Lemma erase_terminator b : erase_from (b ++ [CR]) (size (b ++ [CR]) - 1) = Ret b.
Proof. apply (erase_from_app b [CR]). Qed.

Lemma security_reply l l1 echo code s :
  Laser.send_or_throw (str "SE") "Failed to send SE command" l = (Ret tt, l1) →
  replies l1 [echo; code] s →
  Laser.security l = (Ret code, with_serial l1 (impl_readUnlock s)).
Proof.
  intros Hsend Hr. unfold Laser.security. rewrite (bind_ret_run _ _ _ tt l1) by done.
  erewrite bind_ret_run by by apply read_lines_replies.
  cbn [terminated map length Nat.eqb negb]. erewrite bind_ret_run by done.
  erewrite bind_ret_run by done. erewrite bind_ret_run; [done|]. unfold lift. f_equal.
  assert (0 < size (code ++ [CR]) < 2 ^ 64) as Hsz.
  { destruct Hr as (_ & _ & Hlen & _). unfold size, max_line in *. simpl in Hlen.
    rewrite !length_app in *. simpl in *. lia. }
  unfold size_t. rewrite wrapu_id by (unfold in_u; lia). apply erase_terminator.
Qed.

(** A security code is read back as the laser sends it: when the laser
    answers the command with its echo and the two digits of a code from 0 to 9,
    [security] returns that number and its description from the table. *)
Lemma security_roundtrip (c : Z) (l l1 : laser P) (echo : bytes) (s : P) :
  0 ≤ c ≤ 9 → m_sec_map l1 = sec_map →
  Laser.send_or_throw (str "SE") "Failed to send SE command" l = (Ret tt, l1) →
  replies l1 [echo; setw "0" 2 (show c)] s →
  ∃ msg, sec_map !! Z.to_nat c = Some (setw "0" 2 (show c), msg) ∧
    Laser.security_u16 l = (Ret (c, msg), with_serial l1 (impl_readUnlock s)).
Proof.
  intros Hc Hm Hsend Hr.
  assert (∃ msg, sec_map !! Z.to_nat c = Some (setw "0" 2 (show c), msg) ∧
            sec_find (setw "0" 2 (show c)) sec_map = Some msg) as (msg & Hn & Hf).
  { assert (c = 0 ∨ c = 1 ∨ c = 2 ∨ c = 3 ∨ c = 4 ∨ c = 5 ∨ c = 6 ∨ c = 7 ∨ c = 8 ∨
            c = 9) as Hcs by lia.
    repeat destruct Hcs as [->|Hcs]; [..|subst c]; vm_compute; eauto. }
  exists msg. split; [done|]. unfold Laser.security_u16, Laser.security_msg.
  erewrite bind_ret_run.
  2:{ erewrite bind_ret_run by by eapply security_reply.
      erewrite bind_ret_run by done. cbn [with_serial upd m_sec_map].
      change (m_sec_map (with_serial l1 _)) with (m_sec_map l1). rewrite Hm, Hf. done. }
  cbv beta iota. rewrite <- (app_nil_r (setw _ _ _)).
  erewrite bind_ret_run by (unfold lift; rewrite stoul_padded; [done|unfold in_u; lia|done]).
  rewrite land_ffff_mod, Z.mod_small by lia. unfold u16.
  rewrite wrapu_id by (unfold in_u; lia). done.
Qed.

(** C22: a shot count is read back as the laser sends it: nine digits after the
    echo of the command. *)
Theorem shot_count_roundtrip (n : Z) (b : bool) (l l1 : laser P) (echo : bytes) (s : P) :
  in_u 32 n → Laser.write_cmd (str "SC") l = (Ret b, l1) →
  replies l1 [echo; setw "0" 9 (show n)] s →
  Laser.get_shot_count l = (Ret n, with_serial l1 (impl_readUnlock s)).
Proof.
  intros Hn Hsend Hr. unfold Laser.get_shot_count.
  rewrite (bind_ret_run _ _ _ b l1) by done. cbv zeta.
  erewrite bind_ret_run by by apply read_lines_replies.
  cbn [terminated map length Nat.eqb].
  erewrite bind_ret_run.
  2:{ erewrite bind_ret_run by done.
      rewrite (proj2 (Z.ltb_lt 0 _)) by (unfold size; rewrite length_app; simpl; lia).
      unfold lift. rewrite erase_terminator. done. }
  rewrite <- (app_nil_r (setw _ _ _)).
  erewrite bind_ret_run by
    (unfold lift; rewrite stoul_padded; [done|unfold in_u in *; lia|done]).
  unfold u32. by rewrite wrapu_id.
Qed.

(** When the first read of the shot count times out and the answer arrives
    after the connection was reset, the answer is dropped: whatever the lines
    received, [get_shot_count] ends in [std::invalid_argument]. *)
Lemma shot_count_retry_fails (b : bool) (lines : list bytes) (l l1 l2 l3 l4 : laser P) :
  Laser.write_cmd (str "SC") l = (Ret b, l1) →
  Laser.on_device Device.read_lines l1 = (Ret [], l2) →
  Laser.on_device Device.reset_connection l2 = (Ret tt, l3) →
  Laser.on_device Device.read_lines l3 = (Ret lines, l4) → lines ≠ [] →
  Laser.get_shot_count l = (Throw (invalid_argument "stoul"), l4).
Proof.
  intros H1 H2 H3 H4 Hne. unfold Laser.get_shot_count.
  rewrite (bind_ret_run _ _ _ b l1) by done. cbv zeta.
  rewrite (bind_ret_run _ _ _ [] l2) by done. cbn [length Nat.eqb].
  rewrite (bind_ret_run _ _ _ [] l4); [done|].
  rewrite (bind_ret_run _ _ _ tt l3) by done.
  rewrite (bind_ret_run _ _ _ lines l4) by done. by destruct lines.
Qed.
End laser_queries.

(** ** Witnesses on the loopback port *)
Definition laser_on (p : loop) : laser loop := Laser.init (str "/dev/ttyUSB1") 9600 p.
Definition loop_port (replies late : list bytes) (limits : list nat) : loop :=
  loop_init replies late limits <| l_port := str "/dev/ttyUSB1" |> <| l_open := true |>.
Lemma laser_on_ready r t n : laser_ready (laser_on (loop_port r t n)).
Proof. split; [done|]. simpl. unfold max_line. lia. Qed.

(** The shutter is opened by the bytes [SH 1] and a carriage return; the first
    transmission is cut after two bytes. *)
Lemma setting_on_wire_witness :
  let l := laser_on (loop_port [] [] [2%nat]) in
  l_out (m_serial (l_base (final_state (exec (SetShutter Shutter_Open) l)))) =
    str "SHSH 1" ++ [CR] ∧
  ∃ d', delivered (l_base l) (str "SH 1") d' ∧
    final_state (exec (SetShutter Shutter_Open) l) = l <| l_base := d' |>.
Proof.
  intros l. split; [by vm_compute|].
  pose proof (setting_on_wire (SetShutter Shutter_Open) l (laser_on_ready _ _ _)) as H.
  destruct (exec (SetShutter Shutter_Open) l) as [[[]|e| |] l'] eqn:E; try by vm_compute in E.
  apply (wp_elim _ _ _ _ _ H) in E. exact (proj2 E).
Defined.

Lemma single_shot_on_wire_witness :
  let l := laser_on (loop_port [] [] []) in
  wp Laser.single_shot
    (post (λ _ l', m_prescale l' = 0 ∧ ∃ d1, delivered (l_base l) (str "PD 000") d1 ∧
                   delivered d1 (str "SS") (l_base l'))
          (λ _ l', m_prescale l' = m_prescale l ∨ m_prescale l' = 0)) l.
Proof. intros l. apply (single_shot_on_wire l), laser_on_ready. Defined.

Lemma laser_queries_safe_witness :
  let l := laser_on (loop_port [] [] []) in
  wp Laser.get_shot_count (post (λ _, laser_ready) (λ _, laser_ready)) l.
Proof. intros l. apply (laser_queries_safe (P:=loop)), laser_on_ready. Defined.

(** 1.1 kV. *)
Lemma pump_voltage_text_witness :
  accepts (SetPump f_1_1) = true ∧ text (SetPump f_1_1) = str "VA 1.10" ∧
  ∃ N, 0 ≤ N ≤ 130 ∧ 2 * Z.abs (N * den f_1_1 - 100 * num f_1_1) ≤ den f_1_1.
Proof.
  split; [by vm_compute|]. split; [by vm_compute|].
  destruct (pump_voltage_text f_1_1 eq_refl) as [[H _]|[[H _]|(N & H1 & H2 & _)]];
    [done..|eauto].
Defined.

Lemma three_digit_text_witness :
  text (SetPrescale 7) = str "PD 007" ∧ text (SetQswitch 1234) = str "QS 999".
Proof.
  destruct (three_digit_text 7 ltac:(unfold in_u; lia)) as [-> _].
  destruct (three_digit_text 1234 ltac:(unfold in_u; lia)) as [_ ->]. by vm_compute.
Defined.

(** The state of the laser after the command went out. *)
Definition se_sent (code : bytes) : laser loop :=
  final_state (Laser.send_or_throw (str "SE") "Failed to send SE command"
    (laser_on (loop_port [str "SE" ++ [CR] ++ code ++ [CR]] [] []))).

Lemma loop_replies (l : laser loop) bodies :
  m_read_sfx (l_base l) = [CR] → l_open (m_serial (l_base l)) = true →
  l_rlock (m_serial (l_base l)) = false →
  Forall (λ b, CR ∉ b) bodies →
  (length (List.concat (terminated CR bodies)) < max_line)%nat →
  l_rx (m_serial (l_base l)) = List.concat (terminated CR bodies) →
  replies l bodies (m_serial (l_base l) <| l_rlock := true |> <| l_rx := [] |>).
Proof.
  intros Hs Ho Hr Hb Hlen Hrx. split; [done|]. split; [done|]. split; [done|].
  exists (m_serial (l_base l) <| l_rlock := true |>),
    (m_serial (l_base l) <| l_rlock := true |> <| l_rx := [] |>).
  split; [|split].
  - simpl. unfold loop_lock, bind, gets, modify. by rewrite Hr.
  - apply (loop_reads _ []); simpl; [done|]. by rewrite app_nil_r.
  - simpl. unfold loop_read, loop_require_open, bind, gets, modify, ret. simpl.
    by rewrite Ho.
Qed.

Lemma security_roundtrip_witness :
  (Laser.security_u16 (laser_on (loop_port [str "SE" ++ [CR] ++ str "06" ++ [CR]] [] []))).1
  = Ret (6, str "External interlock").
Proof.
  edestruct (security_roundtrip 6
    (laser_on (loop_port [str "SE" ++ [CR] ++ str "06" ++ [CR]] [] [])) (se_sent (str "06"))
    (str "SE")) as (msg & Hm & Hs).
  - lia.
  - by vm_compute.
  - by vm_compute.
  - apply loop_replies; [by vm_compute..| | |by vm_compute].
    + apply (bool_decide_unpack _); by vm_compute.
    + apply Nat.ltb_lt. by vm_compute.
  - assert (msg = str "External interlock") as -> by (vm_compute in Hm |- *; congruence).
    by rewrite Hs.
Defined.

Lemma shot_count_roundtrip_witness :
  (Laser.get_shot_count
    (laser_on (loop_port [str "SC" ++ [CR] ++ str "000012345" ++ [CR]] [] []))).1
  = Ret 12345.
Proof.
  erewrite (shot_count_roundtrip 12345 true
    (laser_on (loop_port [str "SC" ++ [CR] ++ str "000012345" ++ [CR]] [] []))
    (final_state (Laser.write_cmd (str "SC")
       (laser_on (loop_port [str "SC" ++ [CR] ++ str "000012345" ++ [CR]] [] []))))
    (str "SC")).
  - done.
  - unfold in_u. lia.
  - by vm_compute.
  - apply loop_replies; [by vm_compute..| | |by vm_compute].
    + apply (bool_decide_unpack _); by vm_compute.
    + apply Nat.ltb_lt. by vm_compute.
Defined.

(** The late answer of the laser is complete and still lost. *)
Definition late_sc : laser loop :=
  laser_on (loop_port [] [str "SC" ++ [CR] ++ str "000012345" ++ [CR]] []).
Definition late_sc1 : laser loop := final_state (Laser.write_cmd (str "SC") late_sc).
Definition late_sc2 : laser loop := final_state (Laser.on_device Device.read_lines late_sc1).
Definition late_sc3 : laser loop := final_state (Laser.on_device Device.reset_connection late_sc2).

Lemma shot_count_retry_fails_witness :
  ∃ l', Laser.on_device Device.read_lines late_sc3 =
          (Ret [str "SC" ++ [CR]; str "000012345" ++ [CR]], l') ∧
        Laser.get_shot_count late_sc = (Throw (invalid_argument "stoul"), l').
Proof.
  exists (final_state (Laser.on_device Device.read_lines late_sc3)). split; [by vm_compute|].
  apply (shot_count_retry_fails true [str "SC" ++ [CR]; str "000012345" ++ [CR]]
    late_sc late_sc1 late_sc2 late_sc3); by vm_compute.
Defined.
