(* ===== verification/LaserSim.v ===== *)
(** * src/LaserSim.cpp and include/LaserSim.hh: the simulated laser

    A laser without hardware.  Its operations change the same members as those of
    the driver but send nothing.  The theorem relates the two: the driver refines
    the simulator. *)
From S2P Require Import Prelude CppStd Floats Serial Loopback Device Laser.

Record lasersim := mkLaserSim {
  sim_is_firing : bool;
  sim_prescale : Z;
  sim_pump_hv : float;
  sim_rate : float;
  sim_qswitch : Z;
  sim_sec_map : list (bytes * bytes);
  sim_wait_read : bool;
  sim_shot_count : Z;
  sim_shutter_state : Z;
}.
#[export] Instance eta_lasersim : Eta lasersim := λ s,
  mkLaserSim (sim_is_firing s) (sim_prescale s) (sim_pump_hv s) (sim_rate s) (sim_qswitch s)
    (sim_sec_map s) (sim_wait_read s) (sim_shot_count s) (sim_shutter_state s).

Module LaserSim.
Definition construct : lasersim :=
  mkLaserSim false 0 f_1_1 f_10 170 sec_map false 0 0.

Definition shutter (s : Shutter) : M lasersim unit :=
  modify (λ l, l <| sim_shutter_state := u32 (Shutter_val s) |>).
Definition shutter_open : M lasersim unit := shutter Shutter_Open.
Definition shutter_close : M lasersim unit := shutter Shutter_Closed.

Definition fire (s : Fire) : M lasersim unit :=
  match s with
  | Fire_Start => modify (λ l, l <| sim_is_firing := true |>)
  | Fire_Stop => modify (λ l, l <| sim_is_firing := false |>)
  end.
Definition fire_start : M lasersim unit := fire Fire_Start.
Definition fire_stop : M lasersim unit := fire Fire_Stop.

Definition set_prescale (pre : Z) : M lasersim unit :=
  let pre := if 99 <? pre then 99 else pre in
  modify (λ l, l <| sim_prescale := pre |>).
Definition set_pulse_division (pd : Z) : M lasersim unit := set_prescale pd.

Definition set_pump_voltage (hv : float) : M lasersim unit :=
  if fltb d_1_3 hv || fltb hv (S754_zero false) then
    throw (range_error (String.string_of_list_ascii
      (str "Argument out of range [" ++ show_float hv ++ str "] --> [0; 1.3].")))
  else modify (λ l, l <| sim_pump_hv := hv |>).

Definition single_shot : M lasersim unit := set_prescale 0.

Definition get_shot_count : M lasersim Z := gets sim_shot_count.

(** [security(std::string &code)] and the overloads that use it. *)
Definition security : M lasersim bytes := ret (str "00").

Definition security_msg : M lasersim (bytes * bytes) :=
  code <- security ;;
  m <- gets sim_sec_map ;;
  match sec_find code m with
  | Some msg => ret (code, msg)
  | None => ret (code, [])
  end.

Definition security_u16 : M lasersim (Z * bytes) :=
  ' (tmp_code, msg) <- security_msg ;;
  v <- lift (stoul tmp_code) ;;
  ret (u16 (Z.land v 0xFFFF), msg).

Definition security_enum : M lasersim (Z * bytes) :=
  ' (tmp_code, msg) <- security_msg ;;
  v <- lift (stol tmp_code) ;;
  ret (u32 v, msg).

Definition set_repetition_rate (rate : float) : M lasersim unit :=
  modify (λ l, l <| sim_rate := rate |>).

Definition set_qswitch (qs : Z) : M lasersim unit :=
  let qs := if 999 <? qs then 999 else qs in
  modify (λ l, l <| sim_qswitch := qs |>).
End LaserSim.

(** ** The driver and its simulator *)

(** The settings of Laser.v on the simulator. *)
Definition sim_exec (c : setting) : M lasersim unit :=
  match c with
  | SetShutter s => LaserSim.shutter s
  | SetFire s => LaserSim.fire s
  | SetPrescale pre => LaserSim.set_prescale pre
  | SetPump hv => LaserSim.set_pump_voltage hv
  | SetRate rate => LaserSim.set_repetition_rate rate
  | SetQswitch qs => LaserSim.set_qswitch qs
  end.

Section simulation.
Context {P : Type} {HI : SerialImpl P} {HO : Observable P} {HOK : SerialImplOK P}
  {HLive : SerialImplLive P}.

(** The members both have agree. *)
Definition simulates (l : laser P) (s : lasersim) : Prop :=
  (sim_is_firing s, sim_prescale s, sim_pump_hv s, sim_rate s, sim_qswitch s, sim_sec_map s) =
  (m_is_firing l, m_prescale l, m_pump_hv l, m_rate l, m_qswitch l, m_sec_map l).

Lemma construct_simulates port baud p : simulates (Laser.init port baud p) LaserSim.construct.
Proof. done. Qed.

Lemma remember_simulates c (l : laser P) s d :
  accepts c = true → simulates l s →
  ∃ s', sim_exec c s = (Ret tt, s') ∧ simulates (remember c (l <| l_base := d |>)) s'.
Proof.
  unfold simulates. intros Ha Hs. simplify_eq.
  destruct c as [sh|[]|pre|hv|rate|qs]; cbn [sim_exec accepts remember] in *;
    unfold LaserSim.set_pump_voltage, LaserSim.set_prescale, LaserSim.set_qswitch;
    rewrite ?clip_min; try (by eexists; split; [reflexivity|]; simpl; congruence).
  apply negb_true_iff in Ha. rewrite Ha. eexists. split; [reflexivity|]. simpl. congruence.
Qed.

Lemma refused_simulates c (l : laser P) s :
  accepts c = false → ∃ e, exec c l = (Throw e, l) ∧ sim_exec c s = (Throw e, s).
Proof.
  destruct c; try done. cbn [accepts exec sim_exec]. intros Ha. apply negb_false_iff in Ha.
  unfold Laser.set_pump_voltage, LaserSim.set_pump_voltage. rewrite Ha. by eexists.
Qed.

(** C30: the driver refines its simulator: from agreeing states, a setting of
    the driver that returns leaves the two in agreement again when the simulator
    takes the same setting; one that throws leaves the driver in agreement with the
    simulator as it was; and a refused value is refused by both with the same
    exception. *)
Theorem laser_refines_simulator (c : setting) (l : laser P) (s : lasersim) :
  laser_ready l → simulates l s →
  wp (exec c)
    (post (λ _ l', ∃ s', sim_exec c s = (Ret tt, s') ∧ simulates l' s')
          (λ e l', simulates l' s ∧
                   (accepts c = false → sim_exec c s = (Throw e, s)))) l.
Proof.
  intros Hr Hs. eapply wp_spec_safe; [apply exec_safe|done|].
  destruct (accepts c) eqn:Ha.
  - eapply wp_spec_mono; [by apply exec_spec|..]; rewrite Ha; simpl.
    + intros _ l' (_ & d & _ & ->). by apply remember_simulates.
    + intros e l' [_ ->]. split; [exact Hs|done].
  - destruct (refused_simulates c l s Ha) as (e & He & Hsim).
    unfold wp. rewrite He. split; [exact Hs|done].
Qed.
End simulation.

Lemma laser_refines_simulator_witness :
  wp (exec (SetPrescale 120))
    (post (λ _ l', ∃ s', sim_exec (SetPrescale 120) LaserSim.construct = (Ret tt, s') ∧
                         simulates l' s')
          (λ e l', simulates l' LaserSim.construct ∧
                   (accepts (SetPrescale 120) = false →
                    sim_exec (SetPrescale 120) LaserSim.construct =
                      (Throw e, LaserSim.construct))))
    (laser_on (loop_port [] [] [])).
Proof. apply laser_refines_simulator; [apply laser_on_ready|apply construct_simulates]. Defined.
