(* ===== verification/Attenuator.v ===== *)
(** * src/Attenuator.cpp and include/Attenuator.hh: the motorised attenuator

    Commands, status and position queries, and the conversion between
    transmission and motor steps.  The enumerations are kept as their numeric
    value, because the code casts what the controller sends without a check.  The
    functions [acos], [cos] and [pow] of the C library are parameters. *)
From S2P Require Import Prelude CppStd Utilities Serial Loopback Device Floats.

(** ** Double arithmetic *)
Definition dmul : double → double → double := SFmul 53 1024.
Definition ddiv : double → double → double := SFdiv 53 1024.
Definition dsqrt : double → double := SFsqrt 53 1024.
Definition double_of_Z (z : Z) : double := binary_normalize 53 1024 z 0 false.

(** [static_cast<int32_t>(x)]: truncation; undefined when the result does not fit. *)
Definition int32_of_double (x : double) : outcome Z :=
  match x with
  | S754_zero _ => Ret 0
  | S754_finite _ _ _ => chk_i32 (Z.quot (num x) (den x))
  | _ => Undef
  end.

Definition d_cal_scale : double := S754_finite true 6098619804147935 (-47).
Definition M_PI : double := S754_finite false 7074237752028440 (-51).
Definition d_180 : double := double_of_Z 180.
(** The literal [0.00835]. *)
Definition d_0_00835 : double := S754_finite false 4813447281733586 (-59).

(** ** Enumerations of the class *)
Definition Stopped : Z := 0.
Definition OpMode_Command : Z := 1.
Definition Resolution_Half : Z := 2.

Record attenuator (P : Type) := mkAttenuator {
  a_base : device P;
  m_offset : Z;
  m_max_speed : Z;
  m_op_mode : Z;
  m_motor_state : Z;
  m_acceleration : Z;
  m_deceleration : Z;
  m_resolution : Z;
  m_motor_enabled : bool;
  m_position : Z;
  m_current_idle : Z;
  m_current_move : Z;
  m_reset_on_zero : bool;
  m_report_on_zero : bool;
  m_serial_number : bytes;
  m_cal_scale : double;
  m_cal_offset : Z;
}.
Arguments mkAttenuator {P}.
Arguments a_base {P}.
Arguments m_offset {P}.
Arguments m_max_speed {P}.
Arguments m_op_mode {P}.
Arguments m_motor_state {P}.
Arguments m_acceleration {P}.
Arguments m_deceleration {P}.
Arguments m_resolution {P}.
Arguments m_motor_enabled {P}.
Arguments m_position {P}.
Arguments m_current_idle {P}.
Arguments m_current_move {P}.
Arguments m_reset_on_zero {P}.
Arguments m_report_on_zero {P}.
Arguments m_serial_number {P}.
Arguments m_cal_scale {P}.
Arguments m_cal_offset {P}.

#[export] Instance eta_attenuator P : Eta (attenuator P) := λ a,
  mkAttenuator (a_base a) (m_offset a) (m_max_speed a) (m_op_mode a) (m_motor_state a)
    (m_acceleration a) (m_deceleration a) (m_resolution a) (m_motor_enabled a)
    (m_position a) (m_current_idle a) (m_current_move a) (m_reset_on_zero a)
    (m_report_on_zero a) (m_serial_number a) (m_cal_scale a) (m_cal_offset a).

Definition a_base_l {P} : lens (attenuator P) (device P) :=
  Lens a_base (λ d a, a <| a_base := d |>).
#[export] Instance a_base_l_ok P : LensOK (@a_base_l P).
Proof. split; by intros; destruct s. Qed.

Module Attenuator.
Section attenuator_ops.
Context {P : Type} {HI : SerialImpl P}.
Variables (acos cos : double → double) (pow : double → double → double).
Implicit Types a : attenuator P.

Definition on_device {A} (m : M (device P) A) : M (attenuator P) A := zoom a_base_l m.
Definition on_serial {A} (m : M P A) : M (attenuator P) A :=
  on_device (Device.on_serial m).
Definition sleep (ms : Z) : M (attenuator P) unit := on_serial (modify (sleep_for_ms ms)).

(** The body of [write_cmd]; [again] is what it does when the write fails. *)
Definition write_cmd_body (again : M (attenuator P) bool) (cmd : bytes) :
    M (attenuator P) bool :=
  st <- on_device (Device.write_cmd cmd) ;;
  if negb st then again else sleep 50 ;; ret true.

(** [write_cmd(cmd)], with its default [repeat = true]. *)
Definition write_cmd (cmd : bytes) : M (attenuator P) bool :=
  write_cmd_body
    (on_device Device.reset_connection ;; write_cmd_body (ret false) cmd) cmd.

(** The body of [read_cmd] likewise; [again] continues with the answer so far. *)
Definition read_cmd_body (again : bytes → M (attenuator P) (bytes * bool))
    (answer : bytes) : M (attenuator P) (bytes * bool) :=
  ' (answer, nbytes) <- on_serial (Serial.readline answer max_line [LF; CR]) ;;
  if (nbytes =? 0)%nat then again answer
  else if (nbytes <? 2)%nat then ret (answer, false)
  else
    answer <- lift (erase_from answer (size answer - 2)) ;;
    ret (answer, true).

(** [read_cmd(answer)], with its default [repeat = true]. *)
Definition read_cmd (answer : bytes) : M (attenuator P) (bytes * bool) :=
  read_cmd_body (λ answer,
    on_device Device.reset_connection ;;
    read_cmd_body (λ answer, ret (answer, false)) answer) answer.

(** [write_cmd] and the exception that follows when it fails. *)
Definition send_or_throw (cmd : bytes) (what : string) : M (attenuator P) unit :=
  st <- write_cmd cmd ;;
  when negb st do throw (IOException what).

(** [read_cmd] into an empty string and the exception when it fails. *)
Definition read_or_throw (what : string) : M (attenuator P) bytes :=
  ' (resp, st) <- read_cmd [] ;;
  if negb st then throw (IOException what) else ret resp.

Definition set_max_speed (speed : Z) : M (attenuator P) unit :=
  send_or_throw (str "s " ++ show speed) "Failed to set max speed" ;;
  modify (λ a, a <| m_max_speed := speed |>).

Definition get_status_raw : M (attenuator P) bytes :=
  send_or_throw (str "p") "Failed to send get status command" ;;
  resp <- read_or_throw "Failed to read status" ;;
  lift (substr resp 1 npos).

(** A member assigned from a token: [assign (f (tokens.at(i)))]. *)
Definition from_token {A} (tokens : list bytes) (i : nat) (f : bytes → outcome A)
    (assign : A → attenuator P → attenuator P) : M (attenuator P) unit :=
  t <- lift (vec_at tokens i) ;; v <- lift (f t) ;; modify (assign v).

Definition refresh_status : M (attenuator P) unit :=
  send_or_throw (str "pc") "Failed to send get status command" ;;
  resp <- read_or_throw "Failed to read status" ;;
  resp <- lift (substr resp 2 npos) ;;
  tokens <- lift (tokens_of resp [";"%char]) ;;
  from_token tokens 0 stol (λ v a, a <| m_op_mode := u32 v |>) ;;
  from_token tokens 1 stol (λ v a, a <| m_motor_state := u32 v |>) ;;
  from_token tokens 2 stoul (λ v a, a <| m_acceleration := Z.land v 0xFF |>) ;;
  from_token tokens 3 stoul (λ v a, a <| m_deceleration := Z.land v 0xFF |>) ;;
  from_token tokens 4 stoul (λ v a, a <| m_max_speed := u32 v |>) ;;
  from_token tokens 5 stoul (λ v a, a <| m_current_move := Z.land v 0xFF |>) ;;
  from_token tokens 6 stoul (λ v a, a <| m_current_idle := Z.land v 0xFF |>) ;;
  from_token tokens 8 stoul (λ v a, a <| m_resolution := u32 v |>) ;;
  from_token tokens 9 stol (λ v a, a <| m_motor_enabled := negb (v =? 0) |>) ;;
  from_token tokens 11 stol (λ v a, a <| m_reset_on_zero := negb (v =? 0) |>) ;;
  from_token tokens 12 stol (λ v a, a <| m_report_on_zero := negb (v =? 0) |>).

(** [get_position(position, status, wait)] up to the wait loop, which is also the
    call with [wait = false].  [assign] is the assignment to the reference
    [position], made before the status is looked at: it writes [m_position] when
    the member itself was passed, and nothing of the object when it is a variable
    of the caller, who gets the value as a result. *)
Definition query_position (assign : Z → attenuator P → attenuator P) :
    M (attenuator P) (Z * Z) :=
  send_or_throw (str "o") "Failed to send get position command" ;;
  resp <- read_or_throw "Failed to read position" ;;
  resp <- lift (substr resp 1 npos) ;;
  tokens <- lift (tokens_of resp [";"%char]) ;;
  t1 <- lift (vec_at tokens 1) ;;
  position <- lift (stol t1) ;;
  let position := i32 position in
  modify (assign position) ;;
  t0 <- lift (vec_at tokens 0) ;;
  if negb (size t0 =? 1) then
    throw (runtime_error (String.string_of_list_ascii
      (str "Expected only 1 char as status. Got " ++ show (size t0) ++ str "(" ++
       t0 ++ str ")")))
  else
    status <- lift (stoul t0) ;;
    ret (position, u16 status).

(** The wait loop; every iteration polls the controller once. *)
Fixpoint wait_stopped (fuel : nat) (assign : Z → attenuator P → attenuator P)
    (ps : Z * Z) : M (attenuator P) (Z * Z) :=
  if ps.2 =? 0 then ret ps
  else
    match fuel with
    | O => spin
    | S f => ps <- query_position assign ;; sleep 50 ;; wait_stopped f assign ps
    end.

(** A variable of the caller. *)
Definition local : Z → attenuator P → attenuator P := λ _ a, a.
Definition to_m_position : Z → attenuator P → attenuator P :=
  λ p a, a <| m_position := p |>.

(** Both overloads of [get_position]; [fuel] bounds the polls of the wait loop. *)
Definition get_position (fuel : nat) (assign : Z → attenuator P → attenuator P)
    (wait : bool) : M (attenuator P) (Z * Z) :=
  ps <- query_position assign ;;
  if wait then wait_stopped fuel assign ps else ret ps.

Definition refresh_position : M (attenuator P) unit :=
  ps <- get_position 0 to_m_position false ;;
  modify (λ a, a <| m_motor_state := ps.2 |>).

(** The check made before the motor is moved or the counter changed. *)
Definition require_stopped (doing : string) : M (attenuator P) unit :=
  st <- gets m_motor_state ;;
  when negb (st =? Stopped) do
    throw (runtime_error (String.string_of_list_ascii
      (str "Can't " ++ str doing ++ str " motor until it is in a stopped (state=" ++
       show st ++ str ")"))).

(** [move] and [go]: the result is what [position] is assigned, if anything. *)
Definition move (fuel : nat) (steps : Z) (wait : bool) : M (attenuator P) (option Z) :=
  refresh_position ;;
  require_stopped "move" ;;
  send_or_throw (str "m " ++ show steps) "Failed to send move command" ;;
  if wait then ps <- get_position fuel local wait ;; ret (Some ps.1) else ret None.

Definition go (fuel : nat) (target : Z) (wait : bool) : M (attenuator P) (option Z) :=
  refresh_position ;;
  require_stopped "move" ;;
  send_or_throw (str "g " ++ show target) "Failed to send go command" ;;
  if wait then ps <- get_position fuel local wait ;; ret (Some ps.1) else ret None.

Definition set_current_position (pos : Z) : M (attenuator P) unit :=
  refresh_position ;;
  require_stopped "reconfigure" ;;
  send_or_throw (str "i " ++ show pos) "Failed to send set position command" ;;
  a <- gets id ;;
  diff <- lift (chk_i32 (pos - m_position a)) ;;
  off <- lift (chk_i32 (m_offset a + diff)) ;;
  modify (λ a, a <| m_offset := off |>).

Definition set_zero : M (attenuator P) unit :=
  refresh_position ;;
  require_stopped "reconfigure" ;;
  a <- gets id ;;
  off <- lift (chk_i32 (m_offset a + m_position a)) ;;
  modify (λ a, a <| m_offset := off |>) ;;
  send_or_throw (str "h") "Failed to send set zero command".

Definition stop (force : bool) : M (attenuator P) unit :=
  send_or_throw (if force then str "b" else str "st") "Failed to send stop command".

Definition go_home : M (attenuator P) unit :=
  refresh_position ;;
  require_stopped "reconfigure" ;;
  send_or_throw (str "zp") "Failed to send go home command" ;;
  modify (λ a, a <| m_offset := 0 |>).

Definition set_resolution (res : Z) : M (attenuator P) unit :=
  let r := u32 res in
  let r := if r =? 16 then 6 else r in
  modify (λ a, a <| m_resolution := res |>) ;;
  send_or_throw (str "r " ++ show r) "Failed to set resolution".

Definition get_resolution a : Z :=
  let res := u16 (m_resolution a) in if res =? 6 then 16 else res.

(** The getters of the header. *)
Definition get_offset a : Z := m_offset a.
Definition get_max_speed a : Z := m_max_speed a.
Definition get_op_mode a : Z := m_op_mode a.
Definition get_motor_state a : Z := m_motor_state a.
Definition get_acceleration a : Z := m_acceleration a.
Definition get_deceleration a : Z := m_deceleration a.
Definition get_current_idle a : Z := m_current_idle a.
Definition get_current_move a : Z := m_current_move a.
Definition get_reset_on_zero a : bool := m_reset_on_zero a.
Definition get_report_on_zero a : bool := m_report_on_zero a.

Definition convert_current (val : Z) : float :=
  float_of_double (dmul d_0_00835 (double_of_Z val)).

Definition set_idle_current (val : Z) : M (attenuator P) unit :=
  send_or_throw (str "ws " ++ show (Z.land val 0xFF)) "Failed to set idle current" ;;
  modify (λ a, a <| m_current_idle := val |>).

Definition set_moving_current (val : Z) : M (attenuator P) unit :=
  send_or_throw (str "wm " ++ show (Z.land val 0xFF)) "Failed to set moving current" ;;
  modify (λ a, a <| m_current_move := val |>).

Definition set_acceleration (val : Z) : M (attenuator P) unit :=
  send_or_throw (str "a " ++ show (Z.land val 0xFF)) "Failed to set acceleration" ;;
  modify (λ a, a <| m_acceleration := val |>).

Definition set_deceleration (val : Z) : M (attenuator P) unit :=
  send_or_throw (str "d " ++ show (Z.land val 0xFF)) "Failed to set deceleration" ;;
  modify (λ a, a <| m_deceleration := val |>).

Definition save_settings : M (attenuator P) unit :=
  send_or_throw (str "ss") "Failed to send save settings command".

Definition reset_controller : M (attenuator P) unit :=
  send_or_throw (str "j") "Failed to send reset command".

(** The 20 character name sent by [set_serial_number]. *)
Definition sn_name (sn : bytes) : bytes :=
  if (20 <? length sn)%nat then take 20 sn
  else if (length sn <? 20)%nat then replicate (20 - length sn) SP ++ sn
  else replicate 20 SP.

Definition set_serial_number (sn : bytes) : M (attenuator P) unit :=
  send_or_throw (str "sn " ++ sn_name sn) "Failed to send command to set serial number".

(** [get_serial_number(sn)]: the answer is appended to the caller's [sn]. *)
Definition get_serial_number (sn : bytes) : M (attenuator P) bytes :=
  send_or_throw (str "n") "Failed to send command to get serial number" ;;
  ' (sn, st) <- read_cmd sn ;;
  if negb st then throw (IOException "Failed to read serial number")
  else
    sn <- lift (substr sn 1 npos) ;;
    modify (λ a, a <| m_serial_number := sn |>) ;;
    ret sn.

Definition trans_to_steps (trans : double) : M (attenuator P) Z :=
  a <- gets id ;;
  let steps := dmul (ddiv (dmul (m_cal_scale a) d_180) M_PI) (acos (dsqrt trans)) in
  n <- lift (int32_of_double steps) ;;
  n <- lift (chk_i32 (n + m_offset a)) ;;
  lift (chk_i32 (n + m_cal_offset a)).

Definition steps_to_trans (steps : Z) : M (attenuator P) double :=
  a <- gets id ;;
  n <- lift (chk_i32 (steps - m_offset a)) ;;
  step_raw <- lift (chk_i32 (n - m_cal_offset a)) ;;
  ret (pow (cos (ddiv (dmul (double_of_Z step_raw) M_PI) (dmul (m_cal_scale a) d_180)))
           (double_of_Z 2)).

Definition set_transmission (fuel : nat) (trans : double) (wait : bool) :
    M (attenuator P) (option Z) :=
  if fltb trans (S754_zero false) || fltb (double_of_Z 1) trans then
    throw (range_error (String.string_of_list_ascii
      (str "Attenuator::set_transmission : transmission [" ++ show_float trans ++
       str "] not within range [0.0,1.0]")))
  else
    steps <- trans_to_steps trans ;;
    go fuel steps wait.

Definition get_transmission : M (attenuator P) double :=
  p <- gets m_position ;; steps_to_trans p.

Definition set_cal_parameters (offset : Z) (scale : double) : M (attenuator P) unit :=
  modify (λ a, a <| m_cal_offset := offset |> <| m_cal_scale := scale |>).
Definition get_cal_parameters a : Z * double := (m_cal_offset a, m_cal_scale a).

(** [Attenuator(port, baud_rate)]. *)
Definition init (port : bytes) (baud_rate : Z) (serial : P) : attenuator P :=
  mkAttenuator (Device.construct port baud_rate serial) 0 59000 OpMode_Command Stopped
    0 0 Resolution_Half true 0 10 100 false false (str "unknown") d_cal_scale 3900.

Definition construct_body (d : device P) : M (attenuator P) unit :=
  on_serial (Serial.setBaudrate (m_baud d)) ;;
  on_serial (Serial.setPort (m_comport d)) ;;
  on_serial (Serial.setBytesize eightbits) ;;
  on_serial (Serial.setParity parity_none) ;;
  on_device (modify (λ d, d <| m_timeout_ms := 50 |>)) ;;
  on_serial (Serial.setTimeout (simpleTimeout 50)) ;;
  on_serial (Serial.setStopbits stopbits_one) ;;
  on_serial Serial.open ;;
  o <- gets (λ a, Serial.isOpen (m_serial (a_base a))) ;;
  (when negb o do throw (PortNotOpenedException "initial communication")) ;;
  refresh_status ;;
  refresh_position.
Definition construct : M (attenuator P) unit :=
  catch (d <- gets a_base ;; construct_body d)
    (λ e, on_device Device.destroy ;; throw e).

(** [~Attenuator()], followed by the destructor of the base class. *)
Definition destroy : M (attenuator P) unit :=
  noexcept (
    o <- gets (λ a, Serial.isOpen (m_serial (a_base a))) ;;
    when o do on_serial Serial.close) ;;
  on_device Device.destroy.
End attenuator_ops.
End Attenuator.

(** ** Commands on the wire *)
Section attenuator_facts.
Context {P : Type} {HI : SerialImpl P} {HO : Observable P} {HOK : SerialImplOK P}
  {HLive : SerialImplLive P}.
Implicit Types a : attenuator P.

(** The invariant of an attenuator between calls. *)
Definition att_ready a : Prop := ready (a_base a).

Notation a_step := (base_step a_base_l).

Lemma att_on_device_safe {A} (m : M (device P) A) :
  safe ready m → safe att_ready (Attenuator.on_device m).
Proof. apply (safe_zoom a_base_l ready m). Qed.

Lemma att_on_serial_safe {A} (m : M P A) :
  safe unlocked m → safe att_ready (Attenuator.on_serial m).
Proof. intros Hm. by apply att_on_device_safe, on_serial_safe. Qed.

#[local] Hint Resolve att_on_device_safe att_on_serial_safe : safe.

Lemma att_write_cmd_safe cmd : safe att_ready (Attenuator.write_cmd cmd).
Proof.
  unfold Attenuator.write_cmd, Attenuator.write_cmd_body, Attenuator.sleep. solve_safe.
Qed.

Lemma att_read_cmd_body_safe again answer :
  (∀ b, safe att_ready (again b)) → safe att_ready (Attenuator.read_cmd_body again answer).
Proof.
  intros Ha. unfold Attenuator.read_cmd_body. apply safe_bind.
  - apply att_on_serial_safe, readline_safe; unfold max_line; simpl; lia.
  - intros [b n]. solve_safe.
Qed.

Lemma att_read_cmd_safe answer : safe att_ready (Attenuator.read_cmd answer).
Proof.
  apply att_read_cmd_body_safe. intros b. apply safe_bind; [solve_safe|]. intros _.
  apply att_read_cmd_body_safe. solve_safe.
Qed.

Lemma att_send_or_throw_safe cmd what : safe att_ready (Attenuator.send_or_throw cmd what).
Proof. unfold Attenuator.send_or_throw. eauto using att_write_cmd_safe with safe. Qed.

Lemma att_read_or_throw_safe what : safe att_ready (Attenuator.read_or_throw what).
Proof.
  unfold Attenuator.read_or_throw. apply safe_bind; [apply att_read_cmd_safe|].
  intros [r st]. solve_safe.
Qed.

#[local] Hint Resolve att_write_cmd_safe att_read_cmd_safe att_send_or_throw_safe
  att_read_or_throw_safe : safe.

(** One transmission, with the pause after a successful one. *)
Lemma write_cmd_body_spec (again : M (attenuator P) bool) cmd (R E : device P → Prop) a :
  att_ready a →
  (∀ d', sends (a_base a) (frame (a_base a) cmd) d' → R d') →
  (∀ d', aborted (a_base a) cmd d' → E d') →
  (∀ a1, a_step a (attempted (a_base a) cmd false) a1 →
     wp again (spec (λ b : bool, a_step a (if b then R else E)) (λ _, a_step a E)) a1) →
  wp (Attenuator.write_cmd_body again cmd)
    (spec (λ b : bool, a_step a (if b then R else E)) (λ _, a_step a E)) a.
Proof.
  intros Hr HR HE Hagain. unfold Attenuator.write_cmd_body. eapply wp_bind_spec.
  { eapply wp_spec_mono; [apply (on_base_spec a_base_l), write_cmd_spec, Hr|
      intros b a1 H; exact H|]. intros e a1 H. eapply base_step_mono; [exact H|apply HE]. }
  cbv beta. intros b a1 H1. destruct b; simpl negb; cbv iota; [|by apply Hagain].
  eapply wp_bind_spec; [eapply wp_spec_mono|].
  - apply (base_sleep_spec a_base_l). apply H1.
  - intros ? a2 H2. exact H2.
  - done.
  - cbv beta. intros ? a2 H2. apply wp_ret. eapply (base_step_trans a_base_l);
      [exact H1|exact H2|apply HR].
Qed.

Lemma att_write_cmd_spec cmd a : att_ready a →
  wp (Attenuator.write_cmd cmd)
    (spec (λ b : bool, a_step a (if b then delivered (a_base a) cmd
                                 else undelivered (a_base a) cmd))
          (λ _, a_step a (undelivered (a_base a) cmd))) a.
Proof.
  intros Hr. set (d := a_base a).
  assert (∀ d', aborted d cmd d' → undelivered d cmd d') as Hab.
  { intros d' [n H]. exists n, 0%nat. by rewrite app_nil_r. }
  apply write_cmd_body_spec; [done| |done|].
  { intros d' H. by exists 0%nat; split; [left|]. }
  intros a1 H1. destruct (proj1 H1) as (n & Hn & Hs1).
  eapply wp_bind_spec with (R0 := λ _, a_step a (sends d (take n (frame d cmd)))).
  { eapply wp_spec_mono; [by apply (on_base_spec a_base_l), reset_connection_spec|..];
      intros ? a2 H2; (eapply (base_step_trans a_base_l); [exact H1|exact H2|]); [done|].
    intros H. apply Hab. by exists n. }
  intros ? a2 H2.
  assert (frame (a_base a2) cmd = frame d cmd) as Hf
    by exact (sends_frame _ _ _ cmd (proj1 H2)).
  assert (∀ m d', sends (a_base a2) (take m (frame d cmd)) d' → undelivered d cmd d') as Hun.
  { intros m d' H. exists n, m. by eapply sends_trans; [apply H2|]. }
  eapply wp_spec_mono.
  - apply (write_cmd_body_spec (ret false) cmd (delivered d cmd) (undelivered d cmd) a2).
    + by eapply sends_ready; [apply H2|].
    + intros d' H. rewrite Hf in H. exists n. split; [by right|].
      by eapply sends_trans; [apply H2|].
    + intros d' [m H]. rewrite Hf in H. by apply (Hun m).
    + intros a3 H3. apply wp_ret. eapply base_step_mono; [exact H3|].
      intros (m & _ & H). rewrite Hf in H. by apply (Hun m).
  - intros b a3 H3. eapply (base_step_trans a_base_l); [exact H2|exact H3|done].
  - intros e a3 H3. eapply (base_step_trans a_base_l); [exact H2|exact H3|done].
Qed.

Lemma att_send_or_throw_spec cmd what a : att_ready a →
  wp (Attenuator.send_or_throw cmd what)
    (spec (λ _, a_step a (delivered (a_base a) cmd))
          (λ _, a_step a (undelivered (a_base a) cmd))) a.
Proof.
  intros Hr. unfold Attenuator.send_or_throw.
  eapply wp_bind_spec; [by apply att_write_cmd_spec|].
  cbv beta. intros [] a1 H1; [by apply wp_ret|by apply wp_throw].
Qed.

(** Settings that are sent and then remembered. *)
Inductive motor_setting :=
  | MaxSpeed (v : Z)
  | IdleCurrent (v : Z)
  | MovingCurrent (v : Z)
  | Acceleration (v : Z)
  | Deceleration (v : Z).

Definition motor_exec (c : motor_setting) : M (attenuator P) unit :=
  match c with
  | MaxSpeed v => Attenuator.set_max_speed v
  | IdleCurrent v => Attenuator.set_idle_current v
  | MovingCurrent v => Attenuator.set_moving_current v
  | Acceleration v => Attenuator.set_acceleration v
  | Deceleration v => Attenuator.set_deceleration v
  end.

Definition motor_text (c : motor_setting) : bytes :=
  match c with
  | MaxSpeed v => str "s " ++ show v
  | IdleCurrent v => str "ws " ++ show (v `mod` 256)
  | MovingCurrent v => str "wm " ++ show (v `mod` 256)
  | Acceleration v => str "a " ++ show (v `mod` 256)
  | Deceleration v => str "d " ++ show (v `mod` 256)
  end.

Definition motor_remember (c : motor_setting) a : attenuator P :=
  match c with
  | MaxSpeed v => a <| m_max_speed := v |>
  | IdleCurrent v => a <| m_current_idle := v |>
  | MovingCurrent v => a <| m_current_move := v |>
  | Acceleration v => a <| m_acceleration := v |>
  | Deceleration v => a <| m_deceleration := v |>
  end.

Lemma motor_exec_eq c : ∃ what,
  motor_exec c =
  (Attenuator.send_or_throw (motor_text c) what ;; modify (motor_remember c)).
Proof.
  destruct c; eexists; cbn [motor_exec motor_text];
    rewrite <- ?land_ff_mod; reflexivity.
Qed.


(** ** Queries and motion end without undefined behaviour *)
Lemma query_position_safe assign :
  (∀ p a, att_ready a → att_ready (assign p a)) →
  safe att_ready (Attenuator.query_position assign).
Proof. intros Ha. unfold Attenuator.query_position. solve_safe. Qed.

Lemma refresh_position_safe : safe att_ready Attenuator.refresh_position.
Proof.
  unfold Attenuator.refresh_position, Attenuator.get_position.
  apply safe_bind; [|solve_safe].
  apply safe_bind; [by apply query_position_safe|solve_safe].
Qed.

Lemma require_stopped_safe doing : safe att_ready (Attenuator.require_stopped doing).
Proof. unfold Attenuator.require_stopped. solve_safe. Qed.

Lemma from_token_safe {A} tokens i (f : bytes → outcome A) assign :
  (∀ t, defined (f t)) → (∀ v a, att_ready a → att_ready (assign v a)) →
  safe att_ready (Attenuator.from_token tokens i f assign).
Proof. intros Hf Ha. unfold Attenuator.from_token. solve_safe. Qed.

Lemma refresh_status_safe : safe att_ready Attenuator.refresh_status.
Proof.
  unfold Attenuator.refresh_status.
  do 4 (apply safe_bind; [solve_safe|intros ?]).
  do 10 (apply safe_bind; [apply from_token_safe; [intros; solve_safe|done]|intros _]).
  apply from_token_safe; [intros; solve_safe|done].
Qed.

#[local] Hint Resolve refresh_position_safe require_stopped_safe refresh_status_safe : safe.

(** Reading hands nothing over. *)
Lemma att_silent {A} (m : M P A) d0 x a :
  silent m → sends d0 x (a_base a) →
  wp (Attenuator.on_serial m) (spec (λ _, a_step a (sends d0 x)) (λ _, a_step a (sends d0 x))) a.
Proof. intros Hm Hs. by apply (on_base_spec a_base_l), on_serial_silent. Qed.

Lemma att_read_body_spec again answer d0 x a :
  sends d0 x (a_base a) →
  (∀ b a1, a_step a (sends d0 x) a1 →
     wp (again b) (spec (λ _, a_step a (sends d0 x)) (λ _, a_step a (sends d0 x))) a1) →
  wp (Attenuator.read_cmd_body again answer)
    (spec (λ _, a_step a (sends d0 x)) (λ _, a_step a (sends d0 x))) a.
Proof.
  intros Hs Hagain. unfold Attenuator.read_cmd_body.
  eapply wp_bind_spec.
  { apply att_silent; [|done]. apply readline_silent; unfold max_line; simpl; lia. }
  cbv beta. intros [b n] a1 H1. destruct (n =? 0)%nat; [by apply Hagain|].
  destruct (n <? 2)%nat; [by apply wp_ret|]. apply wp_bind, wp_lift.
  unfold erase_from. by destruct (size b <? size b - 2).
Qed.

Lemma att_read_cmd_spec answer d0 x a : sends d0 x (a_base a) →
  wp (Attenuator.read_cmd answer)
    (spec (λ _, a_step a (sends d0 x)) (λ _, a_step a (sends d0 x))) a.
Proof.
  intros Hs. apply att_read_body_spec; [done|]. intros b a1 H1.
  eapply wp_bind_spec with (R0 := λ _, a_step a (sends d0 x)).
  { eapply wp_spec_mono; [apply (on_base_spec a_base_l), reset_connection_spec, H1|..];
      intros ? a2 H2; (eapply (base_step_trans a_base_l); [exact H1|exact H2|done]). }
  intros ? a2 H2. eapply wp_spec_mono.
  - apply att_read_body_spec; [apply H2|]. intros b' a3 H3. by apply wp_ret.
  - intros ? a3 H3. eapply (base_step_trans a_base_l); [exact H2|exact H3|done].
  - intros ? a3 H3. eapply (base_step_trans a_base_l); [exact H2|exact H3|done].
Qed.

Lemma query_position_spec assign a : att_ready a →
  (∀ p a, a_base (assign p a) = a_base a) →
  wp (Attenuator.query_position assign)
    (spec (λ _ a', delivered (a_base a) (str "o") (a_base a')) (λ _ _, True)) a.
Proof.
  intros Hr Ha. unfold Attenuator.query_position.
  eapply wp_bind_spec.
  { eapply wp_spec_mono; [by apply att_send_or_throw_spec|intros ? a1 H; exact H|done]. }
  cbv beta. intros ? a1 [(n & Hn & H1) _].
  eapply wp_bind_spec with (R0 := λ _ a', delivered (a_base a) (str "o") (a_base a')).
  { unfold Attenuator.read_or_throw. eapply wp_bind_spec.
    - eapply wp_spec_mono; [by apply att_read_cmd_spec|intros ? a2 H; exact H|done].
    - cbv beta. intros [resp st] a2 [H2 _].
      destruct st; [apply wp_ret|apply wp_throw]; [by exists n|done]. }
  intros resp a2 H2. cbn beta in H2.
  assert (∀ {A B} (o : outcome A) (k : A → M (attenuator P) B) R a3, defined o →
    (∀ v, o = Ret v → wp (k v) (spec R (λ _ _, True)) a3) →
    wp (bind (lift o) k) (spec R (λ _ _, True)) a3) as Hlift.
  { intros A B o k R a3 Hd Hk. apply wp_bind, wp_lift. destruct o; try done. by apply Hk. }
  apply Hlift; [solve_safe|]. intros r _. apply Hlift; [solve_safe|]. intros toks _.
  apply Hlift; [solve_safe|]. intros t1 _. apply Hlift; [solve_safe|]. intros p _.
  apply wp_bind_modify. apply Hlift; [solve_safe|]. intros t0 _.
  destruct (negb _); [done|]. apply Hlift; [solve_safe|]. intros st _.
  apply wp_ret. simpl. by rewrite Ha.
Qed.

Lemma busy_refused (A : Type) doing (rest : M (attenuator P) A) a a1 :
  Attenuator.refresh_position a = (Ret tt, a1) → m_motor_state a1 ≠ Stopped →
  (Attenuator.refresh_position ;; Attenuator.require_stopped doing ;; rest) a =
  (Throw (runtime_error (String.string_of_list_ascii
    (str "Can't " ++ str doing ++ str " motor until it is in a stopped (state=" ++
     show (m_motor_state a1) ++ str ")"))), a1).
Proof.
  intros Hr Hs. rewrite (bind_ret_run _ _ _ tt a1) by done.
  erewrite bind_throw_run; [done|]. unfold Attenuator.require_stopped, bind, gets.
  by rewrite (proj2 (Z.eqb_neq _ _) Hs).
Qed.

(** C10: while the controller reports a moving motor, no operation moves it or
    changes its counter: each one throws after the position query, which is all
    that was handed over, and leaves the offset alone. *)
Theorem busy_motor_refused (fuel : nat) (n : Z) (wait : bool) (a a1 : attenuator P) :
  att_ready a → Attenuator.refresh_position a = (Ret tt, a1) →
  m_motor_state a1 ≠ Stopped →
  delivered (a_base a) (str "o") (a_base a1) ∧
  ∃ moving configuring,
    Attenuator.move fuel n wait a = (Throw (runtime_error moving), a1) ∧
    Attenuator.go fuel n wait a = (Throw (runtime_error moving), a1) ∧
    Attenuator.set_current_position n a = (Throw (runtime_error configuring), a1) ∧
    Attenuator.set_zero a = (Throw (runtime_error configuring), a1) ∧
    Attenuator.go_home a = (Throw (runtime_error configuring), a1).
Proof.
  intros Hr Href Hst. split.
  - pose proof (query_position_spec Attenuator.to_m_position a Hr (λ _ _, eq_refl)) as H.
    unfold wp in H. unfold Attenuator.refresh_position, Attenuator.get_position, bind in Href.
    destruct (Attenuator.query_position Attenuator.to_m_position a) as [[ps|e| |] a2];
      try done. simpl in *. unfold ret, modify in Href. simplify_eq/=. exact H.
  - do 2 eexists.
    do 2 (split; [by apply (busy_refused _ "move" _ a a1)|]).
    do 2 (split; [by apply (busy_refused _ "reconfigure" _ a a1)|]).
    by apply (busy_refused _ "reconfigure" _ a a1).
Qed.

Lemma move_safe fuel n : safe att_ready (Attenuator.move fuel n false).
Proof. unfold Attenuator.move. solve_safe. Qed.
Lemma go_safe fuel n : safe att_ready (Attenuator.go fuel n false).
Proof. unfold Attenuator.go. solve_safe. Qed.

Lemma att_get_serial_number_safe sn : safe att_ready (Attenuator.get_serial_number sn).
Proof.
  unfold Attenuator.get_serial_number. apply safe_bind; [solve_safe|]. intros _.
  apply safe_bind; [solve_safe|]. intros [r st]. solve_safe.
Qed.
Lemma get_status_raw_safe : safe att_ready Attenuator.get_status_raw.
Proof. unfold Attenuator.get_status_raw. solve_safe. Qed.
Lemma go_home_safe : safe att_ready Attenuator.go_home.
Proof. unfold Attenuator.go_home. solve_safe. Qed.
Lemma stop_safe force : safe att_ready (Attenuator.stop force).
Proof. unfold Attenuator.stop. solve_safe. Qed.
Lemma reset_controller_safe : safe att_ready Attenuator.reset_controller.
Proof. unfold Attenuator.reset_controller. solve_safe. Qed.
Lemma get_position_safe fuel : safe att_ready (Attenuator.get_position fuel Attenuator.local false).
Proof.
  unfold Attenuator.get_position. apply safe_bind; [by apply query_position_safe|solve_safe].
Qed.
Lemma att_set_resolution_safe n : safe att_ready (Attenuator.set_resolution n).
Proof. unfold Attenuator.set_resolution. solve_safe. Qed.
Lemma att_set_idle_current_safe n : safe att_ready (Attenuator.set_idle_current n).
Proof. unfold Attenuator.set_idle_current. solve_safe. Qed.
Lemma att_set_moving_current_safe n : safe att_ready (Attenuator.set_moving_current n).
Proof. unfold Attenuator.set_moving_current. solve_safe. Qed.
Lemma att_set_acceleration_safe n : safe att_ready (Attenuator.set_acceleration n).
Proof. unfold Attenuator.set_acceleration. solve_safe. Qed.
Lemma att_set_deceleration_safe n : safe att_ready (Attenuator.set_deceleration n).
Proof. unfold Attenuator.set_deceleration. solve_safe. Qed.
Lemma att_set_max_speed_safe n : safe att_ready (Attenuator.set_max_speed n).
Proof. unfold Attenuator.set_max_speed. solve_safe. Qed.

(** Waiting for the motor may use up its polls, and the offset may overflow; the
    invariant holds afterwards all the same. *)
Lemma wait_stopped_keeps fuel ps u :
  keeps True u att_ready (Attenuator.wait_stopped fuel Attenuator.local ps).
Proof.
  revert ps. induction fuel as [|f IH]; intros ps; simpl; apply keeps_if.
  1, 3: apply keeps_safe; solve_safe.
  - by intros a Ha.
  - apply keeps_bind; [by apply keeps_safe, query_position_safe|]. intros ps'.
    apply keeps_bind; [|by intros _]. apply keeps_safe. unfold Attenuator.sleep. solve_safe.
Qed.
Lemma wait_position_keeps fuel u :
  keeps True u att_ready (ps <- Attenuator.get_position fuel Attenuator.local true ;;
                          ret (Some ps.1)).
Proof.
  apply keeps_bind; [|solve_keeps].
  apply keeps_bind; [by apply keeps_safe, query_position_safe|].
  intros ps. apply wait_stopped_keeps.
Qed.
Lemma move_keeps fuel n u : keeps True u att_ready (Attenuator.move fuel n true).
Proof.
  do 3 (apply keeps_bind; [apply keeps_safe; solve_safe|intros _]). apply wait_position_keeps.
Qed.
Lemma go_keeps fuel n u : keeps True u att_ready (Attenuator.go fuel n true).
Proof.
  do 3 (apply keeps_bind; [apply keeps_safe; solve_safe|intros _]). apply wait_position_keeps.
Qed.

(** A waiting motion assigns the final position whenever it returns. *)
Lemma move_assigns fuel n : yields (λ p, p ≠ None) (Attenuator.move (P:=P) fuel n true).
Proof. unfold Attenuator.move. by solve_yields. Qed.
Lemma go_assigns fuel n : yields (λ p, p ≠ None) (Attenuator.go (P:=P) fuel n true).
Proof. unfold Attenuator.go. by solve_yields. Qed.
Lemma chk_keeps (S : Type) (t : Prop) (I : S → Prop) n : keeps t True I (lift (S:=S) (chk_i32 n)).
Proof. intros s Hs. unfold chk_i32. by case_match. Qed.
Lemma set_zero_keeps t : keeps t True att_ready Attenuator.set_zero.
Proof.
  pose proof chk_keeps. unfold Attenuator.set_zero. solve_keeps.
Qed.

Lemma att_destroy_safe : safe att_ready Attenuator.destroy.
Proof. unfold Attenuator.destroy. solve_safe. Qed.

(** The constructor, with a baud rate the port accepts. *)
Lemma att_construct_safe a : att_ready a → 4 ≤ m_baud (a_base a) < 2 ^ 32 →
  wp Attenuator.construct (post (λ _, att_ready) (λ _, att_ready)) a.
Proof.
  intros Hr Hb. set (d := a_base a) in *.
  enough (safe att_ready (catch (Attenuator.construct_body d)
    (λ e, Attenuator.on_device Device.destroy ;; throw e))) as H by exact (H a Hr).
  unfold Attenuator.construct_body. eauto 40 with safe.
Qed.

(** The queries and the motion commands of the attenuator end on every input,
    with a result or an exception: no undefined behaviour whatever the controller
    answers, no deadlock on the port's mutexes, which are free again afterwards. *)
Lemma attenuator_ops_safe (fuel : nat) (n : Z) (sn : bytes) (force : bool) :
  safe att_ready Attenuator.refresh_status ∧
  safe att_ready Attenuator.refresh_position ∧
  safe att_ready Attenuator.get_status_raw ∧
  safe att_ready (Attenuator.get_serial_number sn) ∧
  safe att_ready (Attenuator.move fuel n false) ∧
  safe att_ready (Attenuator.go fuel n false) ∧
  safe att_ready Attenuator.go_home ∧
  safe att_ready (Attenuator.stop force).
Proof.
  split; [solve_safe|]. split; [solve_safe|].
  split; [apply get_status_raw_safe|]. split; [apply att_get_serial_number_safe|].
  split; [apply move_safe|]. split; [apply go_safe|].
  split; [apply go_home_safe|apply stop_safe].
Qed.

(** ** Waiting for the motor *)

(** Polling from [a], with the pause after each poll: the positions reported
    while the motor moves, and the poll that reports it stopped. *)
Inductive polls (assign : Z → attenuator P → attenuator P) :
    attenuator P → list Z → Z → attenuator P → Prop :=
  | polls_stop a p a1 a2 :
      Attenuator.query_position assign a = (Ret (p, 0), a1) →
      Attenuator.sleep 50 a1 = (Ret tt, a2) → polls assign a [] p a2
  | polls_move a p st a1 a2 ps q a3 :
      Attenuator.query_position assign a = (Ret (p, st), a1) → st ≠ 0 →
      Attenuator.sleep 50 a1 = (Ret tt, a2) →
      polls assign a2 ps q a3 → polls assign a (p :: ps) q a3.

Lemma wait_stopped_polls assign a ps q a' p0 st0 fuel :
  polls assign a ps q a' → st0 ≠ 0 → (length ps < fuel)%nat →
  Attenuator.wait_stopped fuel assign (p0, st0) a = (Ret (q, 0), a').
Proof.
  intros Hp. revert p0 st0 fuel.
  induction Hp as [a p a1 a2 Hq Hs|a p st a1 a2 ps q a3 Hq Hst Hs Hp IH];
    intros p0 st0 fuel Hst0 Hf; (destruct fuel as [|f]; [simpl in Hf; lia|]);
    cbn [Attenuator.wait_stopped snd]; rewrite (proj2 (Z.eqb_neq _ _) Hst0);
    rewrite (bind_ret_run _ _ _ _ _ Hq), (bind_ret_run _ _ _ _ _ Hs).
  - by destruct f.
  - apply IH; [done|]. simpl in Hf. lia.
Qed.

(** C35: with [wait], [get_position] returns as soon as the controller reports
    the motor stopped, with the position of that report: it polls once more than
    the number of reports of a moving motor. *)
Theorem get_position_waits (assign : Z → attenuator P → attenuator P)
    (a a1 a' : attenuator P) (p0 st0 q : Z) (ps : list Z) (fuel : nat) :
  Attenuator.query_position assign a = (Ret (p0, st0), a1) → st0 ≠ 0 →
  polls assign a1 ps q a' → (length ps < fuel)%nat →
  Attenuator.get_position fuel assign true a = (Ret (q, 0), a').
Proof.
  intros Hq Hst Hp Hf. unfold Attenuator.get_position.
  rewrite (bind_ret_run _ _ _ _ _ Hq). by apply (wait_stopped_polls assign a1 ps).
Qed.
End attenuator_facts.

#[export] Hint Resolve refresh_status_safe get_status_raw_safe att_get_serial_number_safe
  get_position_safe go_home_safe stop_safe reset_controller_safe att_destroy_safe : safe.
#[export] Hint Resolve att_set_resolution_safe att_set_idle_current_safe
  att_set_moving_current_safe att_set_acceleration_safe att_set_deceleration_safe
  att_set_max_speed_safe : safe.


(** ** The position offset *)
Section attenuator_offset.
Context {P : Type} {HI : SerialImpl P} {HO : Observable P} {HOK : SerialImplOK P}
  {HLive : SerialImplLive P}.
Implicit Types a : attenuator P.

Lemma att_send_post cmd what a : att_ready a →
  wp (Attenuator.send_or_throw cmd what)
    (post (λ _, base_step a_base_l a (delivered (a_base a) cmd))
          (λ _, base_step a_base_l a (undelivered (a_base a) cmd))) a.
Proof.
  intros Hr. apply (wp_spec_safe att_ready); [apply att_send_or_throw_safe|done|].
  by apply att_send_or_throw_spec.
Qed.

Lemma stopped_run (A : Type) doing (rest : M (attenuator P) A) a a1 :
  Attenuator.refresh_position a = (Ret tt, a1) → m_motor_state a1 = Stopped →
  (Attenuator.refresh_position ;; Attenuator.require_stopped doing ;; rest) a = rest a1.
Proof.
  intros Hr Hs. rewrite (bind_ret_run _ _ _ tt a1) by done.
  rewrite (bind_ret_run _ _ _ tt a1); [done|].
  unfold Attenuator.require_stopped, bind, gets. by rewrite Hs.
Qed.

Lemma wp_run {A} (m : M (attenuator P) A) a (m' : M (attenuator P) A) a1 Q :
  m a = m' a1 → wp m' Q a1 → wp m Q a.
Proof. unfold wp. by intros ->. Qed.

Lemma refresh_position_ready a a1 :
  att_ready a → Attenuator.refresh_position a = (Ret tt, a1) → att_ready a1.
Proof.
  intros Hr E. exact (wp_elim _ _ _ _ _ (refresh_position_safe a Hr) E).
Qed.

(** C36: [set_current_position] changes the offset by the difference between the
    new and the reported position once the command went out, and not otherwise;
    its only undefined behaviour is that this difference, or the sum, does not fit
    32 bits. *)
Theorem set_current_position_offset (pos : Z) (a a1 : attenuator P) :
  att_ready a → Attenuator.refresh_position a = (Ret tt, a1) →
  m_motor_state a1 = Stopped →
  let diff := pos - m_position a1 in
  wp (Attenuator.set_current_position pos)
    (λ o a', match o with
     | Ret _ => delivered (a_base a1) (str "i " ++ show pos) (a_base a') ∧
                m_offset a' = m_offset a1 + diff ∧ in_s 32 (m_offset a')
     | Throw _ => m_offset a' = m_offset a1
     | Undef => ¬ in_s 32 diff ∨ ¬ in_s 32 (m_offset a1 + diff)
     | Spin => False
     end) a.
Proof.
  intros Hr Href Hst diff. pose proof (refresh_position_ready a a1 Hr Href) as Hr1.
  eapply wp_run; [by apply (stopped_run _ "reconfigure" _ a a1)|].
  apply wp_bind. eapply wp_mono; [by apply att_send_post|].
  intros [u|e| |] a2; simpl; [|by intros [_ ->]|done..]. intros [H2 E2].
  assert (m_position a2 = m_position a1 ∧ m_offset a2 = m_offset a1) as [Ep Eo]
    by by rewrite E2.
  apply wp_bind_gets. unfold id. rewrite Ep, Eo. fold diff.
  apply wp_bind, wp_lift. unfold chk_i32 at 1.
  destruct (in_sb 32 diff) eqn:E1; [|left; intros ?%in_sb_spec; congruence].
  apply wp_bind, wp_lift. unfold chk_i32.
  destruct (in_sb 32 (m_offset a1 + diff)) eqn:E3; [|right; intros ?%in_sb_spec; congruence].
  apply wp_modify. simpl. split; [done|]. split; [done|]. by apply in_sb_spec.
Qed.

(** [set_zero] and [set_current_position(0)] both make the present position
    the zero of the controller's counter, but they move the offset in opposite
    directions; [set_zero] moves it even when its command cannot be sent. *)
Lemma zeroing_disagrees (a a1 : attenuator P) :
  att_ready a → Attenuator.refresh_position a = (Ret tt, a1) →
  m_motor_state a1 = Stopped → in_s 32 (- m_position a1) →
  in_s 32 (m_offset a1 - m_position a1) → in_s 32 (m_offset a1 + m_position a1) →
  wp (Attenuator.set_current_position 0)
    (post (λ _ a', m_offset a' = m_offset a1 - m_position a1)
          (λ _ a', m_offset a' = m_offset a1)) a ∧
  wp Attenuator.set_zero
    (post (λ _ a', m_offset a' = m_offset a1 + m_position a1)
          (λ _ a', m_offset a' = m_offset a1 + m_position a1)) a.
Proof.
  intros Hr Href Hst H0 Hm Hp. pose proof (refresh_position_ready a a1 Hr Href) as Hr1.
  split; (eapply wp_run; [by apply (stopped_run _ "reconfigure" _ a a1)|]).
  - apply wp_bind. eapply wp_mono; [by apply att_send_post|].
    intros [u|e| |] a2; simpl; [|by intros [_ ->]|done..]. intros [_ ->].
    apply wp_bind_gets. simpl. unfold chk_i32 at 1.
    apply in_sb_spec in H0, Hm. change (0 - ?p) with (- p). rewrite H0.
    apply wp_bind, wp_lift, wp_bind, wp_lift. unfold chk_i32.
    change (m_offset a1 + - m_position a1) with (m_offset a1 - m_position a1).
    rewrite Hm. by apply wp_modify.
  - apply wp_bind_gets. unfold id. apply wp_bind, wp_lift. unfold chk_i32.
    apply in_sb_spec in Hp. rewrite Hp. apply wp_bind_modify.
    eapply wp_mono; [by apply att_send_post|].
    by intros [u|e| |] a2; simpl; [intros [_ ->]|intros [_ ->]| |].
Qed.
End attenuator_offset.

(** ** Serial number, resolution, transmission *)

(** The name sent to the controller always has 20 characters: a shorter
    serial number is padded with blanks on the left and a longer one truncated,
    but one of exactly 20 characters is replaced by 20 blanks. *)
Lemma sn_name_spec (sn : bytes) :
  length (Attenuator.sn_name sn) = 20%nat ∧
  ((length sn < 20)%nat →
     Attenuator.sn_name sn = replicate (20 - length sn) SP ++ sn) ∧
  ((20 < length sn)%nat → Attenuator.sn_name sn = take 20 sn) ∧
  (length sn = 20%nat → Attenuator.sn_name sn = replicate 20 SP).
Proof.
  unfold Attenuator.sn_name.
  destruct (Nat.ltb_spec 20 (length sn)), (Nat.ltb_spec (length sn) 20);
    (split; [rewrite ?length_app, ?length_replicate, ?length_take; lia|]);
    repeat split; intros; try done; lia.
Qed.

Section attenuator_resolution.
Context {P : Type} {HI : SerialImpl P} {HO : Observable P} {HOK : SerialImplOK P}
  {HLive : SerialImplLive P}.
Implicit Types a : attenuator P.

(** The controller's code of a resolution. *)
Definition resolution_code (r : Z) : Z := if r =? 16 then 6 else r.

(** For the five microstepping modes, [set_resolution] sends the code of the
    controller and [get_resolution] gives the mode back, both from what was set
    and from the code the controller reports.  The mode is remembered even when
    the command could not be sent. *)
Lemma resolution_roundtrip (r : Z) (a : attenuator P) :
  r ∈ [1; 2; 4; 8; 16] → att_ready a →
  wp (Attenuator.set_resolution r)
    (post (λ _ a', delivered (a_base a) (str "r " ++ show (resolution_code r)) (a_base a') ∧
             Attenuator.get_resolution a' = r ∧
             Attenuator.get_resolution (a' <| m_resolution := resolution_code r |>) = r)
          (λ _ a', Attenuator.get_resolution a' = r)) a.
Proof.
  intros Hin Hr.
  assert (u32 r = r ∧ Attenuator.get_resolution (a <| m_resolution := r |>) = r ∧
    ∀ a', Attenuator.get_resolution (a' <| m_resolution := resolution_code r |>) = r)
    as (Hu & Hg & Hc).
  { rewrite !elem_of_cons, elem_of_nil in Hin.
    repeat destruct Hin as [->|Hin]; [by vm_compute..|done]. }
  unfold Attenuator.set_resolution. rewrite Hu. apply wp_bind_modify.
  fold (resolution_code r).
  eapply wp_mono; [by apply (att_send_post _ _ (a <| m_resolution := r |>))|].
  intros [u|e| |] a2; simpl; [|by intros [_ ->]|done..]. intros [H2 ->].
  split; [exact H2|]. split; [exact Hg|apply Hc].
Qed.
End attenuator_resolution.

Section transmission.
Context {P : Type} {HI : SerialImpl P}.
Variables (acos cos : double → double) (pow : double → double → double).
Hypothesis acos_one : acos (double_of_Z 1) = S754_zero false.
Hypothesis acos_nan : acos S754_nan = S754_nan.
Hypothesis cos_zero : ∀ s, cos (S754_zero s) = double_of_Z 1.
Hypothesis pow_one : ∀ y, pow (double_of_Z 1) y = double_of_Z 1.

(** Full transmission is at the calibration offset: with the default scale,
    transmission 1 is converted to the sum of the two offsets, and that position
    back to transmission 1. *)
Lemma full_transmission_roundtrip (a : attenuator P) :
  m_cal_scale a = d_cal_scale → in_s 32 (m_offset a) →
  in_s 32 (m_offset a + m_cal_offset a) →
  Attenuator.trans_to_steps acos (double_of_Z 1) a =
    (Ret (m_offset a + m_cal_offset a), a) ∧
  (in_s 32 (m_cal_offset a) →
   Attenuator.steps_to_trans cos pow (m_offset a + m_cal_offset a) a =
     (Ret (double_of_Z 1), a)).
Proof.
  intros Hs H1 H2. apply in_sb_spec in H1, H2. split.
  - unfold Attenuator.trans_to_steps, bind, gets, lift, id. rewrite Hs.
    change (dsqrt (double_of_Z 1)) with (double_of_Z 1). rewrite acos_one.
    change (int32_of_double _) with (Ret 0). cbv iota beta. unfold chk_i32.
    rewrite Z.add_0_l, H1, H2. done.
  - intros H3. apply in_sb_spec in H3.
    unfold Attenuator.steps_to_trans, bind, gets, lift, id, chk_i32. rewrite Hs.
    replace (m_offset a + m_cal_offset a - m_offset a) with (m_cal_offset a) by lia.
    rewrite H3, Z.sub_diag. change (in_sb 32 0) with true. cbv iota beta.
    change (ddiv _ _) with (S754_zero true). by rewrite cos_zero, pow_one.
Qed.

(** A transmission that is not a number passes the range check of
    [set_transmission], and its conversion to an integer is undefined behaviour. *)
Lemma nan_transmission_undefined (fuel : nat) (wait : bool) (a : attenuator P) :
  Attenuator.set_transmission acos fuel S754_nan wait a = (Undef, a).
Proof.
  unfold Attenuator.set_transmission. change (fltb S754_nan _ || fltb _ S754_nan) with false.
  cbv iota. unfold Attenuator.trans_to_steps, bind, gets, lift, id.
  change (dsqrt S754_nan) with S754_nan. rewrite acos_nan.
  assert (∀ x, dmul x S754_nan = S754_nan) as -> by by intros [].
  done.
Qed.
End transmission.

(** ** What the controller's answers mean *)
Section attenuator_replies.
Context {P : Type} {HI : SerialImpl P}.
Implicit Types a : attenuator P.

(** The attenuator after a read on its port left it in [s]. *)
Definition with_port a (s : P) : attenuator P :=
  a <| a_base := a_base a <| m_serial := s |> |>.

(** The port of [a] delivers [body] and the terminator, ending in [s]. *)
Definition answers a (body : bytes) (s : P) : Prop :=
  CR ∉ body ∧ (length (body ++ [LF; CR]) ≤ max_line)%nat ∧
  ∃ s0, impl_readLock (m_serial (a_base a)) = (Ret tt, s0) ∧
        reads s0 (body ++ [LF; CR]) s.

Lemma att_on_serial_run {A} (m : M P A) a o s :
  m (m_serial (a_base a)) = (o, s) → Attenuator.on_serial m a = (o, with_port a s).
Proof.
  intros Hm. apply (zoom_run a_base_l _ a _ (a_base a <| m_serial := s |>)).
  by apply on_serial_run.
Qed.

Lemma read_cmd_answers answer body a s : answers a body s →
  Attenuator.read_cmd answer a =
  (Ret (answer ++ body, true), with_port a (impl_readUnlock s)).
Proof.
  intros (Hcr & Hlen & s0 & Hl & Hr). unfold Attenuator.read_cmd at 1.
  unfold Attenuator.read_cmd_body at 1. erewrite bind_ret_run.
  2:{ apply att_on_serial_run.
      apply (readline_line answer max_line [LF; CR] (body ++ [LF; CR]) _ s0 s); [done|exact Hr| | |done].
      - by destruct body.
      - apply (first_eol_intro body [LF] CR). intros Hin.
        apply elem_of_app in Hin as [Hin|Hin]; [done|].
        by apply list_elem_of_singleton in Hin. }
  assert (length (body ++ [LF; CR]) = S (S (length body))) as ->
    by (rewrite length_app; simpl; lia).
  cbv beta iota. cbn [Nat.eqb Nat.ltb Nat.leb].
  erewrite bind_ret_run; [done|]. unfold lift. rewrite app_assoc. f_equal.
  apply (erase_from_app (answer ++ body) [LF; CR]).
Qed.

Lemma read_or_throw_answers what body a s : answers a body s →
  Attenuator.read_or_throw what a = (Ret body, with_port a (impl_readUnlock s)).
Proof.
  intros Ha. unfold Attenuator.read_or_throw.
  by rewrite (bind_ret_run _ _ _ _ _ (read_cmd_answers [] body a s Ha)).
Qed.

Lemma show_no_semicolon n : ";"%char ∉ show n.
Proof. apply show_no_char; [right; reflexivity|done]. Qed.

Lemma parse_fields (vals : list Z) : vals ≠ [] →
  tokens_of (join [";"%char] (map show vals)) [";"%char] = Ret (map show vals).
Proof.
  intros Hne. apply tokens_of_joined; [by destruct vals|].
  clear Hne. induction vals; simpl; constructor; [apply show_no_semicolon|done].
Qed.

(** C20: a position report is read back as the controller sends it: the echo of
    the command, the motor state as one digit and the position as a 32-bit
    integer. *)
Theorem position_roundtrip (assign : Z → attenuator P → attenuator P)
    (a a1 : attenuator P) (st p : Z) (s : P) :
  0 ≤ st ≤ 9 → in_s 32 p →
  Attenuator.send_or_throw (str "o") "Failed to send get position command" a = (Ret tt, a1) →
  answers a1 (str "o" ++ join [";"%char] (map show [st; p])) s →
  Attenuator.query_position assign a =
  (Ret (p, st), assign p (with_port a1 (impl_readUnlock s))).
Proof.
  intros Hst Hp Hsend Ha. unfold Attenuator.query_position.
  change (str "o" ++ ?x) with ("o"%char :: x) in Ha.
  rewrite (bind_ret_run _ _ _ tt a1) by done.
  rewrite (bind_ret_run _ _ _ _ _ (read_or_throw_answers _ _ _ _ Ha)).
  erewrite bind_ret_run by (unfold lift; by rewrite substr_1_npos).
  erewrite bind_ret_run by (unfold lift; by rewrite parse_fields).
  cbn [map]. erewrite bind_ret_run by done.
  rewrite <- (app_nil_r (show p)). unfold in_s in Hp.
  erewrite bind_ret_run by (unfold lift; rewrite stol_show; [done|unfold in_s; lia|done]).
  unfold i32. rewrite wraps_id by (unfold in_s; lia). cbv zeta.
  erewrite bind_ret_run by done. erewrite bind_ret_run by done.
  assert (show st = [digit st]) as Est.
  { unfold show. rewrite (proj2 (Z.ltb_ge st 0)) by lia. by rewrite show_nat_digit by lia. }
  assert (size (show st) = 1) as -> by by rewrite Est.
  change (negb (1 =? 1)) with false. cbv iota.
  rewrite <- (app_nil_r (show st)).
  erewrite bind_ret_run by (unfold lift; rewrite stoul_show; [done|unfold in_u; lia|done]).
  unfold u16. rewrite wrapu_id by (unfold in_u; lia). done.
Qed.

Lemma stol_field n : in_s 64 n → stol (show n) = Ret n.
Proof. intros Hn. rewrite <- (app_nil_r (show n)). by apply stol_show. Qed.
Lemma stoul_field n : in_u 64 n → stoul (show n) = Ret n.
Proof. intros Hn. rewrite <- (app_nil_r (show n)). by apply stoul_show. Qed.

Lemma from_token_run {A B} tokens i t (f : bytes → outcome A) v assign
    (k : unit → M (attenuator P) B) a :
  tokens !! i = Some t → f t = Ret v →
  bind (Attenuator.from_token tokens i f assign) k a = k tt (assign v a).
Proof.
  intros Ht Hf. apply bind_ret_run. unfold Attenuator.from_token, bind, lift, vec_at.
  by rewrite Ht, Hf.
Qed.

Lemma land_ff_id v : in_u 8 v → Z.land v 0xFF = v.
Proof. intros Hv. rewrite land_ff_mod. by apply Z.mod_small. Qed.

End attenuator_replies.

(** ** Witnesses on the loopback port *)
Definition att_port (replies : list bytes) : loop :=
  loop_init replies [] [] <| l_port := str "/dev/ttyUSB0" |> <| l_open := true |>.
Definition att_on (replies : list bytes) : attenuator loop :=
  Attenuator.init (str "/dev/ttyUSB0") 38400 (att_port replies).
Definition report (st p : Z) : bytes :=
  str "o" ++ join [";"%char] (map show [st; p]) ++ [LF; CR].

Lemma att_on_ready r : att_ready (att_on r).
Proof. split; [done|]. simpl. lia. Qed.


Lemma attenuator_ops_safe_witness :
  wp (Attenuator.stop true) (post (λ _, att_ready) (λ _, att_ready)) (att_on []).
Proof. apply (attenuator_ops_safe (P:=loop) 0 0 [] true), att_on_ready. Defined.

Lemma busy_motor_refused_witness :
  ∃ what, (Attenuator.move 0 100 false (att_on [report 3 250])).1 = Throw (runtime_error what).
Proof.
  set (a := att_on [report 3 250]).
  assert (Attenuator.refresh_position a = (Ret tt, final_state (Attenuator.refresh_position a)))
    as H1 by by vm_compute.
  assert (m_motor_state (final_state (Attenuator.refresh_position a)) = 3) as H2 by by vm_compute.
  assert (m_motor_state (final_state (Attenuator.refresh_position a)) ≠ Stopped) as H3
    by by rewrite H2.
  pose proof (busy_motor_refused 0 100 false a _ (att_on_ready _) H1 H3)
    as (_ & what & _ & E & _).
  exists what. by rewrite E.
Defined.

Lemma get_position_waits_witness :
  (Attenuator.get_position 5 Attenuator.local true
    (att_on [report 1 10; report 3 20; report 0 30])).1 = Ret (30, 0).
Proof.
  set (a0 := att_on [report 1 10; report 3 20; report 0 30]).
  set (q := Attenuator.query_position (P:=loop) Attenuator.local).
  set (a1 := final_state (q a0)). set (a2 := final_state (q a1)).
  set (a3 := final_state (Attenuator.sleep 50 a2)). set (a4 := final_state (q a3)).
  rewrite (get_position_waits Attenuator.local a0 a1 (final_state (Attenuator.sleep 50 a4))
    10 1 30 [20] 5).
  - done.
  - by vm_compute.
  - done.
  - apply (polls_move _ a1 20 3 a2 a3); [by vm_compute|done|by vm_compute|].
    apply (polls_stop _ a3 30 a4); by vm_compute.
  - simpl. lia.
Defined.

Lemma loop_answers (a : attenuator loop) body :
  CR ∉ body → (length (body ++ [LF; CR]) ≤ max_line)%nat →
  l_rlock (m_serial (a_base a)) = false → l_open (m_serial (a_base a)) = true →
  l_rx (m_serial (a_base a)) = body ++ [LF; CR] →
  answers a body (m_serial (a_base a) <| l_rlock := true |> <| l_rx := [] |>).
Proof.
  intros Hb Hlen Hl Ho Hrx. split; [done|]. split; [done|].
  exists (m_serial (a_base a) <| l_rlock := true |>). split.
  - simpl. unfold loop_lock, bind, gets, modify. by rewrite Hl.
  - apply (loop_reads _ []); simpl; [done|]. by rewrite app_nil_r.
Qed.

Lemma position_roundtrip_witness :
  (Attenuator.query_position Attenuator.local (att_on [report 0 (-1234)])).1 =
  Ret (-1234, 0).
Proof.
  set (a := att_on [report 0 (-1234)]).
  erewrite (position_roundtrip Attenuator.local a
    (final_state (Attenuator.send_or_throw (str "o") "Failed to send get position command" a))
    0 (-1234)).
  - done.
  - lia.
  - unfold in_s. lia.
  - by vm_compute.
  - apply loop_answers; [apply (bool_decide_unpack _); by vm_compute| |by vm_compute..].
    apply Nat.leb_le. by vm_compute.
Defined.

(** A status report with 13 fields. *)
Definition status_fields : list Z := [1; 0; 8; 9; 59000; 100; 10; 0; 6; 1; 0; 1; 0].
Definition status_port : attenuator loop :=
  att_on [str "pc" ++ join [";"%char] (map show status_fields) ++ [LF; CR]].


(** A stopped motor at position 250, with offset 10. *)
Definition at_250 : attenuator loop := att_on [report 0 250] <| m_offset := 10 |>.
Definition at_250_known : attenuator loop := final_state (Attenuator.refresh_position at_250).

Lemma at_250_facts :
  att_ready at_250 ∧ Attenuator.refresh_position at_250 = (Ret tt, at_250_known) ∧
  m_motor_state at_250_known = Stopped ∧ m_position at_250_known = 250 ∧
  m_offset at_250_known = 10.
Proof. split; [split; [done|simpl; lia]|]. by vm_compute. Qed.

Lemma set_current_position_offset_witness :
  wp (Attenuator.set_current_position 300)
    (λ o a', match o with
     | Ret _ => m_offset a' = 60
     | Throw _ => m_offset a' = 10
     | _ => False
     end) at_250.
Proof.
  destruct at_250_facts as (Hr & Href & Hst & Hp & Ho).
  pose proof (set_current_position_offset 300 at_250 at_250_known Hr Href Hst) as H.
  cbv zeta in H. rewrite Hp, Ho in H. apply (wp_mono _ _ _ _ H).
  clear Hr Href Hst. intros [u|e| |] a'; [|exact id| |exact id].
  - intros (_ & Hoff & _). exact Hoff.
  - by intros [[]|[]]; unfold in_s; lia.
Defined.

Lemma zeroing_disagrees_witness :
  wp (Attenuator.set_current_position 0)
    (post (λ _ a', m_offset a' = -240) (λ _ a', m_offset a' = 10)) at_250 ∧
  wp Attenuator.set_zero
    (post (λ _ a', m_offset a' = 260) (λ _ a', m_offset a' = 260)) at_250.
Proof.
  destruct at_250_facts as (Hr & Href & Hst & Hp & Ho).
  pose proof (zeroing_disagrees at_250 at_250_known Hr Href Hst) as H.
  rewrite Hp, Ho in H. apply H; unfold in_s; lia.
Defined.

Lemma resolution_roundtrip_witness :
  wp (Attenuator.set_resolution 16)
    (post (λ _ a', delivered (a_base (att_on [])) (str "r 6") (a_base a') ∧
             Attenuator.get_resolution a' = 16 ∧
             Attenuator.get_resolution (a' <| m_resolution := 6 |>) = 16)
          (λ _ a', Attenuator.get_resolution a' = 16)) (att_on []).
Proof.
  apply (resolution_roundtrip 16 (att_on [])); [|apply att_on_ready].
  apply (bool_decide_unpack _); by vm_compute.
Defined.

(** Functions with the values at 0, 1 and NaN that the C standard gives. *)
Definition acos_ex (x : double) : double :=
  match x with S754_nan => S754_nan | _ => S754_zero false end.
Definition cos_ex (_ : double) : double := double_of_Z 1.
Definition pow_ex (x _ : double) : double := x.

Lemma full_transmission_roundtrip_witness :
  (Attenuator.trans_to_steps acos_ex (double_of_Z 1) (att_on [])).1 = Ret 3900 ∧
  (Attenuator.steps_to_trans cos_ex pow_ex 3900 (att_on [])).1 = Ret (double_of_Z 1).
Proof.
  destruct (full_transmission_roundtrip acos_ex cos_ex pow_ex eq_refl (λ _, eq_refl)
    (λ _, eq_refl) (att_on []) eq_refl ltac:(unfold in_s; simpl; lia)
    ltac:(unfold in_s; simpl; lia)) as [H1 H2].
  split; [by rewrite H1|].
  change 3900 with (m_offset (att_on []) + m_cal_offset (att_on [])).
  rewrite H2; [done|]. unfold in_s. simpl. lia.
Defined.

Lemma nan_transmission_undefined_witness :
  Attenuator.set_transmission acos_ex 0 S754_nan false (att_on []) = (Undef, att_on []).
Proof. apply (nan_transmission_undefined acos_ex eq_refl 0 false). Defined.
