(* ===== verification/AttenuatorSim.v ===== *)
(** * src/AttenuatorSim.cpp and include/AttenuatorSim.hh: the simulated attenuator

    An attenuator without hardware.  The driver refines it for the settings and for
    the operations on the offset; the motions and the status of the simulator are
    its own.  [acos] on [float] is a parameter. *)
From S2P Require Import Prelude CppStd Utilities Serial Loopback Device Floats Attenuator.

Record attsim := mkAttSim {
  as_offset : Z;
  as_max_speed : Z;
  as_op_mode : Z;
  as_motor_state : Z;
  as_acceleration : Z;
  as_deceleration : Z;
  as_resolution : Z;
  as_motor_enabled : bool;
  as_position : Z;
  as_current_idle : Z;
  as_current_move : Z;
  as_reset_on_zero : bool;
  as_report_on_zero : bool;
  as_serial_number : bytes;
}.
#[export] Instance eta_attsim : Eta attsim := λ s,
  mkAttSim (as_offset s) (as_max_speed s) (as_op_mode s) (as_motor_state s)
    (as_acceleration s) (as_deceleration s) (as_resolution s) (as_motor_enabled s)
    (as_position s) (as_current_idle s) (as_current_move s) (as_reset_on_zero s)
    (as_report_on_zero s) (as_serial_number s).

(** ** [float] arithmetic *)
Definition fsqrt : float → float := SFsqrt 24 128.

(** The literal [-43.333333]. *)
Definition d_sim_scale : double := S754_finite true 6098624448485051 (-47).

Module AttenuatorSim.
Section attsim_ops.
Variable acosf : float → float.

(** [get_position(position, status, wait)]; both overloads report a stopped motor. *)
Definition get_position : M attsim (Z * Z) := p <- gets as_position ;; ret (p, 0).

Definition refresh_position : M attsim unit :=
  ' (p, st) <- get_position ;;
  modify (λ s, s <| as_position := p |> <| as_motor_state := st |>).

Definition refresh_status : M attsim unit :=
  modify (λ s, s <| as_op_mode := OpMode_Command |> <| as_motor_state := Stopped |>
    <| as_acceleration := 200 |> <| as_deceleration := 200 |> <| as_max_speed := 200 |>
    <| as_current_move := 42 |> <| as_current_idle := 42 |> <| as_resolution := 1 |>
    <| as_motor_enabled := true |> <| as_reset_on_zero := false |>
    <| as_report_on_zero := true |>).

Definition init : attsim :=
  mkAttSim 0 59000 OpMode_Command Stopped 0 0 Resolution_Half true 0 10 100 false false
    (str "unknown").
Definition construct : M attsim unit := refresh_status ;; refresh_position.

Definition require_stopped (doing : string) : M attsim unit :=
  st <- gets as_motor_state ;;
  when negb (st =? Stopped) do
    throw (runtime_error (String.string_of_list_ascii
      (str "Can't " ++ str doing ++ str " motor until it is in a stopped (state=" ++
       show st ++ str ")"))).

Definition move (steps : Z) (wait : bool) : M attsim Z :=
  refresh_position ;;
  require_stopped "move" ;;
  p <- gets as_position ;;
  p <- lift (chk_i32 (p + steps)) ;;
  modify (λ s, s <| as_position := p |>) ;;
  ret p.

Definition go (target : Z) (wait : bool) : M attsim Z :=
  refresh_position ;;
  require_stopped "move" ;;
  modify (λ s, s <| as_position := target |>) ;;
  ret target.

Definition set_current_position (pos : Z) : M attsim unit :=
  refresh_position ;;
  require_stopped "reconfigure" ;;
  s <- gets id ;;
  diff <- lift (chk_i32 (pos - as_position s)) ;;
  off <- lift (chk_i32 (as_offset s + diff)) ;;
  modify (λ s, s <| as_offset := off |>).

Definition set_zero : M attsim unit :=
  refresh_position ;;
  require_stopped "reconfigure" ;;
  s <- gets id ;;
  off <- lift (chk_i32 (as_offset s + as_position s)) ;;
  modify (λ s, s <| as_offset := off |>).

Definition stop (force : bool) : M attsim unit := ret tt.

Definition go_home : M attsim unit :=
  refresh_position ;;
  require_stopped "reconfigure" ;;
  modify (λ s, s <| as_offset := 0 |>).

Definition set_resolution (res : Z) : M attsim unit :=
  modify (λ s, s <| as_resolution := res |>).
Definition set_idle_current (val : Z) : M attsim unit :=
  modify (λ s, s <| as_current_idle := val |>).
Definition set_moving_current (val : Z) : M attsim unit :=
  modify (λ s, s <| as_current_move := val |>).
Definition set_acceleration (val : Z) : M attsim unit :=
  modify (λ s, s <| as_acceleration := val |>).
Definition set_deceleration (val : Z) : M attsim unit :=
  modify (λ s, s <| as_deceleration := val |>).
Definition set_max_speed (speed : Z) : M attsim unit :=
  modify (λ s, s <| as_max_speed := speed |>).

Definition get_status_raw : M attsim bytes := ret (str "unknown").

(** [-43.333333 * 180/M_PI * acos(sqrt(trans))] in double, kept as a [float]. *)
Definition trans_to_steps (trans : float) : M attsim Z :=
  off <- gets as_offset ;;
  let steps := float_of_double
    (dmul (ddiv (dmul d_sim_scale d_180) M_PI) (acosf (fsqrt trans))) in
  n <- lift (int32_of_double steps) ;;
  n <- lift (chk_i32 (n + off)) ;;
  lift (chk_i32 (n + 3900)).

Definition set_transmission (trans : float) (wait : bool) : M attsim Z :=
  if fltb trans (S754_zero false) || fltb (double_of_Z 1) trans then
    throw (range_error (String.string_of_list_ascii
      (str "Attenuator::set_transmission : transmission [" ++ show_float trans ++
       str "] not within range [0.0,1.0]")))
  else
    steps <- trans_to_steps trans ;;
    go steps wait.

Definition save_settings : M attsim unit := ret tt.
Definition reset_controller : M attsim unit := ret tt.

Definition set_serial_number (sn : bytes) : M attsim unit :=
  let name :=
    if (20 <? length sn)%nat then take 20 sn
    else if (length sn <? 20)%nat then replicate (20 - length sn) SP ++ sn
    else replicate 20 SP in
  modify (λ s, s <| as_serial_number := name |>).
Definition get_serial_number : M attsim bytes := gets as_serial_number.

(** [get_resolution(res)] writes the value it returns back. *)
Definition get_resolution : M attsim Z :=
  r <- gets as_resolution ;;
  let res := u16 r in
  let res := if res =? 6 then 16 else res in
  modify (λ s, s <| as_resolution := res |>) ;;
  ret res.

Definition convert_current (val : Z) : float :=
  float_of_double (dmul d_0_00835 (double_of_Z val)).

(** The simulator has no port to write to or to read from. *)
Definition write_cmd (cmd : bytes) : M attsim unit := ret tt.
Definition read_cmd (answer : bytes) : M attsim bytes := ret answer.

(** The getters of the header. *)
Definition get_offset (s : attsim) : Z := as_offset s.
Definition get_max_speed (s : attsim) : Z := as_max_speed s.
Definition get_op_mode (s : attsim) : Z := as_op_mode s.
Definition get_motor_state (s : attsim) : Z := as_motor_state s.
Definition get_acceleration (s : attsim) : Z := as_acceleration s.
Definition get_deceleration (s : attsim) : Z := as_deceleration s.
Definition get_current_idle (s : attsim) : Z := as_current_idle s.
Definition get_current_move (s : attsim) : Z := as_current_move s.
Definition get_reset_on_zero (s : attsim) : bool := as_reset_on_zero s.
Definition get_report_on_zero (s : attsim) : bool := as_report_on_zero s.
End attsim_ops.
End AttenuatorSim.

(** ** The driver and its simulator *)

(** The settings, and the operations that change the offset. *)
Inductive att_cmd :=
  | Motor (c : motor_setting)
  | Resolution_ (r : Z)
  | SetPosition (pos : Z)
  | SetZero
  | GoHome.

Definition sim_att_exec (c : att_cmd) : M attsim unit :=
  match c with
  | Motor (MaxSpeed v) => AttenuatorSim.set_max_speed v
  | Motor (IdleCurrent v) => AttenuatorSim.set_idle_current v
  | Motor (MovingCurrent v) => AttenuatorSim.set_moving_current v
  | Motor (Acceleration v) => AttenuatorSim.set_acceleration v
  | Motor (Deceleration v) => AttenuatorSim.set_deceleration v
  | Resolution_ r => AttenuatorSim.set_resolution r
  | SetPosition pos => AttenuatorSim.set_current_position pos
  | SetZero => AttenuatorSim.set_zero
  | GoHome => AttenuatorSim.go_home
  end.

Section simulation.
Context {P : Type} {HI : SerialImpl P} {HO : Observable P} {HOK : SerialImplOK P}
  {HLive : SerialImplLive P}.
Implicit Types a : attenuator P.

Definition att_exec (c : att_cmd) : M (attenuator P) unit :=
  match c with
  | Motor c => motor_exec c
  | Resolution_ r => Attenuator.set_resolution r
  | SetPosition pos => Attenuator.set_current_position pos
  | SetZero => Attenuator.set_zero
  | GoHome => Attenuator.go_home
  end.

(** The operations that look at the position first. *)
Definition on_position (c : att_cmd) : bool :=
  match c with SetPosition _ | SetZero | GoHome => true | _ => false end.

(** The members the commands use agree. *)
Definition agrees a (s : attsim) : Prop :=
  (as_offset s, as_max_speed s, as_motor_state s, as_acceleration s, as_deceleration s,
   as_resolution s, as_position s, as_current_idle s, as_current_move s) =
  (m_offset a, m_max_speed a, m_motor_state a, m_acceleration a, m_deceleration a,
   m_resolution a, m_position a, m_current_idle a, m_current_move a).

Lemma sim_refresh s : as_motor_state s = 0 → AttenuatorSim.refresh_position s = (Ret tt, s).
Proof. intros H. destruct s. simpl in *. by subst. Qed.

(** The simulator after its own check that the motor has stopped. *)
Lemma sim_stopped (A : Type) doing (rest : M attsim A) s : as_motor_state s = Stopped →
  (AttenuatorSim.refresh_position ;; AttenuatorSim.require_stopped doing ;; rest) s = rest s.
Proof.
  intros H. rewrite (bind_ret_run _ _ _ _ _ (sim_refresh s H)).
  unfold AttenuatorSim.require_stopped, bind, gets. by rewrite H.
Qed.

(** What the driver and the simulator do, on each kind of exit of the driver. *)
Definition refined (c : att_cmd) (s : attsim) (o : outcome unit) a : Prop :=
  match o with
  | Ret _ => ∃ s', sim_att_exec c s = (Ret tt, s') ∧ agrees a s'
  | Throw _ => True
  | Undef => (sim_att_exec c s).1 = Undef
  | Spin => False
  end.

Lemma setting_refines c a s : att_ready a → agrees a s → on_position c = false →
  wp (att_exec c) (refined c s) a.
Proof.
  intros Hr Hs Hc. destruct c as [c|r| | |]; try done; cbn [att_exec].
  - destruct (motor_exec_eq (P:=P) c) as [what ->]. apply wp_bind.
    eapply wp_mono; [by apply att_send_post|].
    intros [] a1; simpl; try done. intros [_ ->]. unfold agrees in *. simplify_eq.
    destruct c; eexists; (split; [reflexivity|]); unfold agrees; simpl; congruence.
  - apply wp_bind_modify. eapply wp_mono; [by apply att_send_post|].
    intros [] a1; simpl; try done. intros [_ ->]. unfold agrees in *. simplify_eq.
    eexists. split; [reflexivity|]. unfold agrees. simpl. congruence.
Qed.

Lemma position_refines c a a1 s : att_ready a →
  Attenuator.refresh_position a = (Ret tt, a1) → m_motor_state a1 = Stopped →
  agrees a1 s → on_position c = true → wp (att_exec c) (refined c s) a.
Proof.
  intros Hr Href Hst Hs Hc. pose proof (refresh_position_ready a a1 Hr Href) as Hr1.
  assert (as_motor_state s = Stopped) as Hss by (unfold agrees in Hs; congruence).
  assert (as_offset s = m_offset a1 ∧ as_position s = m_position a1) as [Ho Hp]
    by (unfold agrees in Hs; split; congruence).
  destruct c as [c|r|pos| |]; try done; cbn [att_exec];
    (eapply wp_run; [by apply (stopped_run _ "reconfigure" _ a a1)|]).
  - assert (sim_att_exec (SetPosition pos) s =
      (diff <- lift (chk_i32 (pos - m_position a1)) ;;
       off <- lift (chk_i32 (m_offset a1 + diff)) ;;
       modify (λ s, s <| as_offset := off |>)) s) as Hsim.
    { rewrite <- Ho, <- Hp. etrans; [by apply sim_stopped|done]. }
    apply wp_bind. eapply wp_mono; [by apply att_send_post|].
    intros [] a2; simpl; try done. intros [_ ->]. apply wp_bind_gets. simpl.
    unfold refined. rewrite Hsim. unfold wp, bind, lift, chk_i32. unfold agrees in Hs |- *.
    repeat case_match; simplify_eq/=; [|done..]. eexists. split; [done|]. simpl. congruence.
  - assert (sim_att_exec SetZero s =
      (off <- lift (chk_i32 (m_offset a1 + m_position a1)) ;;
       modify (λ s, s <| as_offset := off |>)) s) as Hsim.
    { rewrite <- Ho, <- Hp. etrans; [by apply sim_stopped|done]. }
    apply wp_bind_gets. unfold id. apply wp_bind, wp_lift. unfold refined. rewrite Hsim.
    unfold bind, lift, chk_i32. destruct (in_sb 32 _); [|done].
    apply wp_bind_modify. eapply wp_mono; [by apply att_send_post|].
    intros [] a2; simpl; try done. intros [_ ->]. eexists. split; [done|].
    unfold agrees in Hs |- *. simpl. congruence.
  - apply wp_bind. eapply wp_mono; [by apply att_send_post|].
    intros [] a2; simpl; try done. intros [_ ->]. apply wp_modify. eexists.
    split; [etrans; [by apply (sim_stopped _ "reconfigure")|reflexivity]|]. unfold agrees in Hs |- *. simpl. congruence.
Qed.


(** The simulator's [get_resolution] returns what the driver's returns for the
    same setting, and, although it writes the value back, returns it again on
    every later call. *)
Lemma sim_resolution_agrees (a : attenuator P) (s : attsim) :
  as_resolution s = m_resolution a →
  ∃ s', AttenuatorSim.get_resolution s = (Ret (Attenuator.get_resolution a), s') ∧
        AttenuatorSim.get_resolution s' = (Ret (Attenuator.get_resolution a), s').
Proof.
  intros Hs. unfold AttenuatorSim.get_resolution, bind, gets. rewrite Hs.
  fold (Attenuator.get_resolution a). eexists. split; [reflexivity|].
  set (v := Attenuator.get_resolution a).
  assert (u16 v = v ∧ (v =? 6) = false) as [Eu E6].
  { unfold v, Attenuator.get_resolution.
    destruct (Z.eqb_spec (u16 (m_resolution a)) 6); [done|].
    split; [|by apply Z.eqb_neq]. unfold u16, wrapu. by rewrite Z.mod_mod. }
  cbn. rewrite Eu, E6. done.
Qed.
End simulation.

(** Moving the simulated motor overflows its 32-bit position, although the
    comment at the place calls a range check unnecessary: a target outside the
    range is undefined behaviour, one inside is reached exactly. *)
Lemma sim_move_overflow (steps : Z) (wait : bool) (s : attsim) :
  as_motor_state s = Stopped →
  if in_sb 32 (as_position s + steps)
  then AttenuatorSim.move steps wait s =
       (Ret (as_position s + steps), s <| as_position := as_position s + steps |>)
  else (AttenuatorSim.move steps wait s).1 = Undef.
Proof.
  intros Hs. unfold AttenuatorSim.move. rewrite (sim_stopped _ _ _ _ Hs).
  unfold bind, gets, lift, chk_i32. by destruct (in_sb 32 _).
Qed.

(** Homing the simulator changes its offset but not its position, so the
    position reported afterwards is the old one. *)
Lemma sim_home_keeps_position (s : attsim) :
  as_motor_state s = Stopped →
  ∃ s', AttenuatorSim.go_home s = (Ret tt, s') ∧ as_offset s' = 0 ∧
        AttenuatorSim.get_position s' = (Ret (as_position s, 0), s').
Proof.
  intros Hs. unfold AttenuatorSim.go_home. rewrite (sim_stopped _ _ _ _ Hs). by eexists.
Qed.

Definition sim_new : attsim := (AttenuatorSim.construct AttenuatorSim.init).2.

Lemma sim_move_overflow_witness :
  (AttenuatorSim.move 1 false (sim_new <| as_position := 2147483647 |>)).1 = Undef.
Proof. exact (sim_move_overflow 1 false (sim_new <| as_position := 2147483647 |>) eq_refl). Defined.

Lemma sim_home_keeps_position_witness :
  ∃ s', AttenuatorSim.go_home (sim_new <| as_position := 250 |>) = (Ret tt, s') ∧
        AttenuatorSim.get_position s' = (Ret (250, 0), s').
Proof.
  destruct (sim_home_keeps_position (sim_new <| as_position := 250 |>))
    as (s' & E & _ & Hp); [by vm_compute|]. by exists s'.
Defined.

(** A simulator in the state of a driver. *)
Definition sim_like (a : attenuator loop) : attsim :=
  mkAttSim (m_offset a) (m_max_speed a) (m_op_mode a) (m_motor_state a) (m_acceleration a)
    (m_deceleration a) (m_resolution a) (m_motor_enabled a) (m_position a)
    (m_current_idle a) (m_current_move a) (m_reset_on_zero a) (m_report_on_zero a)
    (m_serial_number a).

Lemma sim_like_agrees a : agrees a (sim_like a).
Proof. done. Qed.


Lemma sim_resolution_agrees_witness :
  let a := att_on [] <| m_resolution := 6 |> in
  ∃ s', AttenuatorSim.get_resolution (sim_like a) = (Ret 16, s') ∧
        AttenuatorSim.get_resolution s' = (Ret 16, s').
Proof. intros a. by apply (sim_resolution_agrees a (sim_like a)). Defined.
