(* ===== verification/PowerMeter.v ===== *)
(** * src/PowerMeter.cpp and include/PowerMeter.hh: the Ophir power meter

    Every operation sends one command under the mutex of the object, reads the
    reply and takes it apart.  Reference parameters are results; a parameter that
    may stay unassigned is an [option].  Maps filled from replies are kept in key
    order. *)
From S2P Require Import Prelude CppStd Utilities Serial Loopback Device Floats.

(** ** Enumerations of the class, by value *)
Definition aNone : Z := 1.
Definition mmEnergy : Z := 3.
Definition dNA : Z := 3.

Record powermeter (P : Type) := mkPowerMeter {
  pm_base : device P;
  (** [m_cmd_mutex] is held *)
  m_cmd_mutex : bool;
  m_mmode : Z;
  m_range : Z;
  m_wavelength : Z;
  m_e_threshold : Z;
  m_ave_query_state : Z;
  m_pulse_length : Z;
  m_ranges : list (Z * bytes);
  m_pulse_lengths : list (Z * bytes);
  m_ave_windows : list (Z * bytes);
  m_measurement_units : list (ascii * bytes);
  m_threshold_ranges : Z * Z;
  m_interval_between_cmds_ms : Z;
}.
Arguments mkPowerMeter {P}.
Arguments pm_base {P}.
Arguments m_cmd_mutex {P}.
Arguments m_mmode {P}.
Arguments m_range {P}.
Arguments m_wavelength {P}.
Arguments m_e_threshold {P}.
Arguments m_ave_query_state {P}.
Arguments m_pulse_length {P}.
Arguments m_ranges {P}.
Arguments m_pulse_lengths {P}.
Arguments m_ave_windows {P}.
Arguments m_measurement_units {P}.
Arguments m_threshold_ranges {P}.
Arguments m_interval_between_cmds_ms {P}.

#[export] Instance eta_powermeter P : Eta (powermeter P) := λ m,
  mkPowerMeter (pm_base m) (m_cmd_mutex m) (m_mmode m) (m_range m) (m_wavelength m)
    (m_e_threshold m) (m_ave_query_state m) (m_pulse_length m) (m_ranges m)
    (m_pulse_lengths m) (m_ave_windows m) (m_measurement_units m)
    (m_threshold_ranges m) (m_interval_between_cmds_ms m).

Definition pm_base_l {P} : lens (powermeter P) (device P) :=
  Lens pm_base (λ d m, m <| pm_base := d |>).
#[export] Instance pm_base_l_ok P : LensOK (@pm_base_l P).
Proof. split; by intros; destruct s. Qed.

(** The table filled by the constructor. *)
Definition measurement_units : list (ascii * bytes) :=
  [("c"%char, str "Foot-Candles"); ("d"%char, str "dBm");
   ("i"%char, str "Irradiance (Joules/cm^2)"); ("J"%char, str "Joules");
   ("I"%char, str "Lux"); ("u"%char, str "Lumens");
   ("w"%char, str "Dosage (Watts/cm^2)"); ("W"%char, str "Watts");
   ("X"%char, str "No measurement")].

Fixpoint unit_at (u : ascii) (m : list (ascii * bytes)) : outcome bytes :=
  match m with
  | [] => Throw (out_of_range "map::at")
  | (c, name) :: m' => if Ascii.eqb c u then Ret name else unit_at u m'
  end.

(** [v.erase(v.begin())], undefined on an empty vector. *)
Definition erase_first {A} (v : list A) : outcome (list A) :=
  match v with [] => Undef | _ :: v' => Ret v' end.

(** Insertion of the entries under consecutive keys, brought to the key type by
    [key]; an existing key is kept. *)
Fixpoint insert_from (key : Z → Z) (k : Z) (entries : list bytes) (m : list (Z * bytes)) :
    list (Z * bytes) :=
  match entries with
  | [] => m
  | t :: ts => insert_from key (k + 1) ts (map_insert (key k) t m)
  end.

Lemma insert_from_sorted key k entries m :
  keys_sorted m → keys_sorted (insert_from key k entries m).
Proof.
  revert k m. induction entries as [|t ts IH]; intros k m Hm; simpl; [done|].
  by apply IH, map_insert_sorted.
Qed.

(** With keys that stay in the key type, entry [i] is found under [k + i]. *)
Lemma insert_from_find key k entries m j :
  keys_sorted m → (∀ i, k ≤ i < k + Z.of_nat (length entries) → key i = i) →
  (∀ i, k ≤ i → map_find i m = None) →
  map_find j (insert_from key k entries m) =
  if k <=? j then entries !! Z.to_nat (j - k) else map_find j m.
Proof.
  revert k m. induction entries as [|t ts IH]; intros k m Hs Hkey Hm; simpl.
  - destruct (Z.leb_spec k j); [|done]. by rewrite Hm by lia.
  - simpl in Hkey. rewrite (Hkey k) by lia. rewrite IH.
    + rewrite map_insert_lookup by done. rewrite (Hm k) by lia.
      destruct (Z.leb_spec (k + 1) j), (Z.leb_spec k j), (Z.eqb_spec j k); try lia; try done.
      * replace (Z.to_nat (j - k)) with (S (Z.to_nat (j - (k + 1)))) by lia. done.
      * subst j. by rewrite Z.sub_diag.
    + by apply map_insert_sorted.
    + intros i Hi. apply Hkey. lia.
    + intros i Hi. rewrite map_insert_lookup by done. rewrite !Hm by lia.
      by destruct (Z.eqb_spec i k); [lia|].
Qed.

Module PowerMeter.
Section powermeter_ops.
Context {P : Type} {HI : SerialImpl P}.
Implicit Types m : powermeter P.

Definition on_device {A} (m : M (device P) A) : M (powermeter P) A := zoom pm_base_l m.
Definition on_serial {A} (m : M P A) : M (powermeter P) A := on_device (Device.on_serial m).

(** [std::lock_guard] on [m_cmd_mutex]; locking a held mutex blocks for ever. *)
Definition lock_guard {A} (body : M (powermeter P) A) : M (powermeter P) A :=
  l <- gets m_cmd_mutex ;;
  if l then spin
  else
    modify (λ m, m <| m_cmd_mutex := true |>) ;;
    finally body (λ m, m <| m_cmd_mutex := false |>).

Definition pause : M (powermeter P) unit :=
  ms <- gets m_interval_between_cmds_ms ;; on_serial (modify (sleep_for_ms ms)).

(** [send_cmd(cmd, resp)], with its default [repeat = true]. *)
Definition send_cmd (cmd resp : bytes) : M (powermeter P) (bytes * bool) :=
  lock_guard (
    st <- on_device (Device.write_cmd cmd) ;;
    st <- (if negb st then
             pause ;; on_device Device.reset_connection ;; pause ;;
             on_device (Device.write_cmd cmd)
           else ret true) ;;
    if negb st then ret (resp, false)
    else
      pause ;;
      ' (resp, st) <- on_device (Device.read_cmd resp) ;;
      if negb st then
        pause ;; on_device Device.reset_connection ;; pause ;;
        on_device (Device.read_cmd resp)
      else ret (resp, true)).

(** A command with an empty response string, and the exception when it fails. *)
Definition query (cmd : bytes) (what : string) : M (powermeter P) bytes :=
  ' (resp, st) <- send_cmd cmd [] ;;
  if negb st then throw (IOException what) else ret resp.

(** [rr.at(0) == c]. *)
Definition starts_with (c : ascii) (rr : bytes) : M (powermeter P) bool :=
  x <- lift (str_at rr 0) ;; ret (Ascii.eqb x c).

Definition set_range (range : Z) : M (powermeter P) bool :=
  rr <- query (str "WN " ++ show range) "Failed to set range" ;;
  if 0 <? size rr then starts_with "*" rr else ret false.

Definition get_range_fast m : Z := m_range m.

Definition wavelength (wl : Z) : M (powermeter P) bool :=
  rr <- query (str "WL " ++ show wl) "Failed to set wavelength" ;;
  starts_with "*" rr.

Definition set_wavelength (wl : Z) : M (powermeter P) unit :=
  r <- wavelength (u16 wl) ;;
  when r do modify (λ m, m <| m_wavelength := u16 wl |>).

Definition get_wavelength m : Z := m_wavelength m.
Definition get_e_threshold m : Z := m_e_threshold m.

Definition get_average_flag : M (powermeter P) bool :=
  resp <- query (str "AF") "Failed to query average flag" ;;
  resp <- lift (substr resp 1 (size_t (size resp - 3))) ;;
  v <- lift (stol resp) ;;
  ret (if v =? 0 then false else true).

(** [average_query(q, a)]; the overload on [AQSetting] has the same values. *)
Definition average_query (q : Z) : M (powermeter P) Z :=
  resp <- query (str "AQ " ++ show q) "Failed to query average" ;;
  d <- lift (substr resp 2 1) ;;
  v <- lift (stoul d) ;;
  let a := Z.land v 0xFFFF in
  w <- gets m_ave_windows ;;
  (when (length w =? 0)%nat do (
     range <- lift (substr resp
       (match find (str "NONE") resp with Some p => Z.of_nat p | None => npos end) npos) ;;
     tokens <- lift (tokens_of range [SP]) ;;
     let entries := filter (λ t, t ≠ []) (map trim tokens) in
     modify (λ m, m <| m_ave_windows := insert_from u16 1 entries (m_ave_windows m) |>))) ;;
  ret a.

Definition get_all_ranges : M (powermeter P) Z :=
  resp <- query (str "AR") "Failed to query all ranges" ;;
  resp <- lift (substr resp 1 npos) ;;
  tokens <- lift (tokens_of (trim resp) [SP]) ;;
  t0 <- lift (vec_at tokens 0) ;;
  v <- lift (stol t0) ;;
  let current_setting := i16 (Z.land v 0xFFFF) in
  tokens <- lift (erase_first tokens) ;;
  modify (λ m, m <| m_ranges := insert_from i16 0 tokens [] |>) ;;
  ret current_setting.

(** The two overloads of [get_all_wavelengths]. *)
Definition get_all_wavelengths_index : M (powermeter P) Z :=
  throw (runtime_error "Not implemented").
Definition get_all_wavelengths (answer : bytes) : M (powermeter P) bytes :=
  ' (answer, st) <- send_cmd (str "AW") answer ;;
  if negb st then throw (IOException "Failed to query all wavelengths")
  else lift (substr answer 1 npos).

Definition bc20_sensor_mode (query_ : Z) : M (powermeter P) Z :=
  resp <- query (str "BQ " ++ show query_) "Failed to query b20 sensor mode" ;;
  d <- lift (substr resp 2 1) ;;
  v <- lift (stol d) ;;
  ret (u32 v).

(** The parsing shared by [diffuser_query] and [filter_query]. *)
Definition setting_or_NA (resp : bytes) : M (powermeter P) Z :=
  match find (str "N/A") resp with
  | Some _ => ret dNA
  | None => d <- lift (substr resp 2 1) ;; v <- lift (stol d) ;; ret (u32 v)
  end.

Definition diffuser_query (s : Z) : M (powermeter P) Z :=
  resp <- query (str "DQ " ++ show s) "Failed to query diffuser" ;; setting_or_NA resp.

Definition filter_query (s : Z) : M (powermeter P) Z :=
  resp <- query (str "FQ " ++ show s) "Failed to query filter info" ;; setting_or_NA resp.

Definition exposure_energy : M (powermeter P) (double * Z * Z) :=
  resp <- query (str "EE") "Failed to query exposure energy" ;;
  ok <- starts_with "*" resp ;;
  if ok then
    tokens <- lift (tokens_of resp [SP]) ;;
    t1 <- lift (vec_at tokens 1) ;; energy <- lift (stod t1) ;;
    t2 <- lift (vec_at tokens 2) ;; pulses <- lift (stoul t2) ;;
    t3 <- lift (vec_at tokens 3) ;; et <- lift (stoul t3) ;;
    ret (energy, u32 pulses, u32 et)
  else ret (S754_zero false, 0, 0).

(** [std::stol(resp.substr(1)) != 0]. *)
Definition flag_after_first (resp : bytes) : M (powermeter P) bool :=
  d <- lift (substr resp 1 npos) ;; v <- lift (stol d) ;;
  ret (if v =? 0 then false else true).

(** [energy_flag]; the assignment made for a short reply is overwritten by the
    next statement, whatever the size. *)
Definition energy_flag : M (powermeter P) bool :=
  resp <- query (str "EF") "Failed to query energy flag" ;; flag_after_first resp.

Definition energy_ready : M (powermeter P) bool :=
  resp <- query (str "ER") "Failed to query energy ready" ;; flag_after_first resp.

Definition energy_threshold (et : Z) : M (powermeter P) Z :=
  resp <- query (str "ET " ++ show et) "Failed to query energy threshold" ;;
  d <- lift (substr resp 1 1) ;;
  v <- lift (stoul d) ;;
  modify (λ m, m <| m_e_threshold := u16 (u32 v) |>) ;;
  ret (u32 v).

(** Success unless the reply starts with a question mark. *)
Definition not_refused (resp : bytes) : M (powermeter P) bool :=
  x <- lift (str_at resp 0) ;; ret (if Ascii.eqb x "?" then false else true).

Definition force_energy : M (powermeter P) bool :=
  resp <- query (str "FE") "Failed to force energy" ;; not_refused resp.

(** [force_power] does not look at the result of [send_cmd]. *)
Definition force_power : M (powermeter P) bool :=
  ' (resp, _) <- send_cmd (str "FP") [] ;; not_refused resp.

Definition force_exposure : M (powermeter P) bool :=
  resp <- query (str "FX") "Failed to force exposure" ;; not_refused resp.

Definition head_info_raw (answer : bytes) : M (powermeter P) bytes :=
  ' (answer, st) <- send_cmd (str "HI") answer ;;
  if negb st then throw (IOException "Failed to query head info") else ret answer.

(** [type], [sn], [name] and the flags [power], [energy] and [freq]. *)
Definition head_info : M (powermeter P) (bytes * bytes * bytes * bool * bool * bool) :=
  rr <- head_info_raw [] ;;
  tokens <- lift (tokens_of (trim rr) [SP]) ;;
  tokens <- lift (erase_first tokens) ;;
  type <- lift (vec_at tokens 0) ;;
  sn <- lift (vec_at tokens 1) ;;
  name <- lift (vec_at tokens 2) ;;
  t3 <- lift (vec_at tokens 3) ;;
  v <- lift (stoul_base 16 t3) ;;
  let word := u32 v in
  let power := Z.testbit word 0 in
  let energy := Z.testbit word 0 in
  let freq := Z.testbit word 31 in
  ret (type, sn, name, power, energy, freq).

Definition head_type : M (powermeter P) bytes :=
  resp <- query (str "HT") "Failed to query head type" ;; lift (substr resp 1 npos).

Definition inst_config : M (powermeter P) bool :=
  rr <- query (str "IC") "Failed to query instrument config" ;; not_refused rr.

Definition inst_info : M (powermeter P) (bytes * bytes * bytes) :=
  rr <- query (str "II") "Failed to query instrument info" ;;
  tokens <- lift (tokens_of (trim rr) [SP]) ;;
  tokens <- lift (erase_first tokens) ;;
  id_ <- lift (vec_at tokens 0) ;;
  sn <- lift (vec_at tokens 1) ;;
  name <- lift (vec_at tokens 2) ;;
  ret (id_, sn, name).

Definition mains_frequency (q : Z) : M (powermeter P) Z :=
  resp <- query (str "MA " ++ show q) "Failed to send mains frequency" ;;
  d <- lift (substr resp 2 1) ;;
  v <- lift (stoul d) ;;
  ret (Z.land v 0xFFFF).

Definition max_freq : M (powermeter P) Z :=
  rr <- query (str "MF") "Failed to send max frequency" ;;
  d <- lift (substr rr 1 npos) ;;
  v <- lift (stoul d) ;;
  ret (u32 v).

(** The body of [measurement_mode]; [current] is its recursive call with 0. *)
Definition measurement_mode_body (current : M (powermeter P) Z) (q : Z) :
    M (powermeter P) Z :=
  resp <- query (str "MM " ++ show q) "Failed to set measurement mode" ;;
  let resp := trim resp in
  if q =? 0 then
    d <- lift (substr resp 1 npos) ;; v <- lift (stoi d) ;; ret (u16 v)
  else
    ok <- starts_with "*" resp ;;
    if ok then ret q else current.

(** With 0 the body does not recur, so one level is enough. *)
Definition measurement_mode (q : Z) : M (powermeter P) Z :=
  measurement_mode_body (measurement_mode_body spin 0) q.

Definition pulse_length (value : Z) : M (powermeter P) Z :=
  resp <- query (str "PL " ++ show value) "Failed to set pulse length" ;;
  if value =? 0 then
    d <- lift (substr resp 1 1) ;;
    v <- lift (stoul d) ;;
    l <- gets m_pulse_lengths ;;
    (when (length l =? 0)%nat do (
       resp <- lift (substr resp 2 npos) ;;
       tokens <- lift (tokens_of (trim resp) [SP]) ;;
       modify (λ m, m <| m_pulse_lengths := insert_from u16 1 tokens (m_pulse_lengths m) |>))) ;;
    ret (u16 v)
  else
    ok <- starts_with "*" resp ;;
    if ok then ret value
    else d <- lift (substr resp 1 1) ;; v <- lift (stoul d) ;; ret (Z.land v 0xFFFF).

Definition reset : M (powermeter P) unit :=
  _ <- query (str "RE") "Failed to send reset" ;; ret tt.

Definition get_range : M (powermeter P) Z :=
  rr <- query (str "RN") "Failed to query range" ;;
  d <- lift (substr rr 1 npos) ;;
  lift (stoi d).

(** A floating point reply without its first byte. *)
Definition query_double (cmd : bytes) (what : string) : M (powermeter P) double :=
  rr <- query cmd what ;; d <- lift (substr rr 1 npos) ;; lift (stod d).

Definition send_energy : M (powermeter P) double :=
  query_double (str "SE") "Failed to query energy".
Definition get_energy : M (powermeter P) double := send_energy.

(** [read_energy]: the value when there is a new one. *)
Definition read_energy : M (powermeter P) (option double) :=
  status <- energy_flag ;;
  if status then v <- send_energy ;; ret (Some v) else ret None.

Definition send_frequency : M (powermeter P) double :=
  rr <- query (str "SF") "Failed to query frequency" ;;
  x <- lift (str_at rr 0) ;;
  if Ascii.eqb x "?" then ret (S754_zero false)
  else d <- lift (substr rr 1 npos) ;; lift (stod d).

Definition send_average : M (powermeter P) double :=
  query_double (str "SG") "Failed to query average".

Definition read_average : M (powermeter P) (option double) :=
  st <- get_average_flag ;;
  if st then v <- send_average ;; ret (Some v) else ret None.

Definition send_units : M (powermeter P) ascii :=
  rr <- query (str "SI") "Failed to query units" ;; lift (str_at rr 1).

Definition send_units_long : M (powermeter P) bytes :=
  u <- send_units ;; t <- gets m_measurement_units ;; lift (unit_at u t).

Definition send_power : M (powermeter P) double :=
  query_double (str "SP") "Failed to query power ".

Definition send_max : M (powermeter P) double :=
  rr <- query (str "SX") "Failed to query max" ;;
  rr <- lift (substr rr 1 npos) ;;
  if str_eqb rr (str "AUTO") then ret (S754_zero false) else lift (stod rr).

Definition trigger_window (value : Z) : M (powermeter P) Z := ret 0.

(** [std::stoul(tokens.at(i)) & 0xFFFF]. *)
Definition u16_token (tokens : list bytes) (i : nat) : M (powermeter P) Z :=
  t <- lift (vec_at tokens i) ;; v <- lift (stoul t) ;; ret (Z.land v 0xFFFF).

Definition query_user_threshold : M (powermeter P) (Z * Z * Z) :=
  rr <- query (str "UT") "Failed to query user threshold" ;;
  rr <- lift (substr rr 1 npos) ;;
  tokens <- lift (tokens_of rr [SP]) ;;
  current <- u16_token tokens 0 ;;
  modify (λ m, m <| m_e_threshold := current |>) ;;
  min <- u16_token tokens 1 ;;
  modify (λ m, m <| m_threshold_ranges := (min, (m_threshold_ranges m).2) |>) ;;
  max <- u16_token tokens 2 ;;
  modify (λ m, m <| m_threshold_ranges := ((m_threshold_ranges m).1, max) |>) ;;
  ret (current, min, max).

(** [user_threshold(value, answer)]: what [answer] is assigned, if anything. *)
Definition user_threshold (value : Z) : M (powermeter P) (option Z) :=
  rr <- query (str "UT " ++ show value) "Failed to query user threshold" ;;
  x <- lift (str_at rr 0) ;;
  if Ascii.eqb x "?" then t <- gets m_e_threshold ;; ret (Some t)
  else if Ascii.eqb x "*" then
    rr <- lift (substr rr 1 npos) ;;
    tokens <- lift (tokens_of rr [SP]) ;;
    if (length tokens =? 3)%nat then
      answer <- u16_token tokens 0 ;;
      modify (λ m, m <| m_e_threshold := answer |>) ;;
      r <- gets m_threshold_ranges ;;
      (when r.2 =? 0xFFFF do (
         min <- u16_token tokens 1 ;;
         modify (λ m, m <| m_threshold_ranges := (min, (m_threshold_ranges m).2) |>) ;;
         max <- u16_token tokens 2 ;;
         modify (λ m, m <| m_threshold_ranges := ((m_threshold_ranges m).1, max) |>))) ;;
      ret (Some answer)
    else
      ' (current, _, _) <- query_user_threshold ;; ret (Some current)
  else ret None.

Definition version : M (powermeter P) bytes :=
  rr <- query (str "VE") "Failed to query version" ;; lift (substr rr 1 npos).

Definition wavelength_index (index : Z) : M (powermeter P) bool :=
  rr <- query (str "WI " ++ show index) "Failed to set wavelength index" ;;
  starts_with "*" rr.

(** [write_range]: the command is sent twice, into the same response string. *)
Definition write_range (range : Z) : M (powermeter P) bool :=
  let cmd := str "WN " ++ show range in
  ' (rr, _) <- send_cmd cmd [] ;;
  ' (rr, st) <- send_cmd cmd rr ;;
  if negb st then throw (IOException "Failed to write range")
  else starts_with "*" rr.

Definition init_pulse_lengths : M (powermeter P) unit :=
  modify (λ m, m <| m_pulse_lengths := [] |>) ;;
  resp <- query (str "MM 0") "Failed to query pulse lengths" ;;
  tokens <- lift (tokens_of resp [SP]) ;;
  tokens <- lift (erase_first tokens) ;;
  modify (λ m, m <| m_pulse_lengths := insert_from u16 1 tokens (m_pulse_lengths m) |>).

(** The functions the header defines: those that only throw, and the getters. *)
Definition not_implemented {A} : M (powermeter P) A := throw (runtime_error "not implemented").
Definition query_beam_track : M (powermeter P) unit := not_implemented.
Definition force_screen : M (powermeter P) unit := not_implemented.
Definition head_configuration : M (powermeter P) unit := not_implemented.
Definition key_legends : M (powermeter P) unit := not_implemented.
Definition simulate_key_press (key : Z) : M (powermeter P) unit := not_implemented.
Definition wavelength_add (index wl : Z) : M (powermeter P) bool := not_implemented.
Definition wavelength_erase (index : Z) : M (powermeter P) bool := not_implemented.
Definition write_discrete_wavelength (index : Z) : M (powermeter P) bool := not_implemented.
Definition get_range_map (m : powermeter P) : list (Z * bytes) := m_ranges m.
Definition get_pulse_map (m : powermeter P) : list (Z * bytes) := m_pulse_lengths m.
Definition get_averages_map (m : powermeter P) : list (Z * bytes) := m_ave_windows m.
Definition get_threshold_ranges (m : powermeter P) : Z * Z := m_threshold_ranges m.

(** [PowerMeter(port, baud_rate)]. *)
Definition init (port : bytes) (baud_rate : Z) (serial : P) : powermeter P :=
  mkPowerMeter
    (Device.construct port baud_rate serial <| m_com_pre := str "$" |>
       <| m_com_sfx := [CR; LF] |> <| m_read_sfx := [CR; LF] |> <| m_timeout_ms := 1000 |>)
    false mmEnergy 2 266 1 aNone 0 [] [] [] [] (0xFFFF, 0xFFFF) 1.

Definition construct_body (d : device P) : M (powermeter P) unit :=
  on_serial (Serial.setPort (m_comport d)) ;;
  on_serial (Serial.setBaudrate (m_baud d)) ;;
  on_serial (Serial.setBytesize eightbits) ;;
  on_serial (Serial.setParity parity_none) ;;
  on_serial (Serial.setTimeout (simpleTimeout (m_timeout_ms d))) ;;
  on_serial (Serial.setStopbits stopbits_one) ;;
  on_serial Serial.open ;;
  o <- gets (λ m, Serial.isOpen (m_serial (pm_base m))) ;;
  (when negb o do
     throw (PortNotOpenedException (String.string_of_list_ascii
       (str "Failed to open the port [" ++ m_comport d ++ str ":" ++
        show (m_baud d) ++ str "]")))) ;;
  modify (λ m, m <| m_measurement_units := measurement_units |>).
Definition construct : M (powermeter P) unit :=
  catch (d <- gets pm_base ;; construct_body d)
    (λ e, on_device Device.destroy ;; throw e).
End powermeter_ops.
End PowerMeter.

(** ** The operations end, release the mutex and have no undefined behaviour *)
Section powermeter_facts.
Context {P : Type} {HI : SerialImpl P} {HO : Observable P} {HOK : SerialImplOK P}
  {HLive : SerialImplLive P}.
Implicit Types m : powermeter P.

(** The invariant of a power meter between calls: its mutex is free. *)
Definition pm_ready m : Prop := ready (pm_base m) ∧ m_cmd_mutex m = false.
(** The same while a command runs. *)
Definition pm_busy m : Prop := ready (pm_base m) ∧ m_cmd_mutex m = true.

Lemma lock_guard_safe {A} (body : M (powermeter P) A) :
  safe pm_busy body → safe pm_ready (PowerMeter.lock_guard body).
Proof.
  intros Hb m [Hr Hl]. unfold PowerMeter.lock_guard. apply wp_bind_gets. rewrite Hl.
  apply wp_bind_modify.
  assert (pm_busy (m <| m_cmd_mutex := true |>)) as Hbusy by done.
  specialize (Hb _ Hbusy). revert Hb. unfold wp, finally.
  destruct (body _) as [[a|e| |] m1]; simpl; try done; by intros [Hr1 _].
Qed.

Lemma pm_on_device_safe {A} (d : M (device P) A) :
  safe ready d → safe pm_busy (PowerMeter.on_device d).
Proof.
  intros Hd m [Hr Hl]. apply wp_zoom. eapply wp_mono; [by apply Hd|].
  by intros [] d'; simpl; [split..| |].
Qed.

Lemma pause_safe : safe pm_busy PowerMeter.pause.
Proof.
  unfold PowerMeter.pause. apply safe_bind; [solve_safe|]. intros ms.
  apply pm_on_device_safe, on_serial_safe. solve_safe.
Qed.

Lemma send_cmd_safe cmd resp : safe pm_ready (PowerMeter.send_cmd cmd resp).
Proof.
  apply lock_guard_safe.
  assert (∀ b, safe pm_busy (PowerMeter.pause (P:=P) ;;
            PowerMeter.on_device Device.reset_connection ;; PowerMeter.pause ;;
            PowerMeter.on_device (Device.read_cmd b))) as Hread.
  { intros b. eauto 20 using pm_on_device_safe, pause_safe with safe. }
  apply safe_bind; [eauto using pm_on_device_safe with safe|]. intros st.
  apply safe_bind; [eauto 20 using pm_on_device_safe, pause_safe with safe|].
  intros st'. apply safe_if; [solve_safe|].
  apply safe_bind; [apply pause_safe|]. intros _.
  apply safe_bind; [eauto using pm_on_device_safe with safe|]. intros [r st''].
  apply safe_if; [apply Hread|solve_safe].
Qed.

Lemma query_safe cmd what : safe pm_ready (PowerMeter.query cmd what).
Proof.
  unfold PowerMeter.query. apply safe_bind; [apply send_cmd_safe|]. intros [r st].
  solve_safe.
Qed.

Lemma safe_bind_tokens {A} s c (k : list bytes → M (powermeter P) A) :
  (∀ toks, toks ≠ [] → safe pm_ready (k toks)) →
  safe pm_ready (bind (lift (tokens_of s [c])) k).
Proof.
  intros Hk. destruct (tokens_of_nonempty s c) as (toks & E & Hne). rewrite E.
  intros m Hm. apply wp_bind, wp_lift. by apply Hk.
Qed.

Lemma erase_first_defined {A} (v : list A) : v ≠ [] → defined (erase_first v).
Proof. by destruct v. Qed.

Lemma starts_with_safe c rr : safe pm_ready (PowerMeter.starts_with c rr).
Proof. unfold PowerMeter.starts_with. solve_safe. Qed.
Lemma not_refused_safe rr : safe pm_ready (PowerMeter.not_refused rr).
Proof. unfold PowerMeter.not_refused. solve_safe. Qed.
Lemma flag_after_first_safe rr : safe pm_ready (PowerMeter.flag_after_first rr).
Proof. unfold PowerMeter.flag_after_first. solve_safe. Qed.
Lemma setting_or_NA_safe rr : safe pm_ready (PowerMeter.setting_or_NA rr).
Proof. unfold PowerMeter.setting_or_NA. destruct (find _ _); solve_safe. Qed.
Lemma u16_token_safe toks i : safe pm_ready (PowerMeter.u16_token toks i).
Proof. unfold PowerMeter.u16_token. solve_safe. Qed.
Lemma query_double_safe cmd what : safe pm_ready (PowerMeter.query_double cmd what).
Proof. unfold PowerMeter.query_double. eauto using query_safe with safe. Qed.
Lemma unit_at_defined u t : defined (unit_at u t).
Proof. induction t as [|[c n] t IH]; simpl; [done|]. by destruct (Ascii.eqb c u). Qed.

#[local] Hint Resolve send_cmd_safe query_safe erase_first_defined starts_with_safe
  not_refused_safe flag_after_first_safe setting_or_NA_safe u16_token_safe
  query_double_safe unit_at_defined : safe.
#[local] Hint Extern 2 (∀ _, _ ≠ [] → safe _ _) => intros ?? : safe.

Ltac solve_pm :=
  intros; repeat
    match goal with
    | |- safe _ (bind (lift (tokens_of _ _)) _) => apply safe_bind_tokens; intros ??
    | |- safe _ (bind _ _) => apply safe_bind; [|intros ?]
    | |- safe _ (if _ then _ else _) => apply safe_if
    | |- safe _ (match ?x with _ => _ end) => destruct x
    | |- _ => solve [eauto 10 with safe]
    end.

Definition void {A} (op : M (powermeter P) A) : M (powermeter P) unit := _ <- op ;; ret tt.

(** Every operation of the class that talks to the instrument, with argument [n]
    and response string [s]. *)
Definition pm_operations (n : Z) (s : bytes) : list (M (powermeter P) unit) :=
  [void (PowerMeter.set_range n); void (PowerMeter.wavelength n);
   PowerMeter.set_wavelength n; void PowerMeter.get_average_flag;
   void (PowerMeter.average_query n); void PowerMeter.get_all_ranges;
   void (PowerMeter.get_all_wavelengths s); void (PowerMeter.bc20_sensor_mode n);
   void (PowerMeter.diffuser_query n); void (PowerMeter.filter_query n);
   void PowerMeter.exposure_energy; void PowerMeter.energy_flag;
   void PowerMeter.energy_ready; void (PowerMeter.energy_threshold n);
   void PowerMeter.force_energy; void PowerMeter.force_power;
   void PowerMeter.force_exposure; void (PowerMeter.head_info_raw s);
   void PowerMeter.head_info; void PowerMeter.head_type; void PowerMeter.inst_config;
   void PowerMeter.inst_info; void (PowerMeter.mains_frequency n);
   void PowerMeter.max_freq; void (PowerMeter.measurement_mode n);
   void (PowerMeter.pulse_length n); PowerMeter.reset; void PowerMeter.get_range;
   void PowerMeter.send_energy; void PowerMeter.read_energy;
   void PowerMeter.send_frequency; void PowerMeter.send_average;
   void PowerMeter.read_average; void PowerMeter.send_units;
   void PowerMeter.send_units_long; void PowerMeter.send_power;
   void PowerMeter.send_max; void (PowerMeter.user_threshold n);
   void PowerMeter.query_user_threshold; void PowerMeter.version;
   void (PowerMeter.wavelength_index n); void (PowerMeter.write_range n);
   PowerMeter.init_pulse_lengths].

Lemma measurement_mode_0_safe :
  safe pm_ready (PowerMeter.measurement_mode_body (P:=P) spin 0).
Proof. unfold PowerMeter.measurement_mode_body. simpl. solve_pm. Qed.

Lemma measurement_mode_safe n : safe pm_ready (PowerMeter.measurement_mode n).
Proof.
  unfold PowerMeter.measurement_mode. set (zero := PowerMeter.measurement_mode_body spin 0).
  assert (safe pm_ready zero) by apply measurement_mode_0_safe.
  unfold PowerMeter.measurement_mode_body. solve_pm.
Qed.

Lemma query_user_threshold_safe : safe pm_ready PowerMeter.query_user_threshold.
Proof. unfold PowerMeter.query_user_threshold. solve_pm. Qed.

#[local] Hint Resolve measurement_mode_safe query_user_threshold_safe : safe.

Lemma pm_operations_safe (n : Z) (s : bytes) :
  Forall (safe pm_ready) (pm_operations n s).
Proof.
  unfold pm_operations, void.
  repeat (apply List.Forall_cons); try apply List.Forall_nil;
  unfold PowerMeter.set_range, PowerMeter.wavelength, PowerMeter.set_wavelength,
    PowerMeter.get_average_flag, PowerMeter.average_query, PowerMeter.get_all_ranges,
    PowerMeter.get_all_wavelengths, PowerMeter.bc20_sensor_mode, PowerMeter.diffuser_query,
    PowerMeter.filter_query, PowerMeter.exposure_energy, PowerMeter.energy_flag,
    PowerMeter.energy_ready, PowerMeter.energy_threshold, PowerMeter.force_energy,
    PowerMeter.force_power, PowerMeter.force_exposure, PowerMeter.head_info,
    PowerMeter.head_info_raw, PowerMeter.head_type, PowerMeter.inst_config,
    PowerMeter.inst_info, PowerMeter.mains_frequency, PowerMeter.max_freq,
    PowerMeter.pulse_length, PowerMeter.reset,
    PowerMeter.get_range, PowerMeter.read_energy, PowerMeter.send_energy,
    PowerMeter.send_frequency, PowerMeter.read_average, PowerMeter.send_average,
    PowerMeter.send_units_long, PowerMeter.send_units, PowerMeter.send_power,
    PowerMeter.send_max, PowerMeter.user_threshold, PowerMeter.version,
    PowerMeter.wavelength_index, PowerMeter.write_range, PowerMeter.init_pulse_lengths,
    PowerMeter.energy_flag, PowerMeter.get_average_flag, PowerMeter.wavelength,
    PowerMeter.send_units, PowerMeter.head_info_raw.
  all: solve_pm.
Qed.

(** C29: every operation of the power meter ends on every reply, with a result or
    an exception: no undefined behaviour, no deadlock, and the command mutex and
    the port's mutexes are free again afterwards. *)
Theorem powermeter_ops_safe (n : Z) (s : bytes) :
  Forall (safe pm_ready) (pm_operations n s).
Proof. apply pm_operations_safe. Qed.

(** One operation of the list. *)
Lemma pm_op_safe {A} (op : M (powermeter P) A) n s i :
  pm_operations n s !! i = Some (void op) → safe pm_ready op.
Proof.
  intros Hi. pose proof (proj1 (Forall_lookup _ _) (pm_operations_safe n s) _ _ Hi) as H.
  intros m Hm. specialize (H m Hm). revert H. unfold wp, void, bind.
  by destruct (op m) as [[] ?].
Qed.

Lemma pm_on_device_ready {A} (d : M (device P) A) :
  safe ready d → safe pm_ready (PowerMeter.on_device d).
Proof.
  intros Hd m [Hr Hl]. apply wp_zoom. eapply wp_mono; [by apply Hd|].
  by intros [] d'; simpl; [split..| |].
Qed.

Lemma pm_destroy_safe : safe pm_ready (PowerMeter.on_device Device.destroy).
Proof. apply pm_on_device_ready. solve_safe. Qed.

(** The constructor, with a baud rate the port accepts. *)
Lemma pm_construct_safe m : pm_ready m → 4 ≤ m_baud (pm_base m) < 2 ^ 32 →
  wp PowerMeter.construct (post (λ _, pm_ready) (λ _, pm_ready)) m.
Proof.
  intros Hr Hb. set (d := pm_base m) in *.
  enough (safe pm_ready (catch (PowerMeter.construct_body d)
    (λ e, PowerMeter.on_device Device.destroy ;; throw e))) as H by exact (H m Hr).
  unfold PowerMeter.construct_body, PowerMeter.on_serial.
  eauto 40 using pm_destroy_safe, pm_on_device_ready with safe.
Qed.

(** ** Commands on the wire *)
Notation m_step := (base_step pm_base_l).

(** The outcome of a step below [lock_guard]: in terms of the base before it. *)
Definition pm_sends d0 (a : bytes) (m0 m' : powermeter P) : Prop :=
  m_step m0 (sends d0 a) m'.

Lemma pm_step_spec {A} (op : M (device P) A) (R E : device P → Prop) (T : A → Prop) d0 a m0 m :
  pm_sends d0 a m0 m →
  wp op (spec (λ v d, T v ∧ R d) (λ _, E)) (pm_base m) →
  wp (PowerMeter.on_device op)
    (spec (λ v m', T v ∧ m_step m0 R m') (λ _, m_step m0 E)) m.
Proof.
  intros Hm Hop. eapply wp_spec_mono; [by apply (on_base_spec pm_base_l)|..]; simpl.
  - intros v m' [[HT HR] E']. split; [done|].
    eapply (base_step_trans pm_base_l); [exact Hm|by split|done].
  - intros e m' H'. eapply (base_step_trans pm_base_l); [exact Hm|exact H'|done].
Qed.

Lemma pm_pause_spec d0 a m0 m (E : device P → Prop) : pm_sends d0 a m0 m →
  wp PowerMeter.pause (spec (λ _, pm_sends d0 a m0) (λ _, m_step m0 E)) m.
Proof.
  intros H. unfold PowerMeter.pause. apply wp_bind_gets.
  eapply wp_spec_mono; [apply (base_sleep_spec pm_base_l), H|..]; simpl; [|done].
  intros _ m' H'. eapply (base_step_trans pm_base_l); [exact H|exact H'|done].
Qed.

(** Pause, reset the connection, pause: nothing is handed over. *)
Lemma pm_reset_spec {A} d0 a m0 m (k : M (powermeter P) A) R (E : device P → Prop) :
  pm_sends d0 a m0 m → (∀ d, sends d0 a d → E d) →
  (∀ m', pm_sends d0 a m0 m' → wp k (spec R (λ _, m_step m0 E)) m') →
  wp (PowerMeter.pause ;; PowerMeter.on_device Device.reset_connection ;;
      PowerMeter.pause ;; k) (spec R (λ _, m_step m0 E)) m.
Proof.
  intros H HE Hk. eapply wp_bind_spec; [by apply pm_pause_spec|]. cbv beta. intros _ m1 H1.
  eapply wp_bind_spec with (R0 := λ _, pm_sends d0 a m0).
  { eapply wp_spec_mono.
    - apply (pm_step_spec _ (sends d0 a) E (λ _, True) d0 a m0); [done|].
      eapply wp_spec_mono; [apply reset_connection_spec, H1|by simpl; auto|by simpl; auto].
    - by intros ? m' [_ H'].
    - done. }
  intros ? m2 H2. eapply wp_bind_spec; [by apply pm_pause_spec|]. cbv beta.
  intros _ m3 H3. by apply Hk.
Qed.

(** What a command may leave on the wire when it does not succeed. *)
Definition tried (d : device P) (cmd : bytes) (d' : device P) : Prop :=
  delivered d cmd d' ∨ undelivered d cmd d'.

Lemma aborted_tried d cmd d' : aborted d cmd d' → tried d cmd d'.
Proof. intros [n H]. right. exists n, 0%nat. by rewrite app_nil_r. Qed.

(** The transmission part of [send_cmd]. *)
Lemma pm_write_spec cmd (m : powermeter P) : ready (pm_base m) →
  wp (st <- PowerMeter.on_device (Device.write_cmd cmd) ;;
      if negb st then
        PowerMeter.pause ;; PowerMeter.on_device Device.reset_connection ;;
        PowerMeter.pause ;; PowerMeter.on_device (Device.write_cmd cmd)
      else ret true)
    (spec (λ b : bool, m_step m (if b then delivered (pm_base m) cmd
                                 else tried (pm_base m) cmd))
          (λ _, m_step m (tried (pm_base m) cmd))) m.
Proof.
  intros Hr. set (d := pm_base m). eapply wp_bind_spec.
  { eapply wp_spec_mono; [apply (on_base_spec pm_base_l), write_cmd_spec, Hr|
      intros b m1 H; exact H|].
    intros e m1 H. eapply base_step_mono; [exact H|apply aborted_tried]. }
  cbv beta. intros b m1 H1. destruct b; simpl negb; cbv iota.
  { apply wp_ret. eapply base_step_mono; [exact H1|].
    intros H. by exists 0%nat; split; [left|]. }
  destruct (proj1 H1) as (n & Hn & Hs1).
  apply (pm_reset_spec d (take n (frame d cmd)) m m1).
  - eapply base_step_mono; [exact H1|done].
  - intros d' H. apply aborted_tried. by exists n.
  - intros m2 H2.
    assert (frame (pm_base m2) cmd = frame d cmd) as Hf
      by exact (sends_frame _ _ _ cmd (proj1 H2)).
    assert (∀ k d', sends (pm_base m2) (take k (frame d cmd)) d' → tried d cmd d') as Hun.
    { intros k d' H. right. exists n, k. by eapply sends_trans; [apply H2|]. }
    eapply wp_spec_mono; [apply (on_base_spec pm_base_l), write_cmd_spec;
      eapply sends_idle, H2|..]; simpl.
    + intros b m3 H3. eapply (base_step_trans pm_base_l); [exact H2|exact H3|].
      destruct b; simpl; rewrite Hf.
      * intros H. exists n. split; [by right|]. by eapply sends_trans; [apply H2|].
      * intros (k & _ & H). by apply (Hun k).
    + intros e m3 H3. eapply (base_step_trans pm_base_l); [exact H2|exact H3|].
      intros [k H]. change (view pm_base_l m2) with (pm_base m2) in H. rewrite Hf in H.
      by apply (Hun k).
Qed.

Lemma pm_read_spec resp m0 m d0 a : pm_sends d0 a m0 m → ready (pm_base m) →
  wp (PowerMeter.on_device (Device.read_cmd resp))
    (spec (λ _, pm_sends d0 a m0) (λ _, pm_sends d0 a m0)) m.
Proof.
  intros Hm Hr. eapply wp_spec_mono.
  - apply (pm_step_spec _ (sends d0 a) (sends d0 a) (λ _, True) d0 a m0); [done|].
    eapply wp_spec_mono; [apply read_cmd_spec; [apply Hm|done]|by simpl; auto|done].
  - by intros ? m' [_ H'].
  - done.
Qed.

Lemma lock_guard_spec {A} (body : M (powermeter P) A) (R : A → device P → Prop) E m :
  m_cmd_mutex m = false →
  wp body (spec (λ v, m_step (m <| m_cmd_mutex := true |>) (R v))
                (λ e, m_step (m <| m_cmd_mutex := true |>) (E e)))
    (m <| m_cmd_mutex := true |>) →
  wp (PowerMeter.lock_guard body) (spec (λ v, m_step m (R v)) (λ e, m_step m (E e))) m.
Proof.
  intros Hl Hb. unfold PowerMeter.lock_guard. apply wp_bind_gets. rewrite Hl.
  apply wp_bind_modify, wp_finally_spec. eapply wp_spec_mono; [exact Hb|..]; simpl;
    intros x m' [H E']; (split; [exact H|]); rewrite E'; destruct m; simpl in *; by subst.
Qed.

Lemma send_cmd_spec cmd resp m : pm_ready m →
  wp (PowerMeter.send_cmd cmd resp)
    (spec (λ r : bytes * bool, m_step m (if r.2 then delivered (pm_base m) cmd
                                         else tried (pm_base m) cmd))
          (λ _, m_step m (tried (pm_base m) cmd))) m.
Proof.
  intros [Hr Hl]. set (d := pm_base m).
  apply (lock_guard_spec _ (λ r : bytes * bool, if r.2 then delivered d cmd else tried d cmd)
    (λ _, tried d cmd)); [done|].
  set (m0 := m <| m_cmd_mutex := true |>).
  apply wp_bind_assoc. eapply wp_bind_spec; [by apply (pm_write_spec cmd m0)|].
  cbv beta. intros [] m1 H1; simpl negb; cbv iota; [|by apply wp_ret].
  destruct (proj1 H1) as (n & Hn & Hs).
  assert (pm_sends d (take n (frame d cmd) ++ frame d cmd) m0 m1) as H1'
    by (eapply base_step_mono; [exact H1|done]).
  assert (∀ d', sends d (take n (frame d cmd) ++ frame d cmd) d' → delivered d cmd d')
    as Hdel by (intros d' H; by exists n).
  assert (∀ d', sends d (take n (frame d cmd) ++ frame d cmd) d' → tried d cmd d')
    as Htr by (intros d' H; left; auto).
  eapply wp_bind_spec; [by apply pm_pause_spec|]. cbv beta. intros _ m2 H2.
  eapply wp_bind_spec.
  { eapply wp_spec_mono; [apply pm_read_spec; [exact H2|exact (sends_ready _ _ _ (proj1 H2) Hr)]|
      intros r m3 H; exact H|]. intros e m3 H. eapply base_step_mono; [exact H|apply Htr]. }
  cbv beta. intros [r st] m3 H3. destruct st; simpl negb; cbv iota.
  { apply wp_ret. eapply base_step_mono; [exact H3|apply Hdel]. }
  eapply (pm_reset_spec d _ m0 m3 _ _ (tried d cmd)); [exact H3|done|].
  intros m4 H4. eapply wp_spec_mono;
    [apply pm_read_spec; [exact H4|exact (sends_ready _ _ _ (proj1 H4) Hr)]|..]; simpl.
  - intros [r' b] m5 H5. eapply base_step_mono; [exact H5|]. by destruct b; simpl; auto.
  - intros e m5 H5. eapply base_step_mono; [exact H5|apply Htr].
Qed.

(** C19: a command of the power meter ends; it delivers a reply only after its
    complete frame, the command between a dollar sign and a line end, went out,
    after at most one truncated attempt. *)
Theorem pm_query_on_wire (cmd : bytes) (what : string) (m : powermeter P) :
  pm_ready m →
  wp (PowerMeter.query cmd what)
    (post (λ _ m', base_step pm_base_l m (delivered (pm_base m) cmd) m')
          (λ _ m', base_step pm_base_l m (tried (pm_base m) cmd) m')) m.
Proof.
  intros Hr. eapply wp_spec_safe; [apply query_safe|done|].
  unfold PowerMeter.query. eapply wp_bind_spec; [by apply send_cmd_spec|].
  cbv beta. intros [resp []] m1 H1; simpl negb; cbv iota; [by apply wp_ret|by apply wp_throw].
Qed.
(** Operations by the names of the class. *)
Lemma pm_set_range_safe n : safe pm_ready (PowerMeter.set_range n).
Proof. exact (pm_op_safe _ n [] 0 eq_refl). Qed.
Lemma pm_wavelength_safe n : safe pm_ready (PowerMeter.wavelength n).
Proof. exact (pm_op_safe _ n [] 1 eq_refl). Qed.
Lemma pm_get_average_flag_safe : safe pm_ready (PowerMeter.get_average_flag).
Proof. exact (pm_op_safe _ 0 [] 3 eq_refl). Qed.
Lemma pm_average_query_safe n : safe pm_ready (PowerMeter.average_query n).
Proof. exact (pm_op_safe _ n [] 4 eq_refl). Qed.
Lemma pm_get_all_ranges_safe : safe pm_ready (PowerMeter.get_all_ranges).
Proof. exact (pm_op_safe _ 0 [] 5 eq_refl). Qed.
Lemma pm_get_all_wavelengths_safe s : safe pm_ready (PowerMeter.get_all_wavelengths s).
Proof. exact (pm_op_safe _ 0 s 6 eq_refl). Qed.
Lemma pm_head_info_safe : safe pm_ready (PowerMeter.head_info).
Proof. exact (pm_op_safe _ 0 [] 18 eq_refl). Qed.
Lemma pm_inst_info_safe : safe pm_ready (PowerMeter.inst_info).
Proof. exact (pm_op_safe _ 0 [] 21 eq_refl). Qed.
Lemma pm_max_freq_safe : safe pm_ready (PowerMeter.max_freq).
Proof. exact (pm_op_safe _ 0 [] 23 eq_refl). Qed.
Lemma pm_pulse_length_safe n : safe pm_ready (PowerMeter.pulse_length n).
Proof. exact (pm_op_safe _ n [] 25 eq_refl). Qed.
Lemma pm_read_energy_safe : safe pm_ready (PowerMeter.read_energy).
Proof. exact (pm_op_safe _ 0 [] 29 eq_refl). Qed.
Lemma pm_send_frequency_safe : safe pm_ready (PowerMeter.send_frequency).
Proof. exact (pm_op_safe _ 0 [] 30 eq_refl). Qed.
Lemma pm_read_average_safe : safe pm_ready (PowerMeter.read_average).
Proof. exact (pm_op_safe _ 0 [] 32 eq_refl). Qed.
Lemma pm_send_units_long_safe : safe pm_ready (PowerMeter.send_units_long).
Proof. exact (pm_op_safe _ 0 [] 34 eq_refl). Qed.
Lemma pm_send_max_safe : safe pm_ready (PowerMeter.send_max).
Proof. exact (pm_op_safe _ 0 [] 36 eq_refl). Qed.
Lemma pm_user_threshold_safe n : safe pm_ready (PowerMeter.user_threshold n).
Proof. exact (pm_op_safe _ n [] 37 eq_refl). Qed.
End powermeter_facts.

#[export] Hint Resolve pm_destroy_safe : safe.
#[export] Hint Resolve pm_set_range_safe pm_wavelength_safe pm_get_average_flag_safe
  pm_average_query_safe pm_get_all_ranges_safe pm_get_all_wavelengths_safe
  pm_head_info_safe pm_inst_info_safe pm_max_freq_safe
  measurement_mode_safe pm_pulse_length_safe pm_read_energy_safe
  pm_send_frequency_safe pm_read_average_safe pm_send_units_long_safe
  pm_send_max_safe pm_user_threshold_safe query_user_threshold_safe : safe.


(** ** What the replies mean *)
Section powermeter_replies.
Context {P : Type} {HI : SerialImpl P}.
Implicit Types m : powermeter P.

(** The list of ranges is read back as the instrument sends it: after the
    success mark, the index of the present range and the names of the ranges,
    separated by blanks and followed by whitespace.  The result is the index and
    range [i] is found under key [i]. *)
Lemma ranges_roundtrip (cur : Z) (names : list bytes) (w : bytes) (m m1 : powermeter P) :
  PowerMeter.query (str "AR") "Failed to query all ranges" m =
    (Ret (str "*" ++ join [SP] (show cur :: names) ++ w), m1) →
  Forall word names → Forall is_ws w → 0 ≤ cur < 2 ^ 15 →
  (length names < Z.to_nat (2 ^ 15))%nat →
  ∃ r, PowerMeter.get_all_ranges m = (Ret cur, m1 <| m_ranges := r |>) ∧
    keys_sorted r ∧
    ∀ i, map_find i r = if 0 <=? i then names !! Z.to_nat i else None.
Proof.
  intros Hq Hnames Hw Hcur Hlen. exists (insert_from i16 0 names []).
  assert (Forall word (show cur :: names)) as Hall by (constructor; [apply show_word|done]).
  split; [|split].
  - unfold PowerMeter.get_all_ranges. rewrite (bind_ret_run _ _ _ _ _ Hq).
    change (str "*" ++ ?x) with ("*"%char :: x).
    erewrite bind_ret_run by (unfold lift; by rewrite substr_1_npos).
    erewrite bind_ret_run by (unfold lift; rewrite trim_words, tokens_of_words by done; done).
    erewrite bind_ret_run by done. rewrite <- (app_nil_r (show cur)).
    erewrite bind_ret_run
      by (unfold lift; rewrite stol_show; [done|unfold in_s; lia|done]).
    rewrite land_ffff_mod, Z.mod_small by lia.
    assert (i16 cur = cur) as -> by (apply wraps_id; unfold in_s; lia). cbv zeta.
    erewrite bind_ret_run by done. done.
  - apply insert_from_sorted. unfold keys_sorted. simpl. constructor.
  - intros i. rewrite insert_from_find.
    + by rewrite Z.sub_0_r.
    + unfold keys_sorted. simpl. constructor.
    + intros j Hj. apply wraps_id; [lia|]. unfold in_s. lia.
    + done.
Qed.

(** [write_range] sends its command twice and collects both replies in one
    string, so it reports what the first reply says: an error of the second
    command is reported as success, and a success as an error. *)
Lemma write_range_first_reply (range : Z) (c : ascii) (r1 r2 : bytes)
    (m m1 m2 : powermeter P) :
  PowerMeter.send_cmd (str "WN " ++ show range) [] m = (Ret (c :: r1, true), m1) →
  PowerMeter.send_cmd (str "WN " ++ show range) (c :: r1) m1 =
    (Ret ((c :: r1) ++ r2, true), m2) →
  PowerMeter.write_range range m = (Ret (Ascii.eqb c "*"), m2).
Proof.
  intros H1 H2. unfold PowerMeter.write_range.
  rewrite (bind_ret_run _ _ _ _ _ H1). cbv beta iota.
  rewrite (bind_ret_run _ _ _ _ _ H2). done.
Qed.

(** The energy flag of [head_info] is bit 0 of the capability word, the same
    as the power flag: a head that measures energy only (bit 1) is reported as
    measuring neither. *)
Lemma head_info_flags (m m1 : powermeter P) (mark type sn name cap w : bytes) (v : Z) :
  PowerMeter.head_info_raw [] m =
    (Ret (join [SP] [mark; type; sn; name; cap] ++ w), m1) →
  Forall word [mark; type; sn; name; cap] → Forall is_ws w →
  stoul_base 16 cap = Ret v →
  PowerMeter.head_info m =
  (Ret (type, sn, name, Z.testbit (u32 v) 0, Z.testbit (u32 v) 0, Z.testbit (u32 v) 31), m1).
Proof.
  intros Hq Hall Hw Hv. unfold PowerMeter.head_info. rewrite (bind_ret_run _ _ _ _ _ Hq).
  erewrite bind_ret_run by (unfold lift; rewrite trim_words, tokens_of_words by done; done).
  do 5 erewrite bind_ret_run by done.
  by erewrite bind_ret_run by (unfold lift; by rewrite Hv).
Qed.

(** [get_average_flag] understands the reply of two bytes, an asterisk and a
    digit, only because the length of the substring wraps around; a reply with one
    more byte, such as an asterisk and two digits, always ends in
    [std::invalid_argument]. *)
Lemma average_flag_reply (m m1 : powermeter P) (c : ascii) (rest : bytes) :
  PowerMeter.query (str "AF") "Failed to query average flag" m =
    (Ret (c :: rest), m1) →
  (∀ d, 0 ≤ d ≤ 9 → rest = show d →
     PowerMeter.get_average_flag m = (Ret (negb (d =? 0)), m1)) ∧
  (length rest = 2%nat →
     PowerMeter.get_average_flag m = (Throw (invalid_argument "stol"), m1)).
Proof.
  intros Hq. unfold PowerMeter.get_average_flag. split.
  - intros d Hd ->. rewrite (bind_ret_run _ _ _ _ _ Hq).
    assert (show d = [digit d]) as E.
    { unfold show. rewrite (proj2 (Z.ltb_ge d 0)) by lia. by rewrite show_nat_digit by lia. }
    assert (size_t (size (c :: show d) - 3) = npos) as -> by (rewrite E; reflexivity).
    erewrite bind_ret_run by (unfold lift; by rewrite substr_1_npos).
    rewrite <- (app_nil_r (show d)).
    erewrite bind_ret_run
      by (unfold lift; rewrite stol_show; [done|unfold in_s; lia|done]).
    by destruct (d =? 0).
  - intros Hl. rewrite (bind_ret_run _ _ _ _ _ Hq).
    destruct rest as [|x [|y [|]]]; simplify_eq/=. done.
Qed.
End powermeter_replies.

(** ** Witnesses on the loopback port *)
Definition pm_port (replies : list bytes) : loop :=
  loop_init (map (λ r, r ++ [CR; LF]) replies) [] []
    <| l_port := str "/dev/ttyUSB2" |> <| l_open := true |>.
Definition pm_on (replies : list bytes) : powermeter loop :=
  PowerMeter.init (str "/dev/ttyUSB2") 9600 (pm_port replies).
Lemma pm_on_ready r : pm_ready (pm_on r).
Proof. split; [|done]. split; [done|]. simpl. unfold max_line. lia. Qed.

Lemma powermeter_ops_safe_witness :
  Forall (λ op, wp op (post (λ _, pm_ready) (λ _, pm_ready)) (pm_on []))
    (pm_operations 1 []).
Proof.
  pose proof (powermeter_ops_safe (P:=loop) 1 []) as H.
  eapply List.Forall_impl; [|exact H]. intros op Hop. apply Hop, pm_on_ready.
Defined.

Lemma pm_query_on_wire_witness :
  wp (PowerMeter.query (str "WN 3") "Failed to set range")
    (post (λ _ m', base_step pm_base_l (pm_on []) (delivered (pm_base (pm_on [])) (str "WN 3")) m')
          (λ _ m', base_step pm_base_l (pm_on []) (tried (pm_base (pm_on [])) (str "WN 3")) m'))
    (pm_on []).
Proof. apply (pm_query_on_wire (str "WN 3") _ (pm_on [])), pm_on_ready. Defined.

Lemma ranges_roundtrip_witness :
  ∃ r, (PowerMeter.get_all_ranges (pm_on [str "*4 10.0J 2.00J 200mJ "])).1 = Ret 4 ∧
    map_find 1 r = Some (str "2.00J").
Proof.
  set (m := pm_on [str "*4 10.0J 2.00J 200mJ "]).
  destruct (ranges_roundtrip 4 [str "10.0J"; str "2.00J"; str "200mJ"] [SP] m
    (final_state (PowerMeter.query (str "AR") "Failed to query all ranges" m)))
    as (r & E & _ & Hr).
  - by vm_compute.
  - repeat constructor; by vm_compute.
  - repeat constructor.
  - lia.
  - apply Nat.ltb_lt. by vm_compute.
  - exists r. rewrite E, Hr. clear E Hr. split; reflexivity.
Defined.

(** The second command is refused by the instrument; success is reported. *)
Lemma write_range_first_reply_witness :
  (PowerMeter.write_range 3 (pm_on [str "*"; str "?PARAM ERROR"])).1 = Ret true.
Proof.
  set (m := pm_on [str "*"; str "?PARAM ERROR"]).
  set (m1 := final_state (PowerMeter.send_cmd (str "WN 3") [] m)).
  rewrite (write_range_first_reply 3 "*" [] (str "?PARAM ERROR") m m1
    (final_state (PowerMeter.send_cmd (str "WN 3") (str "*") m1))); [done|by vm_compute..].
Defined.

(** A head with the capability word 2. *)
Lemma head_info_flags_witness :
  (PowerMeter.head_info (pm_on [str "* PY 12345 PE10 00000002"])).1 =
  Ret (str "PY", str "12345", str "PE10", false, false, false).
Proof.
  set (m := pm_on [str "* PY 12345 PE10 00000002"]).
  rewrite (head_info_flags m (final_state (PowerMeter.head_info_raw [] m)) (str "*") (str "PY")
    (str "12345") (str "PE10") (str "00000002") [] 2).
  - by vm_compute.
  - by vm_compute.
  - repeat constructor; by vm_compute.
  - constructor.
  - by vm_compute.
Defined.

Lemma average_flag_reply_witness :
  (PowerMeter.get_average_flag (pm_on [str "*1"])).1 = Ret true ∧
  (PowerMeter.get_average_flag (pm_on [str "*10"])).1 = Throw (invalid_argument "stol").
Proof.
  split.
  - set (m := pm_on [str "*1"]).
    destruct (average_flag_reply m
      (final_state (PowerMeter.query (str "AF") "Failed to query average flag" m)) "*" (str "1"))
      as [H _]; [by vm_compute|].
    rewrite (H 1); [done|lia|by vm_compute].
  - set (m := pm_on [str "*10"]).
    destruct (average_flag_reply m
      (final_state (PowerMeter.query (str "AF") "Failed to query average flag" m)) "*" (str "10"))
      as [_ H]; [by vm_compute|].
    by rewrite H.
Defined.
