(* ===== verification/Threads.v ===== *)
(** * Threads that share locks

    The interleavings of threads whose actions are known: a thread is the sequence of
    its actions, a step lets one thread do its next one, and a lock is taken only when no
    thread holds it.  Threads that take the locks in their order and release the last
    one first cannot block each other; what is done under a lock is never mixed with
    what another thread does under it.  PortThreads.v derives the actions of the
    operations on a port and on the power meter from their definitions. *)
From stdpp Require Import sets relations.
From S2P Require Import Prelude.

(** The mutexes: [m_cmd_mutex] of the power meter (include/PowerMeter.hh), and the two of
    a port (include/serial/impl/unix.h and win.h). *)
Inductive lock := CmdLock | ReadLock | WriteLock.
#[export] Instance lock_eq_dec : EqDecision lock.
Proof. solve_decision. Defined.

(** The order in which they are taken. *)
Definition rank (l : lock) : nat :=
  match l with CmdLock => 0 | ReadLock => 1 | WriteLock => 2 end.

Inductive event :=
  | Acquire (l : lock)
  | Release (l : lock)
  | Transmit (d : bytes)
  | Receive (d : bytes)
  | Call.
#[export] Instance event_eq_dec : EqDecision event.
Proof. solve_decision. Defined.

(** The locks held after an action, the last taken first. *)
Definition after (held : list lock) (e : event) : list lock :=
  match e with
  | Acquire l => l :: held
  | Release _ => tail held
  | _ => held
  end.

Record thread := mkThread { todo : list event; held : list lock }.
Record system := mkSystem { threads : list thread; log : list (nat * event) }.

Definition free (ts : list thread) (l : lock) : bool :=
  forallb (λ t, negb (bool_decide (l ∈ held t))) ts.

(** Taking a lock blocks while a thread holds it, the thread itself included. *)
Definition enabled (ts : list thread) (e : event) : bool :=
  match e with Acquire l => free ts l | _ => true end.

Inductive step (s : system) : system → Prop :=
  | thread_step i t e rest :
      threads s !! i = Some t → todo t = e :: rest → enabled (threads s) e = true →
      step s (mkSystem (<[i := mkThread rest (after (held t) e)]> (threads s))
                       (log s ++ [(i, e)])).

Definition start (scripts : list (list event)) : system :=
  mkSystem ((λ evs, mkThread evs []) <$> scripts) [].

Definition finished (s : system) : Prop := Forall (λ t, todo t = []) (threads s).

(** The actions left to all threads. *)
Definition remaining (s : system) : nat := sum_list_with (length ∘ todo) (threads s).

(** A schedule: the threads that do the next steps. *)
Definition exec1 (s : system) (i : nat) : option system :=
  t ← threads s !! i;
  match todo t with
  | e :: rest =>
    if enabled (threads s) e
    then Some (mkSystem (<[i := mkThread rest (after (held t) e)]> (threads s))
                        (log s ++ [(i, e)]))
    else None
  | [] => None
  end.

Fixpoint exec (sched : list nat) (s : system) : option system :=
  match sched with
  | [] => Some s
  | i :: sched' => s' ← exec1 s i; exec sched' s'
  end.

Lemma exec_rtc sched s s' : exec sched s = Some s' → rtc step s s'.
Proof.
  revert s. induction sched as [|i sched IH]; intros s; simpl; [by intros [= ->]|].
  unfold exec1. destruct (threads s !! i) as [t|] eqn:Et; [|done]. simpl.
  destruct (todo t) as [|e rest] eqn:Ed; [done|].
  destruct (enabled (threads s) e) eqn:Ee; [|done]. intros H.
  eapply rtc_l; [by eapply thread_step|by apply IH].
Qed.

(** ** The discipline *)
Section discipline.
(** The actions [vis] are to be done under the lock [L]. *)
Context (L : lock) (vis : event → bool).

Definition allowed (held : list lock) (e : event) : bool :=
  match e with
  | Acquire l => forallb (λ h, rank h <? rank l)%nat held
  | Release l => bool_decide (head held = Some l)
  | _ => implb (vis e) (bool_decide (L ∈ held))
  end.

(** The locks held after the actions, if all are allowed. *)
Fixpoint run (held : list lock) (evs : list event) : option (list lock) :=
  match evs with
  | [] => Some held
  | e :: evs' => if allowed held e then run (after held e) evs' else None
  end.

(** A thread that follows the discipline from its start to its end. *)
Definition disciplined (evs : list event) : Prop := run [] evs = Some [].

(** What a thread does under the lock, for each time it holds it; [cur] is what it has
    done since it took the lock. *)
Fixpoint sections (cur : option (list event)) (evs : list event) : list (list event) :=
  match evs with
  | [] => []
  | e :: evs' =>
    match e with
    | Acquire l => if decide (l = L) then sections (Some []) evs' else sections cur evs'
    | Release l =>
      if decide (l = L) then default [] cur :: sections None evs' else sections cur evs'
    | _ => if vis e then sections ((λ c, c ++ [e]) <$> cur) evs' else sections cur evs'
    end
  end.

Lemma run_app held a b : run held (a ++ b) = run held a ≫= λ h, run h b.
Proof.
  revert held. induction a as [|e a IH]; intros held; [done|].
  simpl. by destruct (allowed held e).
Qed.

(** Several operations one after the other. *)
Lemma disciplined_concat ops : Forall disciplined ops → disciplined (concat ops).
Proof.
  unfold disciplined. induction 1 as [|o ops Ho _ IH]; [done|].
  simpl. by rewrite run_app, Ho.
Qed.

(** A lock taken is not yet held. *)
Lemma allowed_acquire held l : allowed held (Acquire l) = true → l ∉ held.
Proof.
  simpl. rewrite forallb_forall. intros Ha Hl. apply list_elem_of_In, Ha, Nat.ltb_lt in Hl. lia.
Qed.

Lemma allowed_release held l : allowed held (Release l) = true → ∃ h, held = l :: h.
Proof.
  simpl. intros H%bool_decide_eq_true_1. destruct held as [|x h]; [done|].
  injection H as ->. by exists h.
Qed.

Lemma after_nodup held e : NoDup held → allowed held e = true → NoDup (after held e).
Proof.
  intros Hn Ha. destruct e; try done.
  - constructor; [by apply allowed_acquire|done].
  - destruct held; [done|]. by apply NoDup_cons in Hn as [_ ?].
Qed.

Definition holding (held : list lock) (c : list event) : option (list event) :=
  if decide (L ∈ held) then Some c else None.

(** The section under way after an action. *)
Definition current (c : list event) (e : event) : list event :=
  match e with
  | Acquire l | Release l => if decide (l = L) then [] else c
  | _ => if vis e then c ++ [e] else c
  end.

(** The section an action completes. *)
Definition completed (c : list event) (e : event) : list (list event) :=
  match e with Release l => if decide (l = L) then [c] else [] | _ => [] end.

Lemma sections_step held c e evs : NoDup held → allowed held e = true →
  sections (holding held c) (e :: evs) =
  completed c e ++ sections (holding (after held e) (current c e)) evs.
Proof.
  intros Hn Ha. unfold holding. destruct e as [l|l|d|d|]; simpl in *.
  - apply allowed_acquire in Ha. destruct (decide (l = L)) as [->|Hl].
    + rewrite (decide_True _ _ (P := L ∈ L :: held)) by set_solver. done.
    + rewrite (decide_ext (L ∈ l :: held) (L ∈ held)); [done|].
      rewrite elem_of_cons. split; [intros [?|?]; congruence|auto].
  - apply allowed_release in Ha as [h ->]. simpl. apply NoDup_cons in Hn as [Hn _]. destruct (decide (l = L)) as [->|Hl].
    + rewrite decide_True by set_solver. by rewrite decide_False.
    + rewrite (decide_ext (L ∈ l :: h) (L ∈ h)) by (rewrite elem_of_cons; split; [intros [?|?]; congruence|auto]).
      done.
  - destruct (vis _); [|done]. by apply bool_decide_eq_true_1 in Ha; rewrite !decide_True.
  - destruct (vis _); [|done]. by apply bool_decide_eq_true_1 in Ha; rewrite !decide_True.
  - destruct (vis _); [|done]. by apply bool_decide_eq_true_1 in Ha; rewrite !decide_True.
Qed.

Lemma sections_app_run a b held c : NoDup held → run held a = Some [] →
  sections (holding held c) (a ++ b) = sections (holding held c) a ++ sections None b.
Proof.
  revert held c. induction a as [|e a IH]; intros held c Hn.
  - intros [= ->]. done.
  - cbn [run]. destruct (allowed held e) eqn:Ha; [|done]. intros Hr.
    rewrite <- app_comm_cons, !sections_step by done.
    rewrite <- app_assoc, IH; [done|by apply after_nodup|done].
Qed.

(** The sections of several operations one after the other. *)
Lemma sections_app_done a b : run [] a = Some [] →
  sections None (a ++ b) = sections None a ++ sections None b.
Proof.
  intros Hr. apply (sections_app_run a b [] []); [constructor|done].
Qed.

Lemma sections_concat ops : Forall disciplined ops →
  sections None (concat ops) = concat (sections None <$> ops).
Proof.
  induction 1 as [|o ops Ho _ IH]; [done|]. simpl. by rewrite sections_app_done, IH.
Qed.

(** ** The threads together *)

(** Every thread follows the discipline to its end, and no lock is held twice. *)
Record coherent (s : system) : Prop := {
  co_run i t : threads s !! i = Some t → run (held t) (todo t) = Some [];
  co_nodup i t : threads s !! i = Some t → NoDup (held t);
  co_excl i j t u l : threads s !! i = Some t → threads s !! j = Some u →
    l ∈ held t → l ∈ held u → i = j;
}.

Lemma start_coherent scripts : Forall disciplined scripts → coherent (start scripts).
Proof.
  intros Hs. split; simpl.
  - intros i t (evs & -> & Hi)%list_lookup_fmap_Some. simpl. by eapply Forall_lookup_1 in Hs.
  - intros i t (evs & -> & Hi)%list_lookup_fmap_Some. constructor.
  - intros i j t u l (evs & -> & Hi)%list_lookup_fmap_Some. set_solver.
Qed.

Lemma free_spec ts l i t : free ts l = true → ts !! i = Some t → l ∉ held t.
Proof.
  unfold free. rewrite forallb_forall. intros Hf Hi%list_elem_of_lookup_2%list_elem_of_In.
  apply Hf in Hi. by apply negb_true_iff, bool_decide_eq_false_1 in Hi.
Qed.

(** The step of a thread of a coherent system is allowed. *)
Lemma coherent_allowed s i t e rest : coherent s → threads s !! i = Some t →
  todo t = e :: rest → allowed (held t) e = true ∧ run (after (held t) e) rest = Some [].
Proof.
  intros Hc Hi Ht. pose proof (co_run s Hc i t Hi) as Hr. rewrite Ht in Hr. simpl in Hr.
  by destruct (allowed (held t) e).
Qed.

(** What a thread holds after its step it held before, or nobody did. *)
Lemma after_held ts i t e l : ts !! i = Some t → enabled ts e = true →
  l ∈ after (held t) e →
  l ∈ held t ∨ ∀ j u, ts !! j = Some u → l ∉ held u.
Proof.
  intros Hi He Hl. destruct e as [l'|l'|d|d|]; simpl in *; auto.
  - apply elem_of_cons in Hl as [->|Hl]; [|auto]. right. intros j u Hj.
    by eapply free_spec.
  - left. destruct (held t); set_solver.
Qed.

Lemma step_coherent s s' : coherent s → step s s' → coherent s'.
Proof.
  intros Hc Hstep. destruct Hstep as [i t e rest Hi Ht He].
  destruct (coherent_allowed s i t e rest Hc Hi Ht) as [Ha Hr]. split; simpl.
  - intros j u [(-> & <- & _)|[Hij Hj]]%list_lookup_insert_Some; [done|by eapply co_run].
  - intros j u [(-> & <- & _)|[Hij Hj]]%list_lookup_insert_Some; simpl.
    + apply after_nodup; [by eapply co_nodup|done].
    + by eapply co_nodup.
  - intros j k u v l [(-> & <- & _)|[Hij Hj]]%list_lookup_insert_Some
      [(-> & <- & _)|[Hik Hk]]%list_lookup_insert_Some; simpl; intros Hu Hv.
    + done.
    + destruct (after_held _ _ _ _ _ Hi He Hu) as [Hu'|Hu']; [by eapply co_excl|].
      by destruct (Hu' _ _ Hk).
    + destruct (after_held _ _ _ _ _ Hi He Hv) as [Hv'|Hv']; [by eapply co_excl|].
      by destruct (Hv' _ _ Hj).
    + by eapply co_excl.
Qed.

Lemma reach_coherent scripts s : Forall disciplined scripts →
  rtc step (start scripts) s → coherent s.
Proof.
  intros Hs Hr. apply (rtc_ind_r coherent (start scripts)) in Hr; [done|..].
  - by apply start_coherent.
  - intros x y _ Hstep Hx. by eapply step_coherent.
Qed.

(** ** Progress *)

Lemma blocked_by ts l : free ts l = false → ∃ j u, ts !! j = Some u ∧ l ∈ held u.
Proof.
  intros Hf. induction ts as [|t ts IH]; simpl in Hf; [done|].
  destruct (bool_decide (l ∈ held t)) eqn:E.
  - apply bool_decide_eq_true_1 in E. by exists 0%nat, t.
  - destruct (IH Hf) as (j & u & Hj & Hu). by exists (S j), u.
Qed.

(** A thread that holds a lock is not at its end, and any lock it waits for comes later
    in the order. *)
Lemma holder_next s j u l : coherent s → threads s !! j = Some u → l ∈ held u →
  ∃ e rest, todo u = e :: rest ∧ ∀ l', e = Acquire l' → (rank l < rank l')%nat.
Proof.
  intros Hc Hj Hl. pose proof (co_run s Hc j u Hj) as Hr.
  destruct (todo u) as [|e rest] eqn:E; simpl in Hr; [by injection Hr as Hr; rewrite Hr in Hl; set_solver|].
  exists e, rest. split; [done|]. intros l' ->.
  destruct (allowed (held u) (Acquire l')) eqn:Ha; [|done]. simpl in Ha.
  rewrite forallb_forall in Ha. by apply list_elem_of_In, Ha, Nat.ltb_lt in Hl.
Qed.

(** Follow the holder of the lock waited for: the ranks grow, so this ends at a thread
    that can go on. *)
Lemma some_step s i t e rest n : coherent s → threads s !! i = Some t → todo t = e :: rest →
  (∀ l, e = Acquire l → (3 - rank l ≤ n)%nat) → ∃ s', step s s'.
Proof.
  intros Hc. revert i t e rest. induction n as [|n IH]; intros i t e rest Hi Ht Hn.
  - exists (mkSystem (<[i := mkThread rest (after (held t) e)]> (threads s)) (log s ++ [(i, e)])).
    apply thread_step; [done..|]. destruct e as [l| | | |]; try done.
    specialize (Hn l eq_refl). destruct l; simpl in Hn; lia.
  - destruct (enabled (threads s) e) eqn:He; [by eexists; eapply thread_step|].
    destruct e as [l| | | |]; try done. simpl in He.
    destruct (blocked_by _ _ He) as (j & u & Hj & Hl).
    destruct (holder_next s j u l Hc Hj Hl) as (e' & rest' & Hu & Hlt).
    eapply (IH j u e' rest' Hj Hu). intros l' Hl'. specialize (Hlt l' Hl').
    specialize (Hn l eq_refl). lia.
Qed.

Lemma progress s : coherent s → finished s ∨ ∃ s', step s s'.
Proof.
  intros Hc. destruct (decide (Forall (λ t, todo t = []) (threads s))) as [H|H]; [by left|].
  right. apply not_Forall_Exists in H; [|apply _].
  apply Exists_exists in H as (t & Ht & Hne). apply list_elem_of_lookup_1 in Ht as [i Hi].
  simpl in Hne. destruct (todo t) as [|e rest] eqn:E; [done|].
  eapply (some_step s i t e rest 3); [done..|]. intros l ->. lia.
Qed.

Lemma step_remaining s s' : step s s' → remaining s = S (remaining s').
Proof.
  intros [i t e rest Hi Ht He]. unfold remaining. simpl.
  rewrite <- (take_drop_middle _ _ _ Hi) at 1.
  rewrite insert_take_drop by (by eapply lookup_lt_Some).
  rewrite !sum_list_with_app. simpl. rewrite Ht. simpl. lia.
Qed.

(** From a coherent system all threads can be brought to their ends. *)
Lemma completes s : coherent s → ∃ s', rtc step s s' ∧ finished s'.
Proof.
  remember (remaining s) as n eqn:En. revert s En.
  induction n as [n IH] using lt_wf_ind; intros s -> Hc.
  destruct (progress s Hc) as [Hf|[s1 Hs]]; [by exists s|].
  destruct (IH (remaining s1)) with (s := s1) as (s' & Hr & Hf); [|done|by eapply step_coherent|].
  - rewrite (step_remaining _ _ Hs). lia.
  - exists s'. split; [by eapply rtc_l|done].
Qed.

(** ** What is done under the lock *)
Hypothesis vis_acquire : ∀ l, vis (Acquire l) = false.
Hypothesis vis_release : ∀ l, vis (Release l) = false.

Definition of_thread (i : nat) (order : list (nat * list event)) : list (list event) :=
  (filter (λ p, p.1 = i) order).*2.

(** The visible actions so far are the sections of the threads one after the other,
    [order], and the section under way, [cur]. *)
Record serialised (scripts : list (list event)) (s : system)
    (order : list (nat * list event)) (cur : list event) : Prop := {
  se_log : filter (λ e, vis e = true) (log s).*2 = concat order.*2 ++ cur;
  se_free : (∀ i t, threads s !! i = Some t → L ∉ held t) → cur = [];
  se_threads : length (threads s) = length scripts;
  se_sections i t evs : threads s !! i = Some t → scripts !! i = Some evs →
    sections None evs = of_thread i order ++ sections (holding (held t) cur) (todo t);
}.

(** The action of a thread that does not hold the lock leaves the section under way
    alone. *)
Lemma not_holding held c e : L ∉ held → allowed held e = true → e ≠ Acquire L →
  current c e = c ∧ completed c e = [] ∧ vis e = false ∧ L ∉ after held e.
Proof.
  intros HL Ha He. destruct e as [l|l|d|d|]; simpl in *.
  - rewrite decide_False by congruence. split_and!; auto.
    intros [?|?]%elem_of_cons; congruence.
  - apply allowed_release in Ha as [h ->]. apply not_elem_of_cons in HL as [HL HL'].
    destruct (decide (l = L)); [congruence|]. split_and!; simpl; auto.
  - destruct (vis _); [by apply bool_decide_eq_true_1 in Ha|done].
  - destruct (vis _); [by apply bool_decide_eq_true_1 in Ha|done].
  - destruct (vis _); [by apply bool_decide_eq_true_1 in Ha|done].
Qed.

(** What an action adds to the visible ones. *)
Lemma visible_step held c e : NoDup held → allowed held e = true →
  (e = Acquire L → c = []) →
  c ++ filter (λ e, vis e = true) [e] = concat (completed c e) ++ current c e.
Proof.
  intros Hn Ha Hc. rewrite filter_cons, filter_nil.
  destruct e as [l|l|d|d|]; simpl.
  - rewrite vis_acquire. simpl. rewrite app_nil_r.
    destruct (decide (l = L)) as [->|]; [by rewrite Hc|done].
  - rewrite vis_release. simpl. rewrite app_nil_r.
    by destruct (decide (l = L)) as [->|]; simpl; rewrite ?app_nil_r.
  - by destruct (vis _); simpl; rewrite ?app_nil_r.
  - by destruct (vis _); simpl; rewrite ?app_nil_r.
  - by destruct (vis _); simpl; rewrite ?app_nil_r.
Qed.

Lemma tagged {A} (i : nat) (l : list A) : ((λ c, (i, c)) <$> l).*2 = l.
Proof. induction l as [|a l IH]; [done|]. rewrite !fmap_cons. by f_equal. Qed.

Lemma step_serialised scripts s s' order cur : coherent s → serialised scripts s order cur →
  step s s' → ∃ order' cur', serialised scripts s' order' cur'.
Proof.
  intros Hc Hse Hstep. destruct Hstep as [i t e rest Hi Ht He].
  destruct (coherent_allowed s i t e rest Hc Hi Ht) as [Ha _].
  pose proof (co_nodup s Hc i t Hi) as Hn.
  assert (e = Acquire L → cur = []) as Hcur.
  { intros ->. apply (se_free _ _ _ _ Hse). intros j u Hj. by eapply free_spec. }
  exists (order ++ ((λ c, (i, c)) <$> completed cur e)), (current cur e). split; simpl.
  - rewrite fmap_app, list.filter_app, (se_log _ _ _ _ Hse), fmap_app, concat_app, <- !app_assoc.
    f_equal. rewrite tagged. by eapply visible_step.
  - intros Hfree. destruct (decide (L ∈ held t)) as [HL|HL].
    + specialize (Hfree i (mkThread rest (after (held t) e))). simpl in Hfree.
      rewrite list_lookup_insert_eq in Hfree by (by eapply lookup_lt_Some).
      specialize (Hfree eq_refl). destruct e as [l|l|d|d|]; simpl in *; try done; [set_solver|].
      apply allowed_release in Ha as [h Hh]. rewrite Hh in HL, Hfree.
      apply elem_of_cons in HL as [->|HL]; [by rewrite decide_True|done].
    + destruct (decide (e = Acquire L)) as [->|Hne].
      * simpl. by rewrite decide_True.
      * destruct (not_holding (held t) cur e HL Ha Hne) as (-> & _ & _ & _).
        apply (se_free _ _ _ _ Hse). intros j u Hj. destruct (decide (j = i)) as [->|Hji]; [naive_solver|].
        apply (Hfree j u). by rewrite list_lookup_insert_ne.
  - by rewrite length_insert, (se_threads _ _ _ _ Hse).
  - intros j u evs [(-> & <- & _)|[Hij Hj]]%list_lookup_insert_Some Hevs; simpl.
    + rewrite (se_sections _ _ _ _ Hse _ _ _ Hi Hevs), Ht, sections_step by done.
      unfold of_thread. rewrite list.filter_app, fmap_app, <- app_assoc. do 2 f_equal.
      destruct e as [l|l|d|d|]; simpl; try done. destruct (decide (l = L)); [|done].
      simpl. by rewrite filter_cons_True, filter_nil.
    + rewrite (se_sections _ _ _ _ Hse _ _ _ Hj Hevs). unfold of_thread.
      rewrite list.filter_app, fmap_app.
      assert (filter (λ p, p.1 = j) ((λ c, (i, c)) <$> completed cur e) = []) as ->.
      { destruct e as [l|l|d|d|]; simpl; try done. by destruct (decide (l = L)); [|done];
        simpl; rewrite filter_cons_False. }
      rewrite app_nil_r. f_equal. unfold holding. destruct (decide (L ∈ held u)) as [HL|]; [|done].
      destruct (not_holding (held t) cur e) as (-> & _ & _ & _); [|done| |done].
      * intros HL'. by specialize (co_excl s Hc _ _ _ _ _ Hi Hj HL' HL).
      * intros ->. by eapply free_spec.
Qed.

Lemma reach_serialised scripts s : Forall disciplined scripts →
  rtc step (start scripts) s → ∃ order cur, serialised scripts s order cur.
Proof.
  intros Hs Hr. apply (rtc_ind_r (λ s, coherent s ∧ ∃ order cur, serialised scripts s order cur)
    (start scripts)) in Hr; [by destruct Hr|..].
  - split; [by apply start_coherent|]. exists [], []. split; simpl; try done.
    + by rewrite length_fmap.
    + intros i t evs (evs' & -> & Hi)%list_lookup_fmap_Some Hevs. simpl.
      simplify_eq. done.
  - intros x y _ Hstep (Hx & order & cur & Hse).
    split; [by eapply step_coherent|by eapply step_serialised].
Qed.

(** When all threads are at their ends, the visible actions are whole sections, each
    thread's in its own order. *)
Lemma finished_serialised scripts s : Forall disciplined scripts →
  rtc step (start scripts) s → finished s →
  ∃ order, filter (λ e, vis e = true) (log s).*2 = concat order.*2 ∧
    ∀ i evs, scripts !! i = Some evs → of_thread i order = sections None evs.
Proof.
  intros Hs Hr Hf. pose proof (reach_coherent _ _ Hs Hr) as Hc.
  destruct (reach_serialised _ _ Hs Hr) as (order & cur & Hse).
  assert (∀ i t, threads s !! i = Some t → todo t = [] ∧ held t = []) as Hend.
  { intros i t Hi. pose proof (co_run s Hc i t Hi) as Hrun.
    eapply Forall_lookup_1 in Hf; [|done]. simpl in Hf. rewrite Hf in Hrun.
    by injection Hrun. }
  exists order. split.
  - rewrite (se_log _ _ _ _ Hse), (se_free _ _ _ _ Hse), app_nil_r; [done|].
    intros i t [_ ->]%Hend. set_solver.
  - intros i evs Hi. destruct (threads s !! i) as [t|] eqn:Et.
    + rewrite (se_sections _ _ _ _ Hse _ _ _ Et Hi). destruct (Hend _ _ Et) as [-> ->].
      by rewrite app_nil_r.
    + apply lookup_ge_None in Et. rewrite (se_threads _ _ _ _ Hse) in Et.
      apply lookup_lt_Some in Hi. lia.
Qed.
End discipline.
