(* ===== verification/PortThreads.v ===== *)
(** * Threads on one port, and on one power meter

    The actions of an operation, its calls of the mutexes and of the implementation, are
    obtained by running its definition of Serial.v (or PowerMeter.v) on a port that
    records them and takes its answers from a script.  Whatever the answers, exceptions
    included, every operation follows the discipline of Threads.v: threads sharing a
    port do not block each other, and their messages are not mixed on the wire. *)
From stdpp Require Import relations.
From S2P Require Import Prelude CppStd Threads Serial Device PowerMeter.

(** What the implementation answers to a call: the bytes read, the numbers of bytes
    accepted by successive calls of the system during a write, and the rest of the
    results; [a_flag] is also what [isOpen] says before the call. *)
Record answer := mkAnswer {
  a_bytes : bytes;
  a_sizes : list nat;
  a_flag : bool;
  a_num : Z;
  a_throw : option exn;
}.
Definition no_answer : answer := mkAnswer [] [] false 0 None.

Record tracer := mkTracer { tr_events : list event; tr_answers : list answer }.
#[export] Instance eta_tracer : Eta tracer := λ t, mkTracer (tr_events t) (tr_answers t).

(** The pieces of [d] accepted one after the other. *)
Fixpoint pieces (sizes : list nat) (d : bytes) : list bytes :=
  match sizes with
  | [] => []
  | n :: sizes' => take n d :: pieces sizes' (drop n d)
  end.

Module Tracer.
Definition emit (e : event) : M tracer unit :=
  modify (λ t, t <| tr_events := tr_events t ++ [e] |>).
Definition next : M tracer answer := λ t,
  match tr_answers t with
  | a :: rest => (Ret a, t <| tr_answers := rest |>)
  | [] => (Ret no_answer, t)
  end.
Definition answering {A} (a : answer) (r : A) : M tracer A :=
  match a_throw a with Some e => throw e | None => ret r end.
Definition call {A} (f : answer → A) : M tracer A :=
  a <- next ;; emit Call ;; answering a (f a).
Definition read (n : nat) : M tracer bytes :=
  a <- next ;; emit (Receive (take n (a_bytes a))) ;; answering a (take n (a_bytes a)).
Fixpoint transmit (ds : list bytes) : M tracer unit :=
  match ds with
  | [] => ret tt
  | d :: ds' => emit (Transmit d) ;; transmit ds'
  end.
Definition write (d : bytes) : M tracer nat :=
  a <- next ;; transmit (pieces (a_sizes a) d) ;;
  answering a (length (concat (pieces (a_sizes a) d))).
Definition is_open (t : tracer) : bool := a_flag (default no_answer (head (tr_answers t))).
Definition add (e : event) (t : tracer) : tracer :=
  t <| tr_events := tr_events t ++ [e] |>.
End Tracer.

#[export] Instance tracer_impl : SerialImpl tracer := {|
  impl_construct := Tracer.call (λ _, tt);
  impl_destroy := Tracer.call (λ _, tt);
  impl_open := Tracer.call (λ _, tt);
  impl_close := Tracer.call (λ _, tt);
  impl_isOpen := Tracer.is_open;
  impl_available := Tracer.call a_num;
  impl_waitReadable _ := Tracer.call a_flag;
  impl_waitByteTimes _ := Tracer.call (λ _, tt);
  impl_read := Tracer.read;
  impl_write := Tracer.write;
  impl_flush := Tracer.call (λ _, tt);
  impl_flushInput := Tracer.call (λ _, tt);
  impl_flushOutput := Tracer.call (λ _, tt);
  impl_setPort _ := Tracer.call (λ _, tt);
  impl_getPort _ := [];
  impl_setTimeout _ := Tracer.call (λ _, tt);
  impl_getTimeout _ := simpleTimeout 0;
  impl_setBaudrate _ := Tracer.call (λ _, tt);
  impl_getBaudrate _ := 9600;
  impl_setBytesize _ := Tracer.call (λ _, tt);
  impl_getBytesize _ := eightbits;
  impl_setParity _ := Tracer.call (λ _, tt);
  impl_getParity _ := parity_none;
  impl_setStopbits _ := Tracer.call (λ _, tt);
  impl_getStopbits _ := stopbits_one;
  impl_setFlowcontrol _ := Tracer.call (λ _, tt);
  impl_getFlowcontrol _ := flowcontrol_none;
  impl_sendBreak _ := Tracer.call (λ _, tt);
  impl_setBreak _ := Tracer.call (λ _, tt);
  impl_setRTS _ := Tracer.call (λ _, tt);
  impl_setDTR _ := Tracer.call (λ _, tt);
  impl_waitForChange := Tracer.call a_flag;
  impl_getCTS := Tracer.call a_flag;
  impl_getDSR := Tracer.call a_flag;
  impl_getRI := Tracer.call a_flag;
  impl_getCD := Tracer.call a_flag;
  impl_readLock := Tracer.emit (Acquire ReadLock);
  impl_readUnlock := Tracer.add (Release ReadLock);
  impl_writeLock := Tracer.emit (Acquire WriteLock);
  impl_writeUnlock := Tracer.add (Release WriteLock);
  sleep_for_ms _ t := t;
|}.

(** ** The operations of a port *)
Inductive port_op :=
  | Op_read (buffer : bytes) (size : nat)
  | Op_readline (buffer : bytes) (size : nat) (eol : bytes)
  | Op_readlines (size : nat) (eol : bytes)
  | Op_write (data : bytes)
  | Op_setPort (port : bytes)
  | Op_flush | Op_flushInput | Op_flushOutput
  | Op_open | Op_close | Op_available | Op_waitReadable | Op_waitByteTimes (count : Z)
  | Op_setTimeout (t : Timeout) | Op_setBaudrate (b : Z) | Op_setBytesize (b : bytesize_t)
  | Op_setParity (p : parity_t) | Op_setStopbits (st : stopbits_t)
  | Op_setFlowcontrol (f : flowcontrol_t)
  | Op_sendBreak (duration : Z) | Op_setBreak (level : bool) | Op_setRTS (level : bool)
  | Op_setDTR (level : bool) | Op_waitForChange
  | Op_getCTS | Op_getDSR | Op_getRI | Op_getCD.

Definition ignore {S A} (m : M S A) : M S unit := _ <- m ;; ret tt.

Definition perform {P} `{SerialImpl P} (o : port_op) : M P unit :=
  match o with
  | Op_read buffer size => ignore (Serial.read buffer size)
  | Op_readline buffer size eol => ignore (Serial.readline buffer size eol)
  | Op_readlines size eol => ignore (Serial.readlines size eol)
  | Op_write data => ignore (Serial.write data)
  | Op_setPort port => Serial.setPort port
  | Op_flush => Serial.flush
  | Op_flushInput => Serial.flushInput
  | Op_flushOutput => Serial.flushOutput
  | Op_open => Serial.open
  | Op_close => Serial.close
  | Op_available => ignore Serial.available
  | Op_waitReadable => ignore Serial.waitReadable
  | Op_waitByteTimes count => Serial.waitByteTimes count
  | Op_setTimeout t => Serial.setTimeout t
  | Op_setBaudrate b => Serial.setBaudrate b
  | Op_setBytesize b => Serial.setBytesize b
  | Op_setParity p => Serial.setParity p
  | Op_setStopbits st => Serial.setStopbits st
  | Op_setFlowcontrol f => Serial.setFlowcontrol f
  | Op_sendBreak duration => Serial.sendBreak duration
  | Op_setBreak level => Serial.setBreak level
  | Op_setRTS level => Serial.setRTS level
  | Op_setDTR level => Serial.setDTR level
  | Op_waitForChange => ignore Serial.waitForChange
  | Op_getCTS => ignore Serial.getCTS
  | Op_getDSR => ignore Serial.getDSR
  | Op_getRI => ignore Serial.getRI
  | Op_getCD => ignore Serial.getCD
  end.

(** [readline] must have room for its end of line: it writes outside its buffer
    otherwise. *)
Definition op_ok (o : port_op) : Prop :=
  match o with
  | Op_readline _ size eol => (0 < size)%nat ∧ (length eol ≤ size)%nat
  | _ => True
  end.

(** The actions of an operation. *)
Definition op_script (o : port_op * list answer) : list event :=
  tr_events (perform o.1 (mkTracer [] o.2)).2.

(** A thread: its operations one after the other, an exception being caught between
    them. *)
Definition port_thread (ops : list (port_op * list answer)) : list event :=
  concat (op_script <$> ops).

(** ** Every operation follows the discipline *)
Section following.
Context (L : lock) (vis : event → bool).
Hypothesis vis_call : vis Call = false.

(** The actions so far were allowed and leave the locks [h] held. *)
Definition follows (h : list lock) (t : tracer) : Prop := run L vis [] (tr_events t) = Some h.

(** What the operations need of the locks held by their caller: the caller holds at most
    the mutex of the meter, and what the port does is done under [L]. *)
Record outer (h : list lock) : Prop := {
  outer_cmd : Forall (λ l, l = CmdLock) h;
  outer_read d : implb (vis (Receive d)) (bool_decide (L ∈ ReadLock :: h)) = true;
  outer_write d : implb (vis (Transmit d)) (bool_decide (L ∈ WriteLock :: h)) = true;
}.

Lemma follows_add h e t : follows h t → allowed L vis h e = true →
  follows (after h e) (Tracer.add e t).
Proof.
  unfold follows, Tracer.add, upd. simpl. intros Ht Ha. rewrite run_app, Ht. simpl. by rewrite Ha.
Qed.

Lemma emit_safe h e : allowed L vis h e = true → after h e = h → safe (follows h) (Tracer.emit e).
Proof.
  intros Ha He. apply safe_modify. intros t Ht. rewrite <- He at 1.
  by apply (follows_add h e t Ht).
Qed.

Lemma next_safe h : safe (follows h) Tracer.next.
Proof. intros t Ht. unfold wp, Tracer.next. by destruct (tr_answers t). Qed.

Lemma answering_safe {A} h a (r : A) : safe (follows h) (Tracer.answering a r).
Proof. unfold Tracer.answering. destruct (a_throw a); solve_safe. Qed.

Lemma call_follows {A} h (f : answer → A) : safe (follows h) (Tracer.call f).
Proof.
  apply safe_bind; [apply next_safe|]. intros a. apply safe_bind.
  - apply emit_safe; [simpl; by rewrite vis_call|done].
  - intros _. apply answering_safe.
Qed.

Lemma transmit_safe h ds :
  (∀ d, implb (vis (Transmit d)) (bool_decide (L ∈ h)) = true) →
  safe (follows h) (Tracer.transmit ds).
Proof.
  intros Hv. induction ds as [|d ds IH]; [apply safe_ret|]. simpl.
  apply safe_bind; [by apply emit_safe; [apply Hv|]|done].
Qed.

Lemma write_follows h d :
  (∀ d, implb (vis (Transmit d)) (bool_decide (L ∈ h)) = true) →
  safe (follows h) (Tracer.write d).
Proof.
  intros Hv. apply safe_bind; [apply next_safe|]. intros a.
  apply safe_bind; [by apply transmit_safe|]. intros _. apply answering_safe.
Qed.

(** A read delivers at most what is asked for. *)
Lemma read_follows h n t :
  (∀ d, implb (vis (Receive d)) (bool_decide (L ∈ h)) = true) → follows h t →
  wp (Tracer.read n) (post (λ bs t', (length bs ≤ n)%nat ∧ follows h t') (λ _, follows h)) t.
Proof.
  intros Hv Ht. unfold Tracer.read. eapply wp_bind_post; [by apply next_safe|].
  intros a t1 H1. simpl in H1. eapply wp_bind_post; [by apply emit_safe; [apply Hv| |exact H1]|].
  intros [] t2 H2. simpl in H2. unfold wp, Tracer.answering.
  destruct (a_throw a); simpl; [done|]. split; [|done]. rewrite length_take. lia.
Qed.

Lemma outer_below h l : outer h → l ≠ CmdLock → allowed L vis h (Acquire l) = true.
Proof.
  intros Ho Hl. simpl. apply forallb_forall. intros x Hx%list_elem_of_In.
  pose proof (outer_cmd h Ho) as Hc. rewrite Forall_forall in Hc. rewrite (Hc x Hx).
  by destruct l.
Qed.

(** A scope under a lock that comes after the locks held. *)
Lemma scope_follows {A} h l (body : M tracer A) : allowed L vis h (Acquire l) = true →
  safe (follows (l :: h)) body →
  safe (follows h) (bind (Tracer.emit (Acquire l)) (λ _, finally body (Tracer.add (Release l)))).
Proof.
  intros Ha Hb t Ht. unfold wp, bind, Tracer.emit, modify.
  pose proof (follows_add h (Acquire l) t Ht Ha) as H1.
  specialize (Hb _ H1). unfold wp, finally in *.
  change (t <| tr_events := _ |>) with (Tracer.add (Acquire l) t).
  assert (∀ t', follows (l :: h) t' → follows h (Tracer.add (Release l) t')) as Hr.
  { intros t' Ht'. apply (follows_add (l :: h) (Release l) t' Ht'). simpl.
    by apply bool_decide_eq_true_2. }
  destruct (body _) as [[] t']; simpl in *; auto.
Qed.

Lemma scoped_read_follows {A} h (body : M tracer A) : outer h →
  safe (follows (ReadLock :: h)) body → safe (follows h) (Serial.ScopedReadLock body).
Proof. intros Ho. apply scope_follows. by apply outer_below. Qed.

Lemma scoped_write_follows {A} h (body : M tracer A) : outer h →
  safe (follows (WriteLock :: h)) body → safe (follows h) (Serial.ScopedWriteLock body).
Proof. intros Ho. apply scope_follows. by apply outer_below. Qed.

Lemma scoped_both_follows {A} h (body : M tracer A) : outer h →
  safe (follows (WriteLock :: ReadLock :: h)) body →
  safe (follows h) (Serial.ScopedReadLock (Serial.ScopedWriteLock body)).
Proof.
  intros Ho Hb. apply scoped_read_follows; [done|]. apply scope_follows; [|done].
  simpl. by apply (outer_below h WriteLock Ho).
Qed.

Lemma readline_loop_follows h fuel size eol acc :
  (∀ d, implb (vis (Receive d)) (bool_decide (L ∈ h)) = true) →
  (length eol ≤ size)%nat → (length acc < size)%nat → (size - length acc < fuel)%nat →
  safe (follows h) (Serial.readline_loop fuel size eol acc).
Proof.
  intros Hv He. revert acc. induction fuel as [|f IH]; intros acc Ha Hf; [lia|]. intros t Ht.
  cbn [Serial.readline_loop]. rewrite (proj2 (Nat.leb_gt _ _)) by done.
  eapply wp_bind_post; [by apply read_follows|]. intros bs t1 [Hbs H1].
  pose proof (length_app acc bs) as Hlen.
  destruct (Nat.eqb_spec (length bs) 0) as [E0|E0]; [done|].
  destruct (Nat.ltb_spec (length (acc ++ bs)) (length eol)); [apply IH; [lia..|done]|].
  destruct (str_eqb _ eol); [done|].
  destruct (Nat.eqb_spec (length (acc ++ bs)) size); [done|]. apply IH; [lia..|done].
Qed.

Lemma readlines_loop_follows h fuel size eol acc start lines :
  (∀ d, implb (vis (Receive d)) (bool_decide (L ∈ h)) = true) →
  (size - length acc < fuel)%nat →
  safe (follows h) (Serial.readlines_loop fuel size eol acc start lines).
Proof.
  intros Hv. revert acc start lines. induction fuel as [|f IH]; intros acc start lines Hf; [lia|].
  intros t Ht. cbn [Serial.readlines_loop].
  destruct (Nat.ltb_spec (length acc) size); [|done].
  eapply wp_bind_post; [by apply read_follows|]. intros bs t1 [Hbs H1].
  pose proof (length_app acc bs) as Hlen.
  destruct (Nat.eqb_spec (length bs) 0) as [E0|E0]; [done|].
  destruct (_ <? _)%nat; [apply IH; [lia|done]|].
  destruct (str_eqb _ eol); (destruct (Nat.eqb_spec (length (acc ++ bs)) size); [done|]);
    (apply IH; [lia|done]).
Qed.

Lemma readline_follows h buffer size eol : outer h → (0 < size)%nat → (length eol ≤ size)%nat →
  safe (follows h) (Serial.readline buffer size eol).
Proof.
  intros Ho Hs He. apply scoped_read_follows; [done|].
  apply safe_bind; [|by intros; apply safe_ret].
  apply readline_loop_follows; [apply Ho|simpl; lia..].
Qed.

Lemma serial_write_follows h d : outer h → safe (follows h) (Serial.write d).
Proof. intros Ho. apply scoped_write_follows; [done|]. apply write_follows. apply Ho. Qed.

Lemma perform_follows h o : outer h → op_ok o → safe (follows h) (perform o).
Proof.
  intros Ho Hok.
  destruct o; simpl in *; try apply call_follows;
    try (apply safe_bind; [|by intros; apply safe_ret]).
  - apply scoped_read_follows; [done|]. apply safe_bind; [|by intros; apply safe_ret].
    intros t Ht. eapply wp_mono; [apply (read_follows (ReadLock :: h)); [apply Ho|done]|].
    intros [] t'; simpl; tauto.
  - apply readline_follows; tauto.
  - apply scoped_read_follows; [done|]. apply readlines_loop_follows; [apply Ho|simpl; lia].
  - by apply serial_write_follows.
  - apply scoped_both_follows; [done|]. apply safe_bind; [apply safe_gets|]. intros b.
    apply safe_bind; [apply safe_if; [apply call_follows|apply safe_ret]|]. intros _.
    apply safe_bind; [apply call_follows|]. intros _. apply safe_if; [apply call_follows|apply safe_ret].
  - apply scoped_both_follows; [done|apply call_follows].
  - apply scoped_read_follows; [done|apply call_follows].
  - apply scoped_write_follows; [done|apply call_follows].
  - apply call_follows.
  - apply safe_bind; [apply safe_gets|]. intros. apply call_follows.
  - apply call_follows.
  - apply call_follows.
  - apply call_follows.
  - apply call_follows.
  - apply call_follows.
Qed.

Lemma safe_final {A} h (m : M tracer A) t : safe (follows h) m → follows h t → follows h (m t).2.
Proof. intros Hm Ht. specialize (Hm t Ht). unfold wp in Hm. by destruct (m t) as [[] ?]. Qed.
End following.

(** ** Which actions an operation has *)
Section appending.
Context {S : Type} (v : S → tracer) (p : event → Prop).

(** However [m] ends, it has only added actions that satisfy [p]. *)
Definition appends {A} (m : M S A) : Prop := ∀ s, ∃ evs,
  tr_events (v (m s).2) = tr_events (v s) ++ evs ∧ Forall p evs.

Lemma appends_nothing {A} (m : M S A) : (∀ s, v (m s).2 = v s) → appends m.
Proof. intros Hm s. exists []. by rewrite Hm, app_nil_r. Qed.
Lemma appends_bind {A B} (m : M S A) (k : A → M S B) :
  appends m → (∀ a, appends (k a)) → appends (bind m k).
Proof.
  intros Hm Hk s. destruct (Hm s) as (e1 & H1 & P1). unfold bind.
  destruct (m s) as [[a| | |] s'] eqn:E; simpl in *; try by exists e1.
  destruct (Hk a s') as (e2 & -> & P2). exists (e1 ++ e2). rewrite H1, app_assoc.
  split; [done|by apply Forall_app].
Qed.
Lemma appends_if {A} (b : bool) (m1 m2 : M S A) :
  appends m1 → appends m2 → appends (if b then m1 else m2).
Proof. by destruct b. Qed.
Lemma appends_finally {A} (m : M S A) fin :
  appends m → appends (modify fin) → appends (finally m fin).
Proof.
  intros Hm Hf s. destruct (Hm s) as (e1 & H1 & P1). unfold finally.
  destruct (m s) as [[a|e| |] s'] eqn:E; simpl in *; try by exists e1.
  - destruct (Hf s') as (e2 & H2 & P2). simpl in H2. exists (e1 ++ e2).
    rewrite H2, H1, app_assoc. split; [done|by apply Forall_app].
  - destruct (Hf s') as (e2 & H2 & P2). simpl in H2. exists (e1 ++ e2).
    rewrite H2, H1, app_assoc. split; [done|by apply Forall_app].
Qed.
End appending.

Lemma appends_zoom {S T A} (l : lens S T) (v : T → tracer) p (m : M T A) `{!LensOK l} :
  appends v p m → appends (λ s, v (view l s)) p (zoom l m).
Proof.
  intros Hm s. unfold zoom. destruct (Hm (view l s)) as (evs & He & Hp).
  destruct (m (view l s)) as [o t]. exists evs. simpl in *. by rewrite view_put.
Qed.

(** The structure of the code is followed; the leaves are looked up. *)
Create HintDb appends discriminated.
#[export] Hint Constants Opaque : appends.
Ltac solve_appends :=
  intros; cbv zeta; repeat
    match goal with
    | |- appends _ _ (bind _ _) => apply appends_bind; [|intros ?]
    | |- appends _ _ (if _ then _ else _) => apply appends_if
    | |- appends _ _ (finally _ _) => apply appends_finally
    | |- appends _ _ (match ?x with _ => _ end) => destruct x
    | |- appends _ _ _ => solve [eauto 3 with appends]
    | |- appends _ _ _ => apply appends_nothing; reflexivity
    end.

Section port_appends.
Context (p : event → Prop).
Notation adds := (appends (λ t, t) p).

Lemma add_appends e : p e → adds (modify (Tracer.add e)).
Proof. intros He t. exists [e]. by split; [|constructor]. Qed.
Lemma emit_appends e : p e → adds (Tracer.emit e).
Proof. apply add_appends. Qed.
Lemma next_appends : adds Tracer.next.
Proof.
  intros t. exists []. split; [|constructor]. unfold Tracer.next.
  by destruct (tr_answers t); simpl; rewrite app_nil_r.
Qed.
Lemma answering_appends {A} a (r : A) : adds (Tracer.answering a r).
Proof. unfold Tracer.answering. solve_appends. Qed.
Hint Resolve add_appends emit_appends next_appends answering_appends : appends.

Lemma call_appends {A} (f : answer → A) : p Call → adds (Tracer.call f).
Proof. intros Hc. unfold Tracer.call. solve_appends. Qed.
Lemma read_appends n : (∀ d, p (Receive d)) → adds (Tracer.read n).
Proof. intros Hr. unfold Tracer.read. solve_appends. Qed.
Lemma transmit_appends ds : (∀ d, p (Transmit d)) → adds (Tracer.transmit ds).
Proof. intros Ht. induction ds as [|d ds IH]; simpl; solve_appends. Qed.
Hint Resolve call_appends read_appends transmit_appends : appends.
Lemma write_appends d : (∀ d, p (Transmit d)) → adds (Tracer.write d).
Proof. intros Ht. unfold Tracer.write. solve_appends. Qed.

Lemma readline_loop_appends fuel size eol acc : (∀ d, p (Receive d)) →
  adds (Serial.readline_loop fuel size eol acc).
Proof.
  intros Hr. revert acc. induction fuel as [|f IH]; intros acc; simpl; [solve_appends|].
  unfold Serial.read_. simpl. solve_appends.
Qed.
Lemma readlines_loop_appends fuel size eol acc start lines : (∀ d, p (Receive d)) →
  adds (Serial.readlines_loop fuel size eol acc start lines).
Proof.
  intros Hr. revert acc start lines. induction fuel as [|f IH]; intros acc start lines; simpl;
    [solve_appends|]. unfold Serial.read_. simpl. solve_appends.
Qed.

Lemma scoped_read_appends {A} (body : M tracer A) :
  p (Acquire ReadLock) → p (Release ReadLock) → adds body → adds (Serial.ScopedReadLock body).
Proof. intros Ha Hr Hb. unfold Serial.ScopedReadLock. simpl. solve_appends. Qed.
Lemma scoped_write_appends {A} (body : M tracer A) :
  p (Acquire WriteLock) → p (Release WriteLock) → adds body → adds (Serial.ScopedWriteLock body).
Proof. intros Ha Hr Hb. unfold Serial.ScopedWriteLock. simpl. solve_appends. Qed.
End port_appends.

(** ** What is on the wire *)
Definition is_transmit (e : event) : bool := match e with Transmit _ => true | _ => false end.
Definition port_io (e : event) : bool :=
  match e with Transmit _ | Receive _ => true | _ => false end.

(** The bytes transmitted by a sequence of actions. *)
Definition payload (evs : list event) : bytes :=
  evs ≫= λ e, match e with Transmit d => d | _ => [] end.

(** What an operation sends each time it holds the write lock. *)
Definition op_messages (o : port_op * list answer) : list bytes :=
  match o.1 with
  | Op_write d => [take (sum_list (a_sizes (default no_answer (head o.2)))) d]
  | Op_setPort _ | Op_flush | Op_flushOutput => [[]]
  | _ => []
  end.

Lemma concat_pieces sizes d : concat (pieces sizes d) = take (sum_list sizes) d.
Proof.
  revert d. induction sizes as [|n sizes IH]; intros d; simpl; [done|].
  by rewrite IH, take_take_drop.
Qed.

Lemma payload_filter evs : payload (filter (λ e, is_transmit e = true) evs) = payload evs.
Proof.
  induction evs as [|e evs IH]; [done|]. rewrite filter_cons.
  destruct e; simpl; unfold payload in *; simpl; by rewrite IH.
Qed.

Lemma payload_app a b : payload (a ++ b) = payload a ++ payload b.
Proof. apply bind_app. Qed.

Lemma payload_concat l : payload (concat l) = concat (payload <$> l).
Proof. induction l as [|a l IH]; [done|]. simpl. by rewrite payload_app, IH. Qed.

(** The actions of a write, whatever is answered. *)
Lemma write_script d answers :
  op_script (Op_write d, answers) =
  [Acquire WriteLock] ++
    (Transmit <$> pieces (a_sizes (default no_answer (head answers))) d) ++ [Release WriteLock].
Proof.
  unfold op_script. simpl. unfold ignore, Serial.write, Serial.ScopedWriteLock, Serial.write_.
  simpl. unfold Tracer.write, bind, finally, Tracer.emit, modify, Tracer.next, upd. simpl.
  assert (∀ ds t, Tracer.transmit ds t =
    (Ret tt, mkTracer (tr_events t ++ (Transmit <$> ds)) (tr_answers t))) as Htr.
  { intros ds. induction ds as [|x ds IH]; intros t; simpl.
    - rewrite app_nil_r. by destruct t.
    - unfold bind, Tracer.emit, modify. rewrite IH. unfold upd. simpl. by rewrite <- app_assoc. }
  destruct answers as [|a answers]; simpl; [done|].
  rewrite Htr. unfold Tracer.answering. simpl. by destruct (a_throw a).
Qed.

(** No action takes the write lock or transmits: there is no section. *)
Definition no_write (e : event) : Prop :=
  match e with Acquire WriteLock | Release WriteLock | Transmit _ => False | _ => True end.

Lemma no_write_sections evs cur : Forall no_write evs →
  sections WriteLock is_transmit cur evs = [].
Proof. induction 1 as [|e evs He _ IH]; [done|]. by destruct e as [[]|[]| | |]. Qed.

Lemma transmit_sections ds c evs :
  sections WriteLock is_transmit (Some c) ((Transmit <$> ds) ++ evs) =
  sections WriteLock is_transmit (Some (c ++ (Transmit <$> ds))) evs.
Proof.
  revert c. induction ds as [|d ds IH]; intros c; simpl; [by rewrite app_nil_r|].
  by rewrite IH, <- app_assoc.
Qed.

Lemma payload_transmit ds : payload (Transmit <$> ds) = concat ds.
Proof. induction ds as [|d ds IH]; [done|]. rewrite fmap_cons. cbn. f_equal. exact IH. Qed.

Lemma reads_no_write o answers : match o with
    | Op_read _ _ | Op_readline _ _ _ | Op_readlines _ _ | Op_flushInput => True
    | _ => False end → Forall no_write (op_script (o, answers)).
Proof.
  intros Ho. assert (appends (λ t, t) no_write (perform o)) as Ha.
  { destruct o; try done; simpl; [apply appends_bind; [|solve_appends]..|];
      (apply scoped_read_appends; [done..|]).
    - apply appends_bind; [by apply read_appends|solve_appends].
    - apply appends_bind; [by apply readline_loop_appends|solve_appends].
    - by apply readlines_loop_appends.
    - by apply call_appends. }
  destruct (Ha (mkTracer [] answers)) as (evs & He & Hf). unfold op_script. simpl in *.
  by rewrite He.
Qed.

(** The sections of an operation under the write lock are its messages. *)
Lemma op_sections o :
  payload <$> sections WriteLock is_transmit None (op_script o) = op_messages o.
Proof.
  destruct o as [o answers].
  destruct o; try (rewrite no_write_sections; [done|by apply reads_no_write]);
    try (destruct answers as [|[? ? ? ? []] ?]; reflexivity).
  - rewrite write_script. unfold op_messages. simpl.
    rewrite transmit_sections. simpl. by rewrite payload_transmit, concat_pieces.
  - destruct answers as [|[? ? [] ? []] [|[? ? ? ? []] [|[? ? ? ? []] ?]]]; reflexivity.
Qed.

(** ** Commands to the power meter *)

(** The meter [m] with a fresh recording port. *)
Definition with_port (m : powermeter tracer) (t : tracer) : powermeter tracer :=
  m <| pm_base := pm_base m <| m_serial := t |> |>.

Definition meter_port (m : powermeter tracer) : tracer := m_serial (pm_base m).

(** [send_cmd] takes the mutex: it cannot go on while the mutex is held. *)
Definition takes_mutex (m : powermeter tracer) (cmd : bytes) : bool :=
  match (PowerMeter.send_cmd cmd [] (m <| m_cmd_mutex := true |>)).1 with
  | Spin => true
  | _ => false
  end.

(** The actions of [send_cmd(cmd, resp)]: those on the port, after the mutex is taken if
    it is, and its release if it is free at the end. *)
Definition send_script (m : powermeter tracer) (c : bytes * list answer) : list event :=
  let first := if takes_mutex m c.1 then [Acquire CmdLock] else [] in
  let m' := (PowerMeter.send_cmd c.1 [] (with_port m (mkTracer first c.2))).2 in
  tr_events (meter_port m') ++
  (if takes_mutex m c.1 && negb (m_cmd_mutex m') then [Release CmdLock] else []).

(** A meter as its constructor leaves it: the mutex is free, and the reply suffix fits
    into the buffer. *)
Definition meter_ok (m : powermeter tracer) : Prop :=
  m_cmd_mutex m = false ∧ (length (m_read_sfx (pm_base m)) ≤ max_line)%nat.

(** What a thread does: calls of its own on the port and commands to the meter. *)
Inductive activity :=
  | OnPort (o : port_op * list answer)
  | OnMeter (c : bytes * list answer).

Definition activity_ok (a : activity) : Prop :=
  match a with OnPort o => op_ok o.1 | OnMeter _ => True end.

Definition activity_script (m : powermeter tracer) (a : activity) : list event :=
  match a with OnPort o => op_script o | OnMeter c => send_script m c end.

Definition mixed_thread (m : powermeter tracer) (l : list activity) : list event :=
  concat (activity_script m <$> l).

(** The exchange with the meter for a command: what is transmitted and received. *)
Definition exchange (m : powermeter tracer) (c : bytes * list answer) : list event :=
  filter (λ e, port_io e = true) (send_script m c).

Section meter.
Context (L : lock) (vis : event → bool).
Hypothesis vis_call : vis Call = false.

(** The locks of a meter in the course of a command. *)
Definition meter_follows (h : list lock) (m : powermeter tracer) : Prop :=
  follows L vis h (meter_port m) ∧ (length (m_read_sfx (pm_base m)) ≤ max_line)%nat.

Lemma device_follows {A} h (k : M tracer A) : safe (follows L vis h) k →
  safe (λ d, follows L vis h (m_serial d) ∧ (length (m_read_sfx d) ≤ max_line)%nat)
    (Device.on_serial k).
Proof.
  intros Hk d [Hd Hs]. specialize (Hk (m_serial d) Hd). unfold wp, Device.on_serial, zoom in *.
  simpl. by destruct (k (m_serial d)) as [[] t]; destruct d.
Qed.

Context (h : list lock) (Ho : outer L vis h).
Notation dev := (λ d, follows L vis h (m_serial d) ∧ (length (m_read_sfx d) ≤ max_line)%nat).

Lemma write_cmd_follows cmd : safe dev (Device.write_cmd cmd).
Proof using vis_call Ho.
  unfold Device.write_cmd. apply safe_bind; [apply safe_gets|]. intros o.
  apply safe_bind; [apply safe_if; [|apply safe_ret]|intros _].
  { apply device_follows. by apply call_follows. }
  apply safe_bind; [|intros _].
  { apply device_follows. apply (perform_follows L vis vis_call h Op_flushInput Ho I). }
  apply safe_bind; [|intros _].
  { apply device_follows. apply (perform_follows L vis vis_call h Op_flushOutput Ho I). }
  apply safe_bind; [apply safe_gets|]. intros msg.
  apply safe_bind; [apply device_follows; by apply serial_write_follows|].
  intros n. apply safe_ret.
Qed.

Lemma read_cmd_follows answer : safe dev (Device.read_cmd answer).
Proof using Ho.
  intros d [Hd Hs]. unfold Device.read_cmd. apply wp_bind_gets.
  eapply wp_bind_post.
  { apply (device_follows h); [|exact (conj Hd Hs)].
    apply readline_follows; [done|unfold max_line; lia|done]. }
  intros [b n] d1 H1. simpl in H1.
  destruct (n =? 0)%nat; [done|]. destruct (n <? _)%nat; [done|].
  destruct (length b <? _)%nat; [done|].
  unfold wp, bind, lift, erase_from. by destruct (size b <? _).
Qed.

Lemma reset_follows : safe dev Device.reset_connection.
Proof using vis_call.
  unfold Device.reset_connection. apply safe_bind; [|intros _]; apply device_follows; by apply call_follows.
Qed.

Lemma on_device_follows {A} (k : M (device tracer) A) :
  safe dev k → safe (meter_follows h) (PowerMeter.on_device k).
Proof. intros Hk. exact (safe_zoom pm_base_l dev k Hk). Qed.

Lemma pause_follows : safe (meter_follows h) PowerMeter.pause.
Proof.
  unfold PowerMeter.pause. apply safe_bind; [apply safe_gets|]. intros ms.
  apply on_device_follows, device_follows, safe_modify. done.
Qed.

Hint Resolve on_device_follows pause_follows write_cmd_follows read_cmd_follows
  reset_follows : safe.

Lemma lock_guard_follows {A} (body : M (powermeter tracer) A) m :
  safe (meter_follows h) body → m_cmd_mutex m = false → meter_follows h m →
  meter_follows h (PowerMeter.lock_guard body m).2.
Proof.
  intros Hb Hm Hf. unfold PowerMeter.lock_guard, bind, gets, modify, finally. rewrite Hm.
  match goal with |- context [body ?x] => specialize (Hb x Hf); unfold wp in Hb;
    destruct (body x) as [[] m'] end; first [exact Hb|destruct Hb].
Qed.

(** [send_cmd] with its mutex free, the action of its lock guard being among those
    recorded. *)
Lemma send_cmd_follows cmd resp m : m_cmd_mutex m = false → meter_follows h m →
  meter_follows h (PowerMeter.send_cmd cmd resp m).2.
Proof using vis_call Ho. apply lock_guard_follows. solve_safe. Qed.
End meter.

Lemma lock_guard_releases {A} (I : powermeter tracer → Prop) (body : M (powermeter tracer) A) m :
  safe I body → m_cmd_mutex m = false → I (m <| m_cmd_mutex := true |>) →
  m_cmd_mutex (PowerMeter.lock_guard body m).2 = false.
Proof.
  intros Hb Hm Hi. unfold PowerMeter.lock_guard, bind, gets, modify, finally. rewrite Hm.
  match goal with |- context [body ?x] => specialize (Hb x Hi); unfold wp in Hb;
    destruct (body x) as [[] m'] end; first [done|destruct Hb].
Qed.

(** The mutex is taken and released around the actions on the port. *)
Lemma send_script_unfold m c : meter_ok m → send_script m c =
  tr_events (meter_port (PowerMeter.send_cmd c.1 []
    (with_port m (mkTracer [Acquire CmdLock] c.2))).2) ++ [Release CmdLock].
Proof.
  intros [Hm Hs]. unfold send_script. change (takes_mutex m c.1) with true.
  change (if true then [Acquire CmdLock] else []) with [Acquire CmdLock].
  set (m0 := with_port m (mkTracer [Acquire CmdLock] c.2)).
  assert (outer CmdLock (λ _, false) [CmdLock]) as Ho by (split; [by repeat constructor|done..]).
  assert (m_cmd_mutex (PowerMeter.send_cmd c.1 [] m0).2 = false) as ->; [|done].
  eapply (lock_guard_releases (meter_follows CmdLock (λ _, false) [CmdLock])); [|done|by split].
  eauto 40 using on_device_follows, pause_follows, write_cmd_follows, read_cmd_follows,
    reset_follows with safe.
Qed.

Lemma send_disciplined L vis m c : vis Call = false → outer L vis [CmdLock] → meter_ok m →
  run L vis [] (send_script m c) = Some [].
Proof.
  intros Hv Ho Hok. rewrite send_script_unfold by done. destruct Hok as [Hm Hs]. rewrite run_app.
  destruct (send_cmd_follows L vis Hv [CmdLock] Ho c.1 []
    (with_port m (mkTracer [Acquire CmdLock] c.2)) Hm) as [-> _]; [done|].
  reflexivity.
Qed.

Lemma op_disciplined L vis o : vis Call = false → outer L vis [] → op_ok o.1 →
  run L vis [] (op_script o) = Some [].
Proof.
  intros Hv Ho Hok. unfold op_script.
  by apply (safe_final L vis [] (perform o.1) (mkTracer [] o.2) (perform_follows L vis Hv [] o.1 Ho Hok)).
Qed.

(** The port does not touch the mutex of the meter. *)
Definition not_cmd (e : event) : Prop :=
  match e with Acquire CmdLock | Release CmdLock => False | _ => True end.

Notation adds := (appends meter_port not_cmd).

Lemma on_serial_appends {A} (k : M tracer A) : appends (λ t, t) not_cmd k →
  appends m_serial not_cmd (Device.on_serial k).
Proof. exact (appends_zoom serial_l (λ t, t) not_cmd k). Qed.

Lemma on_device_appends {A} (k : M (device tracer) A) : appends m_serial not_cmd k →
  adds (PowerMeter.on_device k).
Proof. exact (appends_zoom pm_base_l m_serial not_cmd k). Qed.

Lemma serial_appends :
  (∀ s, appends (λ t, t) not_cmd (Serial.write s)) ∧
  (∀ b n eol, appends (λ t, t) not_cmd (Serial.readline b n eol)) ∧
  appends (λ t, t) not_cmd Serial.flushInput ∧ appends (λ t, t) not_cmd Serial.flushOutput ∧
  appends (λ t, t) not_cmd Serial.open ∧ appends (λ t, t) not_cmd Serial.close.
Proof.
  split_and!; intros.
  - apply scoped_write_appends; [done..|]. by apply write_appends.
  - apply scoped_read_appends; [done..|]. apply appends_bind; [by apply readline_loop_appends|solve_appends].
  - apply scoped_read_appends; [done..|]. by apply call_appends.
  - apply scoped_write_appends; [done..|]. by apply call_appends.
  - by apply call_appends.
  - by apply call_appends.
Qed.

Lemma device_appends :
  (∀ cmd, appends m_serial not_cmd (Device.write_cmd cmd)) ∧
  (∀ answer, appends m_serial not_cmd (Device.read_cmd answer)) ∧
  appends m_serial not_cmd Device.reset_connection.
Proof.
  destruct serial_appends as (Hw & Hr & Hfi & Hfo & Ho & Hc).
  split_and!; intros; unfold Device.write_cmd, Device.read_cmd, Device.reset_connection;
    repeat (apply appends_bind; [|intros ?]); try by apply on_serial_appends.
  all: try (apply appends_nothing; reflexivity).
  - apply appends_if; [by apply on_serial_appends|by apply appends_nothing].
  - case_match. solve_appends.
Qed.

Lemma send_cmd_appends cmd resp : adds (PowerMeter.send_cmd cmd resp).
Proof.
  destruct device_appends as (Hw & Hr & Hc).
  assert (adds PowerMeter.pause) as Hp.
  { apply appends_bind; [by apply appends_nothing|]. intros ms.
    apply on_device_appends, on_serial_appends. by apply appends_nothing. }
  apply on_device_appends in Hc.
  assert (∀ c, adds (PowerMeter.on_device (Device.write_cmd c))) as Hw' by
    (intros; by apply on_device_appends).
  assert (∀ c, adds (PowerMeter.on_device (Device.read_cmd c))) as Hr' by
    (intros; by apply on_device_appends).
  unfold PowerMeter.send_cmd, PowerMeter.lock_guard. solve_appends.
Qed.

(** The script of a command is one section under the mutex of the meter. *)
Lemma send_script_shape m c : meter_ok m → ∃ evs,
  send_script m c = [Acquire CmdLock] ++ evs ++ [Release CmdLock] ∧ Forall not_cmd evs.
Proof.
  intros Hok. rewrite send_script_unfold by done.
  destruct (send_cmd_appends c.1 [] (with_port m (mkTracer [Acquire CmdLock] c.2)))
    as (evs & He & Hf).
  exists evs. split; [|done]. by rewrite He.
Qed.

Lemma not_cmd_sections c evs rest : Forall not_cmd evs →
  sections CmdLock port_io (Some c) (evs ++ rest) =
  sections CmdLock port_io (Some (c ++ filter (λ e, port_io e = true) evs)) rest.
Proof.
  intros Hf. revert c. induction Hf as [|e evs He _ IH]; intros c; [by rewrite app_nil_r|].
  rewrite filter_cons. destruct e as [[]|[]| | |]; simpl in *; try done; by rewrite IH, <- ?app_assoc.
Qed.

Lemma send_sections m c : meter_ok m → sections CmdLock port_io None (send_script m c) = [exchange m c].
Proof.
  intros Hok. destruct (send_script_shape m c Hok) as (evs & He & Hf). unfold exchange. rewrite He. simpl.
  rewrite not_cmd_sections by done. simpl. rewrite filter_cons_False by done.
  by rewrite list.filter_app, filter_cons_False, filter_nil, app_nil_r.
Qed.

(** ** The theorems on threads *)

Lemma wire_outer : outer WriteLock is_transmit [].
Proof. split; [constructor|done|done]. Qed.

Lemma meter_outer : outer CmdLock port_io [CmdLock].
Proof. split; [by repeat constructor|done|done]. Qed.

Lemma any_outer h : Forall (λ l, l = CmdLock) h → outer CmdLock (λ _, false) h.
Proof. by split. Qed.

Lemma mixed_disciplined m progs : meter_ok m → Forall (Forall activity_ok) progs →
  Forall (disciplined CmdLock (λ _, false)) (mixed_thread m <$> progs).
Proof.
  intros Hm Hp. apply Forall_fmap. eapply Forall_impl; [exact Hp|]. intros l Hl.
  apply disciplined_concat, Forall_fmap. eapply Forall_impl; [exact Hl|]. intros [o|c] Ha.
  - by apply op_disciplined; [|apply any_outer|].
  - apply send_disciplined; [done| |done]. apply any_outer. by repeat constructor.
Qed.

Lemma nsteps_remaining n s s' : nsteps step n s s' → (n ≤ remaining s)%nat.
Proof.
  induction 1 as [s|n s s1 s' Hs _ IH]; [lia|]. rewrite (step_remaining _ _ Hs). lia.
Qed.

(** C13: threads that use one port and one power meter in any mix of operations, with any
    answers of the system, cannot block one another: in every reachable situation some
    thread can go on unless all have ended, every schedule ends, and all threads can be
    brought to their ends. *)
Theorem threads_never_deadlock (m : powermeter tracer) (progs : list (list activity))
    (s : system) :
  meter_ok m → Forall (Forall activity_ok) progs →
  rtc step (start (mixed_thread m <$> progs)) s →
  (finished s ∨ ∃ s', step s s') ∧
  (∀ n s', nsteps step n s s' → (n ≤ remaining s)%nat) ∧
  ∃ s', rtc step s s' ∧ finished s'.
Proof.
  intros Hm Hp Hr.
  pose proof (reach_coherent _ _ _ _ (mixed_disciplined m progs Hm Hp) Hr) as Hc.
  split_and!; [by eapply progress|intros n s'; apply nsteps_remaining|by eapply completes].
Qed.

(** C12: the messages of threads writing to one port are not mixed: when all have ended,
    the bytes transmitted are the messages one after the other in some order that keeps
    the order of each thread.  The message of a write is the part of its data the system
    accepted, in however many pieces; the other operations send nothing. *)
Theorem messages_not_mixed (progs : list (list (port_op * list answer))) (s : system) :
  Forall (Forall (λ o, op_ok o.1)) progs →
  rtc step (start (port_thread <$> progs)) s → finished s →
  ∃ order : list (nat * bytes),
    payload (log s).*2 = concat order.*2 ∧
    ∀ i ops, progs !! i = Some ops →
      (filter (λ p, p.1 = i) order).*2 = concat (op_messages <$> ops).
Proof.
  intros Hp Hr Hf.
  assert (∀ ops, Forall (λ o, op_ok o.1) ops →
    Forall (disciplined WriteLock is_transmit) (op_script <$> ops)) as Hops.
  { intros ops Hops. apply Forall_fmap. eapply Forall_impl; [exact Hops|]. intros o Ho.
    by apply op_disciplined; [|apply wire_outer|]. }
  destruct (finished_serialised WriteLock is_transmit ltac:(done) ltac:(done)
    (port_thread <$> progs) s) as (order & Hlog & Hsec); [|done|done|].
  { apply Forall_fmap. eapply Forall_impl; [exact Hp|]. intros ops Ho.
    by apply disciplined_concat, Hops. }
  exists (prod_map id payload <$> order). split.
  - rewrite <- payload_filter, Hlog, payload_concat. f_equal.
    rewrite <- !list_fmap_compose. by apply list_fmap_ext.
  - intros i ops Hi. specialize (Hsec i (port_thread ops)). unfold of_thread in Hsec.
    rewrite list_lookup_fmap, Hi in Hsec. specialize (Hsec eq_refl).
    unfold port_thread in Hsec. rewrite sections_concat in Hsec
      by (try done; apply Hops; by eapply Forall_lookup_1 in Hp).
    assert (concat (op_messages <$> ops) = payload <$> (filter (λ p, p.1 = i) order).*2) as ->.
    { rewrite Hsec. clear. induction ops as [|o ops IH]; [done|].
      rewrite !fmap_cons. cbn [List.concat]. by rewrite fmap_app, <- IH, op_sections. }
    clear. induction order as [|[j c] order IH]; [done|]. rewrite fmap_cons, !filter_cons. cbn.
    destruct (decide (j = i)); rewrite ?fmap_cons; by f_equal.
Qed.

(** C11: a command to the power meter and its reply belong together: with threads that
    send commands to one meter, each from its own program, the traffic is one whole
    exchange after another, every thread's in its order, so that the reply a thread reads
    follows its own command. *)
Theorem exchanges_not_mixed (m : powermeter tracer) (progs : list (list (bytes * list answer)))
    (s : system) :
  meter_ok m →
  rtc step (start ((λ cmds, concat (send_script m <$> cmds)) <$> progs)) s → finished s →
  ∃ order : list (nat * list event),
    filter (λ e, port_io e = true) (log s).*2 = concat order.*2 ∧
    ∀ i cmds, progs !! i = Some cmds →
      (filter (λ p, p.1 = i) order).*2 = exchange m <$> cmds.
Proof.
  intros Hm Hr Hf.
  assert (∀ cmds, Forall (disciplined CmdLock port_io) (send_script m <$> cmds)) as Hcmds.
  { intros cmds. apply Forall_fmap, Forall_true. intros c.
    by apply send_disciplined; [|apply meter_outer|]. }
  destruct (finished_serialised CmdLock port_io ltac:(done) ltac:(done)
    ((λ cmds, concat (send_script m <$> cmds)) <$> progs) s) as (order & Hlog & Hsec); [|done|done|].
  { apply Forall_fmap, Forall_true. intros cmds. by apply disciplined_concat. }
  exists order. split; [done|]. intros i cmds Hi.
  specialize (Hsec i (concat (send_script m <$> cmds))). unfold of_thread in Hsec.
  rewrite list_lookup_fmap, Hi in Hsec. rewrite (Hsec eq_refl), sections_concat by done.
  clear -Hm. induction cmds as [|c cmds IH]; [done|]. rewrite !fmap_cons. cbn [List.concat].
  by rewrite send_sections, IH.
Qed.

(** ** Examples *)

(** A meter on a recording port, with the command framing of its constructor. *)
Definition sample_meter : powermeter tracer :=
  mkPowerMeter (mkDevice (str "/dev/ttyUSB1") 9600 (str "$") [CR; LF] [CR; LF] 500
                  (mkTracer [] [])) false 0 0 0 0 0 0 [] [] [] [] (0, 0) 50.

Definition pieces_of (sizes : list nat) : list answer := [mkAnswer [] sizes true 0 None].

(** One thread closes and opens the port again for another name and another flushes it
    while a third sends a command. *)
Definition busy_threads : list (list activity) :=
  [[OnPort (Op_setPort (str "/dev/ttyS0"), [mkAnswer [] [] true 0 None])];
   [OnPort (Op_flush, [])];
   [OnMeter (str "SE", [])]].

Lemma threads_never_deadlock_witness : ∃ s',
  rtc step (start (mixed_thread sample_meter <$> busy_threads)) s' ∧ finished s'.
Proof.
  apply (threads_never_deadlock sample_meter busy_threads
    (start (mixed_thread sample_meter <$> busy_threads))); [|by repeat constructor|apply rtc_refl].
  by split; [|apply Nat.leb_le; vm_compute].
Defined.

(** Two threads write, the second as soon as it can. *)
Definition two_writers : list (list (port_op * list answer)) :=
  [[(Op_write (str "ABCD"), pieces_of [1; 3]%nat)]; [(Op_write (str "xy"), pieces_of [2]%nat)]].

Lemma messages_not_mixed_witness :
  ∃ s, exec [0; 0; 0; 0; 1; 1; 1]%nat (start (port_thread <$> two_writers)) = Some s ∧
    ∃ order : list (nat * bytes), payload (log s).*2 = concat order.*2 ∧
      ∀ i ops, two_writers !! i = Some ops →
        (filter (λ p, p.1 = i) order).*2 = concat (op_messages <$> ops).
Proof.
  eexists. split; [vm_compute; reflexivity|].
  apply (messages_not_mixed two_writers).
  - by repeat constructor.
  - apply (exec_rtc [0; 0; 0; 0; 1; 1; 1]%nat). vm_compute. reflexivity.
  - by repeat constructor.
Defined.

(** [close] takes neither lock: it can fall between the pieces of another thread's
    message. *)
Lemma close_between_pieces :
  ∃ s, exec [0; 0; 1; 0; 0]%nat (start (port_thread <$>
         [[(Op_write (str "ABCD"), pieces_of [1; 3]%nat)]; [(Op_close, [])]])) = Some s ∧
    (log s).*2 = [Acquire WriteLock; Transmit (str "A"); Call; Transmit (str "BCD");
                  Release WriteLock].
Proof. eexists. split; vm_compute; reflexivity. Qed.

(** A command that is accepted as a whole and answered byte by byte. *)
Definition answered (reply : bytes) : list answer :=
  let ok := mkAnswer [] [64%nat] true 0 None in
  [ok; ok; ok] ++ ((λ c, mkAnswer [c] [] true 0 None) <$> (reply ++ [CR; LF])).

Definition two_commands : list (list (bytes * list answer)) :=
  [[(str "SE", answered (str "*1"))]; [(str "WI", answered (str "*2"))]].

Definition one_by_one : list nat := repeat 0%nat 17 ++ repeat 1%nat 17.

Lemma exchanges_not_mixed_witness :
  ∃ s, exec one_by_one
         (start ((λ cmds, concat (send_script sample_meter <$> cmds)) <$> two_commands)) = Some s ∧
    ∃ order : list (nat * list event),
      filter (λ e, port_io e = true) (log s).*2 = concat order.*2 ∧
      ∀ i cmds, two_commands !! i = Some cmds →
        (filter (λ p, p.1 = i) order).*2 = exchange sample_meter <$> cmds.
Proof.
  eexists. split; [vm_compute; reflexivity|].
  apply (exchanges_not_mixed sample_meter two_commands).
  - by split; [|apply Nat.leb_le; vm_compute].
  - apply (exec_rtc one_by_one). vm_compute. reflexivity.
  - by repeat constructor.
Defined.
