(* ===== verification/Types.v ===== *)
(** * The C++ types of members and results

    The model keeps integers as mathematical ones and wraps them where the code converts.
    Here a typing judgement for operations shows that this is done everywhere it has to
    be: however an operation ends and whatever the instrument answers, the members of the
    object are in the range of their declared types and so is what is returned.  The
    tables of operations repeat the declarations of include/Attenuator.hh,
    include/PowerMeter.hh and include/Laser.hh. *)
From S2P Require Import Prelude CppStd Utilities Serial Loopback Device Floats Laser Attenuator PowerMeter.

(** From a state with the members typed, [m] leaves them typed and returns a value of the
    type [R]. *)
Definition typed {S A} (I : S → Prop) (R : A → Prop) (m : M S A) : Prop :=
  ∀ s, I s → I (m s).2 ∧ match (m s).1 with Ret a => R a | _ => True end.

Definition any {A} : A → Prop := λ _, True.

Create HintDb typed discriminated.
#[export] Hint Constants Opaque : typed.

Section typing_rules.
Context {S : Type} (I : S → Prop).

Lemma typed_ret {A} (R : A → Prop) a : R a → typed I R (ret a).
Proof. by intros Ha s Hs. Qed.
Lemma typed_throw {A} (R : A → Prop) e : typed I R (throw e).
Proof. by intros s Hs. Qed.
Lemma typed_undef {A} (R : A → Prop) : typed I R undef.
Proof. by intros s Hs. Qed.
Lemma typed_spin {A} (R : A → Prop) : typed I R spin.
Proof. by intros s Hs. Qed.
Lemma typed_lift {A} (o : outcome A) : typed I any (lift o).
Proof. intros s Hs. split; [done|]. by destruct o. Qed.
Lemma typed_chk n : typed I (in_s 32) (lift (chk_i32 n)).
Proof.
  intros s Hs. split; [done|]. simpl. unfold chk_i32.
  destruct (in_sb 32 n) eqn:E; [by apply in_sb_spec|done].
Qed.
Lemma typed_modify (f : S → S) : (∀ s, I s → I (f s)) → typed I any (modify f).
Proof. intros H s Hs. split; [by apply H|done]. Qed.
Lemma typed_bind {A B} (Q : A → Prop) (R : B → Prop) (m : M S A) (k : A → M S B) :
  typed I Q m → (∀ a, Q a → typed I R (k a)) → typed I R (bind m k).
Proof.
  intros Hm Hk s Hs. destruct (Hm s Hs) as [H1 H2]. unfold bind.
  destruct (m s) as [[a| | |] s']; simpl in *; [by apply Hk|done..].
Qed.
Lemma typed_gets {A B} (R : B → Prop) (f : S → A) (k : A → M S B) :
  (∀ s, I s → typed I R (k (f s))) → typed I R (bind (gets f) k).
Proof. intros Hk s Hs. by apply Hk. Qed.
Lemma typed_if {A} (R : A → Prop) (b : bool) m1 m2 :
  typed I R m1 → typed I R m2 → typed I R (if b then m1 else m2).
Proof. by destruct b. Qed.
Lemma typed_catch {A} (R : A → Prop) (m : M S A) h :
  typed I R m → (∀ e, typed I R (h e)) → typed I R (catch m h).
Proof.
  intros Hm Hh s Hs. destruct (Hm s Hs) as [H1 H2]. unfold catch.
  destruct (m s) as [[|[]| |] s']; simpl in *; try done; by apply Hh.
Qed.
Lemma typed_noexcept {A} (R : A → Prop) (m : M S A) : typed I R m → typed I R (noexcept m).
Proof.
  intros Hm s Hs. destruct (Hm s Hs) as [H1 H2]. unfold noexcept.
  by destruct (m s) as [[] s'].
Qed.
Lemma typed_finally {A} (R : A → Prop) (m : M S A) fin :
  (∀ s, I s → I (fin s)) → typed I R m → typed I R (finally m fin).
Proof.
  intros Hf Hm s Hs. destruct (Hm s Hs) as [H1 H2]. unfold finally.
  destruct (m s) as [[] s']; simpl in *; auto.
Qed.
Lemma typed_weaken {A} (Q R : A → Prop) m : typed I Q m → (∀ a, Q a → R a) → typed I R m.
Proof.
  intros Hm H s Hs. destruct (Hm s Hs) as [H1 H2]. split; [done|].
  destruct (m s).1; auto.
Qed.
Lemma typed_getter {A} (R : A → Prop) (f : S → A) : (∀ s, I s → R (f s)) → typed I R (gets f).
Proof. intros H s Hs. split; [done|]. simpl. auto. Qed.
Lemma typed_any {A} (Q : A → Prop) m : typed I Q m → typed I any m.
Proof. intros Hm. by eapply typed_weaken. Qed.
End typing_rules.

Lemma typed_zoom {S T A} (l : lens S T) (I : S → Prop) (J : T → Prop) (R : A → Prop)
    (m : M T A) :
  (∀ s, I s → J (view l s)) → (∀ s t, I s → J t → I (put l t s)) →
  typed J R m → typed I R (zoom l m).
Proof.
  intros Hv Hp Hm s Hs. destruct (Hm (view l s) (Hv s Hs)) as [H1 H2]. unfold zoom.
  destruct (m (view l s)) as [o t]. simpl in *. split; [by apply Hp|done].
Qed.

(** Ranges of conversions and masks. *)
Lemma u16_in x : in_u 16 (u16 x).
Proof. by apply wrapu_range. Qed.
Lemma u32_in x : in_u 32 (u32 x).
Proof. by apply wrapu_range. Qed.
Lemma i16_in x : in_s 16 (i16 x).
Proof. by apply wraps_range. Qed.
Lemma i32_in x : in_s 32 (i32 x).
Proof. by apply wraps_range. Qed.
Lemma land_ff_in x : in_u 16 (Z.land x 0xFF).
Proof. rewrite land_ff_mod. pose proof (Z.mod_pos_bound x 256). unfold in_u. lia. Qed.
Lemma land_ffff_in x : in_u 16 (Z.land x 0xFFFF).
Proof. rewrite land_ffff_mod. pose proof (Z.mod_pos_bound x 65536). unfold in_u. lia. Qed.
Lemma u16_u32 x : in_u 16 x → in_u 32 x.
Proof. unfold in_u. lia. Qed.
#[export] Hint Resolve u16_in u32_in i16_in i32_in land_ff_in land_ffff_in u16_u32 : typed.
#[export] Hint Resolve typed_throw typed_undef typed_spin typed_chk : typed.
#[export] Hint Extern 0 (any _) => exact Logic.I : typed.

(** The structure of the code is followed; the operations used are looked up, with the
    types of their results. *)
Ltac solve_typed :=
  intros; cbv zeta; repeat
    match goal with
    | |- typed _ _ (bind (gets _) _) => apply typed_gets; intros ? ?
    | |- typed _ _ (bind (lift (chk_i32 _)) _) => eapply typed_bind; [apply typed_chk|intros ? ?]
    | |- typed _ _ (bind (lift _) _) => eapply typed_bind; [apply typed_lift|intros ? _]
    | |- typed _ _ (bind _ _) =>
        eapply typed_bind; [solve [eauto 4 with typed]|intros ? ?] ||
        (eapply typed_bind with (Q := any); [|intros ? _])
    | |- typed _ _ (if _ then _ else _) => apply typed_if
    | |- typed _ _ (match ?x with _ => _ end) => destruct x
    | |- typed _ _ (catch _ _) => apply typed_catch; [|intros ?]
    | |- typed _ _ (noexcept _) => apply typed_noexcept
    | |- typed _ any (lift _) => apply typed_lift
    | |- typed _ any (modify _) => apply typed_modify; intros ? ?
    | |- typed _ _ (ret _) => apply typed_ret
    | |- typed _ _ _ => solve [eauto 4 with typed]
    | |- typed _ any _ => eapply typed_any; solve [eauto 4 with typed]
    end; try solve [eauto 4 with typed].

(** A getter returns a member. *)
Ltac solve_getter := apply typed_getter; intros ? []; simpl; eauto 3 with typed.

(** An operation of a class with the type of what it returns. *)
Record operation (S : Type) := Op {
  op_value : Type;
  op_type : op_value → Prop;
  op_code : M S op_value;
}.
Arguments Op {S op_value} _ _.
Arguments op_value {S} _.
Arguments op_type {S} _ _.
Arguments op_code {S} _.

Definition well_typed {S} (I : S → Prop) (o : operation S) : Prop :=
  typed I (op_type o) (op_code o).

Definition optional {A} (R : A → Prop) (o : option A) : Prop :=
  match o with Some a => R a | None => True end.

(** ** The base class *)
Section device_types.
Context {P : Type} {HI : SerialImpl P}.

Record dev_members (d : device P) : Prop := {
  t_baud : in_u 32 (m_baud d);
  t_timeout : in_u 32 (m_timeout_ms d);
}.

Lemma dev_serial_typed {A} (m : M P A) : typed dev_members any (Device.on_serial m).
Proof.
  intros d [Hb Ht]. unfold Device.on_serial, zoom. destruct (m (view serial_l d)) as [o t].
  split; [by split|by destruct o].
Qed.
Hint Resolve dev_serial_typed : typed.

Lemma dev_write_cmd_typed cmd : typed dev_members any (Device.write_cmd cmd).
Proof. unfold Device.write_cmd. solve_typed. Qed.
Lemma dev_read_lines_typed : typed dev_members any (Device.read_lines (P:=P)).
Proof. unfold Device.read_lines. solve_typed. Qed.
Lemma dev_reset_typed : typed dev_members any (Device.reset_connection (P:=P)).
Proof. unfold Device.reset_connection. solve_typed. Qed.
Lemma dev_destroy_typed : typed dev_members any (Device.destroy (P:=P)).
Proof. unfold Device.destroy. solve_typed. Qed.
Lemma dev_read_cmd_typed answer : typed dev_members any (Device.read_cmd (P:=P) answer).
Proof. unfold Device.read_cmd. solve_typed. Qed.
End device_types.
#[export] Hint Resolve dev_serial_typed dev_write_cmd_typed dev_read_lines_typed
  dev_reset_typed dev_destroy_typed dev_read_cmd_typed : typed.

(** ** The attenuator *)
Section attenuator_types.
Context {P : Type} {HI : SerialImpl P}.
Variables (acos cos : double → double) (pow : double → double → double).

(** The members of include/Attenuator.hh; the enumerations are unsigned 32-bit. *)
Record att_members (a : attenuator P) : Prop := {
  ta_base : dev_members (a_base a);
  ta_offset : in_s 32 (m_offset a);
  ta_max_speed : in_u 32 (m_max_speed a);
  ta_op_mode : in_u 32 (m_op_mode a);
  ta_motor_state : in_u 32 (m_motor_state a);
  ta_acceleration : in_u 16 (m_acceleration a);
  ta_deceleration : in_u 16 (m_deceleration a);
  ta_resolution : in_u 32 (m_resolution a);
  ta_position : in_s 32 (m_position a);
  ta_current_idle : in_u 16 (m_current_idle a);
  ta_current_move : in_u 16 (m_current_move a);
  ta_cal_offset : in_s 32 (m_cal_offset a);
}.

Lemma att_device_typed {A} (R : A → Prop) (m : M (device P) A) :
  typed dev_members R m → typed att_members R (Attenuator.on_device m).
Proof. apply typed_zoom; [by intros a []|]. intros a d [] Hd. by split. Qed.

Lemma att_serial_typed {A} (m : M P A) : typed att_members any (Attenuator.on_serial m).
Proof. apply att_device_typed, dev_serial_typed. Qed.
Hint Resolve att_device_typed att_serial_typed : typed.

Lemma att_write_cmd_typed cmd : typed att_members any (Attenuator.write_cmd cmd).
Proof. unfold Attenuator.write_cmd, Attenuator.write_cmd_body, Attenuator.sleep. solve_typed. Qed.
Hint Resolve att_write_cmd_typed : typed.
Lemma att_send_typed cmd what : typed att_members any (Attenuator.send_or_throw cmd what).
Proof. unfold Attenuator.send_or_throw. solve_typed. Qed.
Lemma att_read_body_typed again answer : (∀ b, typed att_members any (again b)) →
  typed att_members any (Attenuator.read_cmd_body again answer).
Proof. intros Ha. unfold Attenuator.read_cmd_body. solve_typed. Qed.
Lemma att_read_cmd_typed answer : typed att_members any (Attenuator.read_cmd answer).
Proof.
  apply att_read_body_typed. intros b. eapply typed_bind; [solve_typed|]. intros _ _.
  apply att_read_body_typed. solve_typed.
Qed.
Hint Resolve att_send_typed att_read_cmd_typed : typed.
Lemma att_read_typed what : typed att_members any (Attenuator.read_or_throw what).
Proof. unfold Attenuator.read_or_throw. solve_typed. Qed.
Hint Resolve att_read_typed : typed.

Lemma att_token_typed {A} tokens i (f : bytes → outcome A) assign :
  (∀ v a, att_members a → att_members (assign v a)) →
  typed att_members any (Attenuator.from_token tokens i f assign).
Proof. intros Ha. unfold Attenuator.from_token. solve_typed. Qed.

Lemma att_refresh_status_typed : typed att_members any Attenuator.refresh_status.
Proof.
  unfold Attenuator.refresh_status. solve_typed; apply att_token_typed; intros ? ? [];
    split; simpl; eauto 3 with typed.
Qed.

(** A position and a status. *)
Definition position_type (ps : Z * Z) : Prop := in_s 32 ps.1 ∧ in_u 16 ps.2.

Lemma att_query_position_typed assign :
  (∀ p a, in_s 32 p → att_members a → att_members (assign p a)) →
  typed att_members position_type (Attenuator.query_position assign).
Proof.
  intros Ha. unfold Attenuator.query_position. solve_typed.
  split; [apply i32_in|apply u16_in].
Qed.

Lemma att_get_position_typed fuel assign wait :
  (∀ p a, in_s 32 p → att_members a → att_members (assign p a)) →
  typed att_members position_type (Attenuator.get_position fuel assign wait).
Proof.
  intros Ha. pose proof (att_query_position_typed assign Ha) as Hq.
  unfold Attenuator.get_position. eapply typed_bind; [exact Hq|]. intros ps Hps.
  apply typed_if; [|by apply typed_ret]. revert ps Hps.
  induction fuel as [|f IH]; intros ps Hps; cbn [Attenuator.wait_stopped];
    (apply typed_if; [by apply typed_ret|]); [apply typed_spin|].
  eapply typed_bind; [exact Hq|]. intros ps' Hps'. unfold Attenuator.sleep.
  eapply typed_bind; [apply att_serial_typed|]. auto.
Qed.

Lemma att_local_typed fuel wait : typed att_members position_type
  (Attenuator.get_position fuel Attenuator.local wait).
Proof. by apply att_get_position_typed. Qed.
Lemma att_member_typed fuel wait : typed att_members position_type
  (Attenuator.get_position fuel Attenuator.to_m_position wait).
Proof. apply att_get_position_typed. intros p a Hp []. by split. Qed.
Hint Resolve att_refresh_status_typed att_local_typed att_member_typed : typed.

Lemma att_refresh_position_typed : typed att_members any Attenuator.refresh_position.
Proof.
  unfold Attenuator.refresh_position. eapply typed_bind; [apply att_member_typed|].
  intros ps [_ Hs]. apply typed_modify. intros a []. split; simpl; auto with typed.
Qed.
Hint Resolve att_refresh_position_typed : typed.

Lemma resolution_in r : in_u 16 (if u16 r =? 6 then 16 else u16 r).
Proof. destruct (u16 r =? 6); [by split|apply u16_in]. Qed.

Lemma att_init_typed port baud p : in_u 32 baud → att_members (Attenuator.init port baud p).
Proof. intros Hb. split; [split|..]; cbn; unfold in_u, in_s in *; try done; lia. Qed.

(** The operations with arguments of their types. *)
Definition att_operations (fuel : nat) (wait b : bool) (n16 n32 i : Z) (s : bytes)
    (x : double) : list (operation (attenuator P)) :=
  [Op any (Attenuator.set_max_speed n32); Op any Attenuator.get_status_raw;
   Op any Attenuator.refresh_status; Op any Attenuator.refresh_position;
   Op position_type (Attenuator.get_position fuel Attenuator.local wait);
   Op (optional (in_s 32)) (Attenuator.move fuel i wait);
   Op (optional (in_s 32)) (Attenuator.go fuel i wait);
   Op any (Attenuator.set_current_position i); Op any Attenuator.set_zero;
   Op any (Attenuator.stop b); Op any Attenuator.go_home;
   Op any (Attenuator.set_resolution n32); Op any (Attenuator.set_idle_current n16);
   Op any (Attenuator.set_moving_current n16); Op any (Attenuator.set_acceleration n16);
   Op any (Attenuator.set_deceleration n16); Op any Attenuator.save_settings;
   Op any Attenuator.reset_controller; Op any (Attenuator.set_serial_number s);
   Op any (Attenuator.get_serial_number s);
   Op (in_s 32) (Attenuator.trans_to_steps acos x);
   Op any (Attenuator.steps_to_trans cos pow i);
   Op (optional (in_s 32)) (Attenuator.set_transmission acos fuel x wait);
   Op any (Attenuator.get_transmission cos pow);
   Op any (Attenuator.set_cal_parameters i x);
   Op any Attenuator.construct; Op any Attenuator.destroy;
   Op (in_s 32) (gets Attenuator.get_offset); Op (in_u 32) (gets Attenuator.get_max_speed);
   Op (in_u 32) (gets Attenuator.get_op_mode); Op (in_u 32) (gets Attenuator.get_motor_state);
   Op (in_u 16) (gets Attenuator.get_acceleration);
   Op (in_u 16) (gets Attenuator.get_deceleration);
   Op (in_u 16) (gets Attenuator.get_resolution);
   Op (in_u 16) (gets Attenuator.get_current_idle);
   Op (in_u 16) (gets Attenuator.get_current_move);
   Op any (gets Attenuator.get_reset_on_zero); Op any (gets Attenuator.get_report_on_zero);
   Op (λ r, in_s 32 r.1) (gets Attenuator.get_cal_parameters)].

Lemma att_operations_typed fuel wait b n16 n32 i s x :
  in_u 16 n16 → in_u 32 n32 → in_s 32 i →
  Forall (well_typed att_members) (att_operations fuel wait b n16 n32 i s x).
Proof.
  intros H16 H32 Hi. unfold att_operations, well_typed.
  repeat (apply List.Forall_cons); try apply List.Forall_nil; cbn [op_value op_type op_code];
    unfold Attenuator.set_max_speed, Attenuator.get_status_raw, Attenuator.move,
      Attenuator.set_transmission, Attenuator.go, Attenuator.set_current_position,
      Attenuator.set_zero, Attenuator.stop, Attenuator.go_home, Attenuator.set_resolution,
      Attenuator.set_idle_current, Attenuator.set_moving_current, Attenuator.set_acceleration,
      Attenuator.set_deceleration, Attenuator.save_settings, Attenuator.reset_controller,
      Attenuator.set_serial_number, Attenuator.get_serial_number, Attenuator.trans_to_steps,
      Attenuator.get_transmission, Attenuator.steps_to_trans, Attenuator.set_cal_parameters,
      Attenuator.construct, Attenuator.construct_body, Attenuator.destroy,
      Attenuator.require_stopped.
  all: try solve [solve_getter].
  all: solve_typed.
  all: try match goal with
       | H : att_members ?a |- att_members _ => destruct H; split; simpl; auto with typed
       | H : position_type _ |- optional _ _ => apply H
       end.
  - unfold in_s. lia.
  - apply att_device_typed, typed_modify. intros d []. by split; simpl.
  - apply typed_getter. intros a _. apply resolution_in.
Qed.
End attenuator_types.

(** ** The power meter *)
Section powermeter_types.
Context {P : Type} {HI : SerialImpl P}.

(** The keys of a map. *)
Definition keys_in (T : Z → Prop) (m : list (Z * bytes)) : Prop := Forall (λ p, T p.1) m.

(** The members of include/PowerMeter.hh. *)
Record pm_members (m : powermeter P) : Prop := {
  tp_base : dev_members (pm_base m);
  tp_mmode : in_u 32 (m_mmode m);
  tp_range : in_s 16 (m_range m);
  tp_wavelength : in_u 16 (m_wavelength m);
  tp_e_threshold : in_u 16 (m_e_threshold m);
  tp_ave_query_state : in_u 32 (m_ave_query_state m);
  tp_pulse_length : in_u 16 (m_pulse_length m);
  tp_ranges : keys_in (in_s 16) (m_ranges m);
  tp_pulse_lengths : keys_in (in_u 16) (m_pulse_lengths m);
  tp_ave_windows : keys_in (in_u 16) (m_ave_windows m);
  tp_thresholds : in_u 16 (m_threshold_ranges m).1 ∧ in_u 16 (m_threshold_ranges m).2;
  tp_interval : in_u 16 (m_interval_between_cmds_ms m);
}.

Lemma insert_from_keys T key k entries m : (∀ i, T (key i)) → keys_in T m →
  keys_in T (insert_from key k entries m).
Proof.
  intros HT. revert k m. induction entries as [|t ts IH]; intros k m Hm; simpl; [done|].
  apply IH. clear IH. unfold keys_in in *.
  induction Hm as [|[j v] m Hj Hm IH]; simpl; [apply Forall_singleton, HT|].
  destruct (key k <? j), (key k =? j); rewrite ?Forall_cons; simpl; auto.
Qed.

Lemma no_keys T : keys_in T [].
Proof. constructor. Qed.

Lemma pm_device_typed {A} (R : A → Prop) (m : M (device P) A) :
  typed dev_members R m → typed pm_members R (PowerMeter.on_device m).
Proof. apply typed_zoom; [by intros a []|]. intros a d [] Hd. by split. Qed.
Lemma pm_serial_typed {A} (m : M P A) : typed pm_members any (PowerMeter.on_serial m).
Proof. apply pm_device_typed, dev_serial_typed. Qed.
Hint Resolve pm_device_typed pm_serial_typed : typed.

Lemma pm_send_typed cmd resp : typed pm_members any (PowerMeter.send_cmd cmd resp).
Proof.
  unfold PowerMeter.send_cmd, PowerMeter.lock_guard, PowerMeter.pause. solve_typed.
  - match goal with H : pm_members _ |- _ => destruct H; by split end.
  - apply typed_finally; [intros m []; by split|]. solve_typed.
Qed.
Hint Resolve pm_send_typed : typed.
Lemma pm_query_typed cmd what : typed pm_members any (PowerMeter.query cmd what).
Proof. unfold PowerMeter.query. solve_typed. Qed.
Lemma pm_starts_typed c rr : typed pm_members any (PowerMeter.starts_with c rr).
Proof. unfold PowerMeter.starts_with. solve_typed. Qed.
Lemma pm_refused_typed rr : typed pm_members any (PowerMeter.not_refused rr).
Proof. unfold PowerMeter.not_refused. solve_typed. Qed.
Lemma pm_flag_typed rr : typed pm_members any (PowerMeter.flag_after_first rr).
Proof. unfold PowerMeter.flag_after_first. solve_typed. Qed.
Lemma pm_token_typed tokens i : typed pm_members (in_u 16) (PowerMeter.u16_token tokens i).
Proof. unfold PowerMeter.u16_token. solve_typed. Qed.
Lemma pm_setting_typed rr : typed pm_members (in_u 32) (PowerMeter.setting_or_NA rr).
Proof. unfold PowerMeter.setting_or_NA. solve_typed. unfold dNA, in_u. lia. Qed.
Hint Resolve pm_query_typed pm_starts_typed pm_refused_typed pm_flag_typed pm_token_typed
  pm_setting_typed : typed.

Lemma pm_double_typed cmd what : typed pm_members any (PowerMeter.query_double cmd what).
Proof. unfold PowerMeter.query_double. solve_typed. Qed.
Hint Resolve pm_double_typed : typed.

(** [int]: what [std::stoi] returns. *)
Lemma pm_stoi_typed s : typed pm_members (in_s 32) (lift (stoi s)).
Proof.
  intros m Hm. split; [done|]. simpl. unfold stoi. destruct (scan_int 10 s) as [[neg v]|]; [|done].
  destruct (in_sb 32 (signed neg v)) eqn:E; [by apply in_sb_spec|done].
Qed.

Lemma pm_get_range_typed : typed pm_members (in_s 32) PowerMeter.get_range.
Proof. unfold PowerMeter.get_range. solve_typed. apply pm_stoi_typed. Qed.

Ltac members := match goal with H : pm_members _ |- pm_members _ =>
  destruct H; destruct_and?; split; simpl; auto using insert_from_keys, no_keys with typed end.

Lemma pm_energy_threshold_typed n : typed pm_members (in_u 32) (PowerMeter.energy_threshold n).
Proof. unfold PowerMeter.energy_threshold. solve_typed. members. Qed.

Lemma pm_thresholds_typed : typed pm_members
  (λ r, in_u 16 r.1.1 ∧ in_u 16 r.1.2 ∧ in_u 16 r.2) PowerMeter.query_user_threshold.
Proof.
  unfold PowerMeter.query_user_threshold. solve_typed; members.
Qed.
Hint Resolve pm_get_range_typed pm_energy_threshold_typed pm_thresholds_typed : typed.

Lemma pm_user_threshold_typed n :
  typed pm_members (optional (in_u 16)) (PowerMeter.user_threshold n).
Proof.
  unfold PowerMeter.user_threshold. solve_typed; try members.
  - by match goal with H : pm_members _ |- _ => destruct H end.
  - simpl in *. tauto.
Qed.

Lemma pm_mode_body_typed current n : in_u 16 n → typed pm_members (in_u 16) current →
  typed pm_members (in_u 16) (PowerMeter.measurement_mode_body current n).
Proof. intros Hn Hc. unfold PowerMeter.measurement_mode_body. solve_typed. Qed.

Lemma pm_mode_typed n : in_u 16 n →
  typed pm_members (in_u 16) (PowerMeter.measurement_mode n).
Proof.
  intros Hn. apply pm_mode_body_typed; [done|]. apply pm_mode_body_typed; [unfold in_u; lia|].
  apply typed_spin.
Qed.

Lemma pm_pulse_length_typed n : in_u 16 n →
  typed pm_members (in_u 16) (PowerMeter.pulse_length n).
Proof. intros Hn. unfold PowerMeter.pulse_length. solve_typed; members. Qed.

Lemma pm_init_typed port baud p : in_u 32 baud → pm_members (PowerMeter.init port baud p).
Proof.
  intros Hb. split; [split|..]; cbn; try apply no_keys; unfold in_u, in_s in *; try done; lia.
Qed.

(** The operations with arguments of their types. *)
Definition pm_operation_types (n16 n32 i16 : Z) (s : bytes) : list (operation (powermeter P)) :=
  [Op any (PowerMeter.set_range i16); Op any (PowerMeter.wavelength n16);
   Op any (PowerMeter.set_wavelength n32); Op any PowerMeter.get_average_flag;
   Op (in_u 16) (PowerMeter.average_query n16); Op (in_s 16) PowerMeter.get_all_ranges;
   Op any (PowerMeter.get_all_wavelengths s); Op (in_u 32) (PowerMeter.bc20_sensor_mode n32);
   Op (in_u 32) (PowerMeter.diffuser_query n32); Op (in_u 32) (PowerMeter.filter_query n32);
   Op (λ r, in_u 32 r.1.2 ∧ in_u 32 r.2) PowerMeter.exposure_energy;
   Op any PowerMeter.energy_flag; Op any PowerMeter.energy_ready;
   Op (in_u 32) (PowerMeter.energy_threshold n32); Op any PowerMeter.force_energy;
   Op any PowerMeter.force_power; Op any PowerMeter.force_exposure;
   Op any (PowerMeter.head_info_raw s); Op any PowerMeter.head_info;
   Op any PowerMeter.head_type; Op any PowerMeter.inst_config; Op any PowerMeter.inst_info;
   Op (in_u 16) (PowerMeter.mains_frequency n16); Op (in_u 32) PowerMeter.max_freq;
   Op (in_u 16) (PowerMeter.measurement_mode n16); Op (in_u 16) (PowerMeter.pulse_length n16);
   Op any PowerMeter.reset; Op (in_s 32) PowerMeter.get_range; Op any PowerMeter.send_energy;
   Op any PowerMeter.read_energy; Op any PowerMeter.send_frequency;
   Op any PowerMeter.send_average; Op any PowerMeter.read_average; Op any PowerMeter.send_units;
   Op any PowerMeter.send_units_long; Op any PowerMeter.send_power; Op any PowerMeter.send_max;
   Op (optional (in_u 16)) (PowerMeter.user_threshold n16);
   Op (λ r, in_u 16 r.1.1 ∧ in_u 16 r.1.2 ∧ in_u 16 r.2) PowerMeter.query_user_threshold;
   Op any PowerMeter.version; Op any (PowerMeter.wavelength_index n16);
   Op any (PowerMeter.write_range i16); Op any PowerMeter.init_pulse_lengths;
   Op any PowerMeter.construct; Op any (PowerMeter.on_device Device.destroy);
   Op (in_u 32) (gets PowerMeter.get_wavelength); Op (in_s 16) (gets PowerMeter.get_range_fast);
   Op (in_u 32) (gets PowerMeter.get_e_threshold); Op any PowerMeter.get_energy;
   Op (in_u 16) PowerMeter.get_all_wavelengths_index;
   Op (in_u 16) (PowerMeter.trigger_window n16); Op any PowerMeter.query_beam_track;
   Op any PowerMeter.force_screen; Op any PowerMeter.head_configuration;
   Op any PowerMeter.key_legends; Op any (PowerMeter.simulate_key_press n16);
   Op any (PowerMeter.wavelength_add n16 n16); Op any (PowerMeter.wavelength_erase n16);
   Op any (PowerMeter.write_discrete_wavelength n16);
   Op (keys_in (in_s 16)) (gets PowerMeter.get_range_map);
   Op (keys_in (in_u 16)) (gets PowerMeter.get_pulse_map);
   Op (keys_in (in_u 16)) (gets PowerMeter.get_averages_map);
   Op (λ r, in_u 16 r.1 ∧ in_u 16 r.2) (gets PowerMeter.get_threshold_ranges)].

Hint Resolve pm_user_threshold_typed pm_mode_typed pm_pulse_length_typed : typed.

Lemma pm_operations_typed n16 n32 i16 s : in_u 16 n16 → in_u 32 n32 → in_s 16 i16 →
  Forall (well_typed pm_members) (pm_operation_types n16 n32 i16 s).
Proof.
  intros H16 H32 Hi. unfold pm_operation_types, well_typed.
  repeat (apply List.Forall_cons); try apply List.Forall_nil; cbn [op_value op_type op_code];
    unfold PowerMeter.set_range, PowerMeter.set_wavelength, PowerMeter.wavelength,
      PowerMeter.average_query, PowerMeter.get_all_ranges, PowerMeter.get_all_wavelengths,
      PowerMeter.bc20_sensor_mode, PowerMeter.diffuser_query, PowerMeter.filter_query,
      PowerMeter.exposure_energy, PowerMeter.read_energy, PowerMeter.energy_flag,
      PowerMeter.energy_ready, PowerMeter.force_energy, PowerMeter.force_power,
      PowerMeter.force_exposure, PowerMeter.head_info, PowerMeter.head_info_raw,
      PowerMeter.head_type, PowerMeter.inst_config, PowerMeter.inst_info,
      PowerMeter.mains_frequency, PowerMeter.max_freq, PowerMeter.reset,
      PowerMeter.send_energy, PowerMeter.send_frequency, PowerMeter.read_average,
      PowerMeter.get_average_flag, PowerMeter.send_average, PowerMeter.send_units_long,
      PowerMeter.send_units, PowerMeter.send_power, PowerMeter.send_max, PowerMeter.version,
      PowerMeter.wavelength_index, PowerMeter.write_range, PowerMeter.init_pulse_lengths,
      PowerMeter.construct, PowerMeter.construct_body.
  all: try solve [solve_getter].
  all: unfold PowerMeter.get_energy, PowerMeter.send_energy, PowerMeter.get_all_wavelengths_index,
    PowerMeter.trigger_window, PowerMeter.query_beam_track, PowerMeter.force_screen,
    PowerMeter.head_configuration, PowerMeter.key_legends, PowerMeter.simulate_key_press,
    PowerMeter.wavelength_add, PowerMeter.wavelength_erase,
    PowerMeter.write_discrete_wavelength, PowerMeter.not_implemented.
  all: solve_typed; try members.
  - split; apply u32_in.
  - simpl. unfold in_u. lia.
  - unfold in_u. lia.
Qed.
End powermeter_types.

(** ** The laser *)
Section laser_types.
Context {P : Type} {HI : SerialImpl P}.

(** The members of include/Laser.hh. *)
Record laser_members (l : laser P) : Prop := {
  tl_base : dev_members (l_base l);
  tl_prescale : in_u 32 (m_prescale l);
  tl_qswitch : in_u 32 (m_qswitch l);
}.

Lemma laser_device_typed {A} (R : A → Prop) (m : M (device P) A) :
  typed dev_members R m → typed laser_members R (Laser.on_device m).
Proof. apply typed_zoom; [by intros a []|]. intros a d [] Hd. by split. Qed.
Lemma laser_serial_typed {A} (m : M P A) : typed laser_members any (Laser.on_serial m).
Proof. apply laser_device_typed, dev_serial_typed. Qed.
Hint Resolve laser_device_typed laser_serial_typed : typed.
Lemma laser_write_typed cmd : typed laser_members any (Laser.write_cmd cmd).
Proof. unfold Laser.write_cmd. solve_typed. Qed.
Hint Resolve laser_write_typed : typed.
Lemma laser_send_typed cmd what : typed laser_members any (Laser.send_or_throw cmd what).
Proof. unfold Laser.send_or_throw. solve_typed. Qed.
Hint Resolve laser_send_typed : typed.
Lemma laser_security_typed : typed laser_members any Laser.security.
Proof. unfold Laser.security. solve_typed. Qed.
Hint Resolve laser_security_typed : typed.
Lemma laser_msg_typed : typed laser_members any Laser.security_msg.
Proof. unfold Laser.security_msg. solve_typed. Qed.
Hint Resolve laser_msg_typed : typed.

Lemma laser_init_typed port baud p : in_u 32 baud → laser_members (Laser.init port baud p).
Proof. intros Hb. split; [split|..]; cbn; unfold in_u in *; try done; lia. Qed.

Lemma clip_in k n : in_u 32 k → in_u 32 n → in_u 32 (if k <? n then k else n).
Proof. by destruct (k <? n). Qed.

Definition laser_operation_types (n32 : Z) (x : float) (sh : Shutter) (f : Fire) (s : bytes) :
    list (operation (laser P)) :=
  [Op any (Laser.shutter sh); Op any Laser.shutter_open; Op any Laser.shutter_close;
   Op any (Laser.fire f); Op any Laser.fire_start; Op any Laser.fire_stop; Op any (Laser.set_prescale n32);
   Op any (Laser.set_pulse_division n32); Op any (Laser.set_pump_voltage x);
   Op any Laser.single_shot; Op (in_u 32) Laser.get_shot_count; Op any Laser.security;
   Op any Laser.security_msg; Op (λ r, in_u 16 r.1) Laser.security_u16;
   Op (λ r, in_u 32 r.1) Laser.security_enum; Op any (Laser.set_repetition_rate x);
   Op any (Laser.set_qswitch n32); Op any (Laser.write_cmd s); Op any (Laser.read_cmd s);
   Op any Laser.construct; Op any (Laser.on_device Device.destroy)].

Lemma laser_operations_typed n32 x sh f s : in_u 32 n32 →
  Forall (well_typed laser_members) (laser_operation_types n32 x sh f s).
Proof.
  intros H32. unfold laser_operation_types, well_typed.
  repeat (apply List.Forall_cons); try apply List.Forall_nil;
    cbn [op_value op_type op_code];
    unfold Laser.shutter_open, Laser.shutter_close, Laser.fire_start, Laser.fire_stop,
      Laser.shutter, Laser.fire, Laser.single_shot, Laser.set_pulse_division,
      Laser.set_prescale, Laser.set_pump_voltage, Laser.get_shot_count, Laser.security_u16,
      Laser.security_enum, Laser.set_repetition_rate, Laser.set_qswitch, Laser.read_cmd,
      Laser.construct, Laser.construct_body.
  all: solve_typed.
  all: try match goal with H : laser_members _ |- _ => destruct H; split; simpl; auto end.
  - by apply clip_in.
  - by apply clip_in.
  - unfold in_u. lia.
  - apply u16_in.
  - apply u32_in.
  - by apply clip_in.
Qed.
End laser_types.


