(* ===== verification/Exceptions.v ===== *)
(** * The exception classes of include/serial/serial.h

    The texts the exceptions carry and what their copies keep; the rest of the
    development uses the description alone.  [strerror] of the system is a parameter. *)
From S2P Require Import Prelude CppStd Utilities Serial.

Record serial_exception := mkSerialException { se_what : bytes }.
Record not_opened_exception := mkNotOpened { ne_what : bytes }.
Record io_exception := mkIO {
  io_file : bytes;
  io_line : Z;
  io_what : bytes;
  io_errno : Z;
}.

Module Exceptions.
Section exceptions.
Variable strerror : Z → bytes.

Definition SerialException (description : bytes) : serial_exception :=
  mkSerialException (str "SerialException " ++ description ++ str " failed.").
Definition SerialException_copy (other : serial_exception) : serial_exception :=
  mkSerialException (se_what other).

Definition PortNotOpenedException (description : bytes) : not_opened_exception :=
  mkNotOpened (str "PortNotOpenedException " ++ description ++ str " failed.").
Definition PortNotOpenedException_copy (other : not_opened_exception) : not_opened_exception :=
  mkNotOpened (ne_what other).

(** The place, at the end of both texts. *)
Definition place (file : bytes) (line : Z) : bytes :=
  str ", file " ++ file ++ str ", line " ++ show line ++ str ".".

Definition IOException_errno (file : bytes) (line errnum : Z) : io_exception :=
  mkIO file line (str "IO Exception (" ++ show errnum ++ str "): " ++ strerror errnum ++
                  place file line) errnum.
Definition IOException_text (file : bytes) (line : Z) (description : bytes) : io_exception :=
  mkIO file line (str "IO Exception: " ++ description ++ place file line) 0.

(** The copy constructor leaves the file name out. *)
Definition IOException_copy (other : io_exception) : io_exception :=
  mkIO [] (io_line other) (io_what other) (io_errno other).
Definition getErrorNumber (e : io_exception) : Z := io_errno e.

(** [what()]: a C string. *)
Definition SerialException_what (e : serial_exception) : bytes := c_str (se_what e).
Definition PortNotOpenedException_what (e : not_opened_exception) : bytes := c_str (ne_what e).
Definition IOException_what (e : io_exception) : bytes := c_str (io_what e).

(** What a handler prints for an exception of the model, thrown at [file] and [line]. *)
Definition what (file : bytes) (line : Z) (e : exn) : bytes :=
  match e with
  | Prelude.SerialException d =>
    SerialException_what (SerialException_copy (SerialException (str d)))
  | Prelude.IOException d =>
    IOException_what (IOException_copy (IOException_text file line (str d)))
  | IOErrno n => IOException_what (IOException_copy (IOException_errno file line n))
  | Prelude.PortNotOpenedException d =>
    PortNotOpenedException_what (PortNotOpenedException_copy (PortNotOpenedException (str d)))
  | invalid_argument d | out_of_range d | range_error d | runtime_error d => c_str (str d)
  | terminate => []
  end.

(** [getErrorNumber()] of an exception caught by reference to [IOException]. *)
Definition errno_of (file : bytes) (line : Z) (e : exn) : option Z :=
  match e with
  | Prelude.IOException d =>
    Some (getErrorNumber (IOException_copy (IOException_text file line (str d))))
  | IOErrno n => Some (getErrorNumber (IOException_copy (IOException_errno file line n)))
  | _ => None
  end.
End exceptions.
End Exceptions.
Import Exceptions.

Lemma c_str_app_prefix a b : c_str a = a → c_str (a ++ b) = a ++ c_str b.
Proof.
  induction a as [|x a IH]; simpl; [done|]. destruct (code x =? 0); [done|].
  intros [= H]. by rewrite IH.
Qed.

(** The text of a description without null characters is kept in full. *)
Lemma description_kept pre d post : c_str pre = pre → c_str d = d → c_str post = post →
  c_str (pre ++ d ++ post) = pre ++ d ++ post.
Proof. intros H1 H2 H3. by rewrite !c_str_app_prefix, H3. Qed.

Lemma app_both_inj (pre post d1 d2 : bytes) : pre ++ d1 ++ post = pre ++ d2 ++ post → d1 = d2.
Proof. intros H%app_inv_head. by apply app_inv_tail in H. Qed.

(** What is printed tells the classes of serial.h apart and gives the description back;
    the error number survives the copy, and is 0 for a description. *)
Lemma texts_tell_apart (strerror : Z → bytes) (file : bytes) (line : Z) (d1 d2 : string) (n : Z) :
  c_str (str d1) = str d1 → c_str (str d2) = str d2 →
  (what strerror file line (Prelude.SerialException d1) =
   what strerror file line (Prelude.SerialException d2) → str d1 = str d2) ∧
  (what strerror file line (Prelude.PortNotOpenedException d1) =
   what strerror file line (Prelude.PortNotOpenedException d2) → str d1 = str d2) ∧
  what strerror file line (Prelude.SerialException d1) ≠
    what strerror file line (Prelude.PortNotOpenedException d2) ∧
  what strerror file line (Prelude.SerialException d1) ≠
    what strerror file line (Prelude.IOException d2) ∧
  what strerror file line (Prelude.IOException d1) ≠ what strerror file line (IOErrno n) ∧
  errno_of strerror file line (IOErrno n) = Some n ∧
  errno_of strerror file line (Prelude.IOException d1) = Some 0.
Proof.
  intros H1 H2. unfold what, SerialException_what, PortNotOpenedException_what. cbn [se_what ne_what
    SerialException_copy PortNotOpenedException_copy SerialException PortNotOpenedException].
  rewrite !description_kept by done. split_and!; try done.
  - apply app_both_inj.
  - apply app_both_inj.
Qed.
