(* ===== verification/PowerMeterSim.v ===== *)
(** * src/PowerMeterSim.cpp and include/PowerMeterSim.hh: the simulated power meter

    A power meter without hardware: most operations return constants, the rest
    parse a fixed reply the way the driver parses the one it receives, or change a
    member.  The theorems compare it with the driver. *)
From S2P Require Import Prelude CppStd Utilities Serial Loopback Device Floats PowerMeter.

Record pmsim := mkPmSim {
  ps_mmode : Z;
  ps_range : Z;
  ps_wavelength : Z;
  ps_e_threshold : Z;
  ps_ave_query_state : Z;
  ps_pulse_length : Z;
  ps_ranges : list (Z * bytes);
  ps_pulse_lengths : list (Z * bytes);
  ps_ave_windows : list (Z * bytes);
  ps_measurement_units : list (ascii * bytes);
  ps_threshold_ranges : Z * Z;
}.
#[export] Instance eta_pmsim : Eta pmsim := λ s,
  mkPmSim (ps_mmode s) (ps_range s) (ps_wavelength s) (ps_e_threshold s)
    (ps_ave_query_state s) (ps_pulse_length s) (ps_ranges s) (ps_pulse_lengths s)
    (ps_ave_windows s) (ps_measurement_units s) (ps_threshold_ranges s).

(** The literals [125.42], [1.2e-3], [50.0] and [100.0]. *)
Definition d_125_42 : double := S754_finite false 8825647894762619 (-46).
Definition d_1_2e_3 : double := S754_finite false 5534023222112865 (-62).
Definition d_50 : double := S754_finite false 7036874417766400 (-47).
Definition d_100 : double := S754_finite false 7036874417766400 (-46).

(** The fixed replies. *)
Definition reply_AR : bytes := str "*4 10.0J 2.00J 200mJ 20.0mJ 2.00mJ " ++ [CR; LF].
Definition reply_AW : bytes :=
  str "*CONTINUOUS 190 3000 1 266 355 532 1064 2100 2940 " ++ [CR; LF].
Definition reply_PL : bytes := str "*1 1.0ms 2.0ms 5.0ms 10ms 20ms " ++ [CR; LF].

Module PowerMeterSim.
Definition construct : pmsim :=
  mkPmSim mmEnergy 2 266 1 aNone 0 [] [] [] measurement_units (0, 0).

Definition get_range_fast (s : pmsim) : Z := ps_range s.

Definition wavelength (wl : Z) : M pmsim bool :=
  modify (λ s, s <| ps_wavelength := wl |>) ;; ret true.
Definition set_wavelength (wl : Z) : M pmsim unit :=
  r <- wavelength (u16 wl) ;;
  when r do modify (λ s, s <| ps_wavelength := u16 wl |>).
Definition get_wavelength (s : pmsim) : Z := ps_wavelength s.
Definition get_e_threshold (s : pmsim) : Z := ps_e_threshold s.

Definition send_energy : M pmsim double := ret d_1_2e_3.
Definition get_energy : M pmsim double := send_energy.

Definition get_average_flag : M pmsim bool := ret true.

(** Both overloads of [average_query]. *)
Definition average_query (q : Z) : M pmsim Z :=
  modify (λ s, s <| ps_ave_windows :=
    map_insert 5 (str "30sec") (map_insert 4 (str "10sec") (map_insert 3 (str "3sec")
      (map_insert 2 (str "1sec") (map_insert 1 (str "0.5sec")
        (map_insert 0 (str "NONE") (ps_ave_windows s)))))) |>) ;;
  ret 1.

Definition get_all_ranges : M pmsim Z :=
  resp <- lift (substr reply_AR 1 npos) ;;
  tokens <- lift (tokens_of (trim resp) [SP]) ;;
  t0 <- lift (vec_at tokens 0) ;;
  v <- lift (stol t0) ;;
  let current_setting := i16 (Z.land v 0xFFFF) in
  tokens <- lift (erase_first tokens) ;;
  modify (λ s, s <| ps_ranges := insert_from i16 0 tokens [] |>) ;;
  ret current_setting.

Definition get_all_wavelengths_index : M pmsim Z :=
  throw (runtime_error "Not implemented").
Definition get_all_wavelengths : M pmsim bytes := lift (substr reply_AW 1 npos).

Definition bc20_sensor_mode (query : Z) : M pmsim Z := ret 1.
Definition diffuser_query (s : Z) : M pmsim Z := ret dNA.
Definition filter_query (s : Z) : M pmsim Z := ret dNA.
Definition exposure_energy : M pmsim (double * Z * Z) := ret (d_125_42, 5, 100).
Definition energy_flag : M pmsim bool := ret true.
Definition energy_ready : M pmsim bool := ret true.
Definition energy_threshold (et : Z) : M pmsim Z :=
  modify (λ s, s <| ps_e_threshold := 0 |>) ;; ret 0.
Definition force_energy : M pmsim bool := ret true.
Definition force_power : M pmsim bool := ret false.
Definition force_exposure : M pmsim bool := ret false.
Definition head_info_raw : M pmsim bytes := ret [].
Definition head_info : M pmsim (bytes * bytes * bytes * bool * bool * bool) :=
  ret (str "energy", str "DEADBEEF", str "simulation", false, true, true).
Definition head_type : M pmsim bytes := ret [].
Definition inst_config : M pmsim bool := ret true.
Definition inst_info : M pmsim (bytes * bytes * bytes) :=
  ret (str "whatever", str "DEADBEEF", str "simulation").
Definition mains_frequency (q : Z) : M pmsim Z := ret 1.
Definition max_freq : M pmsim Z := ret 1000.
Definition measurement_mode (q : Z) : M pmsim Z := ret 3.

Definition pulse_length (value : Z) : M pmsim Z :=
  if value =? 0 then
    d <- lift (substr reply_PL 1 1) ;;
    v <- lift (stoul d) ;;
    l <- gets ps_pulse_lengths ;;
    (when (length l =? 0)%nat do (
       resp <- lift (substr reply_PL 2 npos) ;;
       tokens <- lift (tokens_of (trim resp) [SP]) ;;
       modify (λ s, s <| ps_pulse_lengths := insert_from u16 1 tokens (ps_pulse_lengths s) |>))) ;;
    ret (u16 v)
  else
    x <- lift (str_at reply_PL 0) ;;
    if Ascii.eqb x "*" then ret value
    else d <- lift (substr reply_PL 1 1) ;; v <- lift (stoul d) ;; ret (Z.land v 0xFFFF).

Definition reset : M pmsim unit := ret tt.
Definition get_range : M pmsim Z := ret 1.
Definition read_energy : M pmsim (option double) := ret (Some d_1_2e_3).
Definition send_frequency : M pmsim double := ret d_50.
Definition send_average : M pmsim double := ret d_1_2e_3.
Definition read_average : M pmsim (option double) :=
  st <- get_average_flag ;;
  if st : bool then v <- send_average ;; ret (Some v) else ret None.
Definition send_units : M pmsim ascii := ret "J"%char.
Definition send_units_long : M pmsim bytes :=
  u <- send_units ;; t <- gets ps_measurement_units ;; lift (unit_at u t).
Definition send_power : M pmsim double := ret (S754_zero false).
Definition send_max : M pmsim double := ret d_100.
Definition trigger_window (value : Z) : M pmsim Z := ret 1.

Definition user_threshold (value : Z) : M pmsim Z :=
  modify (λ s, s <| ps_e_threshold := 1 |>) ;; ret 1.

(** [query_user_threshold(current, min, max)] assigns none of its parameters. *)
Definition query_user_threshold : M pmsim (option (Z * Z * Z)) :=
  modify (λ s, s <| ps_e_threshold := 100 |> <| ps_threshold_ranges := (1, 1000) |>) ;;
  ret None.

Definition version : M pmsim bytes := ret (str "1.25").
Definition wavelength_index (index : Z) : M pmsim bool := ret false.
Definition write_range (range : Z) : M pmsim bool :=
  modify (λ s, s <| ps_range := range |>) ;; ret true.

(** The functions the header defines. *)
Definition not_implemented {A} : M pmsim A := throw (runtime_error "not implemented").
Definition query_beam_track : M pmsim unit := not_implemented.
Definition force_screen : M pmsim unit := not_implemented.
Definition head_configuration : M pmsim unit := not_implemented.
Definition key_legends : M pmsim unit := not_implemented.
Definition simulate_key_press (key : Z) : M pmsim unit := not_implemented.
Definition wavelength_add (index wl : Z) : M pmsim bool := not_implemented.
Definition wavelength_erase (index : Z) : M pmsim bool := not_implemented.
Definition write_discrete_wavelength (index : Z) : M pmsim bool := not_implemented.
Definition get_range_map (s : pmsim) : list (Z * bytes) := ps_ranges s.
Definition get_pulse_map (s : pmsim) : list (Z * bytes) := ps_pulse_lengths s.
Definition get_averages_map (s : pmsim) : list (Z * bytes) := ps_ave_windows s.
Definition get_threshold_ranges (s : pmsim) : Z * Z := ps_threshold_ranges s.
End PowerMeterSim.

(** ** Comparison with the driver *)
Section comparison.
Context {P : Type} {HI : SerialImpl P}.
Implicit Types m : powermeter P.

(** The reply as the driver sees it, without the terminator. *)
Definition without_crlf (r : bytes) : bytes := take (length r - 2) r.

(** On the replies the simulator has built in, the driver and the simulator read
    the same current range and pulse length and fill the same two maps. *)
Lemma sim_maps_agree m m1 n n1 (s : pmsim) :
  PowerMeter.query (str "AR") "Failed to query all ranges" m =
    (Ret (without_crlf reply_AR), m1) →
  PowerMeter.query (str "PL 0") "Failed to set pulse length" n =
    (Ret (without_crlf reply_PL), n1) →
  m_pulse_lengths n1 = [] → ps_pulse_lengths s = [] →
  (∃ c m' s', PowerMeter.get_all_ranges m = (Ret c, m') ∧
     PowerMeterSim.get_all_ranges s = (Ret c, s') ∧ m_ranges m' = ps_ranges s') ∧
  (∃ c n' s', PowerMeter.pulse_length 0 n = (Ret c, n') ∧
     PowerMeterSim.pulse_length 0 s = (Ret c, s') ∧ m_pulse_lengths n' = ps_pulse_lengths s').
Proof.
  intros Hr Hp Hm Hs. split.
  - unfold PowerMeter.get_all_ranges, bind at 1. rewrite Hr.
    do 3 eexists. split; [vm_compute; reflexivity|]. split; [vm_compute; reflexivity|].
    by vm_compute.
  - unfold PowerMeter.pulse_length, bind at 1.
    change (str "PL " ++ show 0) with (str "PL 0"). rewrite Hp.
    destruct n1, s. simpl in Hm, Hs. subst. do 3 eexists.
    split; [vm_compute; reflexivity|]. split; [vm_compute; reflexivity|]. done.
Qed.

(** The reply the comment in the simulator and the driver calls typical. *)
Definition reply_AQ : bytes := str "* 1      NONE 0.5sec   1sec   3sec  10sec  30sec ".

(** The averaging windows of the simulator are numbered from 0 and those of the
    driver from 1: for the setting both report, the driver's map says [NONE] and
    the simulator's [0.5sec]. *)
Lemma sim_average_keys m m1 (s : pmsim) :
  PowerMeter.query (str "AQ 0") "Failed to query average" m = (Ret reply_AQ, m1) →
  m_ave_windows m1 = [] → ps_ave_windows s = [] →
  ∃ c m' s', PowerMeter.average_query 0 m = (Ret c, m') ∧
    PowerMeterSim.average_query 0 s = (Ret c, s') ∧
    map_find c (m_ave_windows m') = Some (str "NONE") ∧
    map_find c (ps_ave_windows s') = Some (str "0.5sec").
Proof.
  intros Hq Hm Hs. unfold PowerMeter.average_query, bind at 1.
  change (str "AQ " ++ show 0) with (str "AQ 0"). rewrite Hq.
  destruct m1, s. simpl in Hm, Hs. subst. do 3 eexists.
  split; [vm_compute; reflexivity|]. split; [vm_compute; reflexivity|]. by vm_compute.
Qed.
End comparison.

(** Meters that send the built-in replies. *)
Lemma sim_maps_agree_witness :
  (PowerMeter.get_all_ranges (pm_on [without_crlf reply_AR])).1 =
  (PowerMeterSim.get_all_ranges PowerMeterSim.construct).1 ∧
  (PowerMeter.pulse_length 0 (pm_on [without_crlf reply_PL])).1 =
  (PowerMeterSim.pulse_length 0 PowerMeterSim.construct).1.
Proof.
  set (m := pm_on [without_crlf reply_AR]). set (n := pm_on [without_crlf reply_PL]).
  destruct (sim_maps_agree m
    (PowerMeter.query (str "AR") "Failed to query all ranges" m).2 n
    (PowerMeter.query (str "PL 0") "Failed to set pulse length" n).2
    PowerMeterSim.construct) as [(c & m' & s' & E1 & E2 & _) (c2 & n' & s2 & E3 & E4 & _)].
  - apply run_pair. by vm_compute.
  - apply run_pair. by vm_compute.
  - by vm_compute.
  - done.
  - exact (conj (eq_trans (f_equal fst E1) (eq_sym (f_equal fst E2)))
      (eq_trans (f_equal fst E3) (eq_sym (f_equal fst E4)))).
Defined.

Lemma sim_average_keys_witness :
  ∃ c, (PowerMeter.average_query 0 (pm_on [reply_AQ])).1 = Ret c ∧
       (PowerMeterSim.average_query 0 PowerMeterSim.construct).1 = Ret c.
Proof.
  set (m := pm_on [reply_AQ]).
  destruct (sim_average_keys m (PowerMeter.query (str "AQ 0") "Failed to query average" m).2
    PowerMeterSim.construct) as (c & m' & s' & E1 & E2 & _).
  - apply run_pair. by vm_compute.
  - by vm_compute.
  - done.
  - exact (ex_intro _ c (conj (f_equal fst E1) (f_equal fst E2))).
Defined.
