(* ===== verification/TypesSim.v ===== *)
(** * The C++ types of the simulators

    The same judgement as for the drivers (Types.v), for the classes of
    include/AttenuatorSim.hh, include/PowerMeterSim.hh and include/LaserSim.hh: a
    simulator delivers values of the same types as the driver it stands for. *)
From S2P Require Import Prelude CppStd Utilities Serial Device Floats Laser LaserSim Attenuator AttenuatorSim PowerMeter PowerMeterSim Types.

(** ** The attenuator *)
Record attsim_members (s : attsim) : Prop := {
  tas_offset : in_s 32 (as_offset s);
  tas_max_speed : in_u 32 (as_max_speed s);
  tas_op_mode : in_u 32 (as_op_mode s);
  tas_motor_state : in_u 32 (as_motor_state s);
  tas_acceleration : in_u 16 (as_acceleration s);
  tas_deceleration : in_u 16 (as_deceleration s);
  tas_resolution : in_u 32 (as_resolution s);
  tas_position : in_s 32 (as_position s);
  tas_current_idle : in_u 16 (as_current_idle s);
  tas_current_move : in_u 16 (as_current_move s);
}.

Lemma tas_get_position : typed attsim_members position_type AttenuatorSim.get_position.
Proof.
  apply typed_gets. intros s []. apply typed_ret. split; [done|]. simpl. unfold in_u. lia.
Qed.
#[local] Hint Resolve tas_get_position : typed.

Lemma tas_refresh_position : typed attsim_members any AttenuatorSim.refresh_position.
Proof.
  eapply typed_bind; [apply tas_get_position|]. intros [p st] [Hp Hst].
  apply typed_modify. intros s []. split; simpl; auto using u16_u32.
Qed.
#[local] Hint Resolve tas_refresh_position : typed.

Lemma tas_steps acosf x : typed attsim_members (in_s 32) (AttenuatorSim.trans_to_steps acosf x).
Proof. unfold AttenuatorSim.trans_to_steps. solve_typed. Qed.
#[local] Hint Resolve tas_steps : typed.

Definition attsim_operations (acosf : float → float) (wait b : bool) (n16 n32 i : Z)
    (s : bytes) (x : float) : list (operation attsim) :=
  [Op any (AttenuatorSim.set_max_speed n32); Op any AttenuatorSim.get_status_raw;
   Op any AttenuatorSim.refresh_status; Op any AttenuatorSim.refresh_position;
   Op position_type AttenuatorSim.get_position; Op (in_s 32) (AttenuatorSim.move i wait);
   Op (in_s 32) (AttenuatorSim.go i wait); Op any (AttenuatorSim.set_current_position i);
   Op any AttenuatorSim.set_zero; Op any (AttenuatorSim.stop b); Op any AttenuatorSim.go_home;
   Op any (AttenuatorSim.set_resolution n32); Op (in_u 16) AttenuatorSim.get_resolution;
   Op any (AttenuatorSim.set_idle_current n16); Op any (AttenuatorSim.set_moving_current n16);
   Op any (AttenuatorSim.set_acceleration n16); Op any (AttenuatorSim.set_deceleration n16);
   Op any AttenuatorSim.save_settings; Op any AttenuatorSim.reset_controller;
   Op any (AttenuatorSim.set_serial_number s); Op any AttenuatorSim.get_serial_number;
   Op (in_s 32) (AttenuatorSim.trans_to_steps acosf x);
   Op (in_s 32) (AttenuatorSim.set_transmission acosf x wait); Op any AttenuatorSim.construct;
   Op (in_s 32) (gets AttenuatorSim.get_offset); Op (in_u 32) (gets AttenuatorSim.get_max_speed);
   Op (in_u 32) (gets AttenuatorSim.get_op_mode);
   Op (in_u 32) (gets AttenuatorSim.get_motor_state);
   Op (in_u 16) (gets AttenuatorSim.get_acceleration);
   Op (in_u 16) (gets AttenuatorSim.get_deceleration);
   Op (in_u 16) (gets AttenuatorSim.get_current_idle);
   Op (in_u 16) (gets AttenuatorSim.get_current_move);
   Op any (gets AttenuatorSim.get_reset_on_zero);
   Op any (gets AttenuatorSim.get_report_on_zero)].

Lemma attsim_operations_typed acosf wait b n16 n32 i s x :
  in_u 16 n16 → in_u 32 n32 → in_s 32 i →
  Forall (well_typed attsim_members) (attsim_operations acosf wait b n16 n32 i s x).
Proof.
  intros H16 H32 Hi. unfold attsim_operations, well_typed.
  repeat (apply List.Forall_cons); try apply List.Forall_nil; cbn [op_value op_type op_code];
    unfold AttenuatorSim.set_max_speed, AttenuatorSim.get_status_raw, AttenuatorSim.move,
      AttenuatorSim.set_transmission, AttenuatorSim.go, AttenuatorSim.set_current_position,
      AttenuatorSim.set_zero, AttenuatorSim.stop, AttenuatorSim.go_home,
      AttenuatorSim.set_resolution, AttenuatorSim.get_resolution,
      AttenuatorSim.set_idle_current, AttenuatorSim.set_moving_current,
      AttenuatorSim.set_acceleration, AttenuatorSim.set_deceleration,
      AttenuatorSim.save_settings, AttenuatorSim.reset_controller,
      AttenuatorSim.set_serial_number, AttenuatorSim.get_serial_number,
      AttenuatorSim.construct, AttenuatorSim.refresh_status,
      AttenuatorSim.require_stopped.
  all: try solve [solve_getter].
  all: solve_typed.
  all: try match goal with H : attsim_members _ |- attsim_members _ =>
         destruct H; split; simpl; auto using resolution_in with typed; by split end.
  - apply resolution_in.
Qed.

(** ** The power meter *)
Record pmsim_members (s : pmsim) : Prop := {
  tps_mmode : in_u 32 (ps_mmode s);
  tps_range : in_s 16 (ps_range s);
  tps_wavelength : in_u 16 (ps_wavelength s);
  tps_e_threshold : in_u 16 (ps_e_threshold s);
  tps_ave_query_state : in_u 32 (ps_ave_query_state s);
  tps_pulse_length : in_u 16 (ps_pulse_length s);
  tps_ranges : keys_in (in_s 16) (ps_ranges s);
  tps_pulse_lengths : keys_in (in_u 16) (ps_pulse_lengths s);
  tps_ave_windows : keys_in (in_u 16) (ps_ave_windows s);
  tps_thresholds : in_u 16 (ps_threshold_ranges s).1 ∧ in_u 16 (ps_threshold_ranges s).2;
}.

Definition pmsim_operations (n16 n32 i16 : Z) : list (operation pmsim) :=
  [Op any (PowerMeterSim.wavelength n16); Op any (PowerMeterSim.set_wavelength n32);
   Op any PowerMeterSim.get_average_flag; Op (in_u 16) (PowerMeterSim.average_query n16);
   Op (in_s 16) PowerMeterSim.get_all_ranges; Op any PowerMeterSim.get_all_wavelengths;
   Op (in_u 32) (PowerMeterSim.bc20_sensor_mode n32);
   Op (in_u 32) (PowerMeterSim.diffuser_query n32);
   Op (in_u 32) (PowerMeterSim.filter_query n32);
   Op (λ r, in_u 32 r.1.2 ∧ in_u 32 r.2) PowerMeterSim.exposure_energy;
   Op any PowerMeterSim.energy_flag; Op any PowerMeterSim.energy_ready;
   Op (in_u 32) (PowerMeterSim.energy_threshold n32); Op any PowerMeterSim.force_energy;
   Op any PowerMeterSim.force_power; Op any PowerMeterSim.force_exposure;
   Op any PowerMeterSim.head_info_raw; Op any PowerMeterSim.head_info;
   Op any PowerMeterSim.head_type; Op any PowerMeterSim.inst_config;
   Op any PowerMeterSim.inst_info; Op (in_u 16) (PowerMeterSim.mains_frequency n16);
   Op (in_u 32) PowerMeterSim.max_freq; Op (in_u 16) (PowerMeterSim.measurement_mode n16);
   Op (in_u 16) (PowerMeterSim.pulse_length n16); Op any PowerMeterSim.reset;
   Op (in_s 32) PowerMeterSim.get_range; Op any PowerMeterSim.send_energy;
   Op any PowerMeterSim.read_energy; Op any PowerMeterSim.send_frequency;
   Op any PowerMeterSim.send_average; Op any PowerMeterSim.read_average;
   Op any PowerMeterSim.send_units; Op any PowerMeterSim.send_units_long;
   Op any PowerMeterSim.send_power; Op any PowerMeterSim.send_max;
   Op (in_u 16) (PowerMeterSim.trigger_window n16);
   Op (in_u 16) (PowerMeterSim.user_threshold n16);
   Op (optional (λ r, in_u 16 r.1.1 ∧ in_u 16 r.1.2 ∧ in_u 16 r.2))
     PowerMeterSim.query_user_threshold;
   Op any PowerMeterSim.version; Op any (PowerMeterSim.wavelength_index n16);
   Op any (PowerMeterSim.write_range i16);
   Op (in_u 32) (gets PowerMeterSim.get_wavelength);
   Op (in_s 16) (gets PowerMeterSim.get_range_fast);
   Op (in_u 32) (gets PowerMeterSim.get_e_threshold); Op any PowerMeterSim.get_energy;
   Op (in_u 16) PowerMeterSim.get_all_wavelengths_index; Op any PowerMeterSim.query_beam_track;
   Op any PowerMeterSim.force_screen; Op any PowerMeterSim.head_configuration;
   Op any PowerMeterSim.key_legends; Op any (PowerMeterSim.simulate_key_press n16);
   Op any (PowerMeterSim.wavelength_add n16 n16); Op any (PowerMeterSim.wavelength_erase n16);
   Op any (PowerMeterSim.write_discrete_wavelength n16);
   Op (keys_in (in_s 16)) (gets PowerMeterSim.get_range_map);
   Op (keys_in (in_u 16)) (gets PowerMeterSim.get_pulse_map);
   Op (keys_in (in_u 16)) (gets PowerMeterSim.get_averages_map);
   Op (λ r, in_u 16 r.1 ∧ in_u 16 r.2) (gets PowerMeterSim.get_threshold_ranges)].

Lemma map_insert_keys_in (T : Z → Prop) k v m : T k → keys_in T m → keys_in T (map_insert k v m).
Proof.
  intros Hk Hm. unfold keys_in in *.
  induction Hm as [|[j w] m Hj Hm IH]; simpl; [by apply Forall_singleton|].
  destruct (k <? j), (k =? j); rewrite ?Forall_cons; simpl; auto.
Qed.

Lemma pmsim_operations_typed n16 n32 i16 : in_u 16 n16 → in_u 32 n32 → in_s 16 i16 →
  Forall (well_typed pmsim_members) (pmsim_operations n16 n32 i16).
Proof.
  intros H16 H32 Hi. unfold pmsim_operations, well_typed.
  repeat (apply List.Forall_cons); try apply List.Forall_nil; cbn [op_value op_type op_code];
    unfold PowerMeterSim.wavelength, PowerMeterSim.set_wavelength,
      PowerMeterSim.wavelength, PowerMeterSim.average_query, PowerMeterSim.get_all_ranges,
      PowerMeterSim.get_all_wavelengths, PowerMeterSim.energy_threshold,
      PowerMeterSim.pulse_length, PowerMeterSim.read_average, PowerMeterSim.send_average,
      PowerMeterSim.get_average_flag, PowerMeterSim.send_units_long, PowerMeterSim.send_units,
      PowerMeterSim.user_threshold, PowerMeterSim.query_user_threshold,
      PowerMeterSim.write_range.
  all: try solve [solve_getter].
  all: try apply typed_throw.
  all: try (apply typed_ret; by repeat split).
  all: solve_typed.
  all: try match goal with H : pmsim_members _ |- pmsim_members _ =>
    destruct H; split; simpl; auto 10 using insert_from_keys, map_insert_keys_in, no_keys with typed;
    try by repeat split end.
  - repeat (apply map_insert_keys_in; [by split|]). done.
  - by split.
  - by split.
  - by split.
  - done.
Qed.

(** ** The laser *)
Record lasersim_members (s : lasersim) : Prop := {
  tls_prescale : in_u 32 (sim_prescale s);
  tls_qswitch : in_u 32 (sim_qswitch s);
  tls_shot_count : in_u 32 (sim_shot_count s);
  tls_shutter_state : in_u 32 (sim_shutter_state s);
}.

Definition lasersim_operations (n32 : Z) (x : float) (sh : Shutter) (f : Fire) :
    list (operation lasersim) :=
  [Op any (LaserSim.shutter sh); Op any LaserSim.shutter_open; Op any LaserSim.shutter_close;
   Op any (LaserSim.fire f); Op any LaserSim.fire_start; Op any LaserSim.fire_stop; Op any (LaserSim.set_prescale n32);
   Op any (LaserSim.set_pulse_division n32); Op any (LaserSim.set_pump_voltage x);
   Op any LaserSim.single_shot; Op (in_u 32) LaserSim.get_shot_count; Op any LaserSim.security;
   Op any LaserSim.security_msg; Op (λ r, in_u 16 r.1) LaserSim.security_u16;
   Op (λ r, in_u 32 r.1) LaserSim.security_enum; Op any (LaserSim.set_repetition_rate x);
   Op any (LaserSim.set_qswitch n32)].

Lemma tls_security_msg : typed lasersim_members any LaserSim.security_msg.
Proof. unfold LaserSim.security_msg, LaserSim.security. solve_typed. Qed.
#[local] Hint Resolve tls_security_msg : typed.

Lemma lasersim_operations_typed n32 x sh f : in_u 32 n32 →
  Forall (well_typed lasersim_members) (lasersim_operations n32 x sh f).
Proof.
  intros H32. unfold lasersim_operations, well_typed.
  repeat (apply List.Forall_cons); try apply List.Forall_nil; cbn [op_value op_type op_code];
    unfold LaserSim.shutter_open, LaserSim.shutter_close, LaserSim.fire_start,
      LaserSim.fire_stop, LaserSim.shutter, LaserSim.fire, LaserSim.single_shot, LaserSim.set_pulse_division,
      LaserSim.set_prescale, LaserSim.set_pump_voltage, LaserSim.get_shot_count,
      LaserSim.security, LaserSim.security_u16, LaserSim.security_enum,
      LaserSim.set_repetition_rate, LaserSim.set_qswitch.
  all: solve_typed.
  all: try match goal with H : lasersim_members _ |- _ => destruct H; split; simpl;
    auto with typed; first [by split|by apply clip_in; [split|]] end.
  - intros s []. by split.
  - apply u16_in.
  - apply u32_in.
Qed.

(** The simulators keep their declared types from their constructors on. *)
Lemma simulators_keep_types (acosf : float → float) (wait b : bool) (n16 n32 i s16 : Z)
    (s : bytes) (x : float) (sh : Shutter) (f : Fire) :
  in_u 16 n16 → in_u 32 n32 → in_s 32 i → in_s 16 s16 →
  attsim_members AttenuatorSim.init ∧ pmsim_members PowerMeterSim.construct ∧
  lasersim_members LaserSim.construct ∧
  Forall (well_typed attsim_members) (attsim_operations acosf wait b n16 n32 i s x) ∧
  Forall (well_typed pmsim_members) (pmsim_operations n16 n32 s16) ∧
  Forall (well_typed lasersim_members) (lasersim_operations n32 x sh f).
Proof.
  intros H16 H32 Hi Hs. split_and!.
  - by repeat split.
  - repeat split; try done; apply no_keys.
  - by repeat split.
  - by apply attsim_operations_typed.
  - by apply pmsim_operations_typed.
  - by apply lasersim_operations_typed.
Qed.
