(* ===== verification/Manager.v ===== *)
(** * apps/serial_manager.cpp: the interactive manager of the three instruments

    The program reads a configuration, builds the drivers of the instruments it is
    to operate, and then runs one command per line until it is told to exit, a
    command fails or the input ends.  Its global variables are the state.  Every
    call of [spdlog] is recorded with its level, format string and arguments.

    The JSON library and the contents of the configuration file, the ports found
    in the system and the fresh port object each new driver starts with are
    parameters.  A wait for the motor takes its number of polls from [polls]. *)
From S2P Require Import Prelude CppStd Utilities Serial Device Floats Laser.
From S2P Require Import Attenuator PowerMeter.

(** ** Logging *)
Inductive level := Ltrace | Ldebug | Linfo | Lwarn | Lerror | Lcritical.
Inductive arg :=
  | AInt (n : Z)
  | AStr (s : bytes)
  | ABool (b : bool)
  | AReal (x : double)
  | AWhat (e : exn).
Record entry := mkEntry { e_level : level; e_format : string; e_args : list arg }.

(** ** State *)

(** [iols_dev_t] and the ports, by instrument. *)
Record iols_dev_t := mkDev { serial_nr : bytes; dev_port : bytes; baud_rate : Z }.
Definition port_valid (d : iols_dev_t) : bool := negb (length (dev_port d) =? 0)%nat.

(** A pointer to an object the program owns.  A pointer whose object was deleted
    is not null; the object is kept as it was at the end of its destructor. *)
Inductive ptr (A : Type) := Null | Obj (a : A) | Freed (a : A).
Arguments Null {A}.
Arguments Obj {A} a.
Arguments Freed {A} a.

Definition is_null {A} (p : ptr A) : bool := match p with Null => true | _ => false end.

Record iolaser_t (P : Type) := mkIolaser {
  config_laser : iols_dev_t;
  config_attenuator : iols_dev_t;
  config_power_meter : iols_dev_t;
  p_attenuator : ptr (attenuator P);
  p_laser : ptr (laser P);
  p_power_meter : ptr (powermeter P);
  g_ignore_laser : bool;
  g_ignore_pm : bool;
  g_ignore_attenuator : bool;
  (** what was logged, what was printed, and the number of drivers created *)
  logged : list entry;
  printed : bytes;
  created : nat;
}.
Arguments mkIolaser {P}.
Arguments config_laser {P}.
Arguments config_attenuator {P}.
Arguments config_power_meter {P}.
Arguments p_attenuator {P}.
Arguments p_laser {P}.
Arguments p_power_meter {P}.
Arguments g_ignore_laser {P}.
Arguments g_ignore_pm {P}.
Arguments g_ignore_attenuator {P}.
Arguments logged {P}.
Arguments printed {P}.
Arguments created {P}.

#[export] Instance eta_dev : Eta iols_dev_t := λ d,
  mkDev (serial_nr d) (dev_port d) (baud_rate d).
#[export] Instance eta_iolaser P : Eta (iolaser_t P) := λ s,
  mkIolaser (config_laser s) (config_attenuator s) (config_power_meter s)
    (p_attenuator s) (p_laser s) (p_power_meter s) (g_ignore_laser s) (g_ignore_pm s)
    (g_ignore_attenuator s) (logged s) (printed s) (created s).

Definition laser_p {P} : lens (iolaser_t P) (ptr (laser P)) :=
  Lens p_laser (λ p s, s <| p_laser := p |>).
Definition attenuator_p {P} : lens (iolaser_t P) (ptr (attenuator P)) :=
  Lens p_attenuator (λ p s, s <| p_attenuator := p |>).
Definition power_meter_p {P} : lens (iolaser_t P) (ptr (powermeter P)) :=
  Lens p_power_meter (λ p s, s <| p_power_meter := p |>).
#[export] Instance laser_p_ok P : LensOK (@laser_p P).
Proof. split; by intros; destruct s. Qed.
#[export] Instance attenuator_p_ok P : LensOK (@attenuator_p P).
Proof. split; by intros; destruct s. Qed.
#[export] Instance power_meter_p_ok P : LensOK (@power_meter_p P).
Proof. split; by intros; destruct s. Qed.

(** The globals when [main] starts. *)
Definition globals {P} : iolaser_t P :=
  let d := mkDev [] [] 0 in
  mkIolaser d d d Null Null Null false false false [] [] 0.

(** What [json::parse] makes of a file: the number of entries, and for a name the
    entry if there is one, with its text if it is a string. *)
Inductive json_result :=
  | JsonError
  | Json (size : Z) (entry_of : string → option (option bytes)).

(** [s == "lit"] for a [std::string]. *)
Definition equals (s : bytes) (lit : string) : bool := str_eqb s (str lit).

(** The literal [0.01]. *)
Definition d_0_01 : double := S754_finite false 5764607523034235 (-59).

(** ** The command line

    [getopt(argc, argv, "vi:f:")] until it returns -1, on the arguments after the
    program name: arguments that are no options are passed over, ["--"] ends the
    options, a missing argument or an unknown letter gives ['?']. *)
Inductive opt := Opt_v | Opt_i (optarg : bytes) | Opt_f (optarg : bytes) | Opt_unknown.

Fixpoint getopt (argv : list bytes) : list opt :=
  match argv with
  | [] => []
  | a :: rest =>
    let fix letters (cs : bytes) : list opt :=
      let with_arg (c : bytes → opt) (cs : bytes) : list opt :=
        match cs, rest with
        | [], [] => [Opt_unknown]
        | [], x :: rest' => c x :: getopt rest'
        | _, _ => c cs :: getopt rest
        end in
      match cs with
      | [] => getopt rest
      | c :: cs =>
        if Ascii.eqb c "v" then Opt_v :: letters cs
        else if Ascii.eqb c "i" then with_arg Opt_i cs
        else if Ascii.eqb c "f" then with_arg Opt_f cs
        else Opt_unknown :: letters cs
      end in
    match a with
    | c :: c' :: cs =>
      if Ascii.eqb c "-" then
        if equals a "--" then [] else letters (c' :: cs)
      else getopt rest
    | _ => getopt rest
    end
  end.

(** ** Splitting a line

    [strtok] on the rest of the string: the token and what remains after the
    delimiter that ends it. *)
Fixpoint strtok_skip (delim : ascii) (s : bytes) : bytes :=
  match s with
  | c :: s' => if Ascii.eqb c delim then strtok_skip delim s' else s
  | [] => []
  end.
Fixpoint strtok_span (delim : ascii) (s : bytes) : bytes * bytes :=
  match s with
  | c :: s' =>
    if Ascii.eqb c delim then ([], s')
    else let '(t, r) := strtok_span delim s' in (c :: t, r)
  | [] => ([], [])
  end.
Definition strtok (delim : ascii) (s : bytes) : option bytes * bytes :=
  match strtok_skip delim s with
  | [] => (None, [])
  | s' => let '(t, r) := strtok_span delim s' in (Some t, r)
  end.

(** The loop over [strchr] that counts the delimiters. *)
Fixpoint count_delim (delim : ascii) (s : bytes) : nat :=
  match s with
  | c :: s' => (if Ascii.eqb c delim then 1 else 0) + count_delim delim s'
  | [] => 0
  end.

(** The loop that fills [cmd] from index 1: [n] entries are left, [last] is
    [cmd[i-1]]. *)
Fixpoint fill_cmd (n : nat) (last : option bytes) (save : bytes) : list (option bytes) :=
  match n, last with
  | S n', Some _ =>
    let '(t, save') := strtok SP save in t :: fill_cmd n' t save'
  | _, _ => []
  end.

(** The array [cmd] of [count] entries, as far as it is filled, and the arguments
    passed on: a null pointer at the end is not counted. *)
Definition split_count (buf : bytes) : nat := 1 + count_delim SP buf.
Definition split_cmd (buf : bytes) : list (option bytes) :=
  let '(t, save) := strtok SP buf in t :: fill_cmd (split_count buf - 1) t save.
Definition split_argc (cmd : list (option bytes)) : nat :=
  match cmd !! (length cmd - 1)%nat with
  | Some None => length cmd - 1
  | _ => length cmd
  end.
Definition split_line (buf : bytes) : list bytes :=
  let cmd := split_cmd buf in omap id (take (split_argc cmd) cmd).

Module Manager.
Section manager.
Context {P : Type} {HI : SerialImpl P}.
Context (polls : nat) (new_serial : nat → P) (ports : list PortInfo)
  (read_config : bytes → option json_result).
Implicit Types s : iolaser_t P.
Notation MM := (M (iolaser_t P)).

(** ** Logging and pointers *)
Definition log (l : level) (fmt : string) (args : list arg) : MM unit :=
  modify (λ s, s <| logged := logged s ++ [mkEntry l fmt args] |>).
Definition trace := log Ltrace.
Definition debug := log Ldebug.
Definition info := log Linfo.
Definition warn := log Lwarn.
Definition error := log Lerror.
Definition critical := log Lcritical.

(** [for (auto item : m) log(fmt, item.first, item.second)]. *)
Fixpoint log_items (l : level) (fmt : string) (m : list (Z * bytes)) : MM unit :=
  match m with
  | [] => ret tt
  | (k, v) :: m' => log l fmt [AInt k; AStr v] ;; log_items l fmt m'
  end.

Definition print (t : bytes) : MM unit := modify (λ s, s <| printed := printed s ++ t |>).

(** [p->m()]. *)
Definition call {A B} (p : lens (iolaser_t P) (ptr A)) (m : M A B) : MM B := λ s,
  match view p s with
  | Obj x => let '(o, x') := m x in (o, put p (Obj x') s)
  | _ => (Undef, s)
  end.

(** [p = new T(...)]: when the constructor throws, [p] keeps its value. *)
Definition new_device {A} (p : lens (iolaser_t P) (ptr A)) (init : P → A)
    (construct : M A unit) : MM unit :=
  n <- gets created ;;
  modify (λ s, s <| created := S n |>) ;;
  λ s, match construct (init (new_serial n)) with
       | (Ret _, x) => (Ret tt, put p (Obj x) s)
       | (Throw e, _) => (Throw e, s)
       | (Undef, _) => (Undef, s)
       | (Spin, _) => (Spin, s)
       end.

(** [delete p]. *)
Definition delete_device {A} (p : lens (iolaser_t P) (ptr A)) (destroy : M A unit) :
    MM unit := λ s,
  match view p s with
  | Null => (Ret tt, s)
  | Obj x => let '(o, x') := destroy x in (o, put p (Freed x') s)
  | Freed _ => (Undef, s)
  end.

(** The handlers that follow every [try] block of the program. *)
Definition report (e : exn) : MM unit :=
  match e with
  | PortNotOpenedException _ => critical "Port not open exception : {0}" [AWhat e]
  | SerialException _ => critical "Serial exception : {0}" [AWhat e]
  | IOException _ | IOErrno _ => critical "Caught serial IO exception : {0}" [AWhat e]
  | _ => critical "STL exception : {0}" [AWhat e]
  end.
Definition try_ (body : MM Z) : MM Z := catch body (λ e, report e ;; ret 1).

(** ** Building the drivers *)
Definition map_laser : MM Z :=
  info "Initializing the laser" [] ;;
  p <- gets p_laser ;;
  if negb (is_null p) then
    error "Already have an instance of the laser. Not building a new one and risking failure." [] ;;
    ret 0
  else
    modify (λ s, s <| config_laser :=
      config_laser s <| dev_port := find_port ports (serial_nr (config_laser s)) |> |>) ;;
    c <- gets config_laser ;;
    if negb (port_valid c) then
      error "Failed to find Laser. Expected to see a device with serial number {0}"
        [AStr (serial_nr c)] ;;
      print (enumerate_ports ports) ;;
      ret 1
    else
      trace "Found port {0}" [AStr (dev_port c)] ;;
      try_ (
        trace "Creating device instance" [] ;;
        new_device laser_p (Laser.init (dev_port c) (baud_rate c)) Laser.construct ;;
        trace "Instance created" [] ;;
        debug "Setting response timeout to 100 ms. laser is slow!!!" [] ;;
        call laser_p (Laser.on_device (Device.set_timeout_ms 100)) ;;
        info "Checking interlocks..." [] ;;
        ' (code, desc) <- call laser_p Laser.security_msg ;;
        info "Laser responded [{0} : {1}]" [AStr code; AStr desc] ;;
        trace "Getting current shot count..." [] ;;
        count <- call laser_p Laser.get_shot_count ;;
        info "Laser shot count [{0}]" [AInt count] ;;
        info "Laser initialized. Ready for operation" [] ;;
        ret 0).

(** A member read through the pointer. *)
Definition att {A} (f : attenuator P → A) : MM A := call attenuator_p (gets f).
Definition pm {A} (f : powermeter P → A) : MM A := call power_meter_p (gets f).

Definition query_attenuator_settings : MM Z :=
  ig <- gets g_ignore_attenuator ;;
  if ig then
    error "Attenuator is being ignored.No operations possible" [] ;; ret 1
  else
    p <- gets p_attenuator ;;
    if is_null p then error "There is no open instance of the attenuator" [] ;; ret 1
    else try_ (
      debug "Refreshing status" [] ;;
      call attenuator_p Attenuator.refresh_status ;;
      debug "Querying serial number..." [] ;;
      sn <- call attenuator_p (Attenuator.get_serial_number []) ;;
      debug "Response [{0}]" [AStr sn] ;;
      debug "Querying status in human form..." [] ;;
      st <- call attenuator_p Attenuator.get_status_raw ;;
      debug "Response [{0}]" [AStr st] ;;
      debug "Querying individual settings (to see they were properly parsed):" [] ;;
      ' (pos, status) <- call attenuator_p (Attenuator.get_position polls Attenuator.local false) ;;
      debug "Position     : {0}" [AInt pos] ;;
      debug "Status       : {0}" [AInt status] ;;
      offset <- att m_offset ;;
      debug "Offset       : {0}" [AInt offset] ;;
      speed <- att m_max_speed ;;
      debug "Max speed    : {0}" [AInt speed] ;;
      mode <- att m_op_mode ;;
      debug "Op mode      : {0}" [AInt (i32 mode)] ;;
      acc <- att m_acceleration ;;
      debug "Acceleration : {0}" [AInt acc] ;;
      dec <- att m_deceleration ;;
      debug "Deceleration : {0}" [AInt dec] ;;
      res <- att Attenuator.get_resolution ;;
      debug "Resolution   : {0}" [AInt res] ;;
      cur_idle <- att m_current_idle ;;
      debug "Idle current : {0}" [AInt cur_idle] ;;
      cur_mov <- att m_current_move ;;
      debug "Move current : {0}" [AInt cur_mov] ;;
      ret 0).

Definition map_attenuator : MM Z :=
  ig <- gets g_ignore_attenuator ;;
  if ig then
    error "Attenuator is being ignored.No operations possible" [] ;; ret 1
  else
    p <- gets p_attenuator ;;
    if negb (is_null p) then
      error "Already have an instance of the attenuator. Not building a new one and risking failure." [] ;;
      ret 0
    else
      info "Initializing the attenuator" [] ;;
      modify (λ s, s <| config_attenuator :=
        config_attenuator s <| dev_port := find_port ports (serial_nr (config_attenuator s)) |> |>) ;;
      c <- gets config_attenuator ;;
      if negb (port_valid c) then
        error "Failed to find Attenuator. Expected to see a device with serial number {0}"
          [AStr (serial_nr c)] ;;
        print (enumerate_ports ports) ;;
        ret 1
      else
        trace "Found port {0}" [AStr (dev_port c)] ;;
        try_ (
          trace "Creating device instance" [] ;;
          new_device attenuator_p (Attenuator.init (dev_port c) (baud_rate c))
            Attenuator.construct ;;
          trace "Instance created" [] ;;
          r <- query_attenuator_settings ;;
          if negb (r =? 0) then error "Failed to query attenuator" [] ;; ret 1
          else
            info "Attenuator initialization done. Can't test anything else without actually changing settings.\n\n\n\n" [] ;;
            ret r).

Definition query_power_meter_settings : MM Z :=
  ig <- gets g_ignore_pm ;;
  if ig then
    error "Power meter is being ignored.No operations possible" [] ;; ret 1
  else
    p <- gets p_power_meter ;;
    if is_null p then error "There is no open instance of the attenuator" [] ;; ret 1
    else try_ (
      debug "Querying head information" [] ;;
      ' (tp, sn, name, pw, en, fq) <- call power_meter_p PowerMeter.head_info ;;
      debug "HEAD INFO :\nType           : {0}\nSerial number  : {1}\nName           : {2}\nPower capable  : {3}\nEnergy capable  : {4}\nFrequency capable  : {5}\n"
        [AStr tp; AStr sn; ABool pw; ABool en; ABool fq] ;;
      debug "Querying the instrument:" [] ;;
      ' (tp, sn, name) <- call power_meter_p PowerMeter.inst_info ;;
      debug "INSTRUMENT INFO :\nID             : {0}\nSerial number  : {1}\nName           : {2}\n"
        [AStr tp; AStr sn; AStr name] ;;
      debug "Querying range:" [] ;;
      cur <- call power_meter_p PowerMeter.get_all_ranges ;;
      rmap <- pm m_ranges ;;
      debug "Current range [{0}]" [AInt cur] ;;
      debug "RANGES :" [] ;;
      log_items Ldebug "{0} : {1}" rmap ;;
      debug "Checking user threshold" [] ;;
      ' (current, min, max) <- call power_meter_p PowerMeter.query_user_threshold ;;
      debug "Response : {0} : [{1} , {2}]" [AInt current; AInt min; AInt max] ;;
      debug "Checking pulse options" [] ;;
      current <- call power_meter_p (PowerMeter.pulse_length 0) ;;
      umap <- pm m_pulse_lengths ;;
      debug "Current pulse width [{0}]" [AInt current] ;;
      debug "OPTIONS :" [] ;;
      log_items Ldebug "{0} : [{1}]" umap ;;
      debug "Querying wavelength capabilities (method 1)" [] ;;
      name <- call power_meter_p (PowerMeter.get_all_wavelengths name) ;;
      debug "Raw answer [{0}]" [AStr name] ;;
      debug "Querying averaging settings" [] ;;
      current <- call power_meter_p (PowerMeter.average_query 0) ;;
      umap <- pm m_ave_windows ;;
      debug "Current average setting [{0}]" [AInt current] ;;
      debug "OPTIONS :" [] ;;
      log_items Ldebug "{0} : [{1}]" umap ;;
      debug "Querying for max frequency" [] ;;
      u32 <- call power_meter_p PowerMeter.max_freq ;;
      debug "Answer : {0}" [AInt u32] ;;
      debug "Base assessments done. Can't test anything else without actually changing settings.\n\n\n\n" [] ;;
      ret 0).

Definition map_power_meter : MM Z :=
  ig <- gets g_ignore_pm ;;
  if ig then
    error "Power Meter is being ignored.No operations possible" [] ;; ret 1
  else
    p <- gets p_power_meter ;;
    if negb (is_null p) then
      warn "There is already an open instance of the power meter" [] ;; ret 0
    else
      modify (λ s, s <| config_power_meter :=
        config_power_meter s <| dev_port := find_port ports (serial_nr (config_power_meter s)) |> |>) ;;
      c <- gets config_power_meter ;;
      if negb (port_valid c) then
        error "Failed to find PowerMeter. Expected to see a device with serial number {0}"
          [AStr (serial_nr c)] ;;
        print (enumerate_ports ports) ;;
        ret 1
      else
        trace "Found port {0}" [AStr (dev_port c)] ;;
        try_ (
          trace "Creating device instance" [] ;;
          new_device power_meter_p (PowerMeter.init (dev_port c) (baud_rate c))
            PowerMeter.construct ;;
          trace "Instance created" [] ;;
          r <- query_power_meter_settings ;;
          if negb (r =? 0) then error "Failed inital check on power meter" [] ;; ret 1
          else info "Power meter initialization done." [] ;; ret r).

(** [map_devices], one definition per instrument; each continues with the value
    of [ret] so far unless the pointer is null. *)
Definition map_devices_pm (r : Z) : MM Z :=
  ig <- gets g_ignore_pm ;;
  if ig then
    warn "Attenuator is being ignored.No operations possible" [] ;; ret r
  else
    debug "Mapping the power meter" [] ;;
    r <- map_power_meter ;;
    (when negb (r =? 0) do critical "Failed a query to the power meter" []) ;;
    p <- gets p_power_meter ;;
    if is_null p then error "There is no open instance of the power meter" [] ;; ret 1
    else ret r.

Definition map_devices_laser (r : Z) : MM Z :=
  ig <- gets g_ignore_laser ;;
  if ig then
    warn "Laser is being ignored. Skipping mapping" [] ;; map_devices_pm r
  else
    debug "Mapping the laser" [] ;;
    r <- map_laser ;;
    (when negb (r =? 0) do critical "Failed to initalize the laser" []) ;;
    p <- gets p_laser ;;
    if is_null p then error "There is no open instance of the laser" [] ;; ret 1
    else map_devices_pm r.

Definition map_devices : MM Z :=
  ig <- gets g_ignore_attenuator ;;
  if ig then
    warn "Attenuator is being ignored. Skipping mapping" [] ;; map_devices_laser 0
  else
    debug "Mapping the attenuator" [] ;;
    r <- map_attenuator ;;
    (when negb (r =? 0) do critical "Failed to initialize the attenuator" []) ;;
    p <- gets p_attenuator ;;
    if is_null p then error "There is no open instance of the attenuator" [] ;; ret 1
    else map_devices_laser r.

Definition unmap_devices : MM Z :=
  info "Destroying the device instances" [] ;;
  trace "Destroying the power meter" [] ;;
  p <- gets p_power_meter ;;
  (when negb (is_null p) do (
     delete_device power_meter_p (PowerMeter.on_device Device.destroy) ;;
     trace "power meter instance destroyed" [])) ;;
  trace "Destroying the attenuator" [] ;;
  p <- gets p_attenuator ;;
  (when negb (is_null p) do (
     delete_device attenuator_p Attenuator.destroy ;;
     trace "attenuator instance destroyed" [])) ;;
  trace "Destroying the laser" [] ;;
  p <- gets p_laser ;;
  (when negb (is_null p) do (
     call laser_p Laser.fire_stop ;;
     call laser_p Laser.shutter_close ;;
     delete_device laser_p (Laser.on_device Device.destroy) ;;
     trace "laser instance destroyed" [])) ;;
  ret 0.

(** ** Help *)
Fixpoint info_lines (ls : list string) : MM unit :=
  match ls with
  | [] => ret tt
  | l :: ls' => info l [] ;; info_lines ls'
  end.

Definition help_laser : list string :=
  ["  laser subcmd [args]";
   "    Available subcomands:";
   "      single_shot";
   "        Fires a single shot";
   "      shot_count";
   "        Gets the shot count";
   "      security";
   "        Gets the security code and description";
   "      fire_start";
   "        Starts firing using the internal clock";
   "      fire_stop";
   "        Stops firing with the internal clock";
   "      prescale <value>";
   "        Sets the prescale";
   "      division <value>";
   "        Sets the pulse division";
   "      hv <value>";
   "        Sets the HV value (in kV as a float)";
   "      qswitch <value>";
   "        Sets qswitch value (in us)"]%string.

Definition help_attenuator : list string :=
  ["  attenuator [subcmd [args]]";
   "    Without arguments queries config";
   "    Available subcomands:";
   "      set_zero";
   "        Set current position to zero";
   "      stop";
   "        Stops motor movement";
   "      go_home";
   "        Go to zero position";
   "      get_position";
   "        Gets current position";
   "      reset";
   "        Reset the controller";
   "      get_settings";
   "        Gets (and prints) the current settings";
   "      move <value>";
   "        Relative move by number of steps (positive or negative)";
   "      move_to <value>";
   "        Move to position";
   "      set_resolution <value>";
   "        Set resolution";
   "      set_idle_current <value>";
   "        Set idle current";
   "      set_move_current <value>";
   "        Set moving current";
   "      set_acceleration <value>";
   "        Set acceleration";
   "      set_deceleration <value>";
   "        Set deceleration";
   "      set_max_speed <value>";
   "        Set max speed"]%string.

Definition help_power_meter : list string :=
  ["  power_meter [subcmd [args]]";
   "    Without arguments queries config";
   "    Available subcomands:";
   "      get <setting>";
   "        Gets a setting from the configuration";
   "        Possible options:";
   "          wavelength, range, e_threshold, pulse_width, average_flag";
   "          energy, average, frequency, unit, max";
   "      set <setting> <value>";
   "        Sets a setting from the configuration";
   "        Possible options:";
   "          wavelength, range, average, measurement_mode, pulse_width";
   "          threshold, unit";
   "      get_energy";
   "        Gets the current energy measurement";
   "      get_average";
   "        Gets the current average measurement"]%string.

Definition print_help : MM unit :=
  info "Available commands (note, commands without arguments print current settings):" [] ;;
  ig <- gets g_ignore_laser ;;
  (when negb ig do info_lines help_laser) ;;
  ig <- gets g_ignore_attenuator ;;
  (when negb ig do info_lines help_attenuator) ;;
  ig <- gets g_ignore_pm ;;
  (when negb ig do info_lines help_power_meter) ;;
  info_lines ["  help"; "    Print this help"; "  exit";
              "    Closes the command interface"; EmptyString]%string.

(** ** Commands

    [run_command] by its branches.  [strtol(s, NULL, 0)] is brought to the type
    of the variable it initialises. *)
Definition num_arg (s : bytes) : Z := strtol 0 s.

Definition unknown_command (a : bytes) : MM unit :=
  error "Unknown command {0}" [AStr a] ;; print_help.

Definition laser_2 (a : bytes) : MM unit :=
  if equals a "single_shot" then
    warn "Firing a single shot" [] ;; call laser_p Laser.single_shot
  else if equals a "shot_count" then
    count <- call laser_p Laser.get_shot_count ;; info "COUNT : {0}" [AInt count]
  else if equals a "security" then
    ' (code, msg) <- call laser_p Laser.security_msg ;;
    info "SECURITY : {0} :{1}" [AStr code; AStr msg]
  else if equals a "fire_start" then
    call laser_p Laser.fire_start ;; warn "Laser started firing" []
  else if equals a "fire_stop" then
    call laser_p Laser.fire_stop ;; warn "Laser stopped firing" []
  else if equals a "shutter_open" then
    call laser_p Laser.shutter_open ;; warn "Shutter is open" []
  else if equals a "shutter_close" then
    call laser_p Laser.shutter_close ;; warn "Shutter is closed" []
  else unknown_command a.

Definition laser_3 (a v : bytes) : MM unit :=
  if equals a "prescale" then
    let ps := u32 (num_arg v) in
    debug "Setting prescale to {0}" [AInt ps] ;; call laser_p (Laser.set_prescale ps)
  else if equals a "division" then
    let div := u32 (num_arg v) in
    debug "Setting pulse division to {0}" [AInt div] ;;
    call laser_p (Laser.set_pulse_division div)
  else if equals a "hv" then
    hv <- lift (stof v) ;;
    debug "Setting pump HV to {0}" [AReal hv] ;; call laser_p (Laser.set_pump_voltage hv)
  else if equals a "qswitch" then
    let qs := u32 (num_arg v) in
    warn "Setting qswitch to {0} us" [AInt qs] ;; call laser_p (Laser.set_qswitch qs)
  else unknown_command a.

Definition run_laser (argv : list bytes) : MM Z :=
  ig <- gets g_ignore_laser ;;
  if ig then error "Laser is being ignored.No operations possible" [] ;; ret 0
  else
    p <- gets p_laser ;;
    if is_null p then error "There is no open instance of the laser" [] ;; ret 0
    else
      match argv with
      | [_; a] => laser_2 a
      | [_; a; v] => laser_3 a v
      | _ => error "Unknown laser command" [] ;; print_help
      end ;;
      ret 0.

(** [attenuator get_settings]. *)
Definition attenuator_settings : MM unit :=
  info "Querying settings" [] ;;
  call attenuator_p Attenuator.refresh_status ;;
  sn <- call attenuator_p (Attenuator.get_serial_number []) ;;
  offset <- att m_offset ;;
  max_speed <- att m_max_speed ;;
  mode <- att m_op_mode ;;
  state <- att m_motor_state ;;
  acceleration <- att m_acceleration ;;
  deceleration <- att m_deceleration ;;
  resolution <- att Attenuator.get_resolution ;;
  current_idle <- att m_current_idle ;;
  current_move <- att m_current_move ;;
  info "CURRENT SETTINGS :\nS/N          : {0}\nOFFSET       : {1}\nMAX SPEED    : {2}\nOP MODE      : {3}\nMOTOR STATE  : {4}\nACCELERATION : {5}\nDELECERATION : {6}\nRESOLUTION   : {7}\nCURRENT IDLE : {8}\nCURRENT MOVE : {9}\n"
    [AStr sn; AInt offset; AInt max_speed; AInt (i32 mode); AInt (i32 state);
     AInt acceleration; AInt deceleration; AInt resolution; AInt current_idle;
     AInt current_move].

Definition attenuator_2 (a : bytes) : MM unit :=
  if equals a "set_zero" then
    info "Setting zero to current position" [] ;; call attenuator_p Attenuator.set_zero
  else if equals a "stop" then
    warn "stopping movement" [] ;; call attenuator_p (Attenuator.stop false)
  else if equals a "go_home" then
    info "Going home" [] ;; call attenuator_p Attenuator.go_home
  else if equals a "get_position" then
    info "Getting position" [] ;;
    ' (position, status) <-
      call attenuator_p (Attenuator.get_position polls Attenuator.local false) ;;
    info "POS : {0} (status :{1}" [AInt position; AInt status]
  else if equals a "reset" then
    info "Resetting controller" [] ;; call attenuator_p Attenuator.reset_controller
  else if equals a "get_settings" then attenuator_settings
  else unknown_command a.

(** The final position of a motion; an unassigned variable must not be read. *)
Definition log_final (pos : option Z) : MM unit :=
  match pos with
  | Some final_pos => info "Current position : {0}" [AInt final_pos]
  | None => undef
  end.

Definition attenuator_3 (a v : bytes) : MM unit :=
  if equals a "move" then
    let steps := i32 (num_arg v) in
    debug "Moving by {0} steps" [AInt steps] ;;
    pos <- call attenuator_p (Attenuator.move polls steps true) ;; log_final pos
  else if equals a "move_to" then
    let set_pos := i32 (num_arg v) in
    debug "Moving to position {0}" [AInt set_pos] ;;
    pos <- call attenuator_p (Attenuator.go polls set_pos true) ;; log_final pos
  else if equals a "set_resolution" then
    let resolution := u16 (num_arg v) in
    debug "Setting resolution to {0}" [AInt resolution] ;;
    call attenuator_p (Attenuator.set_resolution resolution)
  else if equals a "set_idle_current" then
    let ic := u16 (num_arg v) in
    debug "Setting idle current to {0}" [AInt ic] ;;
    call attenuator_p (Attenuator.set_idle_current ic)
  else if equals a "set_move_current" then
    let mc := u16 (num_arg v) in
    debug "Setting move current to {0}" [AInt mc] ;;
    call attenuator_p (Attenuator.set_moving_current mc)
  else if equals a "set_acceleration" then
    let acc := u16 (num_arg v) in
    debug "Setting acceleration to {0}" [AInt acc] ;;
    call attenuator_p (Attenuator.set_acceleration acc)
  else if equals a "set_deceleration" then
    let dec := u16 (num_arg v) in
    debug "Setting deceleration to {0}" [AInt dec] ;;
    call attenuator_p (Attenuator.set_deceleration dec)
  else if equals a "set_max_speed" then
    let ms := u32 (num_arg v) in
    debug "Setting max speed to {0}" [AInt ms] ;;
    call attenuator_p (Attenuator.set_max_speed ms)
  else unknown_command a.

(** After the query of a command without arguments the tests on [argc] go on and
    end in their last branch. *)
Definition run_attenuator (argv : list bytes) : MM Z :=
  ig <- gets g_ignore_attenuator ;;
  if ig then error "Attenuator is being ignored.No operations possible" [] ;; ret 0
  else
    p <- gets p_attenuator ;;
    if is_null p then error "There is no open instance of the attenuator" [] ;; ret 0
    else
      let other := error "Unknown attenuator command" [] ;; print_help ;; ret 0 in
      match argv with
      | [_] =>
        res <- query_attenuator_settings ;;
        if negb (res =? 0) then error "Failed to query settings" [] ;; ret 1 else other
      | [_; a] => attenuator_2 a ;; ret 0
      | [_; a; v] => attenuator_3 a v ;; ret 0
      | _ => other
      end.

(** A measurement, if there is a new one. *)
Definition log_measurement (fmt : string) (r : option double) : MM unit :=
  match r with
  | None => info "No new measurement available" []
  | Some x => info fmt [AReal x]
  end.

Definition pm_get (setting : bytes) : MM unit :=
  if equals setting "wavelength" then
    current <- pm PowerMeter.get_wavelength ;; info "WAVELENGTH : {0}" [AInt current]
  else if equals setting "range" then
    current <- call power_meter_p PowerMeter.get_all_ranges ;;
    info "RANGE : {0}" [AInt current] ;;
    rmap <- pm m_ranges ;;
    info "Valid entries: " [] ;;
    log_items Linfo "{0} : [{1}]" rmap
  else if equals setting "pulse_width" then
    trace "Checking pulse width options" [] ;;
    current <- call power_meter_p (PowerMeter.pulse_length 0) ;;
    umap <- pm m_pulse_lengths ;;
    info "PULSE WIDTH : [{0}]" [AInt current] ;;
    info "OPTIONS :" [] ;;
    log_items Linfo "{0} : [{1}]" umap
  else if equals setting "e_threshold" then
    ' (current, min, max) <- call power_meter_p PowerMeter.query_user_threshold ;;
    info "E THRESHOLD : current {0} limits [{1}; {2}]" [AInt current; AInt min; AInt max]
  else if equals setting "average_flag" then
    current <- call power_meter_p PowerMeter.get_average_flag ;;
    info "AVE FLAG : {0}" [ABool current]
  else if equals setting "energy" then
    r <- call power_meter_p PowerMeter.read_energy ;; log_measurement "Energy : {0}" r
  else if equals setting "average" then
    r <- call power_meter_p PowerMeter.read_average ;; log_measurement "Average : {0}" r
  else if equals setting "frequency" then
    frequency <- call power_meter_p PowerMeter.send_frequency ;;
    info "Frequency : {0} Hz" [AReal frequency]
  else if equals setting "unit" then
    unit_ <- call power_meter_p PowerMeter.send_units_long ;; info "Unit : {0}" [AStr unit_]
  else if equals setting "max" then
    max <- call power_meter_p PowerMeter.send_max ;;
    info "Max reading in current range : {0}" [AReal max]
  else error "Unknown command" [].

Definition pm_set_wavelength (v : bytes) : MM unit :=
  let val := u16 (num_arg v) in
  success <- call power_meter_p (PowerMeter.wavelength val) ;;
  if success : bool then info "Wavelength set to  : {0}" [AInt val]
  else
    current <- pm PowerMeter.get_wavelength ;;
    error "Failed to set wavelength. Current setting {0}" [AInt current] ;;
    answer <- call power_meter_p (PowerMeter.get_all_wavelengths []) ;;
    error "Valid options: {0}" [AStr answer].

Definition pm_set_range (v : bytes) : MM unit :=
  let val := i16 (num_arg v) in
  success <- call power_meter_p (PowerMeter.set_range val) ;;
  if success : bool then info "Range set to  : {0}" [AInt val]
  else
    current <- call power_meter_p PowerMeter.get_all_ranges ;;
    error "Failed to set range. Current setting {0}" [AInt current] ;;
    info "Valid range values:" [] ;;
    ranges <- pm m_ranges ;;
    log_items Linfo "{0} : {1}" ranges.

(** [threshold]: [current] is read also when [user_threshold] left it unassigned. *)
Definition pm_set_threshold (v : bytes) : MM unit :=
  let percent n := dmul (double_of_Z n) d_0_01 in
  let val := u16 (num_arg v) in
  trace "Setting threshold to {0} ({1}%)" [AInt val; AReal (percent val)] ;;
  r <- call power_meter_p (PowerMeter.user_threshold val) ;;
  match r with
  | None => undef
  | Some current =>
    if val =? current then
      info "User threshold set to {0} ({1}%)" [AInt val; AReal (percent val)]
    else
      error "Failed to set threshold. Current value {0} ({1}%)"
        [AInt current; AReal (percent current)]
  end.

(** [pulse_width] reads [val], which nothing has assigned. *)
Definition pm_set (setting v : bytes) : MM unit :=
  if equals setting "wavelength" then pm_set_wavelength v
  else if equals setting "range" then pm_set_range v
  else if equals setting "average" then
    let val := u16 (num_arg v) in
    current <- call power_meter_p (PowerMeter.average_query val) ;;
    if val =? current then info "Average query value set to {0}" [AInt val]
    else error "Failed to set average query value to {0}. Current value : {1}"
           [AInt val; AInt current]
  else if equals setting "measurement_mode" then
    let val := u16 (num_arg v) in
    trace "Setting measurement mode to {0}" [AInt val] ;;
    current <- call power_meter_p (PowerMeter.measurement_mode val) ;;
    if val =? current then info "Measurement mode set to : {0}" [AInt val]
    else error "Failed to set measurement mode. CUrrent setting {0}" [AInt current]
  else if equals setting "pulse_width" then undef
  else if equals setting "threshold" then pm_set_threshold v
  else error "Unknown setting" [].

Definition pm_2 (subcommand : bytes) : MM unit :=
  if equals subcommand "get_energy" then
    r <- call power_meter_p PowerMeter.read_energy ;; log_measurement "Energy : {0}" r
  else if equals subcommand "get_average" then
    r <- call power_meter_p PowerMeter.read_average ;; log_measurement "Average : {0}" r
  else info "Unknown subcommand {0}" [AStr subcommand].

Definition run_power_meter (argv : list bytes) : MM Z :=
  ig <- gets g_ignore_pm ;;
  if ig then error "Power meter is being ignored.No operations possible" [] ;; ret 0
  else
    p <- gets p_power_meter ;;
    if is_null p then error "There is no open instance of the power meter" [] ;; ret 0
    else
      match argv with
      | [_] =>
        res <- query_power_meter_settings ;;
        if negb (res =? 0) then error "Failed to query settings" [] ;; ret 1
        else error "Wrong number of arguments" [] ;; ret 0
      | [_; subcmd; setting] =>
        (if equals subcmd "get" then
           trace "We're querying something" [] ;; pm_get setting
         else error "Wrong number of arguments" []) ;;
        ret 0
      | [_; subcmd; setting; v] =>
        (if equals subcmd "set" then
           trace "We're setting something" [] ;; pm_set setting v
         else error "Unknown subcommand" []) ;;
        ret 0
      | [_; subcommand] => pm_2 subcommand ;; ret 0
      | _ => error "Wrong number of arguments" [] ;; ret 0
      end.

Definition run_command (argv : list bytes) : MM Z :=
  match argv with
  | [] => ret 1
  | cmd :: _ => try_ (
      if equals cmd "exit" then ret 255
      else if equals cmd "help" then print_help ;; ret 0
      else if equals cmd "laser" then run_laser argv
      else if equals cmd "attenuator" then run_attenuator argv
      else if equals cmd "power_meter" then run_power_meter argv
      else error "Unknown command" [] ;; ret 0)
  end.

(** ** [main]

    The loop over the options, with the report level, which nothing reads, and the
    name of the configuration file; a left result is returned from [main]. *)
Fixpoint parse_options (opts : list opt) (report_level : Z) (config_file : bytes) :
    MM (Z + bytes) :=
  match opts with
  | [] => ret (inr config_file)
  | Opt_v :: rest =>
    parse_options rest (if 0 <? report_level then report_level - 1 else report_level)
      config_file
  | Opt_i optarg :: rest =>
    if equals optarg "laser" then
      warn "Not operating the laser" [] ;;
      modify (λ s, s <| g_ignore_laser := true |>) ;;
      parse_options rest report_level config_file
    else if equals optarg "attenuator" then
      warn "Not operating the attenuator" [] ;;
      modify (λ s, s <| g_ignore_attenuator := true |>) ;;
      parse_options rest report_level config_file
    else if equals optarg "power_meter" then
      warn "Not operating the power meter" [] ;;
      modify (λ s, s <| g_ignore_pm := true |>) ;;
      parse_options rest report_level config_file
    else error "Unknown argument {0}" [AStr optarg] ;; ret (inl 0)
  | Opt_f optarg :: rest =>
    warn "Overriding serial number configuration file to {0}" [AStr optarg] ;;
    parse_options rest report_level optarg
  | Opt_unknown :: _ =>
    warn "Usage: serial_manager [-v] [-i <device>] [-f <config_file>] \n(repeated -v flags further increase verbosity)\n device can be one of laser, attenuator, power_meter (repeated instances of the flag are accepted)" [] ;;
    ret (inl 1)
  end.

(** The three blocks that take a serial number from the configuration; the entry
    of an ignored instrument is not looked at. *)
Definition load_entry (v : option (option bytes)) (ignored : iolaser_t P → bool)
    (assign : bytes → iolaser_t P → iolaser_t P) (ignore : iolaser_t P → iolaser_t P)
    (found missing : string) : MM unit :=
  match v with
  | Some v =>
    ig <- gets ignored ;;
    when negb ig do
      match v with
      | Some sn => modify (assign sn) ;; debug found [AStr sn]
      | None => throw (runtime_error "type_error")
      end
  | None => warn missing [] ;; modify ignore
  end.

Definition load_entries (conf : string → option (option bytes)) : MM unit :=
  load_entry (conf "attenuator"%string) g_ignore_attenuator
    (λ sn s, s <| config_attenuator :=
       config_attenuator s <| serial_nr := sn |> <| baud_rate := 38400 |> |>)
    (λ s, s <| g_ignore_attenuator := true |>)
    "Attenuator S/N set to [{0}]" "Can't find attenuator S/N setting. Ignoring it." ;;
  load_entry (conf "laser"%string) g_ignore_laser
    (λ sn s, s <| config_laser :=
       config_laser s <| serial_nr := sn |> <| baud_rate := 9600 |> |>)
    (λ s, s <| g_ignore_laser := true |>)
    "Laser S/N set to [{0}]" "Can't find laser S/N setting. Ignoring it." ;;
  load_entry (conf "power_meter"%string) g_ignore_pm
    (λ sn s, s <| config_power_meter :=
       config_power_meter s <| serial_nr := sn |> <| baud_rate := 9600 |> |>)
    (λ s, s <| g_ignore_pm := true |>)
    "Power meter S/N set to [{0}]" "Can't find laser S/N setting. Ignoring it.".

(** The block that reads the configuration; [false] when [main] returns 0. *)
Definition load_config (config_file : bytes) : MM bool :=
  catch (
    match read_config config_file with
    | None => critical "Failed to load configuration file. Aborting." [] ;; ret false
    | Some JsonError => throw (runtime_error "parse_error")
    | Some (Json size conf) =>
      debug "Loaded config has {0} entries (expected 3)" [AInt size] ;;
      load_entries conf ;;
      ret true
    end)
  (λ _, critical "Failed to load and parse the configuration file. Aborting." [] ;; ret false).

(** The loop over the lines [readline] returns, and the end of the input. *)
Fixpoint command_loop (lines : list bytes) : MM Z :=
  match lines with
  | [] => unmap_devices ;; ret 0
  | buf :: rest =>
    if negb (0 <? length buf)%nat then command_loop rest
    else if (0 <? split_count buf)%nat then
      r <- run_command (split_line buf) ;;
      if r =? 255 then unmap_devices ;; ret 0
      else if negb (r =? 0) then
        critical "Failed to run a command. Exiting." [] ;; unmap_devices ;; ret r
      else command_loop rest
    else unmap_devices ;; ret 0
  end.

(** From the mapping of the devices on. *)
Definition operate (lines : list bytes) : MM Z :=
  info "Mapping the devices" [] ;;
  r <- map_devices ;;
  if negb (r =? 0) then
    critical "Failed to map devices. Clearing out." [] ;; unmap_devices ;; ret 0
  else print_help ;; command_loop lines.

(** [main(argc, argv)], with the arguments after the program name and the lines
    typed. *)
Definition main (argv lines : list bytes) : MM Z :=
  modify (λ s, s <| g_ignore_laser := false |> <| g_ignore_attenuator := false |>
                 <| g_ignore_pm := false |>) ;;
  r <- parse_options (getopt argv) 2 (str "config.json") ;;
  match r with
  | inl code => ret code
  | inr config_file =>
    info "Log level: {0} : {1}" [AInt 0; AStr (str "trace")] ;;
    trace "Just testing a trace" [] ;;
    debug "Just testing a debug" [] ;;
    modify (λ s, s <| p_attenuator := Null |> <| p_laser := Null |> <| p_power_meter := Null |>) ;;
    info "Enumerating the ports available with serial devices:" [] ;;
    print (enumerate_ports ports) ;;
    info "Loading serial numbers from file [{0}]" [AStr config_file] ;;
    ok <- load_config config_file ;;
    if ok then operate lines else ret 0
  end.
End manager.
End Manager.
