(* ===== verification/ManagerFacts.v ===== *)
(** * What the manager guarantees

    The invariant of the global state and its preservation by every command, the
    state the laser is left in when the program returns, and that it ends.  The
    witnesses run a session on the ports that Ports.v finds in a small file system. *)
From S2P Require Import Prelude CppStd Utilities Ports Serial Loopback Device Floats Laser.
From S2P Require Import Attenuator PowerMeter Manager.

(** Which instruments are ignored. *)
Record ignored := Ignored { ig_laser : bool; ig_attenuator : bool; ig_pm : bool }.

(** ** The invariant *)
Section invariant.
Context {P : Type} {HI : SerialImpl P} {HO : Observable P} {HOK : SerialImplOK P}
  {HLive : SerialImplLive P}.
Context (polls : nat) (new_serial : nat → P) (ports : list PortInfo)
  (read_config : bytes → option json_result).
Context (Hnew : ∀ n, unlocked (new_serial n)).
Context (g : ignored).
Implicit Types s : iolaser_t P.
Notation mgr := (iolaser_t P).

(** A pointer that may be followed when it is not null; it is not null if [b]. *)
Definition ptr_ok {A} (R : A → Prop) (b : bool) (p : ptr A) : Prop :=
  match p with Null => b = false | Obj x => R x | Freed _ => False end.

(** The baud rate of an instrument in operation is one the port accepts. *)
Definition baud_ok (ig : bool) (d : iols_dev_t) : Prop :=
  ig = false → 4 ≤ baud_rate d < 2 ^ 32.

Record inv (l a m : bool) s : Prop := {
  inv_laser : ptr_ok laser_ready l (p_laser s);
  inv_attenuator : ptr_ok att_ready a (p_attenuator s);
  inv_power_meter : ptr_ok pm_ready m (p_power_meter s);
  inv_ignored : g = Ignored (g_ignore_laser s) (g_ignore_attenuator s) (g_ignore_pm s);
  inv_baud_laser : baud_ok (ig_laser g) (config_laser s);
  inv_baud_attenuator : baud_ok (ig_attenuator g) (config_attenuator s);
  inv_baud_power_meter : baud_ok (ig_pm g) (config_power_meter s);
}.

Lemma log_safe l a m lv fmt args : safe (inv l a m) (Manager.log lv fmt args).
Proof. apply safe_modify. by intros s []. Qed.
Lemma print_safe l a m t : safe (inv l a m) (Manager.print t).
Proof. apply safe_modify. by intros s []. Qed.
Lemma log_items_safe l a m lv fmt items : safe (inv l a m) (Manager.log_items lv fmt items).
Proof.
  induction items as [|[k v] items IH]; simpl; [apply safe_ret|].
  apply safe_bind; [apply log_safe|by intros _].
Qed.
Lemma info_lines_safe l a m ls : safe (inv l a m) (Manager.info_lines ls).
Proof.
  induction ls as [|x ls IH]; simpl; [apply safe_ret|].
  apply safe_bind; [apply log_safe|by intros _].
Qed.

#[local] Hint Resolve log_safe print_safe log_items_safe info_lines_safe : safe.
#[local] Hint Extern 1 (safe _ (Manager.trace _ _)) => apply log_safe : safe.
#[local] Hint Extern 1 (safe _ (Manager.debug _ _)) => apply log_safe : safe.
#[local] Hint Extern 1 (safe _ (Manager.info _ _)) => apply log_safe : safe.
#[local] Hint Extern 1 (safe _ (Manager.warn _ _)) => apply log_safe : safe.
#[local] Hint Extern 1 (safe _ (Manager.error _ _)) => apply log_safe : safe.
#[local] Hint Extern 1 (safe _ (Manager.critical _ _)) => apply log_safe : safe.

Lemma print_help_safe l a m : safe (inv l a m) Manager.print_help.
Proof. unfold Manager.print_help. solve_safe. Qed.
Lemma report_safe l a m e : safe (inv l a m) (Manager.report e).
Proof. destruct e; apply log_safe. Qed.
#[local] Hint Resolve print_help_safe report_safe : safe.

Lemma try_keeps l a m t u body :
  keeps t u (inv l a m) body → keeps t u (inv l a m) (Manager.try_ body).
Proof. intros Hb. unfold Manager.try_. solve_keeps. Qed.

(** A member call through a pointer that is not null. *)
Lemma call_keeps {A B} (p : lens mgr (ptr A)) (R : A → Prop) (I : mgr → Prop) t u
    (f : M A B) :
  (∀ s, I s → ∃ x, view p s = Obj x ∧ R x) →
  (∀ s x, I s → R x → I (put p (Obj x) s)) →
  keeps t u R f → keeps t u I (Manager.call p f).
Proof.
  intros Hget Hput Hf s HIs. destruct (Hget s HIs) as (x & Hx & HR).
  specialize (Hf x HR). unfold wp, Manager.call in *. rewrite Hx.
  destruct (f x) as [[] x']; simpl in *; auto.
Qed.

Lemma ptr_ok_obj {A} (R : A → Prop) p : ptr_ok R true p → ∃ x, p = Obj x ∧ R x.
Proof. destruct p; simpl; [done|eauto|done]. Qed.

Lemma call_laser_keeps {B} (f : M (laser P) B) a m t u :
  keeps t u laser_ready f → keeps t u (inv true a m) (Manager.call laser_p f).
Proof. apply call_keeps; [intros s []; by apply ptr_ok_obj|]. by intros s x []. Qed.
Lemma call_attenuator_keeps {B} (f : M (attenuator P) B) l m t u :
  keeps t u att_ready f → keeps t u (inv l true m) (Manager.call attenuator_p f).
Proof. apply call_keeps; [intros s []; by apply ptr_ok_obj|]. by intros s x []. Qed.
Lemma call_power_meter_keeps {B} (f : M (powermeter P) B) l a t u :
  keeps t u pm_ready f → keeps t u (inv l a true) (Manager.call power_meter_p f).
Proof. apply call_keeps; [intros s []; by apply ptr_ok_obj|]. by intros s x []. Qed.

Lemma att_keeps {B} (f : attenuator P → B) l m t u : keeps t u (inv l true m) (Manager.att f).
Proof. apply call_attenuator_keeps, keeps_safe, safe_gets. Qed.
Lemma pm_keeps {B} (f : powermeter P → B) l a t u : keeps t u (inv l a true) (Manager.pm f).
Proof. apply call_power_meter_keeps, keeps_safe, safe_gets. Qed.
#[local] Hint Resolve keeps_safe call_laser_keeps call_attenuator_keeps
  call_power_meter_keeps att_keeps pm_keeps : keeps.

(** The test for null before an instrument is used. *)
Lemma mapped_keeps {A B} (f : mgr → ptr A) (I J : mgr → Prop) t u (e rest : M mgr B) :
  (∀ s, I s → is_null (f s) = false → J s) → (∀ s, J s → I s) →
  keeps t u I e → keeps t u J rest →
  keeps t u I (p <- gets f ;; if is_null p then e else rest).
Proof.
  intros HIJ HJI He Hrest s Hs. apply wp_bind_gets.
  destruct (is_null (f s)) eqn:En; [by apply He|].
  eapply wp_mono; [by apply Hrest, HIJ|]. intros [] s' H; auto.
Qed.

Lemma ptr_ok_nonnull {A} (R : A → Prop) b p : ptr_ok R b p → is_null p = false → ptr_ok R true p.
Proof. by destruct p. Qed.
Lemma ptr_ok_weaken {A} (R : A → Prop) b p : ptr_ok R true p → ptr_ok R b p.
Proof. by destruct p. Qed.

Lemma laser_mapped {B} l a m t u (e rest : M mgr B) :
  keeps t u (inv l a m) e → keeps t u (inv true a m) rest →
  keeps t u (inv l a m) (p <- gets p_laser ;; if is_null p then e else rest).
Proof.
  apply mapped_keeps; intros s []; split; eauto using ptr_ok_nonnull, ptr_ok_weaken.
Qed.
Lemma attenuator_mapped {B} l a m t u (e rest : M mgr B) :
  keeps t u (inv l a m) e → keeps t u (inv l true m) rest →
  keeps t u (inv l a m) (p <- gets p_attenuator ;; if is_null p then e else rest).
Proof.
  apply mapped_keeps; intros s []; split; eauto using ptr_ok_nonnull, ptr_ok_weaken.
Qed.
Lemma power_meter_mapped {B} l a m t u (e rest : M mgr B) :
  keeps t u (inv l a m) e → keeps t u (inv l a true) rest →
  keeps t u (inv l a m) (p <- gets p_power_meter ;; if is_null p then e else rest).
Proof.
  apply mapped_keeps; intros s []; split; eauto using ptr_ok_nonnull, ptr_ok_weaken.
Qed.

(** ** Commands keep the invariant *)

(** The commands that wait for the motor, and those with undefined behaviour:
    the variable [val] of [pulse_width] is not assigned, that of [threshold] may
    not be, and the offset changed by [set_zero] may overflow. *)
Definition waits (argv : list bytes) : bool :=
  match argv with
  | [c; a; _] => equals c "attenuator" && (equals a "move" || equals a "move_to")
  | _ => false
  end.
Definition risky (argv : list bytes) : bool :=
  match argv with
  | [c; a] => equals c "attenuator" && equals a "set_zero"
  | [c; a; b; _] =>
    equals c "power_meter" && equals a "set" && (equals b "pulse_width" || equals b "threshold")
  | _ => false
  end.

Lemma laser_2_keeps t u a m x : keeps t u (inv true a m) (Manager.laser_2 x).
Proof. unfold Manager.laser_2, Manager.unknown_command. solve_keeps. Qed.
Lemma laser_3_keeps t u a m x v : keeps t u (inv true a m) (Manager.laser_3 x v).
Proof. unfold Manager.laser_3, Manager.unknown_command. solve_keeps. Qed.
#[local] Hint Resolve laser_2_keeps laser_3_keeps : keeps.

Lemma run_laser_keeps t u l a m argv :
  keeps t u (inv l a m) (Manager.run_laser argv).
Proof.
  unfold Manager.run_laser. apply keeps_bind; [solve_keeps|]. intros [|]; [solve_keeps|].
  apply laser_mapped; solve_keeps.
Qed.

Lemma query_attenuator_settings_keeps t u l a m :
  keeps t u (inv l a m) (Manager.query_attenuator_settings polls).
Proof.
  unfold Manager.query_attenuator_settings. apply keeps_bind; [solve_keeps|].
  intros [|]; [solve_keeps|]. apply attenuator_mapped; [solve_keeps|].
  apply try_keeps. solve_keeps.
Qed.

Lemma final_keeps u l m (f : M (attenuator P) (option Z)) :
  keeps True u att_ready f → yields (λ p, p ≠ None) f →
  keeps True u (inv l true m) (pos <- Manager.call attenuator_p f ;; Manager.log_final pos).
Proof.
  intros Hf Hsome s Hs. destruct (ptr_ok_obj _ _ (inv_attenuator _ _ _ _ Hs)) as (x & Hx & Hr).
  pose proof (call_attenuator_keeps f l m True u Hf s Hs) as Hc. specialize (Hsome x).
  unfold wp, bind in *. unfold Manager.call in Hc |- *. simpl in Hc |- *. rewrite Hx in *.
  destruct (f x) as [[[p|]| | |] x']; simpl in *; try done. by destruct Hc.
Qed.

Lemma attenuator_2_keeps t (u : Prop) l m x : (equals x "set_zero" = true → u) →
  keeps t u (inv l true m) (Manager.attenuator_2 polls x).
Proof.
  intros Hu. unfold Manager.attenuator_2. destruct (equals x "set_zero").
  - specialize (Hu eq_refl). apply keeps_bind; [solve_keeps|]. intros _.
    apply call_attenuator_keeps. eapply keeps_mono; [apply set_zero_keeps|done|done].
  - unfold Manager.attenuator_settings, Manager.unknown_command. solve_keeps.
Qed.

Lemma attenuator_3_keeps (t u : Prop) l m x v :
  (equals x "move" || equals x "move_to" = true → t) →
  keeps t u (inv l true m) (Manager.attenuator_3 polls x v).
Proof.
  intros Ht. unfold Manager.attenuator_3. cbv zeta.
  destruct (equals x "move"); [|destruct (equals x "move_to")]; simpl in Ht.
  1, 2: specialize (Ht eq_refl); apply keeps_bind; [solve_keeps|intros _].
  1, 2: eapply keeps_mono; [apply final_keeps|done|intros H; exact H].
  - apply move_keeps.
  - apply move_assigns.
  - apply go_keeps.
  - apply go_assigns.
  - unfold Manager.unknown_command. solve_keeps.
Qed.

Lemma run_attenuator_keeps l a m c argv :
  equals c "attenuator" = true →
  keeps (waits (c :: argv)) (risky (c :: argv)) (inv l a m)
    (Manager.run_attenuator polls (c :: argv)).
Proof.
  intros Hc. unfold Manager.run_attenuator. apply keeps_bind; [solve_keeps|].
  intros [|]; [solve_keeps|]. apply attenuator_mapped; [solve_keeps|].
  destruct argv as [|x [|v [|]]]; cbv zeta.
  - apply keeps_bind; [apply query_attenuator_settings_keeps|]. solve_keeps.
  - apply keeps_bind; [|solve_keeps]. apply attenuator_2_keeps. intros Hx. simpl. by rewrite Hc, Hx.
  - apply keeps_bind; [|solve_keeps]. apply attenuator_3_keeps. intros Hx. simpl. by rewrite Hc, Hx.
  - solve_keeps.
Qed.

Lemma query_power_meter_settings_keeps t u l a m :
  keeps t u (inv l a m) Manager.query_power_meter_settings.
Proof.
  unfold Manager.query_power_meter_settings. apply keeps_bind; [solve_keeps|].
  intros [|]; [solve_keeps|]. apply power_meter_mapped; [solve_keeps|].
  apply try_keeps. solve_keeps.
Qed.

Lemma pm_get_keeps t u l a x : keeps t u (inv l a true) (Manager.pm_get x).
Proof. unfold Manager.pm_get, Manager.log_measurement. solve_keeps. Qed.
Lemma pm_2_keeps t u l a x : keeps t u (inv l a true) (Manager.pm_2 x).
Proof. unfold Manager.pm_2, Manager.log_measurement. solve_keeps. Qed.

Lemma pm_set_keeps t (u : Prop) l a x v :
  (equals x "pulse_width" || equals x "threshold" = true → u) →
  keeps t u (inv l a true) (Manager.pm_set x v).
Proof.
  intros Hu. unfold Manager.pm_set.
  do 4 (apply keeps_if; [unfold Manager.pm_set_wavelength, Manager.pm_set_range; solve_keeps|]).
  destruct (equals x "pulse_width"); simpl in Hu; [by apply keeps_undef, Hu|].
  destruct (equals x "threshold"); [|solve_keeps].
  specialize (Hu eq_refl). unfold Manager.pm_set_threshold.
  pose proof (keeps_undef t u (inv l a true) (A:=unit) Hu). solve_keeps.
Qed.

#[local] Hint Resolve query_power_meter_settings_keeps pm_get_keeps pm_2_keeps : keeps.

Lemma run_power_meter_keeps t l a m c argv :
  equals c "power_meter" = true →
  keeps t (risky (c :: argv)) (inv l a m) (Manager.run_power_meter (c :: argv)).
Proof.
  intros Hc. unfold Manager.run_power_meter. apply keeps_bind; [solve_keeps|].
  intros [|]; [solve_keeps|]. apply power_meter_mapped; [solve_keeps|].
  destruct argv as [|x [|y [|v [|]]]]; [solve_keeps..| |solve_keeps].
  destruct (equals x "set") eqn:Es; [|solve_keeps].
  apply keeps_bind; [|solve_keeps]. apply keeps_bind; [solve_keeps|]. intros _.
  apply pm_set_keeps. intros Hx. simpl. by rewrite Hc, Es, Hx.
Qed.

Lemma run_command_keeps' l a m argv :
  keeps (waits argv) (risky argv) (inv l a m) (Manager.run_command polls argv).
Proof.
  unfold Manager.run_command. destruct argv as [|c argv]; [solve_keeps|].
  apply try_keeps. do 2 (apply keeps_if; [solve_keeps|]).
  apply keeps_if; [apply run_laser_keeps|].
  destruct (equals c "attenuator") eqn:Ea; [by apply run_attenuator_keeps|].
  destruct (equals c "power_meter") eqn:Ep; [by apply run_power_meter_keeps|].
  solve_keeps.
Qed.

(** C4: a command keeps the invariant of the manager: every instrument that is
    mapped can be used, its mutexes are free and no pointer dangles.  It never
    runs forever unless it waits for the motor, and has no undefined behaviour
    except in [attenuator set_zero] and [power_meter set] of [pulse_width] and
    [threshold]. *)
Theorem run_command_keeps (l a m : bool) (argv : list bytes) :
  keeps (waits argv) (risky argv) (inv l a m) (Manager.run_command polls argv).
Proof. apply run_command_keeps'. Qed.

(** ** Mapping the instruments *)
Lemma new_device_keeps {A B} (p : lens mgr (ptr A)) (R : A → Prop) (I J : mgr → Prop) t u
    (init : P → A) (construct : M A unit) (rest : M mgr B) :
  (∀ n, wp construct (post (λ _, R) (λ _, R)) (init (new_serial n))) →
  (∀ s n, I s → I (s <| created := n |>)) →
  (∀ s x, I s → R x → J (put p (Obj x) s)) → (∀ s, J s → I s) →
  keeps t u J rest →
  keeps t u I (Manager.new_device new_serial p init construct ;; rest).
Proof.
  intros Hc Hn HIJ HJI Hrest s Hs. set (n := created s).
  specialize (Hc n). unfold wp in Hc |- *. unfold Manager.new_device, bind, gets, modify.
  change (created s) with n. destruct (construct (init (new_serial n))) as [[] x];
    simpl in Hc; try done; [|by apply Hn].
  specialize (Hrest _ (HIJ _ x (Hn s (S n) Hs) Hc)). unfold wp in Hrest. revert Hrest.
  destruct (rest _) as [[] s']; simpl; auto.
Qed.

(** A driver that has just been initialised. *)
Lemma fresh_idle n port baud : idle (Device.construct port baud (new_serial n)).
Proof. apply Hnew. Qed.
Lemma max_line_ge k : (k ≤ 2)%nat → (k ≤ max_line)%nat.
Proof. unfold max_line. lia. Qed.

Lemma new_laser_keeps {B} t u a m port baud (rest : M mgr B) :
  4 ≤ baud < 2 ^ 32 → keeps t u (inv true a m) rest →
  keeps t u (inv false a m)
    (Manager.new_device new_serial laser_p (Laser.init port baud) Laser.construct ;; rest).
Proof.
  intros Hb. apply new_device_keeps with (R := laser_ready).
  - intros n. apply laser_construct_safe; [|done]. split; [apply Hnew|].
    apply max_line_ge. simpl. lia.
  - by intros s n [].
  - by intros s x [] HR.
  - intros s []. by split; eauto using ptr_ok_weaken.
Qed.
Lemma new_attenuator_keeps {B} t u l m port baud (rest : M mgr B) :
  4 ≤ baud < 2 ^ 32 → keeps t u (inv l true m) rest →
  keeps t u (inv l false m)
    (Manager.new_device new_serial attenuator_p (Attenuator.init port baud)
       Attenuator.construct ;; rest).
Proof.
  intros Hb. apply new_device_keeps with (R := att_ready).
  - intros n. apply att_construct_safe; [|done]. split; [apply Hnew|].
    apply max_line_ge. simpl. lia.
  - by intros s n [].
  - by intros s x [] HR.
  - intros s []. by split; eauto using ptr_ok_weaken.
Qed.
Lemma new_power_meter_keeps {B} t u l a port baud (rest : M mgr B) :
  4 ≤ baud < 2 ^ 32 → keeps t u (inv l a true) rest →
  keeps t u (inv l a false)
    (Manager.new_device new_serial power_meter_p (PowerMeter.init port baud)
       PowerMeter.construct ;; rest).
Proof.
  intros Hb. apply new_device_keeps with (R := pm_ready).
  - intros n. apply pm_construct_safe; [|done]. split; [|done]. split; [apply Hnew|].
    apply max_line_ge. simpl. lia.
  - by intros s n [].
  - by intros s x [] HR.
  - intros s []. by split; eauto using ptr_ok_weaken.
Qed.

Lemma map_laser_keeps t u a m : ig_laser g = false →
  keeps t u (inv false a m) (Manager.map_laser new_serial ports).
Proof.
  intros Hg. unfold Manager.map_laser.
  do 2 (apply keeps_bind; [solve_keeps|intros ?]). apply keeps_if; [solve_keeps|].
  apply keeps_bind; [apply keeps_safe, safe_modify; by intros s []|intros _].
  apply keeps_gets with (Q := λ c, 4 ≤ baud_rate c < 2 ^ 32).
  { intros s []. auto. }
  intros c Hc. apply keeps_if; [solve_keeps|]. apply keeps_bind; [solve_keeps|intros _].
  apply try_keeps. apply keeps_bind; [solve_keeps|intros _].
  apply new_laser_keeps; [done|]. solve_keeps.
Qed.

Lemma map_attenuator_keeps t u l m : ig_attenuator g = false →
  keeps t u (inv l false m) (Manager.map_attenuator polls new_serial ports).
Proof.
  intros Hg. unfold Manager.map_attenuator. apply keeps_bind; [solve_keeps|intros ?].
  apply keeps_if; [solve_keeps|]. apply keeps_bind; [solve_keeps|intros ?].
  apply keeps_if; [solve_keeps|]. apply keeps_bind; [solve_keeps|intros _].
  apply keeps_bind; [apply keeps_safe, safe_modify; by intros s []|intros _].
  apply keeps_gets with (Q := λ c, 4 ≤ baud_rate c < 2 ^ 32).
  { intros s []. auto. }
  intros c Hc. apply keeps_if; [solve_keeps|]. apply keeps_bind; [solve_keeps|intros _].
  apply try_keeps. apply keeps_bind; [solve_keeps|intros _].
  apply new_attenuator_keeps; [done|]. apply keeps_bind; [solve_keeps|intros _].
  apply keeps_bind; [apply query_attenuator_settings_keeps|]. solve_keeps.
Qed.

Lemma map_power_meter_keeps t u l a : ig_pm g = false →
  keeps t u (inv l a false) (Manager.map_power_meter new_serial ports).
Proof.
  intros Hg. unfold Manager.map_power_meter. apply keeps_bind; [solve_keeps|intros ?].
  apply keeps_if; [solve_keeps|]. apply keeps_bind; [solve_keeps|intros ?].
  apply keeps_if; [solve_keeps|].
  apply keeps_bind; [apply keeps_safe, safe_modify; by intros s []|intros _].
  apply keeps_gets with (Q := λ c, 4 ≤ baud_rate c < 2 ^ 32).
  { intros s []. auto. }
  intros c Hc. apply keeps_if; [solve_keeps|]. apply keeps_bind; [solve_keeps|intros _].
  apply try_keeps. apply keeps_bind; [solve_keeps|intros _].
  apply new_power_meter_keeps; [done|]. apply keeps_bind; [solve_keeps|intros _].
  apply keeps_bind; [apply query_power_meter_settings_keeps|]. solve_keeps.
Qed.

(** The flags read are those of [g]. *)
Lemma keeps_flag {B} (f : mgr → bool) (b : bool) t u l a m (k : bool → M mgr B) :
  (∀ s, inv l a m s → f s = b) → keeps t u (inv l a m) (k b) →
  keeps t u (inv l a m) (bind (gets f) k).
Proof. intros Hf Hk. apply keeps_gets with (Q := λ x, x = b); [done|]. by intros ? ->. Qed.

Lemma map_devices_keeps t u :
  keeps t u (inv false false false) (Manager.map_devices polls new_serial ports).
Proof.
  unfold Manager.map_devices.
  assert (∀ r, keeps t u (inv false false false) (Manager.map_devices_pm new_serial ports r)) as Hpm.
  { intros r. unfold Manager.map_devices_pm. apply (keeps_flag _ (ig_pm g)).
    - intros s [_ _ _ -> _ _ _]. done.
    - destruct (ig_pm g) eqn:Eg; [solve_keeps|]. pose proof (map_power_meter_keeps t u false false Eg).
      solve_keeps. }
  assert (∀ r, keeps t u (inv false false false) (Manager.map_devices_laser new_serial ports r)) as Hl.
  { intros r. unfold Manager.map_devices_laser. apply (keeps_flag _ (ig_laser g)).
    - intros s [_ _ _ -> _ _ _]. done.
    - destruct (ig_laser g) eqn:Eg; [solve_keeps|]. pose proof (map_laser_keeps t u false false Eg).
      solve_keeps. }
  apply (keeps_flag _ (ig_attenuator g)).
  - intros s [_ _ _ -> _ _ _]. done.
  - destruct (ig_attenuator g) eqn:Eg; [solve_keeps|].
    pose proof (map_attenuator_keeps t u false false Eg). solve_keeps.
Qed.

(** ** Unmapping: the laser is stopped and its shutter closed

    The laser was deleted after its port was handed the complete commands that
    stop firing and close the shutter, in this order and last of all. *)
Definition parked (l : laser P) : Prop :=
  ∃ before n, out (l_base l) = before ++ frame (l_base l) (str "ST 0") ++
    take n (frame (l_base l) (str "SH 0")) ++ frame (l_base l) (str "SH 0").
Definition laser_off s : Prop :=
  match p_laser s with Null => True | Obj _ => False | Freed l => parked l end.

Lemma delete_step {A B} (p : lens mgr (ptr A)) (R : A → Prop) (destroy : M A unit) msg
    (f : mgr → B) s :
  ptr_ok R false (view p s) → safe R destroy →
  (∀ q s, f (put p q s) = f s) → (∀ lg s, f (s <| logged := lg |>) = f s) →
  wp (when negb (is_null (view p s)) do
        (Manager.delete_device p destroy ;; Manager.trace msg []))
    (post (λ _ s', f s' = f s) (λ _ _, True)) s.
Proof.
  intros Hp Hd Hput Hlog. destruct (view p s) as [|x|x] eqn:Ep; simpl in *; try done.
  specialize (Hd x Hp). unfold wp, bind, Manager.delete_device in *. rewrite Ep.
  destruct (destroy x) as [[] x']; simpl in *; try done. by rewrite Hlog, Hput.
Qed.

(** A setting of the laser through the pointer. *)
Lemma call_setting c s l : p_laser s = Obj l → laser_ready l →
  wp (Manager.call laser_p (exec c))
    (post (λ _ s', ∃ d', delivered (l_base l) (text c) d' ∧
                         p_laser s' = Obj (remember c (l <| l_base := d' |>)))
          (λ _ _, True)) s.
Proof.
  intros Hl Hr. pose proof (wp_spec_safe _ _ _ _ _ (exec_safe c) Hr (exec_spec c l Hr)) as H.
  unfold wp, Manager.call in *. simpl. rewrite Hl.
  destruct (exec c l) as [[] l']; simpl in *; try done. destruct H as (_ & d' & Hd & ->). eauto.
Qed.

Lemma delivered_out d cmd d' : delivered d cmd d' →
  (∃ n, out d' = out d ++ take n (frame d cmd) ++ frame d cmd) ∧
  ∀ c, frame d' c = frame d c.
Proof.
  intros (n & _ & Hs). split; [exists n; by destruct Hs as (_ & _ & ->)|].
  intros c. by eapply sends_frame.
Qed.

Lemma parked_after l d1 d2 l' :
  delivered (l_base l) (str "ST 0") d1 → delivered d1 (str "SH 0") d2 →
  sends d2 [] (l_base l') → parked l'.
Proof.
  intros H1 H2 H3. destruct (delivered_out _ _ _ H1) as [[n1 O1] F1].
  destruct (delivered_out _ _ _ H2) as [[n2 O2] F2].
  pose proof (λ c, sends_frame _ _ _ c H3) as F3. destruct H3 as (_ & _ & O3).
  exists (out (l_base l) ++ take n1 (frame (l_base l) (str "ST 0"))), n2.
  rewrite O3, O2, O1, !F3, !F2, !F1, app_nil_r, <- !app_assoc. done.
Qed.

Lemma unmap_laser_ok s : ptr_ok laser_ready false (p_laser s) →
  wp (when negb (is_null (p_laser s)) do (
        Manager.call laser_p Laser.fire_stop ;;
        Manager.call laser_p Laser.shutter_close ;;
        Manager.delete_device laser_p (Laser.on_device Device.destroy) ;;
        Manager.trace "laser instance destroyed" []))
    (post (λ _, laser_off) (λ _ _, True)) s.
Proof.
  intros Hp. destruct (p_laser s) as [|l|l] eqn:El; simpl in Hp |- *; try done.
  { apply wp_ret. unfold laser_off. simpl. by rewrite El. }
  eapply wp_bind_post; [apply (call_setting (SetFire Fire_Stop) s l El Hp)|].
  cbv beta. intros _ s1 (d1 & H1 & E1). set (l1 := remember _ _) in E1.
  assert (laser_ready l1) as Hr1 by exact (delivered_ready _ _ _ H1 Hp).
  eapply wp_bind_post; [apply (call_setting (SetShutter Shutter_Closed) s1 l1 E1 Hr1)|].
  cbv beta. intros _ s2 (d2 & H2 & E2). set (l2 := remember _ _) in E2.
  assert (laser_ready l2) as Hr2 by exact (delivered_ready _ _ _ H2 Hr1).
  assert (sends d2 [] (l_base l2)) as Hs by (apply sends_refl; apply Hr2).
  pose proof (device_destroy_spec _ _ _ Hs) as Hd.
  pose proof (device_destroy_safe _ Hr2) as Hd'.
  unfold wp, bind, Manager.delete_device, Laser.on_device, zoom in *. simpl in E2.
  change (view laser_p s2) with (p_laser s2). rewrite E2. change (view l_base_l l2) with (l_base l2).
  destruct (Device.destroy (l_base l2)) as [[] d3]; simpl in Hd, Hd' |- *; try done.
  unfold laser_off. simpl. by eapply parked_after.
Qed.

Lemma wp_bind_log {B} lv fmt args (k : M mgr B) Q s :
  (∀ s0, p_laser s0 = p_laser s → p_attenuator s0 = p_attenuator s →
         p_power_meter s0 = p_power_meter s → wp k Q s0) →
  wp (Manager.log lv fmt args ;; k) Q s.
Proof. intros H. apply wp_bind_modify. by apply H. Qed.

Lemma unmap_devices_ok s : inv false false false s →
  wp Manager.unmap_devices (post (λ c s', c = 0 ∧ laser_off s') (λ _ _, True)) s.
Proof.
  intros [Hl Ha Hm _ _ _ _]. unfold Manager.unmap_devices.
  apply wp_bind_log. intros s1 El1 Ea1 Em1. apply wp_bind_log. intros s2 El2 Ea2 Em2.
  rewrite <- El1, <- El2 in Hl. rewrite <- Ea1, <- Ea2 in Ha. rewrite <- Em1, <- Em2 in Hm.
  apply wp_bind_gets. eapply wp_bind_post.
  { apply (delete_step power_meter_p pm_ready _ _ (λ s, (p_laser s, p_attenuator s)) s2);
      [done|apply pm_destroy_safe|done|done]. }
  cbv beta. intros _ s3 E3. injection E3 as El3 Ea3.
  apply wp_bind_log. intros s4 El4 Ea4 _.
  rewrite <- El3, <- El4 in Hl. rewrite <- Ea3, <- Ea4 in Ha.
  apply wp_bind_gets. eapply wp_bind_post.
  { apply (delete_step attenuator_p att_ready _ _ p_laser s4);
      [done|apply att_destroy_safe|done|done]. }
  cbv beta. intros _ s5 El5. apply wp_bind_log. intros s6 El6 _ _.
  rewrite <- El5, <- El6 in Hl. apply wp_bind_gets.
  eapply wp_bind_post; [by apply unmap_laser_ok|].
  cbv beta. intros _ s7 H7. by apply wp_ret.
Qed.

(** ** The whole program

    How a run of the program may end: by returning with the laser off, by an
    exception, without returning only if [t], with undefined behaviour only if
    [u]. *)
Definition ends (t u : Prop) (o : outcome Z) s : Prop :=
  match o with Ret _ => laser_off s | Throw _ => True | Spin => t | Undef => u end.

Lemma unmap_ends t u c s : inv false false false s →
  wp (Manager.unmap_devices ;; ret c) (ends t u) s.
Proof.
  intros Hs. apply wp_bind. eapply wp_mono; [by apply unmap_devices_ok|].
  intros [] s'; simpl; try done. intros [_ H]. by apply wp_ret.
Qed.

(** A step that keeps the invariant, and then the rest. *)
Lemma keeps_then_ends {A} t u (f : M mgr A) (k : A → M mgr Z) s :
  keeps t u (inv false false false) f → inv false false false s →
  (∀ x s', inv false false false s' → wp (k x) (ends t u) s') →
  wp (bind f k) (ends t u) s.
Proof.
  intros Hf Hs Hk. apply wp_bind. eapply wp_mono; [by apply Hf|].
  intros [] s'; simpl; auto.
Qed.

Lemma command_loop_ends (t u : Prop) lines s :
  (∀ x, x ∈ lines → waits (split_line x) → t) →
  (∀ x, x ∈ lines → risky (split_line x) → u) →
  inv false false false s → wp (Manager.command_loop polls lines) (ends t u) s.
Proof.
  revert s. induction lines as [|x lines IH]; intros s Ht Hu Hs; simpl.
  { by apply unmap_ends. }
  assert (∀ s, inv false false false s → wp (Manager.command_loop polls lines) (ends t u) s) as Hrest.
  { intros s' Hs'. apply IH; [..|done]; intros y Hy.
    - apply Ht. by right.
    - apply Hu. by right. }
  destruct (length x); simpl; [by apply Hrest|].
  apply keeps_then_ends; [|done|].
  - eapply keeps_mono; [apply run_command_keeps'|apply Ht|apply Hu]; by left.
  - intros r s' Hs'. destruct (r =? 255); [by apply unmap_ends|].
    destruct (negb _); [|by apply Hrest].
    apply keeps_then_ends; [solve_keeps|done|]. intros _ s'' Hs''. by apply unmap_ends.
Qed.

Lemma operate_ends (t u : Prop) lines s :
  (∀ x, x ∈ lines → waits (split_line x) → t) →
  (∀ x, x ∈ lines → risky (split_line x) → u) →
  inv false false false s →
  wp (Manager.operate polls new_serial ports lines) (ends t u) s.
Proof.
  intros Ht Hu Hs. unfold Manager.operate.
  apply keeps_then_ends; [solve_keeps|done|]. intros _ s1 H1.
  apply keeps_then_ends; [apply map_devices_keeps|done|]. intros r s2 H2.
  destruct (negb _).
  - apply keeps_then_ends; [solve_keeps|done|]. intros _ s3 H3. by apply unmap_ends.
  - apply keeps_then_ends; [solve_keeps|done|]. intros _ s3 H3. by apply command_loop_ends.
Qed.
End invariant.

(** ** [main] *)
Section program.
Context {P : Type} {HI : SerialImpl P} {HO : Observable P} {HOK : SerialImplOK P}
  {HLive : SerialImplLive P}.
Context (polls : nat) (new_serial : nat → P) (ports : list PortInfo)
  (read_config : bytes → option json_result).
Implicit Types s : iolaser_t P.
Notation mgr := (iolaser_t P).

(** Nothing is mapped, and the instruments named by [a], [l] and [m] have a baud
    rate unless they are ignored. *)
Record loaded (a l m : bool) s : Prop := {
  ld_laser : p_laser s = Null;
  ld_attenuator : p_attenuator s = Null;
  ld_power_meter : p_power_meter s = Null;
  ld_a : a = true → baud_ok (g_ignore_attenuator s) (config_attenuator s);
  ld_l : l = true → baud_ok (g_ignore_laser s) (config_laser s);
  ld_m : m = true → baud_ok (g_ignore_pm s) (config_power_meter s);
}.

Lemma loaded_log a l m s lg : loaded a l m s → loaded a l m (s <| logged := lg |>).
Proof. by intros []. Qed.

Lemma loaded_inv s : loaded true true true s →
  inv (Ignored (g_ignore_laser s) (g_ignore_attenuator s) (g_ignore_pm s)) false false false s.
Proof. intros [Hl Ha Hm ???]. split; rewrite ?Hl, ?Ha, ?Hm; simpl; auto. Qed.

Lemma loaded_off a l m s : loaded a l m s → laser_off s.
Proof. intros [Hl _ _ _ _ _]. unfold laser_off. by rewrite Hl. Qed.

Lemma load_entry_ok v ign assign ignore found missing (I J : mgr → Prop) s :
  (∀ s, I s → ign s = true → J s) → (∀ s sn, I s → J (assign sn s)) →
  (∀ s, I s → J (ignore s)) →
  (∀ s lg, I s → I (s <| logged := lg |>)) → (∀ s lg, J s → J (s <| logged := lg |>)) →
  (∀ s, I s → p_laser s = Null) →
  I s → wp (Manager.load_entry v ign assign ignore found missing)
          (post (λ _, J) (λ _ s', p_laser s' = Null)) s.
Proof.
  intros Hig Has Hno HI' HJ Hn Hs. unfold Manager.load_entry. destruct v as [v|].
  - apply wp_bind_gets. destruct (ign s) eqn:Ei; simpl; [by apply wp_ret, Hig|].
    destruct v as [sn|]; [|by apply Hn]. apply wp_bind_modify. by apply HJ, Has.
  - apply wp_bind_modify. by apply Hno, HI'.
Qed.

Lemma load_entries_ok conf s : loaded false false false s →
  wp (Manager.load_entries conf)
    (post (λ _, loaded true true true) (λ _ s', p_laser s' = Null)) s.
Proof.
  assert (∀ a l m s, loaded a l m s → p_laser s = Null) as Hn by by intros ???? [].
  pose proof loaded_log as Hlog. intros Hs. unfold Manager.load_entries.
  eapply wp_bind_post with (R0 := λ _, loaded true false false).
  { apply load_entry_ok with (I := loaded false false false); eauto.
    - intros s0 [] Hi. split; try done. intros _. unfold baud_ok. by rewrite Hi.
    - by intros s0 sn [].
    - by intros s0 []. }
  clear s Hs. intros _ s Hs. eapply wp_bind_post with (R0 := λ _, loaded true true false).
  { apply load_entry_ok with (I := loaded true false false); eauto.
    - intros s0 [] Hi. split; try done. intros _. unfold baud_ok. by rewrite Hi.
    - by intros s0 sn [].
    - by intros s0 []. }
  clear s Hs. intros _ s Hs. apply load_entry_ok with (I := loaded true true false); eauto.
  - intros s0 [] Hi. split; try done. intros _. unfold baud_ok. by rewrite Hi.
  - by intros s0 sn [].
  - by intros s0 [].
Qed.

Lemma load_config_ok file s : loaded false false false s →
  wp (Manager.load_config read_config file)
    (post (λ ok s', if ok : bool then loaded true true true s' else laser_off s')
          (λ _ _, True)) s.
Proof.
  intros Hs. pose proof (ld_laser _ _ _ _ Hs) as Hl. unfold Manager.load_config.
  apply wp_catch_post with (E0 := λ _ s', p_laser s' = Null); [|done|].
  - destruct (read_config file) as [[|n conf]|]; [done| |].
    + apply wp_bind_modify. eapply wp_bind_post; [by apply load_entries_ok, loaded_log|].
      cbv beta. intros _ s1 H1. by apply wp_ret.
    + apply wp_bind_modify, wp_ret. unfold laser_off. simpl. by rewrite Hl.
  - intros e s1 H1. apply wp_bind_modify, wp_ret. unfold laser_off. simpl. by rewrite H1.
Qed.

Lemma parse_options_safe opts lvl file :
  safe (λ s, p_laser s = Null) (Manager.parse_options opts lvl file).
Proof.
  revert lvl file. induction opts as [|o opts IH]; intros lvl file; simpl; [solve_safe|].
  assert (∀ lv fmt args, safe (λ s, p_laser s = Null) (Manager.log (P:=P) lv fmt args)) as Hlog.
  { intros. by apply safe_modify. }
  destruct o; [apply IH| |apply safe_bind; [apply Hlog|solve_safe]|apply safe_bind; [apply Hlog|solve_safe]].
  repeat (apply safe_if; [apply safe_bind; [apply Hlog|intros _]; apply safe_bind;
    [by apply safe_modify|intros _; apply IH]|]).
  apply safe_bind; [apply Hlog|solve_safe].
Qed.

Lemma main_ends' (t u : Prop) argv lines :
  (∀ n, unlocked (new_serial n)) →
  (∀ x, x ∈ lines → waits (split_line x) → t) →
  (∀ x, x ∈ lines → risky (split_line x) → u) →
  wp (Manager.main polls new_serial ports read_config argv lines) (ends t u) globals.
Proof.
  intros Hnew Ht Hu. unfold Manager.main. apply wp_bind_modify. apply wp_bind.
  eapply wp_mono; [by apply parse_options_safe|].
  intros [[c|file]| | |] s Hs; simpl in Hs |- *; try done.
  { apply wp_ret. unfold ends, laser_off. by rewrite Hs. }
  do 3 apply wp_bind_modify. apply wp_bind_modify. do 3 apply wp_bind_modify. apply wp_bind.
  eapply wp_mono; [by apply load_config_ok|].
  intros [[]| | |] s1 H1; simpl in H1 |- *; try done.
  eapply operate_ends; eauto using loaded_inv.
Qed.

(** C1: whenever [main] returns, whatever the options, the configuration and the
    lines typed, the laser was not mapped or its last bytes are the complete
    commands that stop firing and close the shutter, sent before it was deleted. *)
Theorem main_parks_laser (argv lines : list bytes) (code : Z) (s : iolaser_t P) :
  (∀ n, unlocked (new_serial n)) →
  Manager.main polls new_serial ports read_config argv lines globals = (Ret code, s) →
  laser_off s.
Proof.
  intros Hnew E.
  pose proof (main_ends' True True argv lines Hnew (λ _ _ _, I) (λ _ _ _, I)) as H.
  exact (wp_elim _ _ _ _ _ H E).
Qed.

(** C15: [main] ends on every finite input, with an exit code or an exception, as long
    as no line moves the motor and waits for it, and without undefined behaviour
    as long as no line is one of the three defective commands. *)
Theorem main_terminates (argv lines : list bytes) :
  (∀ n, unlocked (new_serial n)) →
  Forall (λ x, waits (split_line x) = false ∧ risky (split_line x) = false) lines →
  defined (Manager.main polls new_serial ports read_config argv lines globals).1.
Proof.
  intros Hnew Hl. rewrite Forall_forall in Hl.
  assert (wp (Manager.main polls new_serial ports read_config argv lines)
    (ends False False) globals) as H.
  { apply main_ends'; [done|..]; intros x Hx; destruct (Hl x Hx) as [H1 H2];
      rewrite ?H1, ?H2; done. }
  revert H. unfold wp. by destruct (Manager.main _ _ _ _ _ _ _) as [[] ?].
Qed.
End program.

(** ** A session with a laser that answers *)
Definition session_ports : list PortInfo := Ports.list_ports (λ _, true) two_devices.
Definition session_config (file : bytes) : option json_result :=
  if str_eqb file (str "config.json") then
    Some (Json 1 (λ k, if String.eqb k "laser" then Some (Some (str "A9J0G3SV")) else None))
  else None.
Definition session_serial (n : nat) : loop :=
  loop_init [str "SE" ++ [CR] ++ str "00" ++ [CR]; str "SC" ++ [CR] ++ str "000000042" ++ [CR]] [] [].
Notation session lines :=
  (Manager.main 0 session_serial session_ports session_config [] lines globals).

Lemma session_unlocked n : unlocked (session_serial n).
Proof. done. Qed.

Lemma main_parks_laser_witness :
  (session [str "laser fire_start"; str "exit"]).1 = Ret 0 ∧
  laser_off (session [str "laser fire_start"; str "exit"]).2.
Proof.
  assert ((session [str "laser fire_start"; str "exit"]).1 = Ret 0) as E by by vm_compute.
  split; [exact E|].
  apply (main_parks_laser 0 session_serial session_ports session_config []
    [str "laser fire_start"; str "exit"] 0 _ session_unlocked).
  exact (run_pair _ _ E).
Defined.

Lemma main_terminates_witness :
  defined (session [str "laser shot_count"; str "laser hv 1.2"]).1.
Proof.
  apply (main_terminates 0 session_serial session_ports session_config []
    [str "laser shot_count"; str "laser hv 1.2"] session_unlocked).
  apply (bool_decide_unpack _); by vm_compute.
Defined.

Lemma run_command_keeps_witness :
  let s : iolaser_t loop :=
    globals <| p_laser := Obj (laser_on (loop_port [] [] [])) |> <| g_ignore_attenuator := true |>
            <| g_ignore_pm := true |> <| config_laser := mkDev [] [] 9600 |> in
  wp (Manager.run_command 0 [str "laser"; str "shot_count"])
    (λ o s', match o with
       | Ret _ | Throw _ => inv (Ignored false true true) true false false s'
       | Spin => waits [str "laser"; str "shot_count"]
       | Undef => risky [str "laser"; str "shot_count"] end) s.
Proof.
  intros s. apply (run_command_keeps (P:=loop) 0 (Ignored false true true) true false false).
  split; [apply laser_on_ready|done..| |done|done]. simpl. unfold baud_ok. simpl. lia.
Defined.
