(* ===== verification/ManagerLines.v ===== *)
(** * The lines typed to the manager, and what its commands return and touch

    The splitting of a line agrees with a reference definition and stays inside its
    array; the exit codes of a command; the parts of the state a command leaves
    alone; and the defects of the command loop and of the start of the program. *)
From S2P Require Import Prelude CppStd Utilities Serial Loopback Device Floats Laser.
From S2P Require Import Attenuator PowerMeter Manager.

(** ** Splitting a line *)

(** The pieces between the delimiters, and those that are not empty. *)
Fixpoint split_on (d : ascii) (s : bytes) : list bytes :=
  match s with
  | [] => [[]]
  | c :: s' =>
    if Ascii.eqb c d then [] :: split_on d s'
    else match split_on d s' with w :: ws => (c :: w) :: ws | [] => [[c]] end
  end.
Definition nonempty (w : bytes) : bool := negb (length w =? 0)%nat.
Definition words (d : ascii) (s : bytes) : list bytes := List.filter nonempty (split_on d s).

Lemma split_on_cons d s : ∃ w ws, split_on d s = w :: ws.
Proof. destruct s as [|c s]; simpl; [eauto|]. repeat case_match; eauto. Qed.

Lemma words_skip d s : words d (strtok_skip d s) = words d s.
Proof.
  unfold words. induction s as [|c s IH]; simpl; [done|].
  destruct (Ascii.eqb c d) eqn:E; simpl; [done|]. by rewrite E.
Qed.

Lemma strtok_skip_head d s c s' : strtok_skip d s = c :: s' → Ascii.eqb c d = false.
Proof.
  induction s as [|c0 s IH]; simpl; [done|].
  destruct (Ascii.eqb c0 d) eqn:E; [done|]. by intros [= -> _].
Qed.

Lemma strtok_span_split d s : ∀ t r, strtok_span d s = (t, r) →
  split_on d s = [t] ∧ r = [] ∨ split_on d s = t :: split_on d r.
Proof.
  induction s as [|c s IH]; intros t r; simpl; [intros [= <- <-]; by left|].
  destruct (Ascii.eqb c d); [intros [= <- <-]; by right|].
  destruct (strtok_span d s) as [t0 r0]. intros [= <- <-].
  destruct (IH t0 r0 eq_refl) as [[-> ->]| ->]; [by left|by right].
Qed.

(** [strtok] takes the first word off. *)
Lemma strtok_words d s :
  match strtok d s with
  | (None, r) => words d s = [] ∧ r = []
  | (Some t, r) => words d s = t :: words d r
  end.
Proof.
  unfold strtok. rewrite <- words_skip. destruct (strtok_skip d s) as [|c s'] eqn:E; [done|].
  pose proof (strtok_skip_head _ _ _ _ E) as Hc.
  destruct (strtok_span d (c :: s')) as [t r] eqn:Es.
  pose proof (strtok_span_split d _ _ _ Es) as Hs.
  assert (nonempty t = true) as Ht.
  { simpl in Es. rewrite Hc in Es. destruct (strtok_span d s'). by injection Es as <- <-. }
  unfold words. destruct Hs as [[-> ->]| ->]; simpl; by rewrite Ht.
Qed.

Lemma words_count d s : (length (words d s) ≤ 1 + count_delim d s)%nat.
Proof.
  unfold words. assert (length (split_on d s) = 1 + count_delim d s)%nat as <-.
  { induction s as [|c s IH]; simpl; [done|]. destruct (Ascii.eqb c d); simpl; [lia|].
    destruct (split_on_cons d s) as (w & ws & E). rewrite E in *. simpl in *. lia. }
  induction (split_on d s) as [|w ws IH]; simpl; [lia|]. destruct (nonempty w); simpl; lia.
Qed.

Lemma fill_cmd_words n t save : (length (words SP save) ≤ n)%nat →
  fill_cmd n (Some t) save =
  map Some (words SP save) ++ (if (length (words SP save) <? n)%nat then [None] else []).
Proof.
  revert t save. induction n as [|n IH]; intros t save Hn; simpl.
  { by destruct (words SP save); simpl in Hn; [|lia]. }
  pose proof (strtok_words SP save) as Hw. destruct (strtok SP save) as [[t'|] r].
  - rewrite Hw in *. simpl in *. rewrite IH by lia. done.
  - destruct Hw as [-> ->]. simpl. by destruct n.
Qed.

Lemma split_argc_words (ws : list bytes) (b : bool) :
  let cmd := map Some ws ++ (if b then [None] else []) in
  ws ≠ [] → take (split_argc cmd) cmd = map Some ws.
Proof.
  intros cmd Hws. unfold split_argc, cmd.
  destruct b; rewrite length_app, length_map; simpl.
  - rewrite lookup_app_r by (rewrite length_map; lia). rewrite length_map.
    replace (length ws + 1 - 1 - length ws)%nat with 0%nat by lia. simpl.
    rewrite take_app_le by (rewrite length_map; lia).
    by rewrite take_ge by (rewrite length_map; lia).
  - rewrite app_nil_r, list_lookup_fmap.
    destruct (lookup_lt_is_Some_2 ws (length ws + 0 - 1)) as [w Hw].
    { destruct ws; [done|]. simpl. lia. }
    rewrite Hw. simpl. by rewrite take_ge by (rewrite length_map; lia).
Qed.

Lemma split_cmd_words buf :
  take (split_argc (split_cmd buf)) (split_cmd buf) = map Some (words SP buf) ∧
  (length (split_cmd buf) ≤ split_count buf)%nat.
Proof.
  unfold split_cmd, split_count. pose proof (words_count SP buf) as Hc.
  pose proof (strtok_words SP buf) as Hw. destruct (strtok SP buf) as [[t|] r]; simpl.
  - rewrite Hw in *. simpl in Hc. rewrite Nat.sub_0_r, fill_cmd_words by lia.
    split; [by apply (split_argc_words (t :: words SP r))|].
    rewrite length_app, length_map.
    destruct (Nat.ltb_spec (length (words SP r)) (count_delim SP buf)); simpl; lia.
  - destruct Hw as [-> ->]. by destruct (count_delim SP buf); simpl; split; try lia.
Qed.

Lemma split_line_is_words buf : split_line buf = words SP buf.
Proof.
  unfold split_line. rewrite (proj1 (split_cmd_words buf)).
  induction (words SP buf) as [|w ws IH]; [done|].
  change (w :: omap id (map Some ws) = w :: ws). by rewrite IH.
Qed.

(** C9: splitting a line with the counted array and [strtok] gives exactly the
    non-empty pieces between the blanks: the counted entries of the array are these
    pieces, with no null pointer among them, and no entry past the array is filled. *)
Theorem split_line_words (buf : bytes) :
  split_line buf = words SP buf ∧
  take (split_argc (split_cmd buf)) (split_cmd buf) = map Some (words SP buf) ∧
  (length (split_cmd buf) ≤ split_count buf)%nat.
Proof. split; [apply split_line_is_words|apply split_cmd_words]. Qed.

(** ** What a command returns and touches *)
Section commands.
Context {P : Type} {HI : SerialImpl P}.
Context (polls : nat) (new_serial : nat → P) (ports : list PortInfo)
  (read_config : bytes → option json_result).
Implicit Types s : iolaser_t P.
Notation mgr := (iolaser_t P).

Definition code_of (argv : list bytes) (c : Z) : Prop :=
  (c = 0 ∨ c = 1 ∨ c = 255) ∧ (c = 255 ↔ head argv = Some (str "exit")).

Lemma run_commands_codes argv :
  yields (λ c, c = 0 ∨ c = 1) (Manager.run_laser (P:=P) argv) ∧
  yields (λ c, c = 0 ∨ c = 1) (Manager.run_attenuator (P:=P) polls argv) ∧
  yields (λ c, c = 0 ∨ c = 1) (Manager.run_power_meter (P:=P) argv).
Proof.
  unfold Manager.run_laser, Manager.run_attenuator, Manager.run_power_meter.
  split_and!; solve_yields; auto.
Qed.

Lemma equals_spec (x : bytes) lit : equals x lit = true ↔ x = str lit.
Proof. unfold equals, str_eqb. by rewrite bool_decide_eq_true. Qed.

(** A command returns 0, 1 or 255, and 255 exactly when the first word is
    [exit]. *)
Lemma run_command_codes (argv : list bytes) (s s' : iolaser_t P) (c : Z) :
  Manager.run_command polls argv s = (Ret c, s') → code_of argv c.
Proof.
  intros E. assert (yields (code_of argv) (Manager.run_command (P:=P) polls argv)) as H.
  2: { specialize (H s). by rewrite E in H. }
  clear. destruct (run_commands_codes argv) as (H1 & H2 & H3).
  destruct argv as [|cmd argv]; [apply yields_ret; split; [auto|by split]|].
  simpl. destruct (equals cmd "exit") eqn:Ee.
  { apply equals_spec in Ee as ->. intros s. split; [auto|done]. }
  assert (∀ m : M mgr Z, yields (λ c, c = 0 ∨ c = 1) m → yields (code_of (cmd :: argv)) m) as Hm.
  { intros m Hy s0. specialize (Hy s0). destruct (m s0) as [[] ?]; simpl in *; try done.
    split; [tauto|]. split; [lia|]. intros [= ->]. by vm_compute in Ee. }
  apply Hm. apply yields_catch; [|solve_yields; auto].
  repeat apply yields_if; auto; solve_yields; auto.
Qed.

(** ** Frames *)
Lemma call_untouched {A B C} (p : lens mgr (ptr A)) (f : mgr → C) (m : M A B) :
  (∀ q s, f (put p q s) = f s) → untouched f (Manager.call p m).
Proof.
  intros Hf s. unfold Manager.call. destruct (view p s) as [|x|x]; [done| |done].
  destruct (m x) as [o x']. simpl. apply Hf.
Qed.

Section frame.
Context {C : Type} (f : mgr → C) (Hlog : ∀ lg s, f (s <| logged := lg |>) = f s).

Lemma log_untouched lv fmt args : untouched f (Manager.log lv fmt args).
Proof. apply untouched_modify. intros s. apply Hlog. Qed.
Lemma log_items_untouched lv fmt items : untouched f (Manager.log_items lv fmt items).
Proof.
  induction items as [|[k v] items IH]; simpl; [done|].
  apply untouched_bind; [apply log_untouched|by intros _].
Qed.
Lemma info_lines_untouched ls : untouched f (Manager.info_lines ls).
Proof.
  induction ls as [|x ls IH]; simpl; [done|].
  apply untouched_bind; [apply log_untouched|by intros _].
Qed.

#[local] Hint Resolve log_untouched log_items_untouched info_lines_untouched : untouched.
#[local] Hint Extern 1 (untouched _ (Manager.trace _ _)) => apply log_untouched : untouched.
#[local] Hint Extern 1 (untouched _ (Manager.debug _ _)) => apply log_untouched : untouched.
#[local] Hint Extern 1 (untouched _ (Manager.info _ _)) => apply log_untouched : untouched.
#[local] Hint Extern 1 (untouched _ (Manager.warn _ _)) => apply log_untouched : untouched.
#[local] Hint Extern 1 (untouched _ (Manager.error _ _)) => apply log_untouched : untouched.
#[local] Hint Extern 1 (untouched _ (Manager.critical _ _)) => apply log_untouched : untouched.

Lemma print_help_untouched : untouched f Manager.print_help.
Proof. unfold Manager.print_help. solve_untouched. Qed.
Lemma report_untouched e : untouched f (Manager.report e).
Proof. destruct e; apply log_untouched. Qed.
#[local] Hint Resolve print_help_untouched report_untouched : untouched.

Lemma run_laser_untouched argv : (∀ q s, f (s <| p_laser := q |>) = f s) →
  untouched f (Manager.run_laser argv).
Proof.
  intros Hf. pose proof (λ B (m : M _ B), call_untouched laser_p f m Hf) as Hc.
  unfold Manager.run_laser, Manager.laser_2, Manager.laser_3, Manager.unknown_command.
  solve_untouched.
Qed.
Lemma run_attenuator_untouched argv : (∀ q s, f (s <| p_attenuator := q |>) = f s) →
  untouched f (Manager.run_attenuator polls argv).
Proof.
  intros Hf. pose proof (λ B (m : M _ B), call_untouched attenuator_p f m Hf) as Hc.
  unfold Manager.run_attenuator, Manager.attenuator_2, Manager.attenuator_3,
    Manager.unknown_command, Manager.attenuator_settings, Manager.log_final,
    Manager.query_attenuator_settings, Manager.try_, Manager.att.
  solve_untouched.
Qed.
Lemma run_power_meter_untouched argv : (∀ q s, f (s <| p_power_meter := q |>) = f s) →
  untouched f (Manager.run_power_meter argv).
Proof.
  intros Hf. pose proof (λ B (m : M _ B), call_untouched power_meter_p f m Hf) as Hc.
  unfold Manager.run_power_meter, Manager.pm_get, Manager.pm_set, Manager.pm_2,
    Manager.log_measurement, Manager.pm_set_wavelength, Manager.pm_set_range,
    Manager.pm_set_threshold, Manager.query_power_meter_settings, Manager.try_, Manager.pm.
  solve_untouched.
Qed.

Lemma run_command_untouched argv :
  (∀ q s, head argv = Some (str "laser") → f (s <| p_laser := q |>) = f s) →
  (∀ q s, head argv = Some (str "attenuator") → f (s <| p_attenuator := q |>) = f s) →
  (∀ q s, head argv = Some (str "power_meter") → f (s <| p_power_meter := q |>) = f s) →
  untouched f (Manager.run_command polls argv).
Proof.
  intros Hl Ha Hm. unfold Manager.run_command. destruct argv as [|cmd argv]; [done|].
  unfold Manager.try_. apply untouched_catch; [|solve_untouched].
  do 2 (apply untouched_if; [solve_untouched|]).
  destruct (equals cmd "laser") eqn:E1.
  { apply equals_spec in E1 as ->. apply run_laser_untouched. auto. }
  destruct (equals cmd "attenuator") eqn:E2.
  { apply equals_spec in E2 as ->. apply run_attenuator_untouched. auto. }
  destruct (equals cmd "power_meter") eqn:E3.
  { apply equals_spec in E3 as ->. apply run_power_meter_untouched. auto. }
  solve_untouched.
Qed.
End frame.

(** A command for an instrument goes to its branch; if the instrument is ignored
    it only logs. *)
Lemma dispatch argv :
  Manager.run_command polls (str "laser" :: argv) =
    Manager.try_ (Manager.run_laser (P:=P) (str "laser" :: argv)) ∧
  Manager.run_command polls (str "attenuator" :: argv) =
    Manager.try_ (Manager.run_attenuator (P:=P) polls (str "attenuator" :: argv)) ∧
  Manager.run_command polls (str "power_meter" :: argv) =
    Manager.try_ (Manager.run_power_meter (P:=P) (str "power_meter" :: argv)).
Proof. done. Qed.

Lemma ignored_untouched argv s :
  (g_ignore_laser s = true → p_laser (Manager.try_ (Manager.run_laser argv) s).2 = p_laser s) ∧
  (g_ignore_attenuator s = true →
     p_attenuator (Manager.try_ (Manager.run_attenuator polls argv) s).2 = p_attenuator s) ∧
  (g_ignore_pm s = true →
     p_power_meter (Manager.try_ (Manager.run_power_meter argv) s).2 = p_power_meter s).
Proof.
  unfold Manager.try_, catch, Manager.run_laser, Manager.run_attenuator,
    Manager.run_power_meter, bind, gets. split_and!; intros ->; done.
Qed.

(** C32: a command changes at most the instrument it is for: the configuration and
    the flags stay, the other two instruments stay, and an ignored instrument
    is not touched at all. *)
Theorem run_command_frame (argv : list bytes) (s : iolaser_t P) :
  let s' := (Manager.run_command polls argv s).2 in
  config_laser s' = config_laser s ∧ config_attenuator s' = config_attenuator s ∧
  config_power_meter s' = config_power_meter s ∧
  (head argv ≠ Some (str "laser") ∨ g_ignore_laser s = true → p_laser s' = p_laser s) ∧
  (head argv ≠ Some (str "attenuator") ∨ g_ignore_attenuator s = true →
     p_attenuator s' = p_attenuator s) ∧
  (head argv ≠ Some (str "power_meter") ∨ g_ignore_pm s = true →
     p_power_meter s' = p_power_meter s).
Proof.
  intros s'.
  destruct (ignored_untouched argv s) as (I1 & I2 & I3).
  split_and!; [by apply run_command_untouched..| | |].
  - destruct (decide (head argv = Some (str "laser"))) as [E|E].
    + intros [?|Hi]; [done|]. destruct argv as [|c argv]; [done|].
      pose proof (inj Some c (str "laser") E) as ->. subst s'.
      destruct (dispatch argv) as (D1 & D2 & D3). rewrite D1. auto.
    + intros _. by apply run_command_untouched.
  - destruct (decide (head argv = Some (str "attenuator"))) as [E|E].
    + intros [?|Hi]; [done|]. destruct argv as [|c argv]; [done|].
      pose proof (inj Some c (str "attenuator") E) as ->. subst s'.
      destruct (dispatch argv) as (D1 & D2 & D3). rewrite D2. auto.
    + intros _. by apply run_command_untouched.
  - destruct (decide (head argv = Some (str "power_meter"))) as [E|E].
    + intros [?|Hi]; [done|]. destruct argv as [|c argv]; [done|].
      pose proof (inj Some c (str "power_meter") E) as ->. subst s'.
      destruct (dispatch argv) as (D1 & D2 & D3). rewrite D3. auto.
    + intros _. by apply run_command_untouched.
Qed.

(** ** Defects *)

(** A line of blanks only has no words, so the command counts as failed: the
    program logs that, unmaps the instruments and exits with code 1. *)
Lemma blank_line_exits (buf : bytes) (rest : list bytes) (s : iolaser_t P) :
  buf ≠ [] → Forall (λ c, c = SP) buf →
  Manager.command_loop polls (buf :: rest) s =
  (Manager.critical "Failed to run a command. Exiting." [] ;;
   Manager.unmap_devices ;; ret 1) s.
Proof.
  intros Hne Hsp. pose proof (split_line_is_words buf) as Hw.
  assert (words SP buf = []) as Hnil.
  { clear Hne Hw. unfold words. induction Hsp as [|c buf -> Hsp IH]; [done|]. apply IH. }
  cbn [Manager.command_loop]. rewrite Hw, Hnil. by destruct buf.
Qed.

(** [power_meter set pulse_width] has undefined behaviour whatever the value
    typed: the variable it passes on was never assigned. *)
Lemma pulse_width_undefined (v : bytes) (s : iolaser_t P) :
  g_ignore_pm s = false → is_null (p_power_meter s) = false →
  (Manager.run_command polls [str "power_meter"; str "set"; str "pulse_width"; v] s).1 = Undef.
Proof.
  intros Hi Hp. destruct (dispatch [str "set"; str "pulse_width"; v]) as (_ & _ & ->).
  unfold Manager.try_, catch, Manager.run_power_meter, bind, gets. by rewrite Hi, Hp.
Qed.

Lemma pm_set_threshold_undef v s m m' : p_power_meter s = Obj m →
  PowerMeter.user_threshold (u16 (Manager.num_arg v)) m = (Ret None, m') →
  (Manager.pm_set_threshold v s).1 = Undef.
Proof.
  intros Hp Hu. unfold Manager.pm_set_threshold. cbv zeta.
  unfold Manager.trace, Manager.log, bind, modify.
  unfold Manager.call. cbn [view power_meter_p p_power_meter upd]. rewrite Hp, Hu. done.
Qed.

(** [power_meter set threshold] has undefined behaviour whenever the
    instrument answers with something else than an acknowledgement or a refusal,
    which leaves the compared variable unassigned. *)
Lemma threshold_undefined (v : bytes) (s : iolaser_t P) (m m' : powermeter P) :
  g_ignore_pm s = false → p_power_meter s = Obj m →
  PowerMeter.user_threshold (u16 (Manager.num_arg v)) m = (Ret None, m') →
  (Manager.run_command polls [str "power_meter"; str "set"; str "threshold"; v] s).1 = Undef.
Proof.
  intros Hi Hp Hu. destruct (dispatch [str "set"; str "threshold"; v]) as (_ & _ & ->).
  unfold Manager.try_, catch, Manager.run_power_meter, bind, gets. rewrite Hi, Hp.
  cbn [is_null]. change (Manager.pm_set (str "threshold") v) with (Manager.pm_set_threshold (P:=P) v).
  change (equals (str "set") "set") with true. cbv iota.
  unfold Manager.trace, Manager.log, modify. cbv beta iota.
  match goal with |- context [Manager.pm_set_threshold v ?s0] =>
    pose proof (pm_set_threshold_undef v s0 m m' Hp Hu) as H end.
  by destruct (Manager.pm_set_threshold v _) as [[] ?].
Qed.

Lemma print_help_returns s : ∃ s', Manager.print_help s = (Ret tt, s').
Proof.
  assert (∀ ls s, ∃ s', Manager.info_lines (P:=P) ls s = (Ret tt, s')) as Hl.
  { induction ls as [|x ls IH]; intros s0; [by eexists|]. apply IH. }
  assert (∀ (b : bool) ls s, ∃ s', (when b do Manager.info_lines (P:=P) ls) s = (Ret tt, s')) as Hw.
  { intros [] ls s0; [apply Hl|by eexists]. }
  unfold Manager.print_help. unfold Manager.info, Manager.log, bind at 1, modify.
  repeat first [rewrite (bind_ret_run (gets _) _ _ _ _ eq_refl) |
    match goal with |- context [bind (when ?b do Manager.info_lines ?ls) _ ?s0] =>
      destruct (Hw b ls s0) as [? E]; rewrite (bind_ret_run _ _ _ _ _ E); clear E end].
  apply Hl.
Qed.

(** The command [attenuator] without arguments logs an error and the help text
    also when its query has succeeded. *)
Lemma no_argument_error (s s1 : iolaser_t P) :
  g_ignore_attenuator s = false → is_null (p_attenuator s) = false →
  Manager.query_attenuator_settings polls s = (Ret 0, s1) →
  Manager.run_command polls [str "attenuator"] s =
  (Manager.error "Unknown attenuator command" [] ;; Manager.print_help ;; ret 0) s1.
Proof.
  intros Hi Hp Hq. destruct (dispatch []) as (_ & -> & _).
  unfold Manager.try_, catch, Manager.run_attenuator, bind, gets, Manager.error, Manager.log,
    modify. rewrite Hi, Hp, Hq. change (negb (0 =? 0)) with false. cbv iota beta.
  match goal with |- context [Manager.print_help ?s0] =>
    destruct (print_help_returns s0) as [s2 ->] end. done.
Qed.

(** The option [-v] has no effect: the options without it give the same run. *)
Lemma verbosity_ignored (opts : list opt) (lvl lvl' : Z) (file : bytes) :
  Manager.parse_options (P:=P) opts lvl file =
  Manager.parse_options (List.filter (λ o, match o with Opt_v => false | _ => true end) opts)
    lvl' file.
Proof.
  revert lvl file. induction opts as [|o opts IH]; intros lvl file; [done|].
  destruct o; cbn [List.filter Manager.parse_options]; [apply IH| | |done].
  - by rewrite !IH with (lvl := lvl).
  - by rewrite IH.
Qed.

(** When the laser fails to initialise but its object exists, and the power
    meter initialises, the mapping reports success: the failure is overwritten. *)
Lemma laser_failure_lost (r rl : Z) (s s1 s2 : iolaser_t P) :
  g_ignore_laser s = false →
  (Manager.debug "Mapping the laser" [] ;; Manager.map_laser new_serial ports) s = (Ret rl, s1) →
  rl ≠ 0 → is_null (p_laser s1) = false → g_ignore_pm s1 = false →
  (Manager.critical "Failed to initalize the laser" [] ;;
   Manager.debug "Mapping the power meter" [] ;;
   Manager.map_power_meter new_serial ports) s1 = (Ret 0, s2) →
  is_null (p_power_meter s2) = false →
  Manager.map_devices_laser new_serial ports r s = (Ret 0, s2).
Proof.
  intros Hi Hl Hr Hp Hm Hpm Hq. unfold Manager.map_devices_laser, Manager.map_devices_pm.
  unfold bind in *. unfold gets. rewrite Hi. cbv iota.
  destruct (Manager.debug "Mapping the laser" [] s) as [[] s0]; try done. rewrite Hl.
  rewrite (proj2 (Z.eqb_neq rl 0) Hr). cbn [negb].
  change (Manager.critical (P:=P) "Failed to initalize the laser" [] s1) with
    (Ret tt, s1 <| logged := logged s1 ++ [mkEntry Lcritical "Failed to initalize the laser" []] |>) in *.
  cbv iota in *. match goal with |- context [is_null (p_laser ?x)] =>
    change (p_laser x) with (p_laser s1); rewrite Hp; cbv iota beta;
    change (g_ignore_pm x) with (g_ignore_pm s1); rewrite Hm; cbv iota beta end.
  destruct (Manager.debug "Mapping the power meter" [] _) as [[] s3]; try done.
  rewrite Hpm. change (negb (0 =? 0)) with false. unfold ret. cbv iota beta. by rewrite Hq.
Qed.

End commands.

(** ** Runs *)
Definition mgr_on (l : ptr (laser loop)) (a : ptr (attenuator loop)) (m : ptr (powermeter loop)) :
    iolaser_t loop :=
  globals <| p_laser := l |> <| p_attenuator := a |> <| p_power_meter := m |>.
Notation run argv s := (Manager.run_command 0 argv s).


Lemma run_command_codes_witness :
  code_of [str "laser"; str "fire_start"] 0.
Proof.
  set (s := mgr_on (Obj (laser_on (loop_port [] [] []))) Null Null).
  apply (run_command_codes 0 [str "laser"; str "fire_start"] s
    (run [str "laser"; str "fire_start"] s).2 0).
  apply run_pair. by vm_compute.
Defined.

Lemma blank_line_exits_witness :
  (Manager.command_loop 0 [str "  "; str "help"] (mgr_on Null Null Null)).1 = Ret 1.
Proof.
  rewrite (blank_line_exits 0 (str "  ") [str "help"] (mgr_on Null Null Null)).
  - by vm_compute.
  - done.
  - by repeat constructor.
Defined.

Lemma pulse_width_undefined_witness :
  (run [str "power_meter"; str "set"; str "pulse_width"; str "2"]
     (mgr_on Null Null (Obj (pm_on [])))).1 = Undef.
Proof.
  by apply (pulse_width_undefined 0 (str "2") (mgr_on Null Null (Obj (pm_on [])))).
Defined.

Lemma threshold_undefined_witness :
  (run [str "power_meter"; str "set"; str "threshold"; str "100"]
     (mgr_on Null Null (Obj (pm_on [str "!busy" ++ [CR; LF]])))).1 = Undef.
Proof.
  set (m := pm_on [str "!busy" ++ [CR; LF]]).
  apply (threshold_undefined 0 (str "100") (mgr_on Null Null (Obj m)) m
    (PowerMeter.user_threshold 100 m).2); [done..|].
  change (u16 (Manager.num_arg (str "100"))) with 100.
  apply run_pair. by vm_compute.
Defined.

(** An attenuator that answers every query. *)
Definition att_answers : attenuator loop :=
  att_on [str "pc" ++ join [";"%char] (map show status_fields) ++ [LF; CR];
          str "n6ATT1788D" ++ [LF; CR]; str "pidle" ++ [LF; CR]; report 0 250].

Lemma no_argument_error_witness :
  let s := mgr_on Null (Obj att_answers) Null in
  let s1 := (Manager.query_attenuator_settings 0 s).2 in
  run [str "attenuator"] s =
  (Manager.error "Unknown attenuator command" [] ;; Manager.print_help ;; ret 0) s1.
Proof.
  intros s s1. apply (no_argument_error 0 s s1); [done..|].
  unfold s1. apply run_pair. by vm_compute.
Defined.

(** A laser that does not answer, and a power meter that does. *)
Definition half_config : iolaser_t loop :=
  globals <| config_laser := mkDev (str "USB1") [] 9600 |>
          <| config_power_meter := mkDev (str "USB2") [] 9600 |>.
Definition half_ports : list PortInfo :=
  [mkPortInfo (str "/dev/ttyUSB1") [] []; mkPortInfo (str "/dev/ttyUSB2") [] []].
Definition half_serial (n : nat) : loop :=
  match n with
  | O => loop_init [] [] []
  | _ => loop_init (map (λ r, str r ++ [CR; LF])
      ["* PY 12345 PE50 80000001"; "* VEGA 54321 VEGA"; "*4 10.0J 2.00J 200mJ ";
       "*100 50 2500"; "*1 1.0ms 2.0ms "; "*DISCRETE 1 266 355"; "* 1 NONE 0.5s 1s ";
       "*5000"]%string) [] []
  end.
Notation half_laser :=
  ((Manager.debug "Mapping the laser" [] ;; Manager.map_laser half_serial half_ports) half_config).
Notation half_pm :=
  ((Manager.critical "Failed to initalize the laser" [] ;;
    Manager.debug "Mapping the power meter" [] ;;
    Manager.map_power_meter half_serial half_ports) half_laser.2).

Lemma laser_failure_lost_witness :
  Manager.map_devices_laser half_serial half_ports 0 half_config = (Ret 0, half_pm.2).
Proof.
  apply (laser_failure_lost half_serial half_ports 0 1 half_config half_laser.2 half_pm.2).
  - done.
  - apply run_pair. by vm_compute.
  - done.
  - by vm_compute.
  - by vm_compute.
  - apply run_pair. by vm_compute.
  - by vm_compute.
Defined.

