(* ===== verification/Platforms.v ===== *)
(** * The program on Linux and Windows

    The manager of Manager.v runs on any implementation of the port and on any list
    of ports.  Here it is put together with the implementations the build selects:
    a port constructed with the default arguments of [Serial] satisfies what the
    manager needs of it, on both implementations, so its guarantees hold of the
    complete program on each platform.  On macOS unix.cc is compiled with another
    clock and other rates, which are not modelled; there the ports of PortsMac.v are
    combined with the port of Linux. *)
From S2P Require Import Prelude CppStd Utilities Ports PortsWin PortsMac Serial.
From S2P Require Import UnixSerial WinSerial Device Laser Attenuator PowerMeter Manager ManagerFacts.

(** The default arguments of the constructors of [Timeout] and [Serial]. *)
Definition default_timeout : Timeout := mkTimeout 0 0 0 0 0.
Definition default_baudrate : Z := 9600.

(** [Serial()] on the two implementations; [garbage] is what uninitialised members
    hold. *)
Definition unix_serial {W} `{Unix W} (garbage : Z) (w : W) : outcome unit * unix W :=
  Serial.construct default_timeout
    (UnixImpl.init [] default_baudrate eightbits parity_none stopbits_one flowcontrol_none
       garbage w).

Definition win_serial {W} `{Windows W} (garbage : Z) (w : W) : outcome unit * win W :=
  Serial.construct default_timeout
    (WinImpl.init [] default_baudrate eightbits parity_none stopbits_one flowcontrol_none
       garbage w).

(** ** The default port *)
Lemma unix_serial_unlocked {W} `{UnixOK W} garbage (w : W) :
  (unix_serial garbage w).1 = Ret tt ∧ unlocked (unix_serial garbage w).2 ∧
  Serial.isOpen (unix_serial garbage w).2 = false.
Proof. done. Qed.

(** Both mutexes are created. *)
Definition mutexes_available {W} `{Windows W} (w : W) : Prop :=
  (CreateMutex w).1 ≠ 0 ∧ (CreateMutex (CreateMutex w).2).1 ≠ 0.

Lemma win_serial_run {W} `{Windows W} garbage (w w1 w2 : W) h1 h2 :
  CreateMutex w = (h1, w1) → CreateMutex w1 = (h2, w2) →
  win_serial garbage w =
  (Ret tt, mkWin [] INVALID_HANDLE_VALUE false default_timeout default_baudrate parity_none
    eightbits stopbits_one flowcontrol_none h1 h2 w2).
Proof.
  intros E1 E2. unfold win_serial, Serial.construct. cbn.
  unfold WinImpl.construct, bind, gets, WinImpl.sys, modify. cbn. rewrite E1. cbn.
  rewrite E2. done.
Qed.

Lemma win_serial_unlocked {W} `{HOK : WindowsOK W} garbage (w : W) : mutexes_available w →
  (win_serial garbage w).1 = Ret tt ∧ unlocked (win_serial garbage w).2 ∧
  Serial.isOpen (win_serial garbage w).2 = false.
Proof.
  unfold mutexes_available. destruct (CreateMutex w) as [h1 w1] eqn:E1. cbn [fst snd].
  destruct (CreateMutex w1) as [h2 w2] eqn:E2. cbn [fst snd]. intros [H1 H2].
  rewrite (win_serial_run garbage w w1 w2 h1 h2) by done.
  destruct (create_mutex_new _ _ _ E1 H1) as [N1 [_ M1]].
  destruct (create_mutex_new _ _ _ E2 H2) as [N2 [_ M2]].
  assert (h1 ≠ h2) as Hne by (intros ->; by rewrite M1, Z.eqb_refl in N2).
  split; [done|]. split; [|done]. unfold unlocked, pv, win_obs, mutexes_ok. cbn.
  rewrite (M2 h1), (M2 h2), M1, !Z.eqb_refl, invalid_no_mutex.
  by rewrite (proj2 (Z.eqb_neq h1 h2) Hne).
Qed.

(** ** The programs *)

(** The lines typed wait for no motion and are none of the defective commands. *)
Definition sound_lines (lines : list bytes) : Prop :=
  Forall (λ x, waits (split_line x) = false ∧ risky (split_line x) = false) lines.

(** The run ends, by an exit code or an exception; on an exit code the laser was not
    mapped or is parked. *)
Definition ends_parked {P} `{Observable P} (run : outcome Z * iolaser_t P) : Prop :=
  defined run.1 ∧ ∀ code, run.1 = Ret code → laser_off run.2.

Lemma program_ends {P} `{SerialImplOK P, !SerialImplLive P} polls (new_serial : nat → P)
    ports read_config argv lines :
  (∀ n, unlocked (new_serial n)) → sound_lines lines →
  ends_parked (Manager.main polls new_serial ports read_config argv lines globals).
Proof.
  intros Hnew Hl. unfold sound_lines in Hl. rewrite Forall_forall in Hl.
  assert (wp (Manager.main polls new_serial ports read_config argv lines)
    (ends False False) globals) as Hw.
  { apply main_ends'; [done|..]; intros x Hx; destruct (Hl x Hx) as [Hw Hr];
      rewrite ?Hw, ?Hr; done. }
  revert Hw. unfold wp, ends_parked.
  destruct (Manager.main _ _ _ _ _ _ _) as [[] ?]; simpl; try done.
Qed.

(** The program on Linux, with the ports found in sysfs and each instrument on a
    default-constructed termios port, ends on every input whose lines wait for no
    motion and are none of the defective commands; when it returns, the laser is
    parked. *)
Lemma linux_program {W} `{UnixOK W} polls (garbage : nat → Z) (systems : nat → W) alloc fs
    read_config argv lines :
  sound_lines lines →
  ends_parked (Manager.main polls (λ n, (unix_serial (garbage n) (systems n)).2)
    (Ports.list_ports alloc fs) read_config argv lines globals).
Proof. intros Hl. apply program_ends; [|done]. intros n. by apply unix_serial_unlocked. Qed.

(** The same program with the ports found in the registry of macOS. *)
Lemma mac_program {W} `{UnixOK W} polls (garbage : nat → Z) (systems : nat → W) reg fuel r ports
    r' read_config argv lines :
  MacPorts.list_ports reg fuel r = (Ret ports, r') → sound_lines lines →
  ends_parked (Manager.main polls (λ n, (unix_serial (garbage n) (systems n)).2)
    ports read_config argv lines globals).
Proof. intros _ Hl. apply program_ends; [|done]. intros n. by apply unix_serial_unlocked. Qed.


(** ** Sessions *)
Lemma session_lines_sound : sound_lines [str "laser fire_start"; str "exit"].
Proof. repeat constructor. Qed.

Definition com3_config (file : bytes) : option json_result :=
  Some (Json 1 (λ k, if String.eqb k "laser" then Some (Some (str "COM3")) else None)).

Notation linux_session := (Manager.main 0 (λ n, (unix_serial 0 (tty_boot [] false)).2)
    (Ports.list_ports (λ _, true) two_devices) session_config []
    [str "laser fire_start"; str "exit"] globals).
Notation windows_session ports := (Manager.main 0 (λ n, (win_serial 0 (machine_boot false)).2)
    ports com3_config [] [str "laser fire_start"; str "exit"] globals).

Definition parking_bytes : bytes :=
  str "SE" ++ [CR] ++ str "ST 0" ++ [CR] ++ str "SH 0" ++ [CR].

(** A laser that does not answer the query of its security code cannot be set to
    fire; both sessions return and leave it parked. *)
Example linux_session_parks :
  linux_session.1 = Ret 0 ∧
  match p_laser linux_session.2 with
  | Freed l => os_out (os (m_serial (l_base l))) = parking_bytes
  | _ => False
  end.
Proof. vm_compute. split; reflexivity. Qed.

Example windows_session_parks :
  match WinPorts.list_ports two_entries (repeat "x"%char 256) with
  | Ret ports =>
    (windows_session ports).1 = Ret 0 ∧
    match p_laser (windows_session ports).2 with
    | Freed l => c_out (w_os (m_serial (l_base l))) = parking_bytes
    | _ => False
    end
  | _ => False
  end.
Proof. vm_compute. split; reflexivity. Qed.

Lemma linux_program_witness : ends_parked linux_session.
Proof.
  apply (linux_program 0 (λ _, 0) (λ _, tty_boot [] false) (λ _, true) two_devices
    session_config [] [str "laser fire_start"; str "exit"]). exact session_lines_sound.
Defined.

