(* ===== verification/Bench.v ===== *)
(** * The common part of the test programs, and src/probe_ports.cc

    The programs under examples/ find the port of an instrument, build its driver,
    query it and delete the driver again.  This file has the console and the pointer
    they share, their exception handlers, and the rules by which their ends are
    proved.  The fixed texts they print are recorded with the values read. *)
From S2P Require Import Prelude CppStd Utilities Ports Serial Device Laser Attenuator.
From S2P Require Import PowerMeter Manager.

(** The console and the pointer to the driver under test. *)
Record bench (A : Type) := mkBench {
  b_said : list (string * list arg);
  b_dev : ptr A;
}.
Arguments mkBench {A}.
Arguments b_said {A}.
Arguments b_dev {A}.
#[export] Instance eta_bench A : Eta (bench A) := λ b, mkBench (b_said b) (b_dev b).

Module Bench.
Section bench_ops.
Context {A : Type}.

(** The start of a test function. *)
Definition start : bench A := mkBench [] Null.

Definition say (what : string) (args : list arg) : M (bench A) unit :=
  modify (λ b, b <| b_said := b_said b ++ [(what, args)] |>).

Definition call {B} (m : M A B) : M (bench A) B := λ b,
  match b_dev b with
  | Obj x => let '(o, x') := m x in (o, b <| b_dev := Obj x' |>)
  | _ => (Undef, b)
  end.

(** [p = new T(...)], on the object before the body of its constructor. *)
Definition new_device (x : A) (construct : M A unit) : M (bench A) unit := λ b,
  match construct x with
  | (Ret _, x') => (Ret tt, b <| b_dev := Obj x' |>)
  | (Throw e, _) => (Throw e, b)
  | (Undef, _) => (Undef, b)
  | (Spin, _) => (Spin, b)
  end.

(** [if (p) delete p]. *)
Definition delete_device (destroy : M A unit) : M (bench A) unit := λ b,
  match b_dev b with
  | Null => (Ret tt, b)
  | Obj x => let '(o, x') := destroy x in (o, b <| b_dev := Freed x' |>)
  | Freed _ => (Undef, b)
  end.

(** The search for the port. *)
Definition locate (ports : list PortInfo) (sn : bytes) : M (bench A) bytes :=
  let port := find_port ports sn in
  (if size port =? 0 then
     say "Failed to find the port" [] ;; say "{0}" [AStr (enumerate_ports ports)]
   else say "Found port {0}" [AStr port]) ;;
  ret port.

(** The handlers; only test_laser.cc has one for [range_error]. *)
Definition report (ranges : bool) (e : exn) : M (bench A) unit :=
  match e with
  | PortNotOpenedException _ => say "Port not open exception : {0}" [AWhat e]
  | SerialException _ => say "Serial exception : {0}" [AWhat e]
  | range_error _ =>
    if ranges then say "Range error : {0}" [AWhat e] else say "STL exception : {0}" [AWhat e]
  | _ => say "STL exception : {0}" [AWhat e]
  end.

(** [for (auto t : lines) cout << ...] *)
Fixpoint dump (lines : list bytes) : M (bench A) unit :=
  match lines with
  | [] => ret tt
  | t :: lines' => say "[{0}]" [AStr (escape (c_str t))] ;; dump lines'
  end.

Fixpoint dump_map (m : list (Z * bytes)) : M (bench A) unit :=
  match m with
  | [] => ret tt
  | (k, v) :: m' => say "{0} : [{1}]" [AInt k; AStr v] ;; dump_map m'
  end.

(** The tests of a program one after the other: an exception ends the program. *)
Fixpoint run_all (tests : list (M (bench A) unit)) : outcome unit * list (bench A) :=
  match tests with
  | [] => (Ret tt, [])
  | t :: tests' =>
    match t start with
    | (Ret _, b) => let '(o, bs) := run_all tests' in (o, b :: bs)
    | (o, b) => (o, [b])
    end
  end.
End bench_ops.
End Bench.
(** ** probe_ports.cc *)
Module ProbePorts.
Definition main (ports : list PortInfo) : bytes * Z := (enumerate_ports ports, 0).
End ProbePorts.

Import Bench.

(** ** The tests end *)
Section bench_facts.
Context {A : Type} (R : A → Prop).

(** The driver exists and is in order. *)
Definition holding (b : bench A) : Prop := ∃ x, b_dev b = Obj x ∧ R x.
(** The driver, if it was built, is or was in order. *)
Definition left_ok (b : bench A) : Prop :=
  match b_dev b with Null => True | Obj x | Freed x => R x end.

Lemma say_safe what args : safe holding (say what args).
Proof. by intros b [x Hx]; exists x. Qed.

Lemma call_safe {B} (m : M A B) : safe R m → safe holding (call m).
Proof.
  intros Hm b (x & Hx & HR). specialize (Hm x HR). unfold wp, call in *. rewrite Hx.
  destruct (m x) as [o x']. destruct o; simpl in *; try done; by exists x'.
Qed.

Lemma dump_safe lines : safe holding (dump lines).
Proof.
  induction lines as [|t lines IH]; simpl; [apply safe_ret|].
  apply safe_bind; [apply say_safe|done].
Qed.

Lemma dump_map_safe m : safe holding (dump_map m).
Proof.
  induction m as [|[k v] m IH]; simpl; [apply safe_ret|].
  apply safe_bind; [apply say_safe|done].
Qed.

(** The body of a test: the constructor, then operations on the driver. *)
Lemma new_then x construct (rest : M (bench A) unit) b :
  b_dev b = Null → wp construct (post (λ _, R) (λ _ _, True)) x → safe holding rest →
  wp (new_device x construct ;; rest)
    (post (λ _, holding) (λ _ b', b_dev b' = Null ∨ holding b')) b.
Proof.
  intros Hb Hc Hr. apply wp_bind. unfold wp, new_device in *.
  destruct (construct x) as [[] x']; simpl in *; try done; [|by left].
  assert (holding (b <| b_dev := Obj x' |>)) as H by by exists x'.
  specialize (Hr _ H). unfold wp in Hr. destruct (rest _) as [[] b']; simpl in *; auto.
Qed.

Lemma report_quiet ranges e (b : bench A) :
  wp (report ranges e) (post (λ _ b', b_dev b' = b_dev b) (λ _ _, False)) b.
Proof. destruct e; try done. by destruct ranges. Qed.

(** The handlers take every exception but the end of the program. *)
Lemma caught_then (body : M (bench A) unit) ranges b :
  wp body (post (λ _, holding) (λ _ b', b_dev b' = Null ∨ holding b')) b →
  wp (catch body (report ranges))
    (post (λ _ b', b_dev b' = Null ∨ holding b')
          (λ e b', e = terminate ∧ (b_dev b' = Null ∨ holding b'))) b.
Proof.
  unfold wp, catch. destruct (body b) as [[a|e| |] b']; simpl; auto. intros H.
  pose proof (report_quiet ranges e b') as Hq. unfold wp in Hq.
  assert (e = terminate ∨ e ≠ terminate) as [->|He] by (destruct e; auto; by right).
  { by split. }
  assert (∀ T (x y : T), match e with terminate => x | _ => y end = y) as Hm
    by by intros; destruct e.
  rewrite Hm. unfold holding in *. destruct (report ranges e b') as [[] b2]; simpl in *; try done.
  by rewrite Hq.
Qed.

(** Deleting the driver. *)
Lemma delete_ends destroy b :
  safe R destroy → (∀ x e x', destroy x = (Throw e, x') → e = terminate) →
  b_dev b = Null ∨ holding b →
  wp (delete_device destroy) (post (λ _, left_ok) (λ e b', e = terminate ∧ left_ok b')) b.
Proof.
  intros Hd Ht [Hb|(x & Hb & HR)]; unfold wp, delete_device; rewrite Hb.
  { unfold left_ok. simpl. by rewrite Hb. }
  specialize (Hd x HR). unfold wp in Hd. specialize (Ht x).
  destruct (destroy x) as [[] x']; simpl in *; try done. split; [by eapply Ht|done].
Qed.

(** The end of a test that only deletes: an exception leaves it only by ending the
    program in a destructor. *)
Lemma test_ends (body : M (bench A) unit) ranges destroy b :
  wp body (post (λ _, holding) (λ _ b', b_dev b' = Null ∨ holding b')) b →
  safe R destroy → (∀ x e x', destroy x = (Throw e, x') → e = terminate) →
  wp (catch body (report ranges) ;; delete_device destroy)
    (post (λ _, left_ok) (λ e b', e = terminate ∧ left_ok b')) b.
Proof.
  intros Hb Hd Ht.
  eapply wp_bind_post with (R0 := λ _ b', b_dev b' = Null ∨ holding b').
  - eapply wp_mono; [by apply caught_then|]. intros [|e| |] b'; simpl; try done.
    intros [-> [E|(x & E & HR)]]; (split; [done|]); unfold left_ok; by rewrite E.
  - intros _ b' H. by apply delete_ends.
Qed.

(** The end of a test that first closes the port, outside of the handlers. *)
Lemma closing_ends (body : M (bench A) unit) ranges (close destroy : M A unit) b :
  wp body (post (λ _, holding) (λ _ b', b_dev b' = Null ∨ holding b')) b →
  safe R destroy → (∀ x e x', destroy x = (Throw e, x') → e = terminate) → safe R close →
  wp (catch body (report ranges) ;;
      p <- gets b_dev ;;
      when negb (is_null p) do (call close ;; delete_device destroy))
    (post (λ _, left_ok) (λ _, left_ok)) b.
Proof.
  intros Hb Hd Ht Hc.
  assert (∀ b, b_dev b = Null ∨ holding b → left_ok b) as Hl.
  { intros b0 [E|(x & E & HR)]; unfold left_ok; by rewrite E. }
  eapply wp_bind_post with (R0 := λ _ b', b_dev b' = Null ∨ holding b').
  { eapply wp_mono; [by apply caught_then|]. intros [] b'; simpl; try done. intros [_ H]. auto. }
  intros _ b' H. apply wp_bind_gets. destruct H as [E|(x & E & HR)]; rewrite E; simpl.
  { apply wp_ret. simpl. auto. }
  eapply wp_bind_post with (R0 := λ _, holding).
  { eapply wp_mono; [by apply (call_safe _ Hc); exists x|]. intros [] b2; simpl; auto. }
  intros _ b2 H2. eapply wp_mono; [apply delete_ends; by auto|].
  intros [] b3; simpl; try done. tauto.
Qed.

Lemma locate_ends ports sn (b : bench A) :
  wp (locate ports sn) (post (λ _ b', b_dev b' = b_dev b) (λ _ _, False)) b.
Proof. unfold locate. by destruct (size _ =? 0). Qed.
End bench_facts.

Lemma gets_call_safe {A B} (R : A → Prop) (f : A → B) : safe (holding R) (call (gets f)).
Proof. apply call_safe, safe_gets. Qed.

(** The operations the tests call are looked up in the database [bench]. *)
Create HintDb bench discriminated.
#[export] Hint Constants Opaque : bench.

(** The result of a call, taken apart when it is a tuple. *)
Ltac intros_split :=
  intros ?; repeat match goal with x : (_ * _)%type |- _ => destruct x end.

Ltac solve_test := repeat
  match goal with
  | |- safe _ (bind _ _) => apply safe_bind; [|intros_split]
  | |- safe _ (if _ then _ else _) => apply safe_if; [|apply safe_ret]
  | |- safe _ (say _ _) => apply say_safe
  | |- safe _ (dump _) => apply dump_safe
  | |- safe _ (dump_map _) => apply dump_map_safe
  | |- safe _ (call (gets _)) => apply gets_call_safe
  | |- safe _ (call _) => apply call_safe; solve [eauto 3 with bench]
  | |- safe _ _ => solve [eauto 3 with bench]
  end.

Lemma noexcept_terminate {S A} (m : M S A) s e s' : noexcept m s = (Throw e, s') → e = terminate.
Proof. unfold noexcept. destruct (m s) as [[] ?]; congruence. Qed.

Lemma run_all_ok {A} (tests : list (M (bench A) unit)) (Q : nat → bench A → Prop) :
  (∀ i t, tests !! i = Some t → wp t (post (λ _, Q i) (λ _, Q i)) start) →
  defined (run_all tests).1 ∧ ∀ i b, (run_all tests).2 !! i = Some b → Q i b.
Proof.
  revert Q. induction tests as [|t tests IH]; intros Q Ht; [done|]. cbn [run_all].
  pose proof (Ht 0%nat t eq_refl) as H0. unfold wp in H0.
  destruct (t start) as [[] b] eqn:E; simpl in H0; try done.
  - destruct (IH (λ i, Q (S i))) as [H1 H2]; [intros i t' Hi; by apply (Ht (S i))|].
    destruct (run_all tests) as [o bs]. split; [done|]. intros [|i] b' Hi.
    + by injection Hi as <-.
    + by apply H2.
  - split; [done|]. intros [|i] b' Hi; [by injection Hi as <-|done].
Qed.
