(* ===== verification/TestLaser.v ===== *)
(** * examples/test_laser.cc: the test of the laser

    Five runs with different suffixes and timeouts.  The program ends whatever the
    laser answers, and never sends a command to fire. *)
From S2P Require Import Prelude CppStd Utilities Ports Serial Loopback Device Floats Laser.
From S2P Require Import Attenuator PowerMeter Manager ManagerFacts Bench.
Import Bench.

Module TestLaser.
Section program.
Context {P : Type} {HI : SerialImpl P}.
Context (ports : list PortInfo).

Definition sleep (ms : Z) : M (bench (laser P)) unit :=
  call (Laser.on_serial (modify (sleep_for_ms ms))).

(** The body of the [try] block. *)
Definition body (port : bytes) (serial : P) (timeout : Z) (read_suffix : bytes) :
    M (bench (laser P)) unit :=
  new_device (Laser.init (c_str port) 9600 serial) Laser.construct ;;
  sleep 500 ;;
  (when negb (size read_suffix =? 0) do (
    say "Setting the read suffix..." [] ;;
    call (Laser.on_device (Device.set_read_suffix read_suffix)))) ;;
  (when negb (timeout =? 0) do (
    say "Setting timeout..." [] ;;
    call (Laser.on_device (Device.set_timeout_ms timeout)) ;;
    say "Attempting to read fragments from past eras ...this may take a bit!" [] ;;
    lines <- call (Laser.on_device Device.read_lines) ;;
    say "Got {0}tokens. Dumping..." [AInt (Z.of_nat (length lines))] ;;
    dump lines)) ;;
  say "Checking interlocks..." [] ;;
  code <- call Laser.security ;;
  say "Laser responded [{0}]" [AStr code] ;;
  say "Get shot count..." [] ;;
  count <- call Laser.get_shot_count ;;
  say "Laser responded [{0}]" [AInt count] ;;
  say "Opening the shutter for 500ms..." [] ;;
  call Laser.shutter_open ;;
  sleep 500 ;;
  call Laser.shutter_close ;;
  say "All done." [].

(** [m_laser->close()] is outside the [try] block. *)
Definition test_laser (serial : P) (timeout : Z) (read_suffix : bytes) :
    M (bench (laser P)) unit :=
  say "Runnig the tests with read suffix [{0}] and timeout [{1}] ms"
    [AStr (escape (c_str read_suffix)); AInt timeout] ;;
  port <- locate ports (str "A9J0G3SV") ;;
  catch (body port serial timeout read_suffix) (report true) ;;
  p <- gets b_dev ;;
  when negb (is_null p) do (
    call (Laser.on_device Device.close) ;;
    delete_device (Laser.on_device Device.destroy)).

(** The five tests; [serials] are the ports they construct. *)
Definition main (serials : nat → P) : outcome unit * list (bench (laser P)) :=
  run_all
    [test_laser (serials 0%nat) 200 [LF];
     test_laser (serials 1%nat) 0 [LF];
     test_laser (serials 2%nat) 200 [CR];
     test_laser (serials 3%nat) 200 [CR; LF];
     test_laser (serials 4%nat) 0 [CR]].
End program.
End TestLaser.

(** ** What the tests of the laser put on the wire *)
Section wire.
Context {P : Type} {HI : SerialImpl P} {HO : Observable P} {HOK : SerialImplOK P}
  {HLive : SerialImplLive P}.
Implicit Types d : device P.

(** The bytes after [o0] are commands of [cmds], complete or cut short. *)
Definition spoken (cmds : list bytes) (o0 o : bytes) : Prop :=
  ∃ chunks, o = o0 ++ concat chunks ∧
    Forall (λ c, ∃ cmd n, In cmd cmds ∧ c = take n (cmd ++ [CR])) chunks.

Lemma spoken_refl cmds o : spoken cmds o o.
Proof. exists []. by rewrite app_nil_r. Qed.

Lemma spoken_add cmds o0 o cmd n :
  spoken cmds o0 o → In cmd cmds → spoken cmds o0 (o ++ take n (cmd ++ [CR])).
Proof.
  intros (cs & -> & Hc) Hin. exists (cs ++ [take n (cmd ++ [CR])]). split.
  - rewrite concat_app, <- app_assoc. simpl. by rewrite app_nil_r.
  - apply Forall_app. split; [done|]. constructor; [eauto|constructor].
Qed.

(** A device with the framing of the laser, in order, that spoke only [cmds]. *)
Definition speaking (cmds : list bytes) (o0 : bytes) d : Prop :=
  ready d ∧ m_com_pre d = [] ∧ m_com_sfx d = [CR] ∧ spoken cmds o0 (out d).

Context (cmds : list bytes) (o0 : bytes).
Notation quietly := (speaking cmds o0).

Lemma sends_quietly d d' : quietly d → sends d [] d' → quietly d'.
Proof.
  intros (Hr & Hp & Hs & Hk) H. destruct (H) as (E & _ & Ho).
  split; [by eapply sends_ready|]. rewrite Ho, app_nil_r. rewrite E. done.
Qed.

(** Operations of the device that hand nothing over. *)
Lemma silent_safe {A} (m : M (device P) A) : safe ready m →
  (∀ d, idle d → wp m (spec (λ _, sends d []) (λ _, sends d [])) d) → safe quietly m.
Proof.
  intros Hm Hs d Hd. eapply wp_mono.
  { apply (wp_spec_safe ready); [done|apply Hd|]. apply Hs. apply Hd. }
  intros [] d'; simpl; try done; by apply sends_quietly.
Qed.

Lemma serial_silent_safe {A} (m : M P A) : safe unlocked m → silent m →
  safe quietly (Device.on_serial m).
Proof.
  intros Hm Hs. apply silent_safe; [by apply on_serial_safe|]. intros d Hi.
  apply on_serial_silent; [done|by apply sends_refl].
Qed.

Lemma quiet_silent_safe {A} (m : M P A) : quiet m → safe unlocked m →
  safe quietly (Device.on_serial m).
Proof.
  intros Hq Hs. apply serial_silent_safe; [done|]. apply silent_same. intros s Hu.
  apply Hq. apply Hu.
Qed.

Lemma quietly_write cmd : In cmd cmds → safe quietly (Device.write_cmd cmd).
Proof.
  intros Hin d (Hr & Hp & Hs & Hk).
  assert (∀ n d', sends d (take n (frame d cmd)) d' → quietly d') as Hadd.
  { intros n d' H. destruct (H) as (E & _ & Ho). split; [by eapply sends_ready|].
    split; [by rewrite E|]. split; [by rewrite E|]. rewrite Ho. unfold frame.
    rewrite Hp, Hs. by apply spoken_add. }
  eapply wp_mono.
  { apply (wp_spec_safe ready); [apply device_write_cmd_safe|done|]. apply write_cmd_spec, Hr. }
  intros [b|e| |] d'; simpl; try done.
  - destruct b; simpl.
    + intros H. apply (Hadd (length (frame d cmd))). by rewrite take_ge.
    + intros (n & _ & H). eauto.
  - intros [n H]. eauto.
Qed.

Lemma quietly_read_lines : safe quietly Device.read_lines.
Proof.
  apply silent_safe; [apply device_read_lines_safe|]. intros d Hi.
  by apply read_lines_spec, sends_refl.
Qed.
Lemma quietly_reset : safe quietly Device.reset_connection.
Proof.
  apply silent_safe; [apply device_reset_connection_safe|]. intros d Hi.
  by apply reset_connection_spec, sends_refl.
Qed.
Lemma quietly_destroy : safe quietly Device.destroy.
Proof.
  apply silent_safe; [apply device_destroy_safe|]. intros d Hi.
  by apply device_destroy_spec, sends_refl.
Qed.
Lemma quietly_close : safe quietly Device.close.
Proof. apply serial_silent_safe; [apply close_safe|apply close_silent]. Qed.
Lemma quietly_timeout t : safe quietly (Device.set_timeout_ms t).
Proof. apply quiet_silent_safe; [by apply setTimeout_ok|apply setTimeout_safe]. Qed.
Lemma quietly_suffix s : (length s ≤ max_line)%nat → safe quietly (Device.set_read_suffix s).
Proof. intros Hs d ([Hi _] & Hr). apply wp_modify. by split. Qed.
Lemma quietly_sleep ms : safe quietly (Device.on_serial (modify (sleep_for_ms ms))).
Proof.
  intros d (Hr & Hk). apply wp_zoom, wp_modify. unfold speaking, ready, idle, unlocked, out in *.
  simpl. by rewrite sleep_ok.
Qed.
End wire.
#[export] Hint Resolve quietly_read_lines quietly_reset quietly_destroy quietly_close
  quietly_timeout quietly_suffix quietly_sleep : bench.

Section laser_tests.
Context {P : Type} {HI : SerialImpl P} {HO : Observable P} {HOK : SerialImplOK P}
  {HLive : SerialImplLive P}.

(** The commands the tests use: no command to fire is among them. *)
Definition test_commands : list bytes := [str "SE"; str "SC"; str "SH 1"; str "SH 0"].

Definition laser_speaks (o0 : bytes) (l : laser P) : Prop :=
  speaking test_commands o0 (l_base l).

Context (o0 : bytes).
Notation tame := (laser_speaks o0).

Lemma tame_device {A} (m : M (device P) A) :
  safe (speaking test_commands o0) m → safe tame (Laser.on_device m).
Proof. apply (safe_zoom l_base_l (speaking test_commands o0) m). Qed.

Lemma tame_write cmd : In cmd test_commands → safe tame (Laser.write_cmd cmd).
Proof.
  intros Hin. unfold Laser.write_cmd, Laser.on_serial.
  eauto 10 using tame_device, quietly_write, quietly_sleep with safe.
Qed.

Lemma tame_send cmd what : In cmd test_commands → safe tame (Laser.send_or_throw cmd what).
Proof.
  intros Hin. unfold Laser.send_or_throw.
  eauto 20 using tame_device, tame_write, quietly_reset with safe.
Qed.

Lemma tame_shutter s : safe tame (Laser.shutter s).
Proof. apply tame_send. destruct s; vm_compute; auto 10. Qed.

Lemma tame_security : safe tame Laser.security.
Proof.
  unfold Laser.security. assert (In (str "SE") test_commands) by by left.
  eauto 40 using tame_device, tame_send, quietly_read_lines, quietly_reset with safe.
Qed.

Lemma tame_security_msg : safe tame Laser.security_msg.
Proof.
  unfold Laser.security_msg. apply safe_bind; [apply tame_security|]. intros code.
  apply safe_bind; [apply safe_gets|]. intros m. destruct (sec_find code m); solve_safe.
Qed.

Lemma tame_shot_count : safe tame Laser.get_shot_count.
Proof.
  unfold Laser.get_shot_count. assert (In (str "SC") test_commands) by by right; left.
  eauto 40 using tame_device, tame_write, quietly_read_lines, quietly_reset with safe.
Qed.

Lemma tame_serial {A} (m : M P A) : quiet m → safe unlocked m → safe tame (Laser.on_serial m).
Proof. intros Hq Hs. by apply tame_device, quiet_silent_safe. Qed.

Lemma tame_port p : safe tame (Laser.on_serial (Serial.setPort p)).
Proof.
  apply tame_device, serial_silent_safe; [apply setPort_safe|]. intros s Hu.
  eapply wp_mono; [by apply (setPort_unlocked_at (v_out (pv s)))|].
  by intros [] s'.
Qed.

Lemma tame_open : safe tame (Laser.on_serial Serial.open).
Proof. apply tame_device, serial_silent_safe; [apply open_safe|apply open_silent]. Qed.

Lemma tame_construct l : tame l → 4 ≤ m_baud (l_base l) < 2 ^ 32 →
  wp Laser.construct (post (λ _, tame) (λ _, tame)) l.
Proof.
  intros Hr Hb. set (d := l_base l) in *.
  enough (safe tame (catch (Laser.construct_body d)
    (λ e, Laser.on_device Device.destroy ;; throw e))) as H by exact (H l Hr).
  apply safe_catch; [|intros e; apply safe_bind; [apply tame_device, quietly_destroy|solve_safe]].
  unfold Laser.construct_body.
  apply safe_bind; [apply tame_port|intros _].
  apply safe_bind; [apply tame_serial; [by apply setBaudrate_ok|by apply setBaudrate_safe]|intros _].
  apply safe_bind; [apply tame_serial; [apply setBytesize_ok|apply setBytesize_safe]|intros _].
  apply safe_bind; [apply tame_serial; [apply setParity_ok|apply setParity_safe]|intros _].
  apply safe_bind; [apply tame_serial; [apply setStopbits_ok|apply setStopbits_safe]|intros _].
  apply safe_bind; [apply tame_serial; [by apply setTimeout_ok|apply setTimeout_safe]|intros _].
  apply safe_bind; [apply tame_open|intros _]. solve_safe.
Qed.

Lemma tame_init port (serial : P) : unlocked serial → v_out (pv serial) = o0 →
  tame (Laser.init port 9600 serial).
Proof.
  intros Hu Ho. split; [split; [done|simpl; unfold max_line; lia]|]. split; [done|].
  split; [done|]. unfold out. simpl. rewrite Ho. apply spoken_refl.
Qed.

Lemma tame_built port (serial : P) : unlocked serial → v_out (pv serial) = o0 →
  wp Laser.construct (post (λ _, tame) (λ _ _, True)) (Laser.init port 9600 serial).
Proof.
  intros Hu Ho. eapply wp_mono; [apply tame_construct; [by apply tame_init|simpl; lia]|].
  by intros [] l.
Qed.

Lemma tame_sleep ms : safe (holding tame) (TestLaser.sleep ms).
Proof. apply call_safe, tame_device, quietly_sleep. Qed.

Lemma laser_destroy_terminate (l : laser P) e l' :
  Laser.on_device Device.destroy l = (Throw e, l') → e = terminate.
Proof.
  unfold Laser.on_device, zoom, Device.destroy. destruct (noexcept _ _) as [o d] eqn:E.
  intros [= -> _]. by eapply noexcept_terminate.
Qed.

#[local] Hint Resolve tame_device tame_shutter tame_shot_count tame_security tame_security_msg
  tame_sleep : bench.
#[local] Hint Extern 1 (safe _ Laser.shutter_open) => apply tame_shutter : bench.
#[local] Hint Extern 1 (safe _ Laser.shutter_close) => apply tame_shutter : bench.

(** [test_laser] of test_laser.cc. *)
Lemma laser_body_ends port serial timeout sfx b : unlocked serial → v_out (pv serial) = o0 →
  (length sfx ≤ max_line)%nat → b_dev b = Null →
  wp (TestLaser.body port serial timeout sfx)
    (post (λ _, holding tame) (λ _ b', b_dev b' = Null ∨ holding tame b')) b.
Proof.
  intros Hu Ho Hs Hb. apply new_then; [done|by apply tame_built|]. solve_test.
Qed.

Lemma test_laser_ends ports serial timeout sfx : unlocked serial → v_out (pv serial) = o0 →
  (length sfx ≤ max_line)%nat →
  wp (TestLaser.test_laser ports serial timeout sfx)
    (post (λ _, left_ok tame) (λ _, left_ok tame)) start.
Proof.
  intros Hu Ho Hs. unfold TestLaser.test_laser. apply wp_bind_modify.
  eapply wp_bind_post with (R0 := λ _ b, b_dev b = Null).
  { eapply wp_mono; [apply locate_ends|]. by intros [] b. }
  intros port b Hb.
  apply closing_ends; [|apply tame_device, quietly_destroy|apply laser_destroy_terminate|].
  - by apply laser_body_ends.
  - apply tame_device, quietly_close.
Qed.
End laser_tests.

(** The bytes of the tests since [o0], in which the command to fire cannot occur. *)
Definition harmless {P} `{Observable P} (o0 : bytes) (l : laser P) : Prop :=
  ∃ sent, out (l_base l) = o0 ++ sent ∧ spoken test_commands [] sent ∧ ¬ In "T"%char sent.

Lemma take_no_T n cmd : In cmd test_commands → ¬ In "T"%char (take n (cmd ++ [CR])).
Proof.
  intros Hc Ht. assert (In "T"%char (cmd ++ [CR])) as H.
  { rewrite <- (take_drop n (cmd ++ [CR])). apply in_or_app. by left. }
  revert H. repeat destruct Hc as [<-|Hc]; [..|done]; vm_compute; intuition discriminate.
Qed.

Lemma tame_harmless {P} {HO : Observable P} o0 (l : laser P) :
  spoken test_commands o0 (out (l_base l)) → harmless o0 l.
Proof.
  intros (cs & E & Hc). exists (concat cs). split; [done|]. split; [by exists cs|].
  intros Ht. apply in_concat in Ht as (c & Hin & Ht). rewrite Forall_forall in Hc.
  destruct (Hc c) as (cmd & n & Hcmd & ->); [by apply list_elem_of_In|].
  by eapply take_no_T.
Qed.

Section laser_program.
Context {P : Type} {HI : SerialImpl P} {HO : Observable P} {HOK : SerialImplOK P}
  {HLive : SerialImplLive P}.
Context (ports : list PortInfo) (serials : nat → P).

Lemma left_harmless o0 b : left_ok (laser_speaks o0) b → left_ok (harmless (P:=P) o0) b.
Proof.
  unfold left_ok. destruct (b_dev b) as [|l|l]; [done|..]; intros (_ & _ & _ & H);
    by apply tame_harmless.
Qed.

(** C18: the laser test program ends, whatever the laser answers.  Each of its tests
    leaves on the wire only queries of the interlocks and of the shot count and
    commands to the shutter, complete or cut short; the command to fire is never
    sent. *)
Theorem laser_test_never_fires :
  (∀ n, unlocked (serials n)) →
  defined (TestLaser.main ports serials).1 ∧
  ∀ i b, (TestLaser.main ports serials).2 !! i = Some b →
    left_ok (harmless (v_out (pv (serials i)))) b.
Proof.
  intros Hu. apply run_all_ok. intros i t Hi.
  assert (∃ timeout sfx, t = TestLaser.test_laser ports (serials i) timeout sfx ∧
            (length sfx ≤ 2)%nat) as (timeout & sfx & -> & Hs).
  { do 5 (destruct i as [|i]; [injection Hi as <-; eexists _, _; split; [done|simpl; lia]|]).
    done. }
  eapply wp_mono; [apply test_laser_ends; [done|done|unfold max_line; lia]|].
  intros [] b; simpl; try done; apply left_harmless.
Qed.

End laser_program.

(** ** Runs

    A laser whose replies end in a carriage return passes the tests that read up to
    one; the others report the missing token and do not touch the shutter. *)
Definition wire_of (b : bench (laser loop)) : bytes :=
  match b_dev b with Freed l => out (l_base l) | _ => [] end.
Definition lines_of (cmds : list string) : bytes := concat (map (λ c, str c ++ [CR]) cmds).

Notation laser_run := (TestLaser.main session_ports session_serial).

Example laser_run_wire :
  laser_run.1 = Ret tt ∧
  map wire_of laser_run.2 =
    [lines_of ["SE"]; lines_of ["SE"]; lines_of ["SE"; "SC"; "SH 1"; "SH 0"]; lines_of ["SE"];
     lines_of ["SE"; "SC"; "SH 1"; "SH 0"]]%string.
Proof. vm_compute. split; reflexivity. Qed.

Lemma laser_test_never_fires_witness :
  defined laser_run.1 ∧
  ∀ i b, laser_run.2 !! i = Some b →
    left_ok (harmless (v_out (pv (session_serial i)))) b.
Proof. apply (laser_test_never_fires session_ports session_serial). exact session_unlocked. Defined.

(** A port that is not found: the driver is not built, and the error is reported. *)
Example missing_laser_reported :
  match TestLaser.test_laser [] (session_serial 0) 200 [CR] start with
  | (Ret _, b) => b_dev b = Null ∧
      list.last (b_said b) = Some ("STL exception : {0}"%string,
        [AWhat (invalid_argument "Empty port is invalid.")])
  | _ => False
  end.
Proof. vm_compute. split; reflexivity. Qed.
