(* ===== verification/TestPowerMeter.v ===== *)
(** * examples/test_powermeter.cc: the test of the power meter

    The queries and settings of the meter in one run, which ends whatever the meter
    answers. *)
From S2P Require Import Prelude CppStd Utilities Ports Serial Loopback Device Floats Laser.
From S2P Require Import Attenuator PowerMeter Manager Bench.
Import Bench.

Module TestPowerMeter.
Section program.
Context {P : Type} {HI : SerialImpl P}.
Context (ports : list PortInfo).

Definition pm {B} (f : powermeter P → B) : M (bench (powermeter P)) B := call (gets f).

(** The queries both programs make, from the head information to the frequency; the
    text before the pulse widths differs. *)
Definition queries (pulses : string) : M (bench (powermeter P)) unit :=
  say "Querying head information" [] ;;
  ' (tp, sn, name, pw, en, fq) <- call PowerMeter.head_info ;;
  say "HEAD INFO : {0} {1} {2} {3} {4} {5}"
    [AStr tp; AStr sn; AStr name; AInt (Z.b2z pw); AInt (Z.b2z en); AInt (Z.b2z fq)] ;;
  say "Now querying the instrument" [] ;;
  ' (tp, sn, name) <- call PowerMeter.inst_info ;;
  say "INSTRUMENT INFO : {0} {1} {2}" [AStr tp; AStr sn; AStr name] ;;
  say "Querying ranges..." [] ;;
  cur <- call PowerMeter.get_all_ranges ;;
  rmap <- pm PowerMeter.get_range_map ;;
  say "Current range [{0}]" [AInt cur] ;;
  say "RANGES :" [] ;;
  dump_map rmap ;;
  say "Checking user threshold" [] ;;
  ' (current, min, max) <- call PowerMeter.query_user_threshold ;;
  say "Response : {0} : [{1},{2}]" [AInt current; AInt min; AInt max] ;;
  say pulses [] ;;
  current <- call (PowerMeter.pulse_length 0) ;;
  umap <- pm PowerMeter.get_pulse_map ;;
  say "Current pulse width [{0}]" [AInt current] ;;
  say "OPTIONS :" [] ;;
  dump_map umap ;;
  say "Querying wavelength capabilities (method 1)" [] ;;
  name <- call (PowerMeter.get_all_wavelengths name) ;;
  say "Raw answer [{0}]" [AStr name] ;;
  say "Querying averaging settings" [] ;;
  current <- call (PowerMeter.average_query 0) ;;
  umap <- pm PowerMeter.get_averages_map ;;
  say "Current average setting [{0}]" [AInt current] ;;
  say "OPTIONS :" [] ;;
  dump_map umap ;;
  say "Querying for max frequency" [] ;;
  u32 <- call PowerMeter.max_freq ;;
  say "Answer : {0}" [AInt u32].

Definition body (port : bytes) (serial : P) (timeout : Z) (read_suffix write_suffix : bytes) :
    M (bench (powermeter P)) unit :=
  new_device (PowerMeter.init (c_str port) 9600 serial) PowerMeter.construct ;;
  call (PowerMeter.on_serial (modify (sleep_for_ms 500))) ;;
  (when negb (size read_suffix =? 0) do (
    say "Setting the read suffix..." [] ;;
    call (PowerMeter.on_device (Device.set_read_suffix read_suffix)))) ;;
  (when negb (size write_suffix =? 0) do (
    say "Setting the write suffix..." [] ;;
    call (PowerMeter.on_device (Device.set_com_suffix write_suffix)))) ;;
  (when negb (timeout =? 0) do (
    say "Setting timeout..." [] ;;
    call (PowerMeter.on_device (Device.set_timeout_ms timeout)) ;;
    say "Attempting to read fragments from past eras ...this may take a bit!" [] ;;
    lines <- call (PowerMeter.on_device Device.read_lines) ;;
    say "Got {0}tokens. Dumping..." [AInt (Z.of_nat (length lines))] ;;
    dump lines)) ;;
  qstate <- call (PowerMeter.average_query 0) ;;
  say "Average query state : {0}" [AInt qstate] ;;
  wls <- call (PowerMeter.get_all_wavelengths []) ;;
  say ": WL : [{0}]" [AStr wls] ;;
  queries "Checking pulse width options" ;;
  say "Dumping the collected maps :" [] ;;
  ranges <- pm PowerMeter.get_range_map ;;
  say "RANGE : {0}" [AStr (serialize_map ranges)] ;;
  pulses <- pm PowerMeter.get_pulse_map ;;
  say "PULSE WIDTHS : {0}" [AStr (serialize_map pulses)] ;;
  pulses <- pm PowerMeter.get_averages_map ;;
  say "AVERAGES : {0}" [AStr (serialize_map pulses)] ;;
  th <- pm PowerMeter.get_threshold_ranges ;;
  say "TRESHOLDS : [ {0},{1}]" [AInt th.1; AInt th.2] ;;
  say "All done. Can't test anything else without actually changing settings." [].

Definition test_powermeter (serial : P) (timeout : Z) (read_suffix write_suffix : bytes) :
    M (bench (powermeter P)) unit :=
  say "Runnig the tests with read suffix [{0}], write suffix [{1}] and timeout [{2}] ms"
    [AStr (escape (c_str read_suffix)); AStr (escape (c_str write_suffix)); AInt timeout] ;;
  say "Testing powermeter." [] ;;
  port <- locate ports (str "A9CQTZ05") ;;
  catch (body port serial timeout read_suffix write_suffix) (report false) ;;
  p <- gets b_dev ;;
  when negb (is_null p) do (
    call (PowerMeter.on_device Device.close) ;;
    delete_device (PowerMeter.on_device Device.destroy)).

Definition main (serial : P) : outcome unit * list (bench (powermeter P)) :=
  run_all [test_powermeter serial 100 [CR; LF] [CR; LF]].
End program.
End TestPowerMeter.

Section powermeter_tests.
Context {P : Type} {HI : SerialImpl P} {HO : Observable P} {HOK : SerialImplOK P}
  {HLive : SerialImplLive P}.

Lemma pm_destroy_terminate (m : powermeter P) e m' :
  PowerMeter.on_device Device.destroy m = (Throw e, m') → e = terminate.
Proof.
  unfold PowerMeter.on_device, zoom, Device.destroy. destruct (noexcept _ _) as [o d] eqn:E.
  intros [= -> _]. by eapply noexcept_terminate.
Qed.

#[local] Hint Resolve pm_head_info_safe pm_inst_info_safe pm_get_all_ranges_safe
  query_user_threshold_safe pm_pulse_length_safe pm_get_all_wavelengths_safe
  pm_average_query_safe pm_max_freq_safe pm_on_device_ready
  device_set_timeout_ms_safe device_read_lines_safe : bench.

Lemma queries_safe pulses : safe (holding pm_ready) (TestPowerMeter.queries (P:=P) pulses).
Proof. unfold TestPowerMeter.queries, TestPowerMeter.pm. solve_test. Qed.

Lemma pm_built port (serial : P) : unlocked serial →
  wp PowerMeter.construct (post (λ _, pm_ready) (λ _ _, True)) (PowerMeter.init port 9600 serial).
Proof.
  intros Hu. eapply wp_mono; [apply pm_construct_safe; [|simpl; lia]|by intros [] m].
  split; [|done]. split; [done|]. simpl. unfold max_line. lia.
Qed.

(** [test_powermeter] of test_powermeter.cc. *)
Lemma pm_suffix_safe s : (length s ≤ max_line)%nat →
  safe pm_ready (PowerMeter.on_device (Device.set_read_suffix s)).
Proof. intros Hs. apply pm_on_device_ready. intros d [Hi _]. apply wp_modify. by split. Qed.
Lemma pm_com_suffix_safe s : safe pm_ready (PowerMeter.on_device (Device.set_com_suffix s)).
Proof. apply pm_on_device_ready. by intros d Hd. Qed.
Lemma pm_sleep_safe ms : safe pm_ready (PowerMeter.on_serial (modify (sleep_for_ms ms))).
Proof.
  apply pm_on_device_ready, on_serial_safe. intros s Hu. apply wp_modify. by apply sleep_unlocked.
Qed.

#[local] Hint Resolve queries_safe pm_suffix_safe pm_com_suffix_safe pm_sleep_safe : bench.

Lemma powermeter_body_ends port serial timeout rs ws b : unlocked serial →
  (length rs ≤ max_line)%nat → b_dev b = Null →
  wp (TestPowerMeter.body port serial timeout rs ws)
    (post (λ _, holding pm_ready) (λ _ b', b_dev b' = Null ∨ holding pm_ready b')) b.
Proof.
  intros Hu Hs Hb. apply new_then; [done|by apply pm_built|]. unfold TestPowerMeter.pm.
  solve_test.
Qed.

Lemma test_powermeter_ends ports serial timeout rs ws : unlocked serial →
  (length rs ≤ max_line)%nat →
  wp (TestPowerMeter.test_powermeter ports serial timeout rs ws)
    (post (λ _, left_ok pm_ready) (λ _, left_ok pm_ready)) start.
Proof.
  intros Hu Hs. unfold TestPowerMeter.test_powermeter. do 2 apply wp_bind_modify.
  eapply wp_bind_post with (R0 := λ _ b, b_dev b = Null).
  { eapply wp_mono; [apply locate_ends|]. by intros [] b. }
  intros port b Hb. apply closing_ends; [|apply pm_destroy_safe|apply pm_destroy_terminate|].
  - by apply powermeter_body_ends.
  - apply pm_on_device_ready, on_serial_safe, close_safe.
Qed.

(** The power meter test program ends, whatever the meter answers. *)
Lemma powermeter_test_ends ports (serial : P) : unlocked serial →
  defined (TestPowerMeter.main ports serial).1.
Proof.
  intros Hu. apply (run_all_ok _ (λ _, left_ok pm_ready)). intros [|[]] t Hi; [|done..].
  injection Hi as <-. apply test_powermeter_ends; [done|simpl; unfold max_line; lia].
Qed.

End powermeter_tests.
