(* ===== verification/TestAllDevices.v ===== *)
(** * examples/test_all_devices.cc and test_string_formatting.cc

    The tests of the instruments named in a configuration file.  Whatever the
    configuration and the answers, the program ends and the laser is never made to
    fire. *)
From S2P Require Import Prelude CppStd Utilities Ports Serial Loopback Device Floats Laser.
From S2P Require Import Attenuator PowerMeter Manager ManagerFacts Bench TestLaser TestPowerMeter.
Import Bench.

Module TestAll.
Section program.
Context {P : Type} {HI : SerialImpl P}.
Context (polls : nat) (ports : list PortInfo).

Definition laser_body (port : bytes) (serial : P) : M (bench (laser P)) unit :=
  new_device (Laser.init (c_str port) 9600 serial) Laser.construct ;;
  call (Laser.on_device (Device.set_timeout_ms 100)) ;;
  say "Check interlocks..." [] ;;
  ' (code, desc) <- call Laser.security_msg ;;
  say "Laser responded [{0} : {1}]" [AStr code; AStr desc] ;;
  say "Get shot count..." [] ;;
  count <- call Laser.get_shot_count ;;
  say "Laser responded [{0}]" [AInt count] ;;
  say "Opening the shutter for 500ms..." [] ;;
  call Laser.shutter_open ;;
  TestLaser.sleep 500 ;;
  call Laser.shutter_close ;;
  say "All done. Can't test anything else without actually firing the laser" [].

Definition test_laser (serial : P) (sn : bytes) : M (bench (laser P)) unit :=
  say "Testing laser." [] ;;
  port <- locate ports sn ;;
  catch (laser_body port serial) (report false) ;;
  delete_device (Laser.on_device Device.destroy).

Definition att {B} (f : attenuator P → B) : M (bench (attenuator P)) B := call (gets f).

Definition attenuator_body (port : bytes) (serial : P) : M (bench (attenuator P)) unit :=
  new_device (Attenuator.init (c_str port) 38400 serial) Attenuator.construct ;;
  say "Refreshing status" [] ;;
  call Attenuator.refresh_status ;;
  say "Querying serial number..." [] ;;
  sn <- call (Attenuator.get_serial_number []) ;;
  say "Response [{0}]" [AStr sn] ;;
  say "Querying status in human form..." [] ;;
  st <- call Attenuator.get_status_raw ;;
  say "Response [{0}]" [AStr st] ;;
  say "Querying individual settings (to see they were properly parsed):" [] ;;
  ' (pos, status) <- call (Attenuator.get_position polls Attenuator.local false) ;;
  say "Position     : {0}" [AInt pos] ;;
  say "Status       : {0}" [AInt status] ;;
  offset <- att Attenuator.get_offset ;;
  say "Offset       : {0}" [AInt offset] ;;
  speed <- att Attenuator.get_max_speed ;;
  say "Max speed    : {0}" [AInt speed] ;;
  mode <- att Attenuator.get_op_mode ;;
  say "Op mode      : {0}" [AInt mode] ;;
  acc <- att Attenuator.get_acceleration ;;
  say "Acceleration : {0}" [AInt acc] ;;
  dec <- att Attenuator.get_deceleration ;;
  say "Deceleration : {0}" [AInt dec] ;;
  res <- att Attenuator.get_resolution ;;
  say "Resolution   : {0}" [AInt res] ;;
  cur_idle <- att Attenuator.get_current_idle ;;
  say "Idle current : {0}" [AInt cur_idle] ;;
  cur_mov <- att Attenuator.get_current_move ;;
  say "Move current : {0}" [AInt cur_mov] ;;
  say "All done. Can't test anything else without actually changing settings." [].

Definition test_attenuator (serial : P) (sn : bytes) : M (bench (attenuator P)) unit :=
  say "Testing attenuator. Expect it to be in /dev/ttyUSB0" [] ;;
  port <- locate ports sn ;;
  (when negb (str_eqb port (str "/dev/ttyUSB0")) do
     say "Was expecting a different port (/dev/ttyUSB0 <>{0})" [AStr port]) ;;
  catch (attenuator_body port serial) (report false) ;;
  delete_device Attenuator.destroy.

Definition power_meter_body (port : bytes) (serial : P) : M (bench (powermeter P)) unit :=
  new_device (PowerMeter.init (c_str port) 9600 serial) PowerMeter.construct ;;
  TestPowerMeter.queries "Checking pulse options" ;;
  say "All done. Can't test anything else without actually changing settings." [].

Definition test_power_meter (serial : P) (sn : bytes) : M (bench (powermeter P)) unit :=
  say "Testing powermeter." [] ;;
  port <- locate ports sn ;;
  catch (power_meter_body port serial) (report false) ;;
  delete_device (PowerMeter.on_device Device.destroy).

(** The three tests, in the order of the program. *)
Record results := mkResults {
  r_laser : option (bench (laser P));
  r_attenuator : option (bench (attenuator P));
  r_power_meter : option (bench (powermeter P));
}.

(** A test with its console and pointer; it is skipped without serial number. *)
Definition stage {A} (sn : bytes) (test : bytes → M (bench A) unit)
    (keep : bench A → results → results) : M results unit := λ r,
  if str_eqb sn [] then (Ret tt, r)
  else let '(o, b) := test (c_str sn) start in (o, keep b r).

(** [if (config.contains(k)) sn = config[k].get<std::string>()]; [None] is an
    exception. *)
Definition serial_of (entry_of : string → option (option bytes)) (k : string) : option bytes :=
  match entry_of k with None => Some [] | Some t => t end.

Definition run_stages (serials : nat → P) (laser_sn attenuator_sn pm_sn : bytes) :
    M results Z :=
  stage laser_sn (test_laser (serials 0%nat))
    (λ b r, mkResults (Some b) (r_attenuator r) (r_power_meter r)) ;;
  stage attenuator_sn (test_attenuator (serials 1%nat))
    (λ b r, mkResults (r_laser r) (Some b) (r_power_meter r)) ;;
  stage pm_sn (test_power_meter (serials 2%nat))
    (λ b r, mkResults (r_laser r) (r_attenuator r) (Some b)) ;;
  ret 0.

(** [main]; [argv] are the arguments after the name of the program. *)
Definition main (serials : nat → P) (read_config : bytes → option json_result)
    (argv : list bytes) : M results Z :=
  match argv with
  | [] => ret 1
  | config_file :: _ =>
    match read_config config_file with
    | None | Some JsonError => ret 1
    | Some (Json _ entry_of) =>
      match serial_of entry_of "laser", serial_of entry_of "attenuator",
            serial_of entry_of "power_meter" with
      | Some laser_sn, Some attenuator_sn, Some pm_sn =>
        run_stages serials laser_sn attenuator_sn pm_sn
      | _, _, _ => ret 1
      end
    end
  end.
End program.
Arguments results : clear implicits.
Definition no_results {P} : results P := mkResults None None None.
End TestAll.

(** ** test_string_formatting.cc

    The split of the reply to the head query of the power meter; [main] returns after
    it. *)
Module TestStrings.
Definition answer : bytes := str "* PY 967321 PE50BF-DFH-C 80608003 " ++ [CR; LF].

(** The tokens and the three flags; [power] and [energy] test the same bit. *)
Definition test_pm1 : outcome (bytes * bytes * bytes * bool * bool * bool) :=
  answer <-- erase_from answer (size answer - 2) ;;
  tokens <-- tokens_of answer [SP] ;;
  tokens <-- erase_first tokens ;;
  type <-- vec_at tokens 0 ;;
  sn <-- vec_at tokens 1 ;;
  name <-- vec_at tokens 2 ;;
  t <-- vec_at tokens 3 ;;
  word <-- stoul_base 16 t ;;
  let word := u32 word in
  Ret (type, sn, name, Z.testbit word 0, Z.testbit word 0, Z.testbit word 31).
End TestStrings.

Section all_tests.
Context {P : Type} {HI : SerialImpl P} {HO : Observable P} {HOK : SerialImplOK P}
  {HLive : SerialImplLive P}.
#[local] Hint Resolve tame_device tame_shutter tame_shot_count tame_security_msg
  tame_sleep refresh_status_safe att_get_serial_number_safe get_status_raw_safe
  get_position_safe : bench.
#[local] Hint Extern 1 (safe _ Laser.shutter_open) => apply tame_shutter : bench.
#[local] Hint Extern 1 (safe _ Laser.shutter_close) => apply tame_shutter : bench.

Lemma all_laser_body_ends o0 port serial b : unlocked serial → v_out (pv serial) = o0 →
  b_dev b = Null →
  wp (TestAll.laser_body port serial)
    (post (λ _, holding (laser_speaks o0)) (λ _ b', b_dev b' = Null ∨ holding (laser_speaks o0) b')) b.
Proof. intros Hu Ho Hb. apply new_then; [done|by apply tame_built|]. solve_test. Qed.

Lemma all_laser_ends o0 ports serial sn : unlocked serial → v_out (pv serial) = o0 →
  wp (TestAll.test_laser ports serial sn)
    (post (λ _, left_ok (laser_speaks o0)) (λ e b, e = terminate ∧ left_ok (laser_speaks o0) b)) start.
Proof.
  intros Hu Ho. unfold TestAll.test_laser. apply wp_bind_modify.
  eapply wp_bind_post; [eapply wp_mono; [apply locate_ends|]|].
  { instantiate (1 := λ _ b, b_dev b = Null). by intros [] b. }
  cbv beta. intros port b Hb. apply test_ends.
  - by apply all_laser_body_ends.
  - apply tame_device, quietly_destroy.
  - apply laser_destroy_terminate.
Qed.

Lemma all_power_meter_ends ports serial sn : unlocked serial →
  wp (TestAll.test_power_meter ports serial sn)
    (post (λ _, left_ok pm_ready) (λ e b, e = terminate ∧ left_ok pm_ready b)) start.
Proof.
  intros Hu. unfold TestAll.test_power_meter. apply wp_bind_modify.
  eapply wp_bind_post with (R0 := λ _ b, b_dev b = Null).
  { eapply wp_mono; [apply locate_ends|]. by intros [] b. }
  intros port b Hb. apply test_ends; [|apply pm_destroy_safe|apply pm_destroy_terminate].
  apply new_then; [done|by apply pm_built|].
  apply safe_bind; [apply queries_safe|intros _; apply say_safe].
Qed.

Lemma att_destroy_terminate (a : attenuator P) e a' :
  Attenuator.destroy a = (Throw e, a') → e = terminate.
Proof.
  unfold Attenuator.destroy, bind. destruct (noexcept _ a) as [[] a1] eqn:E1; try congruence.
  - clear E1. unfold Attenuator.on_device, zoom, Device.destroy.
    destruct (noexcept _ _) as [o d] eqn:E. intros H. assert (o = Throw e) as -> by congruence.
    by eapply noexcept_terminate.
  - intros H. assert (e0 = e) as -> by congruence. by eapply noexcept_terminate.
Qed.

Lemma att_built port (serial : P) : unlocked serial →
  wp Attenuator.construct (post (λ _, att_ready) (λ _ _, True))
    (Attenuator.init port 38400 serial).
Proof.
  intros Hu. eapply wp_mono; [apply att_construct_safe; [|simpl; lia]|by intros [] m].
  split; [done|]. simpl. unfold max_line. lia.
Qed.

Lemma all_attenuator_ends polls ports serial sn : unlocked serial →
  wp (TestAll.test_attenuator polls ports serial sn)
    (post (λ _, left_ok att_ready) (λ e b, e = terminate ∧ left_ok att_ready b)) start.
Proof.
  intros Hu. unfold TestAll.test_attenuator. apply wp_bind_modify.
  eapply wp_bind_post with (R0 := λ _ b, b_dev b = Null).
  { eapply wp_mono; [apply locate_ends|]. by intros [] b. }
  intros port b Hb. eapply wp_bind_post with (R0 := λ _ b, b_dev b = Null).
  { by destruct (negb _). }
  intros _ b' Hb'. apply test_ends; [|apply att_destroy_safe|apply att_destroy_terminate].
  apply new_then; [done|by apply att_built|]. unfold TestAll.att. solve_test.
Qed.

Context (ports : list PortInfo) (serials : nat → P).

(** What a run of test_all_devices leaves. *)
Definition tested (r : TestAll.results P) : Prop :=
  match TestAll.r_laser r with
  | Some b => left_ok (harmless (v_out (pv (serials 0%nat)))) b
  | None => True
  end.

Lemma stage_ends {A} sn test keep (R : bench A → Prop) r :
  (∀ sn, wp (test sn) (post (λ _, R) (λ e b, e = terminate ∧ R b)) start) →
  (∀ b, R b → tested (keep b r)) → tested r →
  wp (TestAll.stage sn test keep)
    (post (λ _, tested) (λ e r', e = terminate ∧ tested r')) r.
Proof.
  intros Ht Hk Hr. unfold wp, TestAll.stage. destruct (str_eqb sn []); [done|].
  specialize (Ht (c_str sn)). unfold wp in Ht.
  destruct (test (c_str sn) start) as [[] b]; simpl in *; try done; [auto|].
  destruct Ht as [-> Hb]. auto.
Qed.

End all_tests.


(** The reply of the head query, as the driver splits it: on a meter that sends it,
    [head_info] returns what the test program prints. *)
Example head_reply_split :
  TestStrings.test_pm1 =
  Ret (str "PY", str "967321", str "PE50BF-DFH-C", true, true, true) ∧
  (PowerMeter.head_info (pm_on [str "* PY 967321 PE50BF-DFH-C 80608003 "])).1 =
  TestStrings.test_pm1.
Proof. vm_compute. split; reflexivity. Qed.
