(* ===== verification/AD5339.v ===== *)
(** * i2c_deprecated/AD5339.h and AD5339.cpp: the digital to analog converter

    The register layout, and the transactions on the I2C bus.  The bus (the system
    calls on its device file) is a parameter; what the converter behind it does is
    stated as laws of the bus.  Messages printed are left out. *)
From S2P Require Import Prelude CppStd.

(** ** The register *)
Record level_t := mkLevel { msb : Z; lsb : Z }.
Record dac_t := mkDac { dac_ptr : Z; dac_level : level_t }.
#[export] Instance eta_level : Eta level_t := λ l, mkLevel (msb l) (lsb l).
#[export] Instance eta_dac : Eta dac_t := λ d, mkDac (dac_ptr d) (dac_level d).

Definition DACNCLRBIT : Z := 5.
Definition DACNLOADBIT : Z := 4.
Definition DACNCLR : Z := Z.shiftl 1 DACNCLRBIT.
Definition DACNLOAD : Z := Z.shiftl 1 DACNLOADBIT.

Definition not_bit (b : bool) : Z := if b then 0 else 1.

Definition set_clear (clear : bool) (l : level_t) : level_t :=
  l <| msb := u8 (Z.lor (Z.land (msb l) (Z.lnot DACNCLR))
                        (Z.shiftl (not_bit clear) DACNCLRBIT)) |>.

Definition set_load (load : bool) (l : level_t) : level_t :=
  l <| msb := u8 (Z.lor (Z.land (msb l) (Z.lnot DACNLOAD))
                        (Z.shiftl (not_bit load) DACNLOADBIT)) |>.

(** [set_value(val, clear, load)] does not use [load]. *)
Definition set_value (val : Z) (clear load : bool) (l : level_t) : level_t :=
  let l := l <| msb := u8 (Z.land (Z.shiftr val 8) 0xF) |> in
  let l := set_clear clear l in
  l <| lsb := u8 (Z.land val 0xFF) |>.

Definition get_value (l : level_t) : Z :=
  let val := u16 (Z.land (msb l) 0xF) in
  u16 (Z.lor (Z.shiftl val 8) (lsb l)).

Definition set_channel (ch : Z) (d : dac_t) : dac_t :=
  d <| dac_ptr := u8 (Z.land ch 0xF) |>.
Definition get_channel (d : dac_t) : Z := u16 (dac_ptr d).

(** The bytes of a [dac_t]. *)
Definition dac_bytes (d : dac_t) : list Z :=
  [dac_ptr d; msb (dac_level d); lsb (dac_level d)].

(** ** The bus *)
Class I2C (W : Type) := {
  bus_open : bytes → W → Z * W;
  bus_funcs : Z → W → Z * W;
  bus_slave : Z → Z → W → Z * W;
  bus_write : Z → list Z → W → Z * W;
  (** the result of [read] and the bytes it stored *)
  bus_read : Z → nat → W → (Z * list Z) * W;
  bus_close : Z → W → W;
  bus_sleep_ms : Z → W → W;
}.

Record ad5339 (W : Type) := mkAD5339 {
  m_bus_addr : Z;
  m_dev_addr : Z;
  m_dev : Z;
  m_is_ready : bool;
  m_debug : bool;
  (** the buffers allocated with [new] and not yet deleted *)
  live : nat;
  bus : W;
}.
Arguments mkAD5339 {W}.
Arguments m_bus_addr {W}.
Arguments m_dev_addr {W}.
Arguments m_dev {W}.
Arguments m_is_ready {W}.
Arguments m_debug {W}.
Arguments live {W}.
Arguments bus {W}.
#[export] Instance eta_ad5339 W : Eta (ad5339 W) := λ d,
  mkAD5339 (m_bus_addr d) (m_dev_addr d) (m_dev d) (m_is_ready d) (m_debug d)
    (live d) (bus d).

Module AD5339.
Section ad5339_ops.
Context {W : Type} {HB : I2C W}.

(** A system call. *)
Definition sys {A} (f : W → A * W) : M (ad5339 W) A := λ d,
  let '(a, w) := f (bus d) in (Ret a, d <| bus := w |>).

Definition init (bus_nr address : Z) (w : W) : ad5339 W :=
  mkAD5339 bus_nr (u8 address) (-1) false true 0 w.

Definition construct : M (ad5339 W) unit :=
  b <- gets m_bus_addr ;;
  fd <- sys (bus_open (str "/dev/i2c-" ++ show b)) ;;
  modify (λ d, d <| m_dev := fd |>) ;;
  if fd <? 0 then ret tt
  else
    modify (λ d, d <| m_is_ready := true |>) ;;
    _ <- sys (bus_funcs fd) ;;
    ret tt.

Definition destroy : M (ad5339 W) unit :=
  r <- gets m_is_ready ;;
  fd <- gets m_dev ;;
  when r do sys (λ w, (tt, bus_close fd w)).

(** The integer results are 0 for failure and 1 for success. *)
Definition i2c_set_device (addr : Z) : M (ad5339 W) Z :=
  fd <- gets m_dev ;;
  r <- sys (bus_slave fd addr) ;;
  if r <? 0 then ret 0 else ret 1.

Definition i2c_write (fd addr : Z) (buffer : list Z) : M (ad5339 W) Z :=
  if fd <? 0 then ret 0
  else
    ok <- i2c_set_device addr ;;
    if ok =? 0 then ret 0
    else
      wr_bytes <- sys (bus_write fd buffer) ;;
      if negb (wr_bytes =? Z.of_nat (length buffer)) then ret 0 else ret 1.

(** [i2c_read(dac)]: the new value of [dac] and the result. *)
Definition i2c_read (dac : dac_t) : M (ad5339 W) (dac_t * Z) :=
  r <- gets m_is_ready ;;
  if negb r then ret (dac, 0)
  else if 2 <? get_channel dac then ret (dac, 0)
  else
    fd <- gets m_dev ;;
    addr <- gets m_dev_addr ;;
    ok <- i2c_write fd addr [dac_ptr dac] ;;
    if ok =? 0 then ret (dac, 0)
    else
      sys (λ w, (tt, bus_sleep_ms 10 w)) ;;
      modify (λ d, d <| live := S (live d) |>) ;;
      ' (rd_bytes, buffer) <- sys (bus_read fd 2) ;;
      if negb (rd_bytes =? 2) then ret (dac, 0)
      else
        match buffer with
        | b0 :: b1 :: _ =>
            modify (λ d, d <| live := pred (live d) |>) ;;
            ret (dac <| dac_level := mkLevel b0 b1 |>, 1)
        | _ => undef
        end.

(** The local [dac] before its members are set; its bytes are indeterminate. *)
Definition write_dac (dac0 : dac_t) (val ch : Z) : M (ad5339 W) Z :=
  r <- gets m_is_ready ;;
  if negb r then ret 0
  else
    let dac := dac0 <| dac_level := set_value val false true (dac_level dac0) |> in
    let dac := set_channel ch dac in
    fd <- gets m_dev ;;
    addr <- gets m_dev_addr ;;
    ok <- i2c_write fd addr (dac_bytes dac) ;;
    if ok =? 0 then ret 0 else ret 1.

Definition read_dac (dac0 : dac_t) (ch : Z) : M (ad5339 W) Z :=
  r <- gets m_is_ready ;;
  if negb r then ret (-1)
  else if 2 <? ch then ret (-1)
  else
    ' (dac, ok) <- i2c_read (set_channel ch dac0) ;;
    if ok =? 0 then ret (-1) else ret (get_value (dac_level dac)).
End ad5339_ops.
End AD5339.

(** ** The register holds twelve bits *)
Lemma lor_byte a b : 0 ≤ b < 2 ^ 8 → Z.lor (Z.shiftl a 8) b = a * 2 ^ 8 + b.
Proof.
  intros Hb. rewrite <- Z.shiftl_mul_pow2 by done.
  assert (Z.land (Z.shiftl a 8) b = 0) as E.
  { apply Z.bits_inj'. intros n Hn. rewrite Z.land_spec, Z.bits_0.
    destruct (decide (n < 8)); [by rewrite Z.shiftl_spec_low|].
    rewrite <- (Z.mod_small b (2 ^ 8)), Z.mod_pow2_bits_high by lia.
    apply andb_false_r. }
  by rewrite (Z.add_nocarry_lxor _ _ E), (Z.lxor_lor _ _ E).
Qed.

(** The high byte: the flag at bit 5 above the nibble. *)
Definition high_byte (nibble : Z) (clear : bool) : Z :=
  u8 (Z.lor (Z.land (u8 nibble) (Z.lnot DACNCLR)) (Z.shiftl (not_bit clear) DACNCLRBIT)).

Lemma high_byte_spec n clear : 0 ≤ n < 16 →
  u16 (Z.land (high_byte n clear) 0xF) = n ∧
  Z.testbit (high_byte n clear) DACNCLRBIT = negb clear ∧
  Z.testbit (high_byte n clear) DACNLOADBIT = false.
Proof.
  intros Hn.
  assert (n ∈ seqZ 0 16) as Hin by (apply elem_of_seqZ; lia).
  clear Hn; revert n Hin. apply Forall_forall. destruct clear; by repeat constructor.
Qed.

(** A value stored in the register is read back modulo 2^12, whatever was in the
    register before and whatever the flags; the clear flag is stored inverted in
    bit 5, and the load bit is 0 even when [load] is false, because [set_value] does
    not use that argument. *)
Lemma level_roundtrip (val : Z) (clear load : bool) (l : level_t) :
  let l' := set_value val clear load l in
  get_value l' = val `mod` 2 ^ 12 ∧ Z.testbit (msb l') DACNCLRBIT = negb clear ∧
  Z.testbit (msb l') DACNLOADBIT = false.
Proof.
  change (let n := Z.land (Z.shiftr val 8) (Z.ones 4) in
          let m := high_byte n clear in
          u16 (Z.lor (Z.shiftl (u16 (Z.land m 0xF)) 8) (u8 (Z.land val (Z.ones 8))))
            = val `mod` 2 ^ 12 ∧
          Z.testbit m DACNCLRBIT = negb clear ∧ Z.testbit m DACNLOADBIT = false).
  rewrite !Z.land_ones, Z.shiftr_div_pow2 by done. intros n m.
  assert (0 ≤ n < 16) as Hn by (apply Z.mod_pos_bound; done).
  subst m. destruct (high_byte_spec n clear Hn) as (-> & H1 & H2).
  split; [|done]. unfold u8, u16, wrapu.
  pose proof (Z.mod_pos_bound val (2 ^ 8) eq_refl).
  rewrite (Z.mod_small (val `mod` 2 ^ 8)), lor_byte by done.
  subst n. change (2 ^ 12) with (2 ^ 8 * 2 ^ 4). rewrite Z.rem_mul_r by done.
  rewrite Z.mod_small; lia.
Qed.

Lemma set_channel_small c d : 0 ≤ c < 16 → set_channel c d = mkDac c (dac_level d).
Proof.
  intros Hc. unfold set_channel, u8, wrapu. change 0xF with (Z.ones 4).
  rewrite Z.land_ones, (Z.mod_small c), Z.mod_small; [done|..]; cbn; lia.
Qed.

(** ** The converter on the bus

    [reg w c] is what channel [c] puts out (12 bits) and [ptr w] the pointer byte of
    the last transaction.  A write of three bytes with the clear flag released (bit 5
    set) and the load flag asserted (bit 4 not set) loads the channels whose bits the
    pointer byte has; a write of one byte sets the pointer; a read of two bytes
    returns the channel at the pointer, with unspecified bits above the twelve. *)
Record same_chip {W} (reg : W → Z → Z) (sel : W → Prop) (w w' : W) : Prop := {
  same_reg : ∀ c, reg w' c = reg w c;
  same_sel : sel w → sel w';
}.

Class DacOK (W : Type) `{I2C W} (fd addr : Z) (reg : W → Z → Z) (ptr : W → Z)
    (sel : W → Prop) : Prop := {
  dac_slave w : ∃ r w', bus_slave fd addr w = (r, w') ∧ 0 ≤ r ∧ sel w' ∧
    ∀ c, reg w' c = reg w c;
  dac_store w p m l : sel w → 1 ≤ p ≤ 3 → Z.testbit m 5 = true → Z.testbit m 4 = false →
    ∃ w', bus_write fd [p; m; l] w = (3, w') ∧ sel w' ∧
    ∀ c, 1 ≤ c ≤ 2 →
      reg w' c = if Z.testbit p (c - 1) then get_value (mkLevel m l) else reg w c;
  dac_point w p : sel w → 1 ≤ p ≤ 2 →
    ∃ w', bus_write fd [p] w = (1, w') ∧ ptr w' = p ∧ same_chip reg sel w w';
  dac_sleep w n : ptr (bus_sleep_ms n w) = ptr w ∧ same_chip reg sel w (bus_sleep_ms n w);
  dac_fetch w : sel w → 1 ≤ ptr w ≤ 2 → ∃ m l w', bus_read fd 2 w = ((2, [m; l]), w') ∧
    get_value (mkLevel m l) = reg w (ptr w) ∧ same_chip reg sel w w';
}.

Section transactions.
Context {W : Type} `{HB : I2C W} {fd addr : Z} {reg : W → Z → Z} {ptr : W → Z}
  {sel : W → Prop} {HD : DacOK W fd addr reg ptr sel}.

Definition ready_at (fd addr : Z) (d : ad5339 W) : Prop :=
  m_is_ready d = true ∧ m_dev d = fd ∧ m_dev_addr d = addr.

(** A write that the bus accepts. *)
Lemma i2c_write_run buf w r w1 w2 d : 0 ≤ fd → bus d = w → m_dev d = fd →
  bus_slave fd addr w = (r, w1) → 0 ≤ r → bus_write fd buf w1 = (Z.of_nat (length buf), w2) →
  AD5339.i2c_write fd addr buf d = (Ret 1, d <| bus := w1 |> <| bus := w2 |>).
Proof.
  intros Hfd <- Hd Hs Hr Hw. destruct d as [a b dv rdy db lv w]; cbn in *; subst.
  unfold AD5339.i2c_write, AD5339.i2c_set_device, AD5339.sys, bind, gets, ret; cbn.
  rewrite (proj2 (Z.ltb_ge fd 0)) by done. cbn. rewrite Hs. cbn.
  rewrite (proj2 (Z.ltb_ge r 0)) by done. cbn. rewrite Hw. cbn. by rewrite Z.eqb_refl.
Qed.

(** A read whose pointer byte the bus accepts. *)
Lemma i2c_read_run p l0 a db lv w r w1 w2 n b w3 : 0 ≤ fd → 0 ≤ p ≤ 2 →
  bus_slave fd addr w = (r, w1) → 0 ≤ r → bus_write fd [p] w1 = (1, w2) →
  bus_read fd 2 (bus_sleep_ms 10 w2) = ((n, b), w3) →
  AD5339.i2c_read (mkDac p l0) (mkAD5339 a addr fd true db lv w) =
  if n =? 2 then
    match b with
    | b0 :: b1 :: _ =>
        (Ret (mkDac p (mkLevel b0 b1), 1), mkAD5339 a addr fd true db lv w3)
    | _ => (Undef, mkAD5339 a addr fd true db (S lv) w3)
    end
  else (Ret (mkDac p l0, 0), mkAD5339 a addr fd true db (S lv) w3).
Proof.
  intros Hfd Hp Hs Hr Hw Hf.
  unfold AD5339.i2c_read, bind, gets, ret, modify. cbn -[AD5339.i2c_write].
  unfold get_channel, u16, wrapu. cbn -[AD5339.i2c_write].
  rewrite Z.mod_small, (proj2 (Z.ltb_ge 2 p)) by lia.
  rewrite (i2c_write_run [p] w r w1 w2) by done. cbn. unfold AD5339.sys; cbn.
  rewrite Hf. cbn. destruct (n =? 2); [|done]. by destruct b as [|b0 [|b1 b]].
Qed.

Lemma write_dac_run dac0 val ch d : 0 ≤ fd → ready_at fd addr d → 1 ≤ ch ≤ 3 →
  ∃ w', AD5339.write_dac dac0 val ch d = (Ret 1, d <| bus := w' |>) ∧
  ∀ c, 1 ≤ c ≤ 2 →
    reg w' c = if Z.testbit ch (c - 1) then val `mod` 2 ^ 12 else reg (bus d) c.
Proof.
  intros Hfd (Hr & Hd & Ha) Hch.
  destruct (level_roundtrip val false true (dac_level dac0)) as (Hv & H5 & H4).
  destruct (set_value val false true (dac_level dac0)) as [m l] eqn:E. cbn in H5, H4.
  destruct (dac_slave (bus d)) as (r & w1 & Hs & Hr0 & Hsel & Hreg).
  destruct (dac_store w1 ch m l Hsel Hch H5 H4) as (w2 & Hw & _ & Hst).
  exists w2. split.
  - unfold AD5339.write_dac, bind at 1, gets at 1. rewrite Hr. cbn [negb].
    unfold bind, gets. rewrite Hd, Ha, E.
    assert (dac_bytes (set_channel ch (dac0 <| dac_level := mkLevel m l |>)) = [ch; m; l])
      as -> by (rewrite set_channel_small by lia; done).
    rewrite (i2c_write_run [ch; m; l] _ r w1 w2 d) by done. by destruct d.
  - intros c Hc. rewrite (Hst c Hc), Hreg. by rewrite Hv.
Qed.

Lemma read_dac_run dac0 c d : 0 ≤ fd → ready_at fd addr d → 1 ≤ c ≤ 2 →
  ∃ w', AD5339.read_dac dac0 c d = (Ret (reg (bus d) c), d <| bus := w' |>) ∧
  ∀ c', reg w' c' = reg (bus d) c'.
Proof.
  intros Hfd (Hr & Hd & Ha) Hc.
  destruct (dac_slave (bus d)) as (r & w1 & Hs & Hr0 & Hsel & Hreg).
  destruct (dac_point w1 c Hsel Hc) as (w2 & Hw & Hp & [Hreg2 Hsel2]).
  destruct (dac_sleep w2 10) as (Hp3 & [Hreg3 Hsel3]).
  destruct (dac_fetch (bus_sleep_ms 10 w2)) as (m & l & w4 & Hf & Hv & [Hreg4 _]);
    [by auto|by rewrite Hp3, Hp|].
  exists w4. split; [|intros c'; by rewrite Hreg4, Hreg3, Hreg2, Hreg]. destruct d as [a b dv rdy db lv w]; cbn in *; subst dv b rdy.
  unfold AD5339.read_dac, bind, gets, ret; cbn -[AD5339.i2c_read].
  rewrite (proj2 (Z.ltb_ge 2 c)), set_channel_small by lia.
  erewrite i2c_read_run by (done || lia). cbn -[get_value].
  by rewrite Hv, Hp3, Hreg3, Hreg2, Hreg, Hp.
Qed.
End transactions.

(** C33: on a bus with the converter, writing a value to a channel and reading a
    channel back gives the low twelve bits of the value when the written channel
    covers the one read (channel 3 covers both) and the earlier output otherwise;
    both operations succeed and no buffer stays allocated. *)
Theorem dac_roundtrip {W} `{HB : I2C W} (fd addr : Z) (reg : W → Z → Z) (ptr : W → Z)
    (sel : W → Prop) {HD : DacOK W fd addr reg ptr sel} dac0 dac1 val ch c (d : ad5339 W) :
  0 ≤ fd → ready_at fd addr d → 1 ≤ ch ≤ 3 → 1 ≤ c ≤ 2 →
  ∃ d1 d2, AD5339.write_dac dac0 val ch d = (Ret 1, d1) ∧
    AD5339.read_dac dac1 c d1
      = (Ret (if Z.testbit ch (c - 1) then val `mod` 2 ^ 12 else reg (bus d) c), d2) ∧
    live d2 = live d.
Proof.
  intros Hfd Hd Hch Hc.
  destruct (write_dac_run dac0 val ch d Hfd Hd Hch) as (w1 & -> & Hw).
  destruct (read_dac_run dac1 c (d <| bus := w1 |>) Hfd) as (w2 & Hr & _);
    [by destruct d|done|].
  eexists _, _. split; [done|]. rewrite Hr. cbn. rewrite (Hw c Hc). by destruct d.
Qed.

(** When the bus takes the pointer byte but returns fewer than the two bytes,
    [read_dac] reports a failure and the buffer it allocated is never deleted. *)
Lemma short_read_leaks {W} `{HB : I2C W} (fd addr : Z) dac0 c (d : ad5339 W) r w1 w2 n b w3 :
  0 ≤ fd → ready_at fd addr d → 0 ≤ c ≤ 2 →
  bus_slave fd addr (bus d) = (r, w1) → 0 ≤ r → bus_write fd [c] w1 = (1, w2) →
  bus_read fd 2 (bus_sleep_ms 10 w2) = ((n, b), w3) → n ≠ 2 →
  ∃ d', AD5339.read_dac dac0 c d = (Ret (-1), d') ∧ live d' = S (live d).
Proof.
  intros Hfd (Hr & Hd & Ha) Hc Hs Hr0 Hw Hf Hn.
  destruct d as [a b0 dv rdy db lv w]; cbn in *; subst dv b0 rdy.
  unfold AD5339.read_dac, bind, gets, ret; cbn -[AD5339.i2c_read].
  rewrite (proj2 (Z.ltb_ge 2 c)), set_channel_small by lia.
  erewrite i2c_read_run by done. rewrite (proj2 (Z.eqb_neq n 2)) by done. by eexists.
Qed.

(** ** A converter, and one that does not answer reads *)
Record chip := mkChip { out1 : level_t; out2 : level_t; at_ptr : Z }.

Definition chip_load (p : Z) (l : level_t) (w : chip) : chip :=
  mkChip (if Z.testbit p 0 then l else out1 w) (if Z.testbit p 1 then l else out2 w) p.
Definition chip_out (w : chip) (c : Z) : level_t := if c =? 1 then out1 w else out2 w.
Definition chip_reg (w : chip) (c : Z) : Z := get_value (chip_out w c).

Definition chip_bus (answers : bool) : I2C chip := {|
  bus_open _ w := (3, w);
  bus_funcs _ w := (0, w);
  bus_slave _ _ w := (0, w);
  bus_write _ b w :=
    match b with
    | [p; m; l] =>
        (3, if Z.testbit m 5 && negb (Z.testbit m 4) then chip_load p (mkLevel m l) w else w)
    | [p] => (1, mkChip (out1 w) (out2 w) p)
    | _ => (-1, w)
    end;
  bus_read _ _ w :=
    let l := chip_out w (at_ptr w) in
    (if answers then (2, [msb l; lsb l]) else (-1, []), w);
  bus_close _ w := w;
  bus_sleep_ms _ w := w;
|}.

#[export] Instance chip_ok : @DacOK chip (chip_bus true) 3 0xD chip_reg at_ptr (λ _, True).
Proof.
  split.
  - intros w. by exists 0, w.
  - intros w p m l _ _ H5 H4. cbn -[Z.testbit]. rewrite H5, H4.
    eexists. split; [done|]. split; [done|].
    intros c Hc. unfold chip_reg, chip_out, chip_load. cbn [out1 out2].
    assert (c = 1 ∨ c = 2) as [-> | ->] by lia.
    + change (1 - 1) with 0. by destruct (Z.testbit p 0).
    + change (2 - 1) with 1. by destruct (Z.testbit p 1).
  - intros w p _ _. by eexists.
  - intros w n. by split.
  - intros w _ _. eexists _, _, _. split; [done|]. split; [|done].
    unfold chip_reg. by destruct (chip_out w (at_ptr w)).
Qed.

Definition chip0 : chip := mkChip (mkLevel 0 7) (mkLevel 0 9) 0.
Definition dac_on_chip : ad5339 chip := mkAD5339 8 0xD 3 true true 0 chip0.

Lemma dac_roundtrip_witness :
  ∃ d1 d2, @AD5339.write_dac chip (chip_bus true) (mkDac 0 (mkLevel 0 0)) 0x5123 1 dac_on_chip
      = (Ret 1, d1) ∧
    @AD5339.read_dac chip (chip_bus true) (mkDac 0 (mkLevel 0 0)) 1 d1 = (Ret 0x123, d2) ∧
    live d2 = 0%nat.
Proof.
  apply (dac_roundtrip (HB:=chip_bus true) 3 0xD chip_reg at_ptr (λ _, True) (HD:=chip_ok)
    _ _ 0x5123 1 1 dac_on_chip); [done|by split|done|done].
Defined.

Lemma short_read_leaks_witness :
  ∃ d', @AD5339.read_dac chip (chip_bus false) (mkDac 0 (mkLevel 0 0)) 2 dac_on_chip
      = (Ret (-1), d') ∧ live d' = 1%nat.
Proof.
  eapply (short_read_leaks (HB:=chip_bus false) 3 0xD _ 2 dac_on_chip 0);
    [done|by split|done|reflexivity|done|reflexivity|reflexivity|done].
Defined.
