(* ===== verification/TestAD5339.v ===== *)
(** * i2c_deprecated/test_AD5339.cpp: the sweep of the converter

    The program writes every value to both channels and reads it back, until a signal
    stops it.  A signal is taken at the evaluations of the loop condition, the only
    place where its effect shows; [signals] tells for each evaluation whether one has
    arrived since the last. *)
From S2P Require Import Prelude CppStd AD5339.

(** Why the program ends: the message it prints last. *)
Inductive sweep_end :=
  | NotReady
  | WriteFailed (val ch : Z)
  | ReadBackError (val ch rdbck : Z)
  | Stopped.

Module TestAD5339.
Section program.
Context {W : Type} {HB : I2C W}.
(** The contents of the uninitialised local [dac] of the driver. *)
Variable dac0 : dac_t.

Definition is_ready : M (ad5339 W) bool := gets m_is_ready.
Definition set_debug (debug : bool) : M (ad5339 W) unit :=
  modify (λ d, d <| m_debug := debug |>).

Definition sleep_ms (n : Z) : M (ad5339 W) unit := AD5339.sys (λ w, (tt, bus_sleep_ms n w)).

(** The body of the inner loop: [Some] is a [return]. *)
Definition check_channel (val ch : Z) : M (ad5339 W) (option sweep_end) :=
  r <- AD5339.write_dac dac0 val ch ;;
  if r =? 0 then ret (Some (WriteFailed val ch))
  else
    sleep_ms 10 ;;
    rdbck <- AD5339.read_dac dac0 ch ;;
    if negb (rdbck =? val) then ret (Some (ReadBackError val ch rdbck))
    else sleep_ms 10 ;; ret None.

(** The inner loop, over the channels 1 and 2. *)
Definition check_channels (val : Z) : M (ad5339 W) (option sweep_end) :=
  r1 <- check_channel val 1 ;;
  match r1 with
  | Some e => ret (Some e)
  | None => check_channel val 2
  end.

(** The loop over the values below 0xFFF, with [n] of them left. *)
Fixpoint sweep (n : nat) (val : Z) : M (ad5339 W) (option sweep_end) :=
  match n with
  | O => ret None
  | S n' =>
    set_debug (val <? 3) ;;
    r <- check_channels val ;;
    match r with
    | Some e => ret (Some e)
    | None => sweep n' (u16 (val + 1))
    end
  end.

Definition signal_handler (run : bool) : bool := false.

Fixpoint main_loop (signals : list bool) (run : bool) : M (ad5339 W) sweep_end :=
  match signals with
  | [] => spin
  | s :: signals' =>
    let run := if s then signal_handler run else run in
    if negb run then ret Stopped
    else
      r <- sweep (Z.to_nat 0xFFF) 0 ;;
      match r with
      | Some e => ret e
      | None => main_loop signals' run
      end
  end.

(** [main], to the destructor of [dev]. *)
Definition main (signals : list bool) : M (ad5339 W) sweep_end :=
  AD5339.construct ;;
  r <- is_ready ;;
  e <- (if negb r then ret NotReady else main_loop signals true) ;;
  AD5339.destroy ;;
  ret e.
End program.
End TestAD5339.

Section sweep_facts.
Context {W : Type} `{HB : I2C W} {fd addr : Z} {reg : W → Z → Z} {ptr : W → Z}
  {sel : W → Prop} {HD : DacOK W fd addr reg ptr sel}.
Hypothesis Hfd : 0 ≤ fd.

(** The device after the channels [cs] have been set to [val]. *)
Definition at_value (val : Z) (cs : list Z) (d0 d : ad5339 W) : Prop :=
  ready_at fd addr d ∧ live d = live d0 ∧
  ∀ c, 1 ≤ c ≤ 2 → reg (bus d) c = if bool_decide (c ∈ cs) then val else reg (bus d0) c.

Lemma sleep_run n (d : ad5339 W) : TestAD5339.sleep_ms n d = (Ret tt, d <| bus := bus_sleep_ms n (bus d) |>).
Proof. done. Qed.

Lemma ready_bus w (d : ad5339 W) : ready_at fd addr d → ready_at fd addr (d <| bus := w |>).
Proof. by destruct d. Qed.

Lemma check_channel_run dac0 val ch (d : ad5339 W) : ready_at fd addr d → 0 ≤ val < 2 ^ 12 → 1 ≤ ch ≤ 2 →
  ∃ d', TestAD5339.check_channel dac0 val ch d = (Ret None, d') ∧ at_value val [ch] d d'.
Proof.
  intros Hd Hv Hch. unfold TestAD5339.check_channel, bind.
  destruct (write_dac_run dac0 val ch d Hfd Hd) as (w1 & -> & Hw); [lia|].
  cbn [Z.eqb]. rewrite sleep_run.
  destruct (dac_sleep w1 10) as [_ [Hs1 _]].
  destruct (read_dac_run dac0 ch (d <| bus := bus_sleep_ms 10 w1 |>) Hfd)
    as (w2 & Hr & Hr2); [by apply ready_bus|done|].
  change (d <| bus := w1 |> <| bus := bus_sleep_ms 10 (bus (d <| bus := w1 |>)) |>)
    with (d <| bus := bus_sleep_ms 10 w1 |>).
  rewrite Hr. change (bus (d <| bus := ?w |>)) with w in *. rewrite Hs1, (Hw ch Hch).
  assert (Z.testbit ch (ch - 1) = true) as -> by
    (assert (ch = 1 ∨ ch = 2) as [-> | ->] by lia; done).
  rewrite Z.mod_small, Z.eqb_refl by done. cbn [negb]. rewrite sleep_run.
  eexists. split; [done|]. destruct (dac_sleep w2 10) as [_ [Hs2 _]].
  split; [by destruct d|]. split; [by destruct d|]. intros c Hc.
  change (bus _) with (bus_sleep_ms 10 w2) at 1. rewrite Hs2, Hr2, Hs1, (Hw c Hc).
  assert (Z.testbit ch (c - 1) = bool_decide (c ∈ [ch])) as ->; [|by rewrite Z.mod_small].
  assert (c = 1 ∨ c = 2) as [-> | ->] by lia; assert (ch = 1 ∨ ch = 2) as [-> | ->] by lia; done.
Qed.

(** Both channels put out [val] and no buffer has been lost. *)
Definition both_at (val : Z) (d0 d : ad5339 W) : Prop :=
  ready_at fd addr d ∧ live d = live d0 ∧ ∀ c, 1 ≤ c ≤ 2 → reg (bus d) c = val.

Lemma check_channels_run dac0 val (d : ad5339 W) : ready_at fd addr d → 0 ≤ val < 2 ^ 12 →
  ∃ d', TestAD5339.check_channels dac0 val d = (Ret None, d') ∧ both_at val d d'.
Proof.
  intros Hd Hv. unfold TestAD5339.check_channels, bind.
  destruct (check_channel_run dac0 val 1 d Hd Hv) as (d1 & -> & Hd1 & Hl1 & Hr1); [lia|].
  destruct (check_channel_run dac0 val 2 d1 Hd1 Hv) as (d2 & -> & Hd2 & Hl2 & Hr2); [lia|].
  exists d2. split; [done|]. split; [done|]. split; [congruence|]. intros c Hc.
  rewrite (Hr2 c Hc), (Hr1 c Hc).
  by assert (c = 1 ∨ c = 2) as [-> | ->] by lia.
Qed.

Lemma sweep_run dac0 n val (d : ad5339 W) : ready_at fd addr d → 0 ≤ val →
  val + Z.of_nat n < 2 ^ 12 →
  ∃ d', TestAD5339.sweep dac0 (S n) val d = (Ret None, d') ∧ both_at (val + Z.of_nat n) d d'.
Proof.
  revert val d. induction n as [|n IH]; intros val d Hd H0 Hv.
  all: cbn [TestAD5339.sweep]; unfold bind at 1 2, TestAD5339.set_debug at 1, modify.
  all: destruct (check_channels_run dac0 val (d <| m_debug := val <? 3 |>))
    as (d1 & -> & Hd1 & Hl1 & Hr1); [by destruct d|lia|].
  all: change (live (d <| m_debug := val <? 3 |>)) with (live d) in Hl1.
  - exists d1. rewrite Z.add_0_r. done.
  - unfold u16, wrapu. rewrite Z.mod_small by lia.
    destruct (IH (val + 1) d1 Hd1) as (d2 & Hs & Hd2 & Hl2 & Hr2); [lia..|].
    exists d2. split; [exact Hs|]. split; [done|]. split; [congruence|].
    intros c Hc. rewrite (Hr2 c Hc). lia.
Qed.

Lemma full_sweep_run dac0 (d : ad5339 W) : ready_at fd addr d →
  ∃ d', TestAD5339.sweep dac0 (Z.to_nat 0xFFF) 0 d = (Ret None, d') ∧ both_at 0xFFE d d'.
Proof.
  intros Hd. destruct (sweep_run dac0 (Z.to_nat 0xFFE) 0 d Hd) as (d' & H1 & H2); [done..|].
  rewrite Z2Nat.id in H2 by done. exists d'. split; [|exact H2].
  replace (Z.to_nat 0xFFF) with (S (Z.to_nat 0xFFE)) by lia. exact H1.
Qed.

(** The loop makes a sweep for each evaluation before the signal. *)
Lemma main_loop_run dac0 n rest (d : ad5339 W) : ready_at fd addr d →
  ∃ d', TestAD5339.main_loop dac0 (repeat false (S n) ++ true :: rest) true d =
      (Ret Stopped, d') ∧ both_at 0xFFE d d'.
Proof.
  revert d. induction n as [|n IH]; intros d Hd.
  all: change (TestAD5339.main_loop dac0 (repeat false (S ?k) ++ true :: rest) true) with
    (r <- TestAD5339.sweep dac0 (Z.to_nat 0xFFF) 0 ;;
     match r with
     | Some e => ret e
     | None => TestAD5339.main_loop dac0 (repeat false k ++ true :: rest) true
     end); unfold bind.
  all: destruct (full_sweep_run dac0 d Hd) as (d1 & -> & Hd1 & Hl1 & Hr1).
  - by exists d1.
  - destruct (IH d1 Hd1) as (d2 & -> & Hd2 & Hl2 & Hb2). exists d2.
    split; [done|]. split; [done|]. split; [congruence|done].
Qed.
End sweep_facts.

(** C34: on a bus with the converter the test program never reports an error: after any
    number of complete sweeps it stops at the signal, with the descriptor closed and
    no buffer left.  Both channels then put out 0xFFE; the largest value, 0xFFF, is
    never tried. *)
Theorem sweep_never_fails {W} `{HB : I2C W} (fd : Z) (reg : W → Z → Z) (ptr : W → Z)
    (sel : W → Prop) {HD : DacOK W fd 0xD reg ptr sel} dac0 (n : nat) (rest : list bool)
    (w w0 : W) :
  bus_open (str "/dev/i2c-8") w = (fd, w0) → 0 ≤ fd →
  ∃ d w', TestAD5339.main dac0 (repeat false (S n) ++ true :: rest) (AD5339.init 8 0xD w) =
      (Ret Stopped, d) ∧
    bus d = bus_close fd w' ∧ live d = 0%nat ∧ ∀ c, 1 ≤ c ≤ 2 → reg w' c = 0xFFE.
Proof.
  intros Ho Hfd. unfold TestAD5339.main, AD5339.construct, bind, gets, AD5339.sys, modify.
  change (str "/dev/i2c-8") with (str "/dev/i2c-" ++ show 8) in Ho.
  cbn -[TestAD5339.main_loop bus_open repeat str app show]. rewrite Ho. cbn -[TestAD5339.main_loop repeat].
  rewrite (proj2 (Z.ltb_ge fd 0)) by done. cbn -[TestAD5339.main_loop repeat].
  destruct (bus_funcs fd w0) as [x w1]. cbn -[TestAD5339.main_loop repeat].
  match goal with |- context [TestAD5339.main_loop dac0 _ true ?d0] =>
    destruct (main_loop_run Hfd dac0 n rest d0) as (d' & -> & (Hrd & Hdv & _) & Hl & Hr);
      [by split|] end.
  unfold AD5339.destroy, bind, gets, AD5339.sys. rewrite Hrd, Hdv. cbn.
  exists (d' <| bus := bus_close fd (bus d') |>), (bus d'). split; [done|].
  split; [done|]. split; [by destruct d'|done].
Qed.

Lemma sweep_never_fails_witness :
  ∃ d w', @TestAD5339.main chip (chip_bus true) (mkDac 0 (mkLevel 0 0)) [false; false; true]
      (AD5339.init 8 0xD chip0) = (Ret Stopped, d) ∧
    bus d = @bus_close chip (chip_bus true) 3 w' ∧ live d = 0%nat ∧
    ∀ c, 1 ≤ c ≤ 2 → chip_reg w' c = 0xFFE.
Proof.
  apply (sweep_never_fails (HB:=chip_bus true) 3 chip_reg at_ptr (λ _, True) (HD:=chip_ok)
    _ 1 [] chip0 chip0); [reflexivity|lia].
Defined.

(** A converter that does not answer reads is reported at the first value. *)
Example mute_converter_reported :
  (@TestAD5339.main chip (chip_bus false) (mkDac 0 (mkLevel 0 0)) [false; true]
     (AD5339.init 8 0xD chip0)).1 = Ret (ReadBackError 0 1 (-1)).
Proof. vm_compute. reflexivity. Qed.
