(* ===== verification/ControlServer.v ===== *)
(** * src/control_server.cpp: the reply socket

    The program answers every request on a ZeroMQ reply socket with the same text,
    until a call on the socket throws.  The socket is a parameter; [ZmqOK] states the
    alternation of requests and replies that the library documents for this type of
    socket. *)
From S2P Require Import Prelude CppStd.

(** [None] and [false] are exceptions of the library. *)
Class Zmq (W : Type) := {
  zmq_bind : bytes → W → bool * W;
  zmq_recv : W → option bytes * W;
  zmq_send : bytes → W → bool * W;
  zmq_sleep_ms : Z → W → W;
  (** the request that waits for its reply, and those answered, with the replies *)
  zmq_pending : W → option bytes;
  zmq_served : W → list (bytes * bytes);
}.

Class ZmqOK (W : Type) `{Zmq W} : Prop := {
  zmq_bind_ok a w : zmq_pending (zmq_bind a w).2 = zmq_pending w ∧
    zmq_served (zmq_bind a w).2 = zmq_served w;
  zmq_recv_some w r w' : zmq_pending w = None → zmq_recv w = (Some r, w') →
    zmq_pending w' = Some r ∧ zmq_served w' = zmq_served w;
  zmq_recv_none w w' : zmq_recv w = (None, w') → zmq_served w' = zmq_served w;
  zmq_send_ok w m r w' : zmq_pending w = Some r → zmq_send m w = (true, w') →
    zmq_pending w' = None ∧ zmq_served w' = zmq_served w ++ [(r, m)];
  zmq_send_failed w m w' : zmq_send m w = (false, w') → zmq_served w' = zmq_served w;
  zmq_sleep_ok n w : zmq_pending (zmq_sleep_ms n w) = zmq_pending w ∧
    zmq_served (zmq_sleep_ms n w) = zmq_served w;
}.

(** The exception of the library, [zmq::error_t]. *)
Definition zmq_error : exn := runtime_error "zmq::error_t".

Module ControlServer.
Section server.
Context {W : Type} {HZ : Zmq W}.

(** One round of the loop. *)
Definition round : M W unit := λ w,
  match zmq_recv w with
  | (None, w1) => (Throw zmq_error, w1)
  | (Some request, w1) =>
    let w2 := zmq_sleep_ms 10 w1 in
    match zmq_send (str "hello world") w2 with
    | (true, w3) => (Ret tt, w3)
    | (false, w3) => (Throw zmq_error, w3)
    end
  end.

(** [while (true)], for [n] rounds. *)
Fixpoint serve (n : nat) : M W unit :=
  match n with
  | O => spin
  | S n' => round ;; serve n'
  end.

Definition main (n : nat) : M W unit := λ w,
  match zmq_bind (str "tcp://*:5555") w with
  | (false, w1) => (Throw zmq_error, w1)
  | (true, w1) => serve n w1
  end.
End server.
End ControlServer.

(** Every request that was answered got the text as its reply. *)
Definition greeted {W} `{Zmq W} (w : W) : Prop :=
  Forall (λ p, p.2 = str "hello world") (zmq_served w).

Section server_facts.
Context {W : Type} {HZ : Zmq W} {HOK : ZmqOK W}.

Lemma round_spec w : zmq_pending w = None → greeted w →
  match ControlServer.round w with
  | (Ret _, w') => zmq_pending w' = None ∧ greeted w' ∧
      length (zmq_served w') = S (length (zmq_served w))
  | (Throw e, w') => e = zmq_error ∧ greeted w'
  | _ => False
  end.
Proof.
  intros Hp Hg. unfold ControlServer.round, greeted in *.
  destruct (zmq_recv w) as [[r|] w1] eqn:Er.
  - destruct (zmq_recv_some w r w1 Hp Er) as [Hp1 Hs1].
    destruct (zmq_sleep_ok 10 w1) as [Hp2 Hs2].
    destruct (zmq_send (str "hello world") (zmq_sleep_ms 10 w1)) as [[] w3] eqn:Es.
    + rewrite Hp1 in Hp2. destruct (zmq_send_ok _ _ r w3 Hp2 Es) as [Hp3 Hs3].
      rewrite Hs3, Hs2, Hs1. split; [done|]. split; [|rewrite length_app; simpl; lia].
      apply Forall_app. split; [done|]. by repeat constructor.
    + split; [done|]. by rewrite (zmq_send_failed _ _ _ Es), Hs2, Hs1.
  - split; [done|]. by rewrite (zmq_recv_none _ _ Er).
Qed.

(** The server never returns: in [n] rounds it has answered [n] requests, or the
    socket has thrown; every answered request got one reply. *)
Lemma server_answers n w : zmq_pending w = None → zmq_served w = [] →
  match ControlServer.main n w with
  | (Spin, w') => greeted w' ∧ length (zmq_served w') = n
  | (Throw e, w') => e = zmq_error ∧ greeted w'
  | _ => False
  end.
Proof.
  intros Hp Hs. unfold ControlServer.main.
  destruct (zmq_bind_ok (str "tcp://*:5555") w) as [Hp1 Hs1].
  destruct (zmq_bind _ w) as [[] w1]; simpl in *; [|unfold greeted; by rewrite Hs1, Hs].
  assert (∀ w, zmq_pending w = None → greeted w →
    match ControlServer.serve n w with
    | (Spin, w') => greeted w' ∧ length (zmq_served w') = (length (zmq_served w) + n)%nat
    | (Throw e, w') => e = zmq_error ∧ greeted w'
    | _ => False
    end) as H.
  { clear -HOK. induction n as [|n IH]; intros w Hp Hg; simpl; [split; [done|lia]|].
    pose proof (round_spec w Hp Hg) as Hr. unfold bind.
    destruct (ControlServer.round w) as [[] w1]; try done. destruct Hr as (Hp1 & Hg1 & Hl).
    specialize (IH w1 Hp1 Hg1). destruct (ControlServer.serve n w1) as [[] w2]; try done.
    destruct IH as [? ->]. split; [done|lia]. }
  rewrite Hp in Hp1. rewrite Hs in Hs1.
  assert (greeted w1) as Hg by (unfold greeted; by rewrite Hs1).
  specialize (H w1 Hp1 Hg). rewrite Hs1 in H. exact H.
Qed.
End server_facts.

(** A socket with a list of requests. *)
Record inbox := mkInbox { i_requests : list bytes; i_pending : option bytes;
                          i_served : list (bytes * bytes) }.
#[export] Instance inbox_zmq : Zmq inbox := {|
  zmq_bind _ w := (true, w);
  zmq_recv w :=
    match i_pending w, i_requests w with
    | None, r :: rest => (Some r, mkInbox rest (Some r) (i_served w))
    | _, _ => (None, w)
    end;
  zmq_send m w :=
    match i_pending w with
    | Some r => (true, mkInbox (i_requests w) None (i_served w ++ [(r, m)]))
    | None => (false, w)
    end;
  zmq_sleep_ms _ w := w;
  zmq_pending := i_pending;
  zmq_served := i_served;
|}.
#[export] Instance inbox_ok : ZmqOK inbox.
Proof.
  split; intros; simpl in *; repeat case_match; simplify_eq; done.
Qed.

Example inbox_answered :
  (ControlServer.main 3 (mkInbox [str "a"; str "b"] None [])).1 = Throw zmq_error ∧
  zmq_served (ControlServer.main 3 (mkInbox [str "a"; str "b"] None [])).2 =
    [(str "a", str "hello world"); (str "b", str "hello world")].
Proof. vm_compute. split; reflexivity. Qed.
