(* ===== verification/GpioMon.v ===== *)
(** * examples/gpiomon.cpp: the monitor of the motor registers

    The program maps two register blocks and prints four of their registers every 10 ms
    until a signal stops it.  The class [gpio_dev] is declared in headers that are not
    part of the repository: its operations are parameters, and nothing is assumed of
    them.  The arguments of [printf] are evaluated in an order the compiler chooses, the
    parameter [order].  Signals are taken at the evaluations of the loop condition. *)
From S2P Require Import Prelude CppStd.

Definition GPIO_DMA_BASE_ADDR : Z := 0xa0010000.
Definition GPIO_DMA_HIGH_ADDR : Z := 0xa001FFFF.
Definition GPIO_MOTOR_BASE_ADDR : Z := 0xa0020000.
Definition GPIO_MOTOR_HIGH_ADDR : Z := 0xa002FFFF.
Definition GPIO_MON_BASE_ADDR : Z := 0xa0030000.
Definition GPIO_MON_HIGH_ADDR : Z := 0xa003FFFF.

Definition SIGINT : Z := 2.
Definition SIGTERM : Z := 15.

(** [gpio_dev]: its objects [D] and everything else [W], time included. *)
Class GpioDev (W D : Type) := {
  gpio_construct : Z → Z → bool → W → D * W;
  gpio_is_ready : D → W → bool;
  gpio_read_register : D → Z → W → Z * W;
  gpio_unmap_device : D → W → W;
  gpio_destroy : D → W → W;
  gpio_sleep_ms : Z → W → W;
}.

Record monitor (W : Type) := mkMonitor {
  m_out : list bytes;
  m_stop : bool;
  m_world : W;
}.
Arguments mkMonitor {W}.
Arguments m_out {W}.
Arguments m_stop {W}.
Arguments m_world {W}.
#[export] Instance eta_monitor W : Eta (monitor W) := λ m,
  mkMonitor (m_out m) (m_stop m) (m_world m).

Module GpioMon.
Section program.
Context {W D : Type} `{GpioDev W D}.

Definition hw {A} (f : W → A * W) : M (monitor W) A := λ m,
  let '(a, w) := f (m_world m) in (Ret a, m <| m_world := w |>).
Definition hw_ (f : W → W) : M (monitor W) unit := modify (λ m, m <| m_world := f (m_world m) |>).
Definition printf (line : bytes) : M (monitor W) unit :=
  modify (λ m, m <| m_out := m_out m ++ [line] |>).

Definition interrupt_handler (a : Z) : M (monitor W) unit :=
  printf (str "Received a signal [" ++ show a ++ str "]") ;;
  (if a =? SIGINT then printf (str "Signal " ++ show a ++ str " is SIGINT")
   else if a =? SIGTERM then printf (str "Signal " ++ show a ++ str " is SIGTERM")
   else printf (str "Unknown signal " ++ show a)) ;;
  printf (str "Stopping the run...") ;;
  modify (λ m, m <| m_stop := true |>).

(** The signals delivered since the last evaluation of the loop condition. *)
Fixpoint deliver (sigs : list Z) : M (monitor W) unit :=
  match sigs with
  | [] => ret tt
  | a :: sigs' => interrupt_handler a ;; deliver sigs'
  end.

(** The clock in microseconds, from its nanoseconds since the epoch. *)
Definition get_posix_clock_time_usec (ns : Z) : Z := wrapu 64 (Z.quot ns 1000).

(** The four arguments of [printf]. *)
Definition argument (motor mon : D) (k : nat) : W → Z * W :=
  match k with
  | O => gpio_read_register motor 0
  | S O => gpio_read_register motor 1
  | S (S O) => gpio_read_register mon 0
  | _ => gpio_read_register mon 1
  end.

(** The arguments evaluated in the order [ks], each into its place. *)
Fixpoint arguments (motor mon : D) (ks : list nat) (vals : list Z) : M (monitor W) (list Z) :=
  match ks with
  | [] => ret vals
  | k :: ks' => v <- hw (argument motor mon k) ;; arguments motor mon ks' (<[k := v]> vals)
  end.

Definition position_line (vals : list Z) : bytes :=
  str "--> POS 0 : [" ++ show (u32 (nth 0 vals 0)) ++
  str "] POS 1 : [" ++ show (u32 (nth 1 vals 0)) ++ str "]" ++ [TAB; TAB] ++
  str " REG0 [" ++ show (u32 (nth 2 vals 0)) ++
  str "] REG1 [" ++ show (u32 (nth 3 vals 0)) ++ str "]".

Fixpoint main_loop (order : list nat) (motor mon : D) (signals : list (list Z)) :
    M (monitor W) unit :=
  match signals with
  | [] => spin
  | sigs :: signals' =>
    deliver sigs ;;
    stop <- gets m_stop ;;
    if stop : bool then ret tt
    else
      hw_ (gpio_sleep_ms 10) ;;
      vals <- arguments motor mon order [0; 0; 0; 0] ;;
      printf (position_line vals) ;;
      main_loop order motor mon signals'
  end.

(** [main]; the objects are destroyed on every return, the monitor first. *)
Definition main (order : list nat) (signals : list (list Z)) : M (monitor W) Z :=
  printf (str "Initiating GPIO probing...") ;;
  printf (str "Signals prepared") ;;
  motor <- hw (gpio_construct GPIO_MOTOR_BASE_ADDR GPIO_MOTOR_HIGH_ADDR true) ;;
  ready <- gets (λ m, gpio_is_ready motor (m_world m)) ;;
  r <- (if negb ready then
          printf (str "--> Failed to map the device. Doing nothing") ;; ret 0
        else
          mon <- hw (gpio_construct GPIO_MON_BASE_ADDR GPIO_MON_HIGH_ADDR true) ;;
          mon_ready <- gets (λ m, gpio_is_ready mon (m_world m)) ;;
          r <- (if negb mon_ready then
                  printf (str "--> Failed to map the monitor device. Doing nothing") ;; ret 0
                else
                  main_loop order motor mon signals ;;
                  printf (str "Terminating monitor...") ;;
                  hw_ (gpio_unmap_device motor) ;;
                  hw_ (gpio_unmap_device mon) ;;
                  ret 0) ;;
          hw_ (gpio_destroy mon) ;; ret r) ;;
  hw_ (gpio_destroy motor) ;; ret r.
End program.
End GpioMon.

(** The three register blocks have 64 KiB each and do not overlap. *)
Lemma blocks_disjoint :
  GPIO_DMA_HIGH_ADDR + 1 - GPIO_DMA_BASE_ADDR = 2 ^ 16 ∧
  GPIO_MOTOR_HIGH_ADDR + 1 - GPIO_MOTOR_BASE_ADDR = 2 ^ 16 ∧
  GPIO_MON_HIGH_ADDR + 1 - GPIO_MON_BASE_ADDR = 2 ^ 16 ∧
  GPIO_DMA_HIGH_ADDR < GPIO_MOTOR_BASE_ADDR ∧ GPIO_MOTOR_HIGH_ADDR < GPIO_MON_BASE_ADDR.
Proof. by vm_compute. Qed.

(** ** What a run does to the hardware *)
Section runs.
Context {W D : Type} `{GpioDev W D}.
Implicit Types (w : W) (d motor mon : D) (m : monitor W) (order : list nat).

(** The values of the arguments and the world after them. *)
Fixpoint read_all motor mon order (vals : list Z) w : list Z * W :=
  match order with
  | [] => (vals, w)
  | k :: ks =>
    let '(v, w) := GpioMon.argument motor mon k w in read_all motor mon ks (<[k := v]> vals) w
  end.

(** One iteration: the line printed and the world after it. *)
Definition round motor mon order w : bytes * W :=
  let '(vals, w) := read_all motor mon order [0; 0; 0; 0] (gpio_sleep_ms 10 w) in
  (GpioMon.position_line vals, w).

Fixpoint rounds motor mon order (n : nat) w : list bytes * W :=
  match n with
  | O => ([], w)
  | S n => let '(line, w) := round motor mon order w in
           let '(lines, w) := rounds motor mon order n w in (line :: lines, w)
  end.

Lemma arguments_run motor mon order vals m :
  GpioMon.arguments motor mon order vals m =
  (Ret (read_all motor mon order vals (m_world m)).1,
   m <| m_world := (read_all motor mon order vals (m_world m)).2 |>).
Proof.
  revert vals m. induction order as [|k ks IH]; intros vals m; simpl; [by destruct m|].
  unfold bind, GpioMon.hw. destruct (GpioMon.argument _ _ _ _) as [v w].
  rewrite IH. by destruct m.
Qed.

(** Every signal stops the program, the first one included that is neither SIGINT nor
    SIGTERM. *)
Lemma deliver_run sigs m : ∃ lines, GpioMon.deliver sigs m =
  (Ret tt, mkMonitor (m_out m ++ lines) (m_stop m || negb (bool_decide (sigs = []))) (m_world m)).
Proof.
  revert m. induction sigs as [|a sigs IH]; intros m.
  - exists []. rewrite orb_false_r, app_nil_r. by destruct m.
  - simpl. unfold bind at 1. destruct (GpioMon.interrupt_handler a m) as [o m'] eqn:E.
    assert (∃ l, (o, m') = (Ret tt, mkMonitor (m_out m ++ l) true (m_world m))) as [l [= -> ->]].
    { rewrite <- E. unfold GpioMon.interrupt_handler, GpioMon.printf, bind, modify, upd.
      destruct (a =? SIGINT); [|destruct (a =? SIGTERM)]; simpl; eexists;
        rewrite <- !app_assoc; done. }
    destruct (IH (mkMonitor (m_out m ++ l) true (m_world m))) as [l' ->].
    exists (l ++ l'). simpl. by rewrite app_assoc, orb_true_r.
Qed.

Lemma main_loop_quiet motor mon order n signals m : m_stop m = false →
  GpioMon.main_loop order motor mon (repeat [] n ++ signals) m =
  GpioMon.main_loop order motor mon signals
    (mkMonitor (m_out m ++ (rounds motor mon order n (m_world m)).1) false
       (rounds motor mon order n (m_world m)).2).
Proof.
  revert m. induction n as [|n IH]; intros m Hm; simpl.
  { rewrite app_nil_r. destruct m. simpl in Hm. by subst. }
  unfold bind at 1. simpl. unfold bind at 1, gets. rewrite Hm.
  unfold bind, GpioMon.hw_, modify. rewrite arguments_run. cbn [fst snd].
  unfold GpioMon.printf, modify, round, upd. cbn [m_world m_out m_stop].
  destruct (read_all _ _ _ _ _) as [vals w]. cbn [fst snd].
  rewrite IH by done. cbn [m_world m_out m_stop].
  destruct (rounds motor mon order n w) as [lines w']. cbn [fst snd].
  by rewrite <- app_assoc.
Qed.

(** The loop runs until the first evaluation of its condition that finds a signal. *)
Lemma monitor_loop_run motor mon order n sigs rest m : m_stop m = false → sigs ≠ [] →
  ∃ lines, GpioMon.main_loop order motor mon (repeat [] n ++ sigs :: rest) m =
    (Ret tt, mkMonitor (m_out m ++ (rounds motor mon order n (m_world m)).1 ++ lines) true
               (rounds motor mon order n (m_world m)).2).
Proof.
  intros Hm Hs. rewrite main_loop_quiet by done. simpl. unfold bind at 1.
  destruct (deliver_run sigs (mkMonitor (m_out m ++ (rounds motor mon order n (m_world m)).1)
    false (rounds motor mon order n (m_world m)).2)) as [l ->].
  exists l. rewrite bool_decide_eq_false_2 by done. unfold bind, gets. simpl.
  by rewrite app_assoc.
Qed.
End runs.

(** With both blocks mapped, the monitor prints one line for every 10 ms in which no
    signal arrives, and at the first signal, whichever it is, unmaps both blocks and
    returns 0; without a signal it goes on.  If a block is not ready it returns 0 with
    nothing read, and then only the destructors run: a mapped motor block is not unmapped
    when the monitor block fails.  All this for every order of evaluation of the
    registers. *)
Lemma monitor_until_signal `{GpioDev W D} (order : list nat) (n : nat) (sigs : list Z)
    (rest : list (list Z)) (m : monitor W) :
  m_stop m = false → sigs ≠ [] →
  let '(motor, w1) := gpio_construct GPIO_MOTOR_BASE_ADDR GPIO_MOTOR_HIGH_ADDR true (m_world m) in
  let '(mon, w2) := gpio_construct GPIO_MON_BASE_ADDR GPIO_MON_HIGH_ADDR true w1 in
  let '(lines, w3) := rounds motor mon order n w2 in
  ∃ m', GpioMon.main order (repeat [] n ++ sigs :: rest) m = (Ret 0, m') ∧
    if negb (gpio_is_ready motor w1) then m_world m' = gpio_destroy motor w1
    else if negb (gpio_is_ready mon w2) then
      m_world m' = gpio_destroy motor (gpio_destroy mon w2)
    else
      m_world m' = gpio_destroy motor (gpio_destroy mon
                     (gpio_unmap_device mon (gpio_unmap_device motor w3))) ∧
      (∃ before after, m_out m' = before ++ lines ++ after) ∧
      (GpioMon.main order (repeat [] n) m).1 = Spin.
Proof.
  intros Hm Hs. unfold GpioMon.main, bind, GpioMon.printf, GpioMon.hw, GpioMon.hw_, modify, gets.
  unfold upd. cbn [m_world m_out m_stop eta_monitor].
  destruct (gpio_construct _ _ _ (m_world m)) as [motor w1].
  destruct (gpio_construct _ _ _ w1) as [mon w2] eqn:E2.
  destruct (rounds motor mon order n w2) as [lines w3] eqn:E3.
  cbn [m_world m_out m_stop]. destruct (gpio_is_ready motor w1); cbn [negb].
  2:{ eexists. split; [reflexivity|done]. }
  cbn [m_world m_out m_stop]. rewrite E2. cbn [m_world m_out m_stop].
  destruct (gpio_is_ready mon w2); cbn [negb].
  2:{ eexists. split; [reflexivity|done]. }
  match goal with |- context [GpioMon.main_loop _ _ _ (_ ++ _ :: _) ?m0] =>
    destruct (monitor_loop_run motor mon order n sigs rest m0 Hm Hs) as [l ->] end.
  cbn [m_world m_out m_stop]. rewrite E3. eexists. split; [reflexivity|].
  cbn [m_world m_out m_stop fst snd]. split; [done|]. split.
  - eexists ((m_out m ++ [_]) ++ [_]), (l ++ [_]).
    rewrite (app_assoc lines l [_]). apply app_assoc_reverse.
  - rewrite <- (app_nil_r (repeat [] n)), main_loop_quiet by done. done.
Qed.

(** A block of registers that count the reads, for the witness. *)
#[local] Instance counting : GpioDev (Z * list Z) Z := {|
  gpio_construct base _ _ w := (base, w);
  gpio_is_ready _ _ := true;
  gpio_read_register d r w := (w.1, (w.1 + 1, w.2));
  gpio_unmap_device d w := (w.1, w.2 ++ [d]);
  gpio_destroy _ w := w;
  gpio_sleep_ms _ w := w;
|}.

Lemma monitor_until_signal_witness :
  ∃ m', GpioMon.main [3; 2; 1; 0]%nat [[]; []; [SIGTERM]] (mkMonitor [] false (7, [])) =
    (Ret 0, m') ∧ m_world m' = (15, [GPIO_MOTOR_BASE_ADDR; GPIO_MON_BASE_ADDR]).
Proof.
  destruct (monitor_until_signal [3; 2; 1; 0]%nat 2 [SIGTERM] [] (mkMonitor [] false (7, []))
              eq_refl ltac:(done)) as (m' & E & Hw & _).
  exists m'. split; [exact E|]. rewrite Hw. vm_compute. reflexivity.
Defined.
